(** * IMPROVER cube manipulation utilities: a shallow embedding

    The Python sources [improver/utilities/cube_manipulation.py] and
    [improver/utilities/copy_metadata.py] are embedded as Rocq functions over
    a small model of the labelled-array container (an iris [Cube]).

    - numbers are exact rationals [Q]; a payload cell is a rational or the
      not-a-number marker; floating-point rounding is the engine's [cast];
    - an n-dimensional array is its shape and its values in row-major order;
    - a Python exception is the [Raise] branch of [result];
    - a dictionary is a [gmap], a Python set a [gset]. *)

From Stdlib Require Import QArith Qabs Lqa.
From stdpp Require Import gmap strings list fin_maps pretty.

Local Open Scope string_scope.
Local Open Scope list_scope.

(** ** Errors and results *)

Inductive error : Type :=
| ValueError (msg : string)
| RuntimeError (msg : string)
| KeyError (key : string)
| IndexError
| AttributeError
| CoordinateNotFoundError (name : string)
| MergeError
| DuplicateDataError
| ZeroDivisionError
| NotModelled.

Inductive result (A : Type) : Type :=
| Ok (a : A)
| Raise (e : error).
Arguments Ok {A} a.
Arguments Raise {A} e.

(** Sequencing: the first exception raised is the outcome.  The notation
    [x ← m; k] is stdpp's. *)
Global Instance result_bind : MBind result := fun A B k m =>
  match m with
  | Ok a => k a
  | Raise e => Raise e
  end.

(** [for x in l: acc = f acc x], stopping at the first exception. *)
Fixpoint fold_result {A S : Type} (f : S -> A -> result S) (l : list A) (s : S)
  : result S :=
  match l with
  | [] => Ok s
  | x :: l' => s' ← f s x; fold_result f l' s'
  end.

(** [[f x for x in l]], stopping at the first exception. *)
Fixpoint map_result {A B : Type} (f : A -> result B) (l : list A) : result (list B) :=
  match l with
  | [] => Ok []
  | x :: l' => y ← f x; ys ← map_result f l'; Ok (y :: ys)
  end.

(** ** Numbers, element types and arrays *)

Inductive dtype : Type := Int32 | Int64 | Float32 | Float64.

Definition dtype_eqb (a b : dtype) : bool :=
  match a, b with
  | Int32, Int32 | Int64, Int64 | Float32, Float32 | Float64, Float64 => true
  | _, _ => false
  end.

(** [d in types] *)
Definition dtype_in (d : dtype) (types : list dtype) : bool :=
  existsb (dtype_eqb d) types.

(** A payload cell: a number or [np.nan]. *)
Inductive num : Type :=
| Fin (q : Q)
| NaN.

(** Elementwise [==]: not-a-number equals nothing, itself included. *)
Definition num_eqb (a b : num) : bool :=
  match a, b with
  | Fin x, Fin y => Qeq_bool x y
  | _, _ => false
  end.

(** A (possibly masked) numpy array: [mask = None] is [nomask]. *)
Record ndarray : Type := mk_ndarray {
  dtype_of : dtype;
  shape : list nat;
  flat : list num;
  mask : option (list bool)
}.

(** A one-dimensional coordinate array of values of type [A]. *)
Record arr (A : Type) : Type := mk_arr {
  adtype : dtype;
  avals : list A
}.
Arguments mk_arr {A} adtype avals.
Arguments adtype {A} a.
Arguments avals {A} a.

Fixpoint list_eqb {A : Type} (eqb : A -> A -> bool) (l1 l2 : list A) : bool :=
  match l1, l2 with
  | [], [] => true
  | x :: l1', y :: l2' => eqb x y && list_eqb eqb l1' l2'
  | _, _ => false
  end.

Definition option_eqb {A : Type} (eqb : A -> A -> bool) (o1 o2 : option A)
  : bool :=
  match o1, o2 with
  | None, None => true
  | Some x, Some y => eqb x y
  | _, _ => false
  end.

Definition pair_eqb (p q : Q * Q) : bool :=
  Qeq_bool (fst p) (fst q) && Qeq_bool (snd p) (snd q).

Definition string_eqb (a b : string) : bool := bool_decide (a = b).

(** ** Coordinates *)

Record Coord : Type := mk_Coord {
  coord_name : string;
  coord_var_name : option string;
  coord_units : string;
  circular : bool;
  points : arr Q;
  bounds : option (arr (Q * Q))
}.

Definition set_points (co : Coord) (p : arr Q) : Coord :=
  mk_Coord (coord_name co) (coord_var_name co) (coord_units co) (circular co)
    p (bounds co).

Definition set_bounds (co : Coord) (b : option (arr (Q * Q))) : Coord :=
  mk_Coord (coord_name co) (coord_var_name co) (coord_units co) (circular co)
    (points co) b.

Definition set_coord_var_name (co : Coord) (v : option string) : Coord :=
  mk_Coord (coord_name co) v (coord_units co) (circular co)
    (points co) (bounds co).

(** [len(coord.points)] *)
Definition n_points (co : Coord) : nat := length (avals (points co)).

(** Equality of coordinate metadata (what [cube.coords(coord)] matches on). *)
Definition coord_metadata_eqb (a b : Coord) : bool :=
  string_eqb (coord_name a) (coord_name b)
  && bool_decide (coord_var_name a = coord_var_name b)
  && string_eqb (coord_units a) (coord_units b)
  && Bool.eqb (circular a) (circular b).

(** [a == b] on coordinates: metadata, points and bounds. *)
Definition coord_eqb (a b : Coord) : bool :=
  coord_metadata_eqb a b
  && list_eqb Qeq_bool (avals (points a)) (avals (points b))
  && option_eqb (fun x y => list_eqb pair_eqb (avals x) (avals y))
       (bounds a) (bounds b).

(** [coord in coords] *)
Definition coord_in (co : Coord) (l : list Coord) : bool :=
  existsb (coord_eqb co) l.

(** [coords.index(coord)] *)
Fixpoint coord_index (co : Coord) (l : list Coord) : option nat :=
  match l with
  | [] => None
  | x :: l' => if coord_eqb x co then Some 0%nat
               else option_map S (coord_index co l')
  end.

(** A cell of a coordinate: a point with its bound, as a constraint sees it. *)
Record Cell : Type := mk_Cell {
  point : Q;
  bound : option (Q * Q)
}.

Definition Qmin (a b : Q) : Q := if Qle_bool a b then a else b.
Definition Qmax (a b : Q) : Q := if Qle_bool a b then b else a.

(** [coord.cells()] *)
Definition cells (co : Coord) : list Cell :=
  match bounds co with
  | None => map (fun p => mk_Cell p None) (avals (points co))
  | Some b =>
      map (fun pb => mk_Cell (fst pb) (Some (snd pb)))
        (combine (avals (points co)) (avals b))
  end.

(** [x <= cell]: a bounded cell is compared through the top of its bound. *)
Definition num_le_cell (x : Q) (c : Cell) : bool :=
  match bound c with
  | None => Qle_bool x (point c)
  | Some (a, b) => Qle_bool x (Qmax a b)
  end.

(** [cell <= x]: a bounded cell is compared through the bottom of its bound. *)
Definition cell_le_num (c : Cell) (x : Q) : bool :=
  match bound c with
  | None => Qle_bool (point c) x
  | Some (a, b) => Qle_bool (Qmin a b) x
  end.

(** [cell == x]: a bounded cell matches every number its bound contains. *)
Definition cell_eq_num (c : Cell) (x : Q) : bool :=
  match bound c with
  | None => Qeq_bool (point c) x
  | Some (a, b) => Qle_bool (Qmin a b) x && Qle_bool x (Qmax a b)
  end.

(** ** Cubes *)

Record CellMethod : Type := mk_CellMethod {
  cm_method : string;
  cm_coord_names : list string
}.

Global Instance CellMethod_eq_dec : EqDecision CellMethod.
Proof. solve_decision. Defined.

Global Instance CellMethod_countable : Countable CellMethod.
Proof.
  apply (inj_countable' (fun c => (cm_method c, cm_coord_names c))
           (fun p => mk_CellMethod (fst p) (snd p))).
  intros []; reflexivity.
Defined.

(** An attribute value: a string or a number. *)
Inductive attr : Type :=
| AStr (s : string)
| ANum (q : Q).

(** [np.all(a == b)] on attribute values. *)
Definition attr_eqb (a b : attr) : bool :=
  match a, b with
  | AStr s, AStr t => string_eqb s t
  | ANum x, ANum y => Qeq_bool x y
  | _, _ => false
  end.

Record Cube : Type := mk_Cube {
  name : string;
  var_name : option string;
  units : string;
  attributes : gmap string attr;
  cell_methods : list CellMethod;
  dim_coords_and_dims : list (Coord * nat);
  aux_coords_and_dims : list (Coord * list nat);
  data : ndarray
}.

Definition set_name (c : Cube) (n : string) (v : option string) : Cube :=
  mk_Cube n v (units c) (attributes c) (cell_methods c)
    (dim_coords_and_dims c) (aux_coords_and_dims c) (data c).

Definition set_var_name (c : Cube) (v : option string) : Cube :=
  mk_Cube (name c) v (units c) (attributes c) (cell_methods c)
    (dim_coords_and_dims c) (aux_coords_and_dims c) (data c).

Definition set_units (c : Cube) (u : string) : Cube :=
  mk_Cube (name c) (var_name c) u (attributes c) (cell_methods c)
    (dim_coords_and_dims c) (aux_coords_and_dims c) (data c).

Definition set_attributes (c : Cube) (a : gmap string attr) : Cube :=
  mk_Cube (name c) (var_name c) (units c) a (cell_methods c)
    (dim_coords_and_dims c) (aux_coords_and_dims c) (data c).

Definition set_cell_methods (c : Cube) (m : list CellMethod) : Cube :=
  mk_Cube (name c) (var_name c) (units c) (attributes c) m
    (dim_coords_and_dims c) (aux_coords_and_dims c) (data c).

Definition set_coords (c : Cube) (d : list (Coord * nat))
  (a : list (Coord * list nat)) : Cube :=
  mk_Cube (name c) (var_name c) (units c) (attributes c) (cell_methods c)
    d a (data c).

Definition set_data (c : Cube) (d : ndarray) : Cube :=
  mk_Cube (name c) (var_name c) (units c) (attributes c) (cell_methods c)
    (dim_coords_and_dims c) (aux_coords_and_dims c) d.

(** [cube.rename(n)]: renaming always clears [var_name]. *)
Definition rename (c : Cube) (n : string) : Cube := set_name c n None.

Fixpoint insert_by {A : Type} (le : A -> A -> bool) (x : A) (l : list A)
  : list A :=
  match l with
  | [] => [x]
  | y :: l' => if le x y then x :: l else y :: insert_by le x l'
  end.

(** A stable insertion sort. *)
Definition sort_by {A : Type} (le : A -> A -> bool) (l : list A) : list A :=
  foldr (insert_by le) [] l.

(** Every coordinate with the axes it spans: the dimension coordinates in
    axis order, then the auxiliary ones in the order the cube lists them. *)
Definition coords_and_dims (c : Cube) : list (Coord * list nat) :=
  map (fun cd => (fst cd, [snd cd]))
    (sort_by (fun a b => Nat.leb (snd a) (snd b)) (dim_coords_and_dims c))
  ++ aux_coords_and_dims c.

(** [cube.dim_coords] *)
Definition dim_coords (c : Cube) : list Coord :=
  map fst (sort_by (fun a b => Nat.leb (snd a) (snd b)) (dim_coords_and_dims c)).

(** [cube.aux_coords] *)
Definition aux_coords (c : Cube) : list Coord :=
  map fst (aux_coords_and_dims c).

(** [cube.coords()] *)
Definition coords (c : Cube) : list Coord := dim_coords c ++ aux_coords c.

Definition named (n : string) (co : Coord) : bool :=
  string_eqb (coord_name co) n.

(** [cube.coords(name)] *)
Definition coords_named (c : Cube) (n : string) : list Coord :=
  List.filter (named n) (coords c).

(** [cube.coords(name, dim_coords=True)] *)
Definition dim_coords_named (c : Cube) (n : string) : list Coord :=
  List.filter (named n) (dim_coords c).

(** [cube.coords(coord)]: the coordinates with the metadata of [coord]. *)
Definition coords_like (c : Cube) (co : Coord) : list Coord :=
  List.filter (coord_metadata_eqb co) (coords c).

(** [cube.coord(name)]: exactly one match, or [CoordinateNotFoundError]. *)
Definition coord (c : Cube) (n : string) : result Coord :=
  match coords_named c n with
  | [co] => Ok co
  | _ => Raise (CoordinateNotFoundError n)
  end.

(** [cube.coord_dims(name)] *)
Definition coord_dims (c : Cube) (n : string) : result (list nat) :=
  match List.filter (fun cd => named n (fst cd)) (coords_and_dims c) with
  | [cd] => Ok (snd cd)
  | _ => Raise (CoordinateNotFoundError n)
  end.

(** [cube.coord_dims(coord)] for a coordinate object of the cube. *)
Definition coord_dims_of (c : Cube) (co : Coord) : list nat :=
  match List.filter (fun cd => coord_eqb (fst cd) co) (coords_and_dims c) with
  | cd :: _ => snd cd
  | [] => []
  end.

(** In-place change of the one coordinate called [n]:
    [cube.coord(n).field = ...]. *)
Definition update_coord (c : Cube) (n : string) (f : Coord -> Coord)
  : result Cube :=
  _ ← coord c n;
  Ok (set_coords c
        (map (fun cd => if named n (fst cd) then (f (fst cd), snd cd) else cd)
           (dim_coords_and_dims c))
        (map (fun cd => if named n (fst cd) then (f (fst cd), snd cd) else cd)
           (aux_coords_and_dims c))).

(** [cube.remove_coord(name)] *)
Definition remove_coord (c : Cube) (n : string) : result Cube :=
  _ ← coord c n;
  Ok (set_coords c
        (List.filter (fun cd => negb (named n (fst cd))) (dim_coords_and_dims c))
        (List.filter (fun cd => negb (named n (fst cd))) (aux_coords_and_dims c))).

(** [get_dim_coord_names] *)
Definition get_dim_coord_names (c : Cube) : list string :=
  map coord_name (dim_coords c).

(** [get_coord_names] *)
Definition get_coord_names (c : Cube) : list string :=
  map coord_name (coords c).

(** ** Indexing *)

Definition prod (l : list nat) : nat := foldr Nat.mul 1%nat l.

(** The values of a row-major array of shape [s] whose index along axis [k]
    is one of [idxs], in the row-major order of the selection. *)
Definition select_axis {A : Type} (s : list nat) (k : nat) (idxs : list nat)
  (l : list A) : list A :=
  let n := nth k s 0%nat in
  let inner := prod (drop (S k) s) in
  flat_map
    (fun o => flat_map (fun i => take inner (drop ((o * n + i) * inner) l)) idxs)
    (seq 0 (prod (take k s))).

(** A key for one axis: an integer (the axis disappears) or a list of
    positions (the axis stays). *)
Inductive index : Type :=
| At (i : nat)
| Pick (idxs : list nat).

Definition positions (sel : index) : list nat :=
  match sel with
  | At i => [i]
  | Pick l => l
  end.

Definition drops_axis (sel : index) : bool :=
  match sel with
  | At _ => true
  | Pick _ => false
  end.

Definition index_shape (s : list nat) (k : nat) (sel : index) : list nat :=
  match sel with
  | At _ => take k s ++ drop (S k) s
  | Pick l => take k s ++ length l :: drop (S k) s
  end.

(** [a[..., sel, ...]] with [sel] on axis [k]. *)
Definition index_array (a : ndarray) (k : nat) (sel : index) : result ndarray :=
  match shape a !! k with
  | None => Raise IndexError
  | Some n =>
      if forallb (fun i => Nat.ltb i n) (positions sel) then
        Ok (mk_ndarray (dtype_of a) (index_shape (shape a) k sel)
              (select_axis (shape a) k (positions sel) (flat a))
              (option_map (select_axis (shape a) k (positions sel)) (mask a)))
      else Raise IndexError
  end.

(** The points (and bounds) of a coordinate at the given positions. *)
Definition pick_points (co : Coord) (idxs : list nat) : Coord :=
  mk_Coord (coord_name co) (coord_var_name co) (coord_units co) (circular co)
    (mk_arr (adtype (points co))
       (omap (fun i => avals (points co) !! i) idxs))
    (option_map
       (fun b => mk_arr (adtype b) (omap (fun i => avals b !! i) idxs))
       (bounds co)).

(** The axis numbers of what remains once axis [k] is gone. *)
Definition shift_down (k d : nat) : nat := if Nat.ltb k d then pred d else d.

(** Indexing a cube along axis [k].  With an integer key the axis disappears
    and the coordinates it carried become scalar coordinates; auxiliary
    coordinates spanning several axes are outside the model. *)
Definition index_axis (c : Cube) (k : nat) (sel : index) : result Cube :=
  d ← index_array (data c) k sel;
  aux ← map_result
          (fun cd : Coord * list nat =>
             if existsb (Nat.eqb k) (snd cd) then
               match snd cd with
               | [_] => Ok (pick_points (fst cd) (positions sel),
                            if drops_axis sel then [] else snd cd)
               | _ => Raise NotModelled
               end
             else if drops_axis sel then Ok (fst cd, map (shift_down k) (snd cd))
             else Ok cd)
          (aux_coords_and_dims c);
  Ok (set_data
        (set_coords c
           (flat_map
              (fun cd : Coord * nat =>
                 if Nat.eqb (snd cd) k then
                   if drops_axis sel then []
                   else [(pick_points (fst cd) (positions sel), snd cd)]
                 else if drops_axis sel then [(fst cd, shift_down k (snd cd))]
                 else [cd])
              (dim_coords_and_dims c))
           (aux ++
            (if drops_axis sel then
               flat_map
                 (fun cd : Coord * nat =>
                    if Nat.eqb (snd cd) k
                    then [(pick_points (fst cd) (positions sel), [])]
                    else [])
                 (dim_coords_and_dims c)
             else [])))
        d).

(** Positions of the [true] entries, counted from [i]. *)
Fixpoint where_true (r : list bool) (i : nat) : list nat :=
  match r with
  | [] => []
  | b :: r' => (if b then [i] else []) ++ where_true r' (S i)
  end.

(** [cube.extract(iris.Constraint(n=p))]: the part of the cube whose cells of
    coordinate [n] satisfy [p]; [None] when no cell does.  The engine looks
    first whether every cell matches and then takes the whole axis, so the
    cube comes back as it is, a one-point axis included; otherwise one
    matching cell is taken with an integer key and several with their
    positions. *)
Definition extract (c : Cube) (n : string) (p : Cell -> bool)
  : result (option Cube) :=
  match coord c n with
  | Raise _ => Ok None
  | Ok co =>
      ds ← coord_dims c n;
      let r := map p (cells co) in
      match ds with
      | [] => Ok (if forallb id r then Some c else None)
      | [k] =>
          match where_true r 0 with
          | [] => Ok None
          | [i] =>
              if forallb id r then Ok (Some c)
              else sub ← index_axis c k (At i); Ok (Some sub)
          | hits =>
              if forallb id r then Ok (Some c)
              else sub ← index_axis c k (Pick hits); Ok (Some sub)
          end
      | _ => Raise NotModelled
      end
  end.

(** [cube.slices_over(n)]: one cube per point of coordinate [n]; the cube
    itself when the coordinate is scalar. *)
Definition slices_over (c : Cube) (n : string) : result (list Cube) :=
  co ← coord c n;
  ds ← coord_dims c n;
  match ds with
  | [] => Ok [c]
  | [k] => map_result (fun i => index_axis c k (At i)) (seq 0 (n_points co))
  | _ => Raise NotModelled
  end.

(** [a.astype(d)]: every value rounded by [cast d]. *)
Definition num_cast (cast : dtype -> Q -> Q) (d : dtype) (x : num) : num :=
  match x with
  | Fin q => Fin (cast d q)
  | NaN => NaN
  end.

Definition astype (cast : dtype -> Q -> Q) (d : dtype) (a : ndarray) : ndarray :=
  mk_ndarray d (shape a) (map (num_cast cast d) (flat a)) (mask a).

Definition points_astype (cast : dtype -> Q -> Q) (d : dtype) (p : arr Q)
  : arr Q :=
  mk_arr d (map (cast d) (avals p)).

Definition bounds_astype (cast : dtype -> Q -> Q) (d : dtype) (b : arr (Q * Q))
  : arr (Q * Q) :=
  mk_arr d (map (fun lu => (cast d (fst lu), cast d (snd lu))) (avals b)).

(** ** Python renderings used in messages *)

(** The double-quote character. *)
Definition dquote : string := String (Ascii.ascii_of_nat 34) EmptyString.

(** [str(l)] for a list of strings: [['a', 'b']]. *)
Definition py_repr_list (l : list string) : string :=
  "[" +:+ String.concat ", " (map (fun s => "'" +:+ s +:+ "'") l) +:+ "]".

(** [needle in haystack] on strings. *)
Definition is_substring (needle haystack : string) : bool :=
  match String.index 0 needle haystack with
  | Some _ => true
  | None => false
  end.

(** ** The array engine's merge

    [CubeList.merge_cube] belongs to the array engine (iris), not to the
    sources.  Its contract, as the data model and the merge steps of the
    specification give it: the cubes must agree in name, unit, attributes,
    cell methods, element type, dimensionality and every coordinate but the
    values of scalar coordinates; the scalar coordinate whose value differs
    becomes a new leading dimension with its points in ascending order, the
    payloads stacked in that order.  Several differing scalar coordinates are
    outside this model. *)

Global Instance Q_eq_dec : EqDecision Q.
Proof. solve_decision. Defined.

Global Instance attr_eq_dec : EqDecision attr.
Proof. solve_decision. Defined.

Definition is_scalar (cd : Coord * list nat) : bool :=
  match snd cd with
  | [] => true
  | _ => false
  end.

(** The scalar coordinates of a cube. *)
Definition scalar_coords (c : Cube) : list Coord :=
  map fst (List.filter is_scalar (aux_coords_and_dims c)).

(** The scalar coordinate called [n], if any. *)
Definition scalar_coord (c : Cube) (n : string) : option Coord :=
  List.find (named n) (scalar_coords c).

(** What two scalar coordinates must share to be merged into one axis. *)
Definition scalar_defn_eqb (a b : Coord) : bool :=
  coord_metadata_eqb a b
  && dtype_eqb (adtype (points a)) (adtype (points b))
  && Nat.eqb (n_points a) (n_points b)
  && Bool.eqb (bool_decide (bounds a = None)) (bool_decide (bounds b = None)).

Definition dim_coord_eqb (a b : Coord * nat) : bool :=
  coord_eqb (fst a) (fst b) && Nat.eqb (snd a) (snd b).

(** Each auxiliary coordinate of [c0] has its counterpart, by name, on [c]. *)
Definition aux_match (c0 c : Cube) : bool :=
  Nat.eqb (length (aux_coords_and_dims c0)) (length (aux_coords_and_dims c))
  && forallb
       (fun cd : Coord * list nat =>
          match List.find (fun cd' : Coord * list nat =>
                             named (coord_name (fst cd)) (fst cd'))
                  (aux_coords_and_dims c) with
          | None => false
          | Some cd' =>
              bool_decide (snd cd = snd cd')
              && (if is_scalar cd then scalar_defn_eqb (fst cd) (fst cd')
                  else coord_eqb (fst cd) (fst cd'))
          end)
       (aux_coords_and_dims c0).

Definition same_signature (c0 c : Cube) : bool :=
  string_eqb (name c0) (name c)
  && bool_decide (var_name c0 = var_name c)
  && string_eqb (units c0) (units c)
  && bool_decide (attributes c0 = attributes c)
  && bool_decide (cell_methods c0 = cell_methods c)
  && dtype_eqb (dtype_of (data c0)) (dtype_of (data c))
  && bool_decide (shape (data c0) = shape (data c))
  && list_eqb dim_coord_eqb
       (sort_by (fun a b => Nat.leb (snd a) (snd b)) (dim_coords_and_dims c0))
       (sort_by (fun a b => Nat.leb (snd a) (snd b)) (dim_coords_and_dims c))
  && aux_match c0 c.

(** The scalar coordinates of [c0] whose value is not the same on every
    cube of [rest]. *)
Definition varying_scalars (c0 : Cube) (rest : list Cube) : list Coord :=
  List.filter
    (fun co =>
       existsb
         (fun c => match scalar_coord c (coord_name co) with
                   | Some co' => negb (coord_eqb co co')
                   | None => false
                   end)
         rest)
    (scalar_coords c0).

(** A cube with the value of its scalar coordinate [n]. *)
Definition keyed (n : string) (c : Cube) : option (Q * Coord * Cube) :=
  co ← scalar_coord c n;
  p ← head (avals (points co));
  Some (p, co, c).

Definition key_le (a b : Q * Coord * Cube) : bool :=
  Qle_bool (fst (fst a)) (fst (fst b)).

Fixpoint distinct_keys (l : list (Q * Coord * Cube)) : bool :=
  match l with
  | [] => true
  | x :: l' =>
      forallb (fun y => negb (Qeq_bool (fst (fst x)) (fst (fst y)))) l'
      && distinct_keys l'
  end.

Definition all_None {A : Type} (l : list (option A)) : bool :=
  forallb (fun o => bool_decide (o = None)) l.

(** The masks of the members put together; [nomask] when no member has one. *)
Definition stack_masks (members : list Cube) : option (list bool) :=
  if all_None (map (fun c => mask (data c)) members) then None
  else Some (flat_map
               (fun c => default (replicate (length (flat (data c))) false)
                           (mask (data c)))
               members).

(** The merged cube: the members, sorted by the scalar coordinate [co0], along
    a new leading axis. *)
Definition stack (c0 : Cube) (co0 : Coord) (sorted : list (Q * Coord * Cube))
  : Cube :=
  let members := map snd sorted in
  let new_coord :=
    mk_Coord (coord_name co0) (coord_var_name co0) (coord_units co0)
      (circular co0)
      (mk_arr (adtype (points co0)) (map (fun m => fst (fst m)) sorted))
      (option_map
         (fun b0 : arr (Q * Q) =>
            mk_arr (adtype b0)
              (flat_map
                 (fun m : Q * Coord * Cube =>
                    default [] (option_map avals (bounds (snd (fst m)))))
                 sorted))
         (bounds co0)) in
  mk_Cube (name c0) (var_name c0) (units c0) (attributes c0) (cell_methods c0)
    ((new_coord, 0%nat)
     :: map (fun cd : Coord * nat => (fst cd, S (snd cd)))
          (dim_coords_and_dims c0))
    (map (fun cd : Coord * list nat => (fst cd, map S (snd cd)))
       (List.filter
          (fun cd => negb (is_scalar cd && named (coord_name co0) (fst cd)))
          (aux_coords_and_dims c0)))
    (mk_ndarray (dtype_of (data c0))
       (length sorted :: shape (data c0))
       (flat_map (fun c => flat (data c)) members)
       (stack_masks members)).

(** Modelled from the spec: [CubeList.merge_cube] of the array engine, which
    the sources call and do not hold.  Cubes that differ in more than the
    value of one scalar coordinate and the payload are not combinable. *)
Definition merge_cube (cubes : list Cube) : result Cube :=
  match cubes with
  | [] => Raise (ValueError "can't merge an empty CubeList")
  | [c] => Ok c
  | c0 :: rest =>
      if negb (forallb (same_signature c0) rest) then Raise MergeError
      else
        match varying_scalars c0 rest with
        | [] => Raise DuplicateDataError
        | [co0] =>
            match mapM (keyed (coord_name co0)) cubes with
            | None => Raise MergeError
            | Some members =>
                if distinct_keys members
                then Ok (stack c0 co0 (sort_by key_le members))
                else Raise NotModelled
            end
        | _ => Raise NotModelled
        end
  end.

(** [iris.util.equalise_attributes]: every cube keeps the attributes that all
    cubes hold with the same value. *)
Definition shared_by (cubes : list Cube) (kv : string * attr) : bool :=
  forallb
    (fun c => match attributes c !! fst kv with
              | Some v => attr_eqb (snd kv) v
              | None => false
              end)
    cubes.

Definition equalise_attributes (cubes : list Cube) : list Cube :=
  map (fun c =>
         set_attributes c
           (filter (fun kv => Is_true (shared_by cubes kv)) (attributes c)))
    cubes.

(** ** cube_manipulation.py *)

(** [strip_var_names]: the variable name goes from every cube and from
    every coordinate but the threshold one. *)
Definition strip_coord_var_name (co : Coord) : Coord :=
  if bool_decide (coord_var_name co = Some "threshold") then co
  else set_coord_var_name co None.

(** The body of the loop over the cubes. *)
Definition strip_cube (cube : Cube) : Cube :=
  set_coords (set_var_name cube None)
    (map (fun cd => (strip_coord_var_name (fst cd), snd cd))
       (dim_coords_and_dims cube))
    (map (fun cd => (strip_coord_var_name (fst cd), snd cd))
       (aux_coords_and_dims cube)).

Definition strip_var_names (cubes : list Cube) : list Cube :=
  map strip_cube cubes.

(** [np.isclose(a, b)] with the default tolerances, on exact numbers. *)
Definition rtol : Q := 1 # 100000.
Definition atol : Q := 1 # 100000000.

Definition isclose (a b : Q) : bool :=
  Qle_bool (Qabs (a - b)) (atol + rtol * Qabs b).

(** [np.abs(np.diff(coord.bounds))]: the width of every bound interval. *)
Definition bounds_widths (b : arr (Q * Q)) : list Q :=
  map (fun lu => Qabs (snd lu - fst lu)) (avals b).

(** The plugin's input: one cube, or a list of cubes. *)
Inductive cubes_arg : Type :=
| ACube (c : Cube)
| ACubeList (l : list Cube).

Module MergeCubes.

(** [self.silent_attributes] *)
Definition silent_attributes : list string :=
  ["history"; "title"; "mosg__grid_version"].

(** [list(set(a) & set(b))] *)
Definition set_intersection (a b : list CellMethod) : list CellMethod :=
  elements ((list_to_set a : gset CellMethod) ∩ list_to_set b).

Definition _equalise_cell_methods (cubelist : list Cube) : result (list Cube) :=
  match cubelist with
  | [] => Raise IndexError
  | c0 :: rest =>
      let cell_methods' :=
        foldl (fun cm cube => set_intersection cm (cell_methods cube))
          (cell_methods c0) rest in
      Ok (map (fun cube => set_cell_methods cube cell_methods') cubelist)
  end.

(** One round of the loop over [["time", "forecast_period"]]. *)
Definition check_one_name (cube : Cube) (n : string) : result unit :=
  match coord cube n with
  | Raise _ => Ok tt
  | Ok co =>
      match bounds co with
      | None => Ok tt
      | Some b =>
          if Nat.eqb (n_points co) 1 then Ok tt
          else
            match bounds_widths b with
            | [] => Raise IndexError
            | reference_range :: _ =>
                if forallb (fun w => isclose w reference_range)
                     (bounds_widths b)
                then Ok tt
                else Raise (ValueError ("Cube with mismatching " +:+ n
                                        +:+ " bounds ranges cannot be blended"))
            end
      end
  end.

Definition _check_time_bounds_ranges (cube : Cube) : result unit :=
  fold_result (fun _ n => check_one_name cube n) ["time"; "forecast_period"] tt.

(** [copy] only decides whether the caller's objects are touched; the
    returned value is the same either way. *)
Definition process (cubes_in : cubes_arg)
  (check_time_bounds_ranges slice_over_realization copy : bool) : result Cube :=
  match cubes_in with
  | ACube c => Ok c
  | ACubeList [c] =>
      _ ← (if check_time_bounds_ranges then _check_time_bounds_ranges c
           else Ok tt);
      Ok c
  | ACubeList cubes =>
      slices ← map_result
                 (fun cube => if slice_over_realization
                              then slices_over cube "realization"
                              else Ok [cube])
                 cubes;
      cubelist ← _equalise_cell_methods
                   (strip_var_names (equalise_attributes (concat slices)));
      merged ← merge_cube cubelist;
      _ ← (if check_time_bounds_ranges then _check_time_bounds_ranges merged
           else Ok tt);
      Ok merged
  end.

End MergeCubes.

(** [get_filtered_attributes] *)
Definition get_filtered_attributes (cube : Cube) (attribute_filter : option string)
  : gmap string attr :=
  match attribute_filter with
  | None => attributes cube
  | Some f => filter (fun kv => Is_true (is_substring f (fst kv))) (attributes cube)
  end.

Definition single_cube_warning : string :=
  "Only a single cube so no differences will be found ".

(** One round of the loop that narrows [common_keys]. *)
Definition narrow_common_keys (reference_attributes : gmap string attr)
  (attribute_filter : option string) (common_keys : gset string) (cube : Cube)
  : gset string :=
  dom (filter
         (fun kv : string * attr =>
            fst kv ∈ common_keys
            ∧ Is_true (match reference_attributes !! fst kv with
                       | Some r => attr_eqb (snd kv) r
                       | None => false
                       end))
         (get_filtered_attributes cube attribute_filter)).

(** [compare_attributes]: the warnings emitted, and the outcome. *)
Definition compare_attributes (cubes : list Cube)
  (attribute_filter : option string)
  : list string * result (list (gmap string attr)) :=
  if Nat.eqb (length cubes) 1 then ([single_cube_warning], Ok [])
  else
    match cubes with
    | [] => ([], Raise IndexError)
    | c0 :: rest =>
        let reference_attributes := get_filtered_attributes c0 attribute_filter in
        let common_keys :=
          foldl (narrow_common_keys reference_attributes attribute_filter)
            (dom reference_attributes) rest in
        ([], Ok (map (fun cube =>
                        filter (fun kv : string * attr => fst kv ∉ common_keys)
                          (get_filtered_attributes cube attribute_filter))
                   cubes))
    end.

(** An entry of the result of [compare_coords]. *)
Record unmatched : Type := mk_unmatched {
  data_dims : option nat;
  aux_dims : option nat;
  unmatched_coord : Coord
}.

(** One round of the loop that narrows [common_coords]. *)
Definition narrow_common_coords (c0 : Cube) (common_coords : list Coord)
  (cube : Cube) : list Coord :=
  List.filter
    (fun co => coord_in co (coords cube)
               && list_eqb coord_eqb (coords_like cube co) (coords_like c0 co))
    common_coords.

(** The entries of one cube. *)
Definition unmatching_of (common_coords : list Coord) (ignored_coords : list string)
  (cube : Cube) : gmap string unmatched :=
  foldl
    (fun (d : gmap string unmatched) co =>
       if negb (coord_in co common_coords)
          && negb (existsb (string_eqb (coord_name co)) ignored_coords)
       then
         let dim_val :=
           if coord_in co (dim_coords cube)
           then coord_index co (dim_coords cube) else None in
         let aux_val :=
           match dim_val with
           | None => head (coord_dims_of cube co)
           | Some _ => None
           end in
         <[coord_name co := mk_unmatched dim_val aux_val co]> d
       else d)
    ∅ (coords cube).

(** [compare_coords]: the warnings emitted, and the outcome. *)
Definition compare_coords (cubes : list Cube) (ignored_coords : option (list string))
  : list string * result (list (gmap string unmatched)) :=
  let ignored_coords := default [] ignored_coords in
  if Nat.eqb (length cubes) 1 then ([single_cube_warning], Ok [])
  else
    match cubes with
    | [] => ([], Raise IndexError)
    | c0 :: rest =>
        let common_coords := foldl (narrow_common_coords c0) (coords c0) rest in
        ([], Ok (map (unmatching_of common_coords ignored_coords) cubes))
    end.

(** [iris.analysis] aggregators. *)
Inductive Aggregator : Type := SUM | MEAN | MEDIAN | STD_DEV | MIN | MAX.

(** The first positional argument of [collapsed]: a name, or a list of names. *)
Inductive coord_arg : Type :=
| OneCoord (n : string)
| CoordList (l : list string).

Definition aggregator_dict : list (string * Aggregator) :=
  [("sum", SUM); ("mean", MEAN); ("median", MEDIAN); ("std_dev", STD_DEV);
   ("min", MIN); ("max", MAX)].

(** [d.get(k)] on a dictionary literal. *)
Definition dict_get {V : Type} (d : list (string * V)) (k : string) : option V :=
  option_map snd (List.find (fun kv => string_eqb (fst kv) k) d).

(** [np.ma.is_masked(a)]: some value is masked. *)
Definition is_masked (a : ndarray) : bool :=
  match mask a with
  | None => false
  | Some m => existsb id m
  end.

Definition is_integer_dtype (d : dtype) : bool :=
  match d with
  | Int32 | Int64 => true
  | Float32 | Float64 => false
  end.

(** [a.data[:] = np.nan]: every underlying value becomes not-a-number, the
    mask stays; a zero-dimensional array cannot be sliced, and an array of
    integers takes no not-a-number. *)
Definition fill_nan (a : ndarray) : result ndarray :=
  match shape a with
  | [] => Raise IndexError
  | _ =>
      if is_integer_dtype (dtype_of a) then
        Raise (ValueError "cannot convert float NaN to integer")
      else
        Ok (mk_ndarray (dtype_of a) (shape a) (map (fun _ => NaN) (flat a))
              (mask a))
  end.

(** Python's builtin [min] and [max] over the points of a coordinate. *)
Definition py_min (l : list Q) : result Q :=
  match l with
  | [] => Raise (ValueError "min() arg is an empty sequence")
  | x :: l' => Ok (foldl Qmin x l')
  end.

Definition py_max (l : list Q) : result Q :=
  match l with
  | [] => Raise (ValueError "max() arg is an empty sequence")
  | x :: l' => Ok (foldl Qmax x l')
  end.

(** [np.min] and [np.max] over a list of equally long arrays; a ragged or an
    empty list is refused. *)
Definition same_lengths {A : Type} (rows : list (list A)) : bool :=
  match rows with
  | [] => true
  | r :: rows' => forallb (fun r' => Nat.eqb (length r') (length r)) rows'
  end.

Definition np_min (rows : list (list Q)) : result Q :=
  if same_lengths rows then
    match concat rows with
    | [] => Raise (ValueError "zero-size array to reduction operation minimum which has no identity")
    | x :: l => Ok (foldl Qmin x l)
    end
  else Raise (ValueError "setting an array element with a sequence.").

Definition np_max (rows : list (list Q)) : result Q :=
  if same_lengths rows then
    match concat rows with
    | [] => Raise (ValueError "zero-size array to reduction operation maximum which has no identity")
    | x :: l => Ok (foldl Qmax x l)
    end
  else Raise (ValueError "setting an array element with a sequence.").

(** The values of a bounds array, row by row: [[lower, upper], ...]. *)
Definition bound_values (b : arr (Q * Q)) : list Q :=
  flat_map (fun lu => [fst lu; snd lu]) (avals b).

(** A Python string used as a condition: the empty string is false. *)
Definition truthy (s : option string) : option string :=
  match s with
  | Some "" => None
  | _ => s
  end.

Section Engine.

(** [improver.metadata.constants]: the declared floating precision and the
    element types counted as floating point. *)
Context (FLOAT_DTYPE : dtype) (FLOAT_TYPES : list dtype).

(** The array engine: rounding a number to an element type, the element type
    of a result that combines two element types, and [Cube.collapsed]. *)
Context (cast : dtype -> Q -> Q).
Context (result_type : dtype -> dtype -> dtype).
Context (iris_collapsed : Cube -> coord_arg -> Aggregator -> result Cube).

(** The body of the loop of [collapsed], on the coordinate found. *)
Definition demote_coord (co : Coord) : Coord :=
  if dtype_in (adtype (points co)) FLOAT_TYPES then
    let co' := set_points co (points_astype cast FLOAT_DTYPE (points co)) in
    match bounds co' with
    | Some b => set_bounds co' (Some (bounds_astype cast FLOAT_DTYPE b))
    | None => co'
    end
  else co.

Definition collapsed_coords (arg0 : coord_arg) : list string :=
  match arg0 with
  | OneCoord n => [n]
  | CoordList l => l
  end.

(** [collapsed] *)
Definition collapsed (cube : Cube) (arg0 : coord_arg) (aggregator : Aggregator)
  : result Cube :=
  let original_methods := cell_methods cube in
  new_cube ← iris_collapsed cube arg0 aggregator;
  let new_cube := set_cell_methods new_cube original_methods in
  let new_cube :=
    if dtype_in (dtype_of (data new_cube)) FLOAT_TYPES
    then set_data new_cube (astype cast FLOAT_DTYPE (data new_cube))
    else new_cube in
  fold_result (fun nc n => update_coord nc n demote_coord)
    (collapsed_coords arg0) new_cube.

(** [collapse_realizations] *)
Definition collapse_realizations (cube : Cube) (method : string) : result Cube :=
  match dict_get aggregator_dict method with
  | None =>
      Raise (ValueError ("method must be one of "
                         +:+ py_repr_list (map fst aggregator_dict)))
  | Some aggregator =>
      returned_cube ← collapsed cube (OneCoord "realization") aggregator;
      returned_cube ← remove_coord returned_cube "realization";
      if string_eqb method "std_dev" then
        co ← coord cube "realization";
        if Nat.eqb (n_points co) 1 && is_masked (data returned_cube) then
          d ← fill_nan (data returned_cube);
          Ok (set_data returned_cube d)
        else Ok returned_cube
      else Ok returned_cube
  end.

(** The element type of an array built from several arrays. *)
Definition common_dtype (l : list dtype) : dtype :=
  match l with
  | [] => Float64
  | d :: l' => foldl result_type d l'
  end.

Definition single_point_message (n : string) (k : nat) : string :=
  "the expand bounds function should only be used on a"
  +:+ "coordinate with a single point. The coordinate " +:+ dquote +:+ n
  +:+ dquote +:+ " has " +:+ pretty k +:+ " points.".

(** The new lower and upper bound, with their element type. *)
Definition new_bounds (cos : list Coord) : result (Q * Q * dtype) :=
  let bounds' := map bounds cos in
  if existsb (fun b => bool_decide (b = None)) bounds' then
    if negb (forallb (fun b => bool_decide (b = None)) bounds') then
      Raise (ValueError "cannot expand bounds for a mixture of bounded / unbounded coordinates")
    else
      let points' := map (fun co => avals (points co)) cos in
      new_low_bound ← np_min points';
      new_top_bound ← np_max points';
      Ok (new_low_bound, new_top_bound,
          common_dtype (map (fun co => adtype (points co)) cos))
  else
    let rows := map (fun b => default [] (option_map bound_values b)) bounds' in
    new_low_bound ← np_min rows;
    new_top_bound ← np_max rows;
    Ok (new_low_bound, new_top_bound,
        common_dtype (map (fun b => default Float64 (option_map adtype b)) bounds')).

(** The coordinate of the result once its bound and point are set. *)
Definition expanded_coord (low top : Q) (d : dtype) (result_coord : Coord) : Coord :=
  let b := mk_arr d [(low, top)] in
  let b := if dtype_in (adtype b) FLOAT_TYPES
           then bounds_astype cast FLOAT_DTYPE b else b in
  let p := mk_arr d [top] in
  let p := if dtype_in (adtype p) FLOAT_TYPES
           then points_astype cast FLOAT_DTYPE p else p in
  set_points (set_bounds result_coord (Some b)) p.

(** The body of the loop of [expand_bounds]. *)
Definition expand_one (cubelist : list Cube) (result_cube : Cube) (n : string)
  : result Cube :=
  rc ← coord result_cube n;
  if negb (Nat.eqb (n_points rc) 1) then
    Raise (ValueError (single_point_message n (n_points rc)))
  else
    cos ← map_result (fun cube => coord cube n) cubelist;
    lt ← new_bounds cos;
    update_coord result_cube n (expanded_coord (fst (fst lt)) (snd (fst lt)) (snd lt)).

(** [expand_bounds] *)
Definition expand_bounds (result_cube : Cube) (cubelist : list Cube)
  (coord_names : list string) : result Cube :=
  fold_result (expand_one cubelist) coord_names result_cube.

Definition no_levels_message : string :=
  "The provided cube doesn't have any vertical levels between the provided bounds.".

(** [maximum_in_height]; [as_cube] of one cube is that cube, and the message
    of the error is given up to the two numbers it ends with. *)
Definition maximum_in_height (cube : Cube) (lower_height_bound upper_height_bound : option Q)
  (new_name : option string) : result Cube :=
  co ← coord cube "height";
  let vertical_levels := avals (points co) in
  lower_height_bound ← match lower_height_bound with
                       | None => py_min vertical_levels
                       | Some l => Ok l
                       end;
  upper_height_bound ← match upper_height_bound with
                       | None => py_max vertical_levels
                       | Some u => Ok u
                       end;
  sub ← extract cube "height"
          (fun height => num_le_cell lower_height_bound height
                         && cell_le_num height upper_height_bound);
  match sub with
  | None => Raise (ValueError no_levels_message)
  | Some cube_subsetted =>
      co' ← coord cube_subsetted "height";
      max_cube ← (if Nat.ltb 1 (n_points co')
                  then iris_collapsed cube_subsetted (OneCoord "height") MAX
                  else Ok cube_subsetted);
      Ok (match truthy new_name with
          | Some n => rename max_cube n
          | None => max_cube
          end)
  end.

(** [np.where(level == maximum, height, out)] on unmasked arrays of one
    shape; masks and broadcasting are outside the model. *)
Fixpoint where_eq (level maximum : list num) (height : Q) (out : list num)
  : list num :=
  match level, maximum, out with
  | l :: level', m :: maximum', o :: out' =>
      (if num_eqb l m then Fin height else o) :: where_eq level' maximum' height out'
  | _, _, _ => []
  end.

Definition np_where_eq (level maximum : ndarray) (height : Q) (hd : dtype)
  (out : ndarray) : result ndarray :=
  if bool_decide (mask level = None) && bool_decide (mask maximum = None)
     && bool_decide (mask out = None)
     && bool_decide (shape level = shape maximum)
     && bool_decide (shape out = shape maximum)
  then Ok (mk_ndarray (result_type hd (dtype_of out)) (shape out)
             (where_eq (flat level) (flat maximum) height (flat out)) None)
  else Raise NotModelled.

(** The body of the loop of [height_of_maximum]. *)
Definition scan_level (cube max_cube height_of_max : Cube) (height : nat)
  : result Cube :=
  level ← index_axis cube 0 (At height);
  co ← coord level "height";
  match avals (points co) with
  | [] => Raise IndexError
  | p :: _ =>
      d ← np_where_eq (data level) (data max_cube) p (adtype (points co))
            (data height_of_max);
      Ok (set_data height_of_max d)
  end.

(** [height_of_maximum] *)
Definition height_of_maximum (cube max_cube : Cube) (find_lowest : bool)
  (new_name : option string) : result Cube :=
  let height_of_max := max_cube in
  co ← coord cube "height";
  let height_range := seq 0 (n_points co) in
  if Nat.eqb (n_points co) 1 then
    Raise (ValueError "More than 1 vertical level is required.")
  else
    let height_points := if find_lowest then height_range else rev height_range in
    height_of_max ← fold_result (scan_level cube max_cube) height_points
                      height_of_max;
    let height_of_max := match truthy new_name with
                         | Some n => rename height_of_max n
                         | None => height_of_max
                         end in
    Ok (set_units height_of_max (coord_units co)).

Definition no_realizations_message (input_coords : list string) : string :=
  "Input cube does not contain realizations. The following dimension "
  +:+ "coordinates were found: " +:+ py_repr_list input_coords.

(** [coord.points = value] with one value: the coordinate must hold one point. *)
Definition set_scalar_point (c : Cube) (n : string) (value : Q) (d : dtype)
  : result Cube :=
  co ← coord c n;
  if Nat.eqb (n_points co) 1
  then update_coord c n (fun co => set_points co (mk_arr d [value]))
  else Raise (ValueError "Require data with shape (1,)").

(** The body of the extraction loop of [manipulate_n_realizations].  A
    constraint that every cell meets extracts the cube object itself, which
    the assignment to [points] then changes in place; the model follows the
    values of the cubes, so it speaks for cubes with two members or more,
    where each extraction is a cube of its own. *)
Definition rebadge (cube : Cube) (d : dtype) (ri : Q * Q) : result Cube :=
  raw ← extract cube "realization" (fun cell => cell_eq_num cell (fst ri));
  match raw with
  | None => Raise AttributeError
  | Some raw_forecast_realization =>
      set_scalar_point raw_forecast_realization "realization" (snd ri) d
  end.

(** [manipulate_n_realizations] *)
Definition manipulate_n_realizations (cube : Cube) (n_realizations : Z)
  : result Cube :=
  match dim_coords_named cube "realization" with
  | [] => Raise (ValueError (no_realizations_message (get_dim_coord_names cube)))
  | _ =>
      co ← coord cube "realization";
      if Z.eqb (Z.of_nat (n_points co)) n_realizations then Ok cube
      else
        let mpoints := avals (points co) in
        realization_list ←
          map_result
            (fun index =>
               if Nat.eqb (length mpoints) 0 then Raise ZeroDivisionError
               else match mpoints !! (index mod length mpoints)%nat with
                    | Some r => Ok r
                    | None => Raise IndexError
                    end)
            (seq 0 (Z.to_nat n_realizations));
        match realization_list with
        | [] => Raise IndexError
        | r0 :: _ =>
            let new_realization_numbers :=
              map (fun i => Qplus r0 (inject_Z (Z.of_nat i)))
                (seq 0 (Z.to_nat n_realizations)) in
            raw_forecast_realizations_extended ←
              map_result
                (rebadge cube (result_type (adtype (points co)) Int64))
                (combine realization_list new_realization_numbers);
            MergeCubes.process (ACubeList raw_forecast_realizations_extended)
              false true true
        end
  end.

End Engine.

(** ** copy_metadata.py

    The plugin changes the cubes it is given in place, so the cubes live in a
    store and the arguments are references into it. *)

Module CopyMetadata.

Definition ref : Type := nat.

(** One positional argument: a cube, or a list of cubes. *)
Inductive arg : Type :=
| OneRef (r : ref)
| RefList (l : list ref).

(** What [process] returns: a bare cube or a list of cubes. *)
Inductive ret : Type :=
| BareCube (r : ref)
| CubeList (l : list ref).

Definition refs_of (v : ret) : list ref :=
  match v with
  | BareCube r => [r]
  | CubeList l => l
  end.

Record plugin : Type := mk_plugin {
  self_attributes : list string;
  self_aux_coord : list string
}.

(** Modelled from the spec: [as_cubelist] of [improver.utilities.common_input_handle]
    is not among the sources; the arguments are arrays or sequences of arrays,
    and the plugin works on the one sequence of all of them, in order. *)
Definition as_cubelist (cubes : list arg) : list ref :=
  flat_map (fun a => match a with
                     | OneRef r => [r]
                     | RefList l => l
                     end) cubes.

(** Modelled from the spec: [amend_attributes] of [improver.metadata.amend] is
    not among the sources; the named attributes are overwritten with the
    values given. *)
Definition amend_attributes (cube : Cube) (new_attributes : list (string * attr))
  : Cube :=
  set_attributes cube
    (foldl (fun m kv => <[fst kv := snd kv]> m) (attributes cube) new_attributes).

(** Reading the object a reference names. *)
Definition deref (h : gmap ref Cube) (r : ref) : result Cube :=
  match h !! r with
  | Some c => Ok c
  | None => Raise NotModelled
  end.

(** [cube.add_aux_coord(coord, data_dims)]: refused when a coordinate with
    this metadata is there already, or when the axes do not fit. *)
Definition add_aux_coord (cube : Cube) (co : Coord) (dims : list nat)
  : result Cube :=
  if negb (bool_decide (coords_like cube co = [])) then
    Raise (ValueError "Duplicate coordinates are not permitted.")
  else
    match dims with
    | [] =>
        if Nat.eqb (n_points co) 1
        then Ok (set_coords cube (dim_coords_and_dims cube)
                   (aux_coords_and_dims cube ++ [(co, [])]))
        else Raise (ValueError "Unequal lengths.")
    | [d] =>
        if bool_decide (shape (data cube) !! d = Some (n_points co))
        then Ok (set_coords cube (dim_coords_and_dims cube)
                   (aux_coords_and_dims cube ++ [(co, [d])]))
        else Raise (ValueError "Unequal lengths.")
    | _ => Raise NotModelled
    end.

(** [{k: template_cube.attributes[k] for k in self.attributes}] *)
Definition template_attributes (self : plugin) (template_cube : Cube)
  : result (list (string * attr)) :=
  map_result
    (fun k => match attributes template_cube !! k with
              | Some v => Ok (k, v)
              | None => Raise (KeyError k)
              end)
    (self_attributes self).

(** The body of the loop over [self.aux_coord]. *)
Definition copy_aux_coord (template cube : ref) (h : gmap ref Cube) (n : string)
  : result (gmap ref Cube) :=
  c ← deref h cube;
  h ← (if negb (bool_decide (coords_named c n = []))
       then c' ← remove_coord c n; Ok (<[cube := c']> h)
       else Ok h);
  template_cube ← deref h template;
  co ← coord template_cube n;
  dims ← coord_dims template_cube n;
  c ← deref h cube;
  c' ← add_aux_coord c co dims;
  Ok (<[cube := c']> h).

(** The body of the loop over the cubes to update. *)
Definition copy_to (self : plugin) (template : ref) (h : gmap ref Cube)
  (cube : ref) : result (gmap ref Cube) :=
  template_cube ← deref h template;
  new_attributes ← template_attributes self template_cube;
  c ← deref h cube;
  let h := <[cube := amend_attributes c new_attributes]> h in
  fold_result (copy_aux_coord template cube) (self_aux_coord self) h.

Definition too_few_message (n : nat) : string :=
  "At least two cubes are required for this operation, got " +:+ pretty n.

(** [process]: the returned value and the store afterwards. *)
Definition process (self : plugin) (h : gmap ref Cube) (cubes : list arg)
  : result (ret * gmap ref Cube) :=
  let cubes_proc := as_cubelist cubes in
  if Nat.ltb (length cubes_proc) 2 then
    Raise (RuntimeError (too_few_message (length cubes_proc)))
  else
    match last cubes_proc with
    | None => Raise IndexError
    | Some template_cube =>
        let cubes_proc := removelast cubes_proc in
        h ← fold_result (copy_to self template_cube) cubes_proc h;
        if Nat.ltb 1 (length cubes_proc) then Ok (CubeList cubes_proc, h)
        else
          match cubes_proc with
          | cube :: _ => Ok (BareCube cube, h)
          | [] => Raise IndexError
          end
    end.

End CopyMetadata.

(** ** Sample cubes *)

Definition f32 (l : list Q) : arr Q := mk_arr Float32 l.

Definition sample_attributes : gmap string attr :=
  <["source" := AStr "IMPROVER"]> ∅.

Definition realization_of (r : Q) : Coord :=
  mk_Coord "realization" None "1" false (mk_arr Int32 [r]) None.

(** A single-member cube without dimensions. *)
Definition member_cube (r : Q) (value : Q) : Cube :=
  mk_Cube "air_temperature" None "K" sample_attributes []
    [] [(realization_of r, [])]
    (mk_ndarray Float32 [] [Fin value] None).

(** A store of three single-member cubes, and a plugin copying one attribute. *)
Definition sample_store : gmap CopyMetadata.ref Cube :=
  <[0%nat := member_cube 0 280]>
    (<[1%nat := member_cube 1 281]> (<[2%nat := member_cube 2 282]> ∅)).

Definition sample_plugin : CopyMetadata.plugin :=
  CopyMetadata.mk_plugin ["source"] [].

(** ** Statements about bound widths *)

(** A coordinate holds at least one point, and one bound interval per point. *)
Definition well_formed_coord (co : Coord) : Prop :=
  (1 ≤ n_points co)%nat
  ∧ ∀ b, bounds co = Some b → length (avals b) = n_points co.

(** The width [w] equals the reference width [w0] within the tolerance. *)
Definition close_to (w0 w : Q) : Prop :=
  (Qabs (w - w0) <= atol + rtol * Qabs w0)%Q.

(** Coordinate [n] is present on the cube with bounds and more than one
    point, and the widths of its bound intervals are not all equal, within
    the tolerance, to the width of the first. *)
Definition mismatching (cube : Cube) (n : string) : Prop :=
  ∃ co b w0,
    coord cube n = Ok co ∧ bounds co = Some b ∧ (1 < n_points co)%nat
    ∧ head (bounds_widths b) = Some w0
    ∧ ¬ Forall (close_to w0) (bounds_widths b).

Definition mismatch_message (n : string) : string :=
  "Cube with mismatching " +:+ n +:+ " bounds ranges cannot be blended".

(** A time coordinate, in seconds, with the given bound intervals. *)
Definition time_coord (pb : list (Q * (Q * Q))) : Coord :=
  mk_Coord "time" None "seconds since 1970-01-01 00:00:00" false
    (mk_arr Int64 (map fst pb)) (Some (mk_arr Int64 (map snd pb))).

Definition accumulation_cube (pb : list (Q * (Q * Q))) : Cube :=
  mk_Cube "lwe_thickness_of_precipitation_amount" None "m" ∅ []
    [(time_coord pb, 0%nat)] []
    (mk_ndarray Float32 [length pb] (map (fun _ => Fin 0) pb) None).

(** A point at the end of its accumulation period [[t0, t1]]. *)
Definition period (t0 t1 : Z) : Q * (Q * Q) :=
  (inject_Z t1, (inject_Z t0, inject_Z t1)).

(** Accumulation periods of one hour each. *)
Definition hourly_cube : Cube :=
  accumulation_cube [period 0 3600; period 3600 7200; period 7200 10800].

(** Accumulation periods of one, three and one hours. *)
Definition mixed_cube : Cube :=
  accumulation_cube [period 0 3600; period 3600 14400; period 14400 18000].

(** What the in-place change of coordinate [n] by [f] does to a coordinate. *)
Definition changed (n : string) (f : Coord → Coord) (co : Coord) : Coord :=
  if named n co then f co else co.

(** ** A stub engine

    Values that are representable exactly are not changed by a cast. *)
Definition exact_cast (d : dtype) (q : Q) : Q := q.

(** numpy's promotion of two element types. *)
Definition np_result_type (a b : dtype) : dtype :=
  match a, b with
  | Float64, _ | _, Float64 => Float64
  | Float32, Float32 => Float32
  | Float32, _ | _, Float32 => Float64
  | Int64, _ | _, Int64 => Int64
  | Int32, Int32 => Int32
  end.

Definition aggregator_name (a : Aggregator) : string :=
  match a with
  | SUM => "sum"
  | MEAN => "mean"
  | MEDIAN => "median"
  | STD_DEV => "standard_deviation"
  | MIN => "minimum"
  | MAX => "maximum"
  end.

(** An engine for cubes of one member along the leading axis.  Collapsing
    takes that member, computes in double precision, gives the collapsed
    coordinate a bound and records a cell method.  The standard deviation of
    the one member is reported as masked, as the engine reports it, when
    [masks] is set. *)
Definition one_member_collapsed (masks : bool) (cube : Cube) (arg0 : coord_arg)
  (aggregator : Aggregator) : result Cube :=
  sub ← index_axis cube 0 (At 0);
  let names := match arg0 with OneCoord n => [n] | CoordList l => l end in
  let widen (cd : Coord * list nat) :=
    if existsb (string_eqb (coord_name (fst cd))) names then
      (mk_Coord (coord_name (fst cd)) (coord_var_name (fst cd))
         (coord_units (fst cd)) (circular (fst cd))
         (mk_arr Float64 (avals (points (fst cd))))
         (Some (mk_arr Float64
                  (map (fun p => (p, p)) (avals (points (fst cd)))))),
       snd cd)
    else cd in
  let is_std := match aggregator with STD_DEV => true | _ => false end in
  Ok (mk_Cube (name sub) (var_name sub) (units sub) (attributes sub)
        (cell_methods sub ++ [mk_CellMethod (aggregator_name aggregator) names])
        (dim_coords_and_dims sub)
        (map widen (aux_coords_and_dims sub))
        (mk_ndarray Float64 (shape (data sub))
           (if is_std then map (fun _ => Fin 0) (flat (data sub))
            else flat (data sub))
           (if is_std && masks
            then Some (map (fun _ => true) (flat (data sub)))
            else None))).

(** One ensemble member on two grid points. *)
Definition one_member_cube : Cube :=
  mk_Cube "air_temperature" None "K" sample_attributes
    [mk_CellMethod "mean" ["time"]]
    [(realization_of 0, 0%nat);
     (mk_Coord "projection_y_coordinate" None "m" false (f32 [0%Q; 2000%Q]) None,
      1%nat)]
    []
    (mk_ndarray Float32 [1%nat; 2%nat] [Fin 280; Fin 281] None).

(** One ensemble member and no other axis. *)
Definition lone_member_cube : Cube :=
  mk_Cube "air_temperature" None "K" sample_attributes
    [mk_CellMethod "mean" ["time"]]
    [(realization_of 0, 0%nat)]
    []
    (mk_ndarray Float32 [1%nat] [Fin 280] None).

(** ** Statements about expanded bounds *)

(** [m] is the least (greatest) of the numbers [l], up to equality of
    rationals. *)
Definition is_minimum (m : Q) (l : list Q) : Prop :=
  (∃ x, In x l ∧ (x == m)%Q) ∧ ∀ x, In x l → (m <= x)%Q.

Definition is_maximum (m : Q) (l : list Q) : Prop :=
  (∃ x, In x l ∧ (x == m)%Q) ∧ ∀ x, In x l → (x <= m)%Q.

(** The coordinates called [n] of the contributing cubes. *)
Definition contributes (cubelist : list Cube) (n : string) (cos : list Coord)
  : Prop :=
  Forall2 (fun cube co => coord cube n = Ok co) cubelist cos.

Definition intervals (co : Coord) : list (Q * Q) :=
  match bounds co with
  | Some b => avals b
  | None => []
  end.

Definition lower_bounds (cos : list Coord) : list Q :=
  flat_map (fun co => map fst (intervals co)) cos.

Definition upper_bounds (cos : list Coord) : list Q :=
  flat_map (fun co => map snd (intervals co)) cos.

Definition all_points (cos : list Coord) : list Q :=
  flat_map (fun co => avals (points co)) cos.

(** Every bound is an interval: its lower end is not above its upper end. *)
Definition ordered_bounds (co : Coord) : Prop :=
  ∀ lu, In lu (intervals co) → (fst lu <= snd lu)%Q.

(** The coordinate holds [k] points, and [k] bounds if it is bounded. *)
Definition holds_points (k : nat) (co : Coord) : Prop :=
  n_points co = k ∧ ∀ b, bounds co = Some b → length (avals b) = k.

(** Two contributors with the bound intervals [[0, 1]] and [[1, 2]], and two
    without bounds at the points [0.5] and [1.5]; the target is a copy of the
    first contributor. *)
Definition bounded_time (p lo hi : Q) : Coord :=
  mk_Coord "time" None "hours" false (mk_arr Float64 [p])
    (Some (mk_arr Float64 [(lo, hi)])).

Definition unbounded_time (p : Q) : Coord :=
  mk_Coord "time" None "hours" false (mk_arr Float64 [p]) None.

Definition scalar_time_cube (t : Coord) : Cube :=
  mk_Cube "air_temperature" None "K" ∅ [] [] [(t, [])]
    (mk_ndarray Float32 [] [Fin 280] None).

(** The rows [np.min] and [np.max] see when every contributor has bounds. *)
Definition bound_rows (cos : list Coord) : list (list Q) :=
  map (fun b => default [] (option_map bound_values b)) (map bounds cos).

(** Every end of every bound interval of the coordinates. *)
Definition all_bound_values (cos : list Coord) : list Q :=
  concat (bound_rows cos).

(** What [expand_bounds] makes of the coordinate called [n]: its bound and
    point as computed from the contributing cubes (the coordinate itself when
    they cannot be computed). *)
Definition expansion (FLOAT_DTYPE : dtype) (FLOAT_TYPES : list dtype)
  (cast : dtype → Q → Q) (result_type : dtype → dtype → dtype)
  (cubelist : list Cube) (n : string) (co : Coord) : Coord :=
  match cos ← map_result (fun cube => coord cube n) cubelist;
        new_bounds result_type cos with
  | Ok lt =>
      expanded_coord FLOAT_DTYPE FLOAT_TYPES cast (fst (fst lt)) (snd (fst lt))
        (snd lt) co
  | Raise _ => co
  end.

(** ** Statements about a dimension coordinate *)

(** The coordinate called [n] is [co], the dimension coordinate of axis [k],
    with one point per position of that axis; auxiliary coordinates on that
    axis span no other axis. *)
Definition dim_coord_on (c : Cube) (n : string) (co : Coord) (k : nat) : Prop :=
  coord c n = Ok co
  ∧ In (co, k) (dim_coords_and_dims c)
  ∧ shape (data c) !! k = Some (n_points co)
  ∧ ∀ cd, In cd (aux_coords_and_dims c) → In k (snd cd) → snd cd = [k].

(** [lower <= h <= upper] *)
Definition in_range (lower upper h : Q) : bool :=
  Qle_bool lower h && Qle_bool h upper.

(** The lower and the upper end of the range: the bound given, or the least
    and the greatest of the levels. *)
Definition range_start (lower : option Q) (levels : list Q) : Q :=
  match lower, levels with
  | Some l, _ => l
  | None, x :: l => foldl Qmin x l
  | None, [] => 0
  end.

Definition range_end (upper : option Q) (levels : list Q) : Q :=
  match upper, levels with
  | Some u, _ => u
  | None, x :: l => foldl Qmax x l
  | None, [] => 0
  end.

(** A stub engine for the maximum over the leading axis: the payload is the
    elementwise maximum of the levels, the collapsed coordinate keeps the
    value of the first level, and a cell method is recorded. *)
Definition num_max (a b : num) : num :=
  match a, b with
  | Fin x, Fin y => Fin (Qmax x y)
  | _, _ => NaN
  end.

Definition rows_of (n inner : nat) (l : list num) : list (list num) :=
  map (fun i => take inner (drop (i * inner) l)) (seq 0 n).

Definition leading_max_collapsed (cube : Cube) (arg0 : coord_arg)
  (aggregator : Aggregator) : result Cube :=
  match aggregator, shape (data cube) with
  | MAX, n :: rest =>
      sub ← index_axis cube 0 (At 0);
      match rows_of n (prod rest) (flat (data cube)) with
      | [] => Raise (ValueError "zero-size array")
      | r :: rows =>
          Ok (set_cell_methods
                (set_data sub
                   (mk_ndarray (dtype_of (data cube)) rest
                      (foldl (zip_with num_max) r rows) None))
                (cell_methods cube
                 ++ [mk_CellMethod "maximum"
                       (match arg0 with OneCoord n => [n] | CoordList l => l end)]))
      end
  | _, _ => Raise NotModelled
  end.

(** Vertical velocity on three levels and two grid points. *)
Definition three_level_cube : Cube :=
  mk_Cube "upward_air_velocity" None "m s-1" ∅ []
    [(mk_Coord "height" None "m" false (f32 [100%Q; 200%Q; 300%Q]) None, 0%nat);
     (mk_Coord "projection_y_coordinate" None "m" false (f32 [0%Q; 2000%Q]) None,
      1%nat)]
    []
    (mk_ndarray Float32 [3%nat; 2%nat]
       [Fin 9; Fin 1; Fin 7; Fin 5; Fin 7; Fin 5] None).

(** ** Statements about the height of the maximum *)

(** The value of the cube at vertical level [h] (leading axis) and cell [j]
    equals the value [m], where a level holds [size] cells. *)
Definition level_matches (cube : Cube) (size j : nat) (m : num) (h : nat) : bool :=
  match flat (data cube) !! (h * size + j)%nat with
  | Some v => num_eqb v m
  | None => false
  end.

(** The last of the levels [scan], in the order given, that satisfies [f]. *)
Definition last_match (f : nat → bool) (scan : list nat) : option nat :=
  last (List.filter f scan).

(** A cube of the maxima over the three levels of [three_level_cube]. *)
Definition three_level_maximum : Cube :=
  mk_Cube "upward_air_velocity" None "m s-1" ∅
    [mk_CellMethod "maximum" ["height"]]
    [(mk_Coord "projection_y_coordinate" None "m" false (f32 [0%Q; 2000%Q]) None,
      0%nat)]
    [(mk_Coord "height" None "m" false (f32 [200%Q]) (Some (mk_arr Float32 [(100%Q, 300%Q)])),
      [])]
    (mk_ndarray Float32 [2%nat] [Fin 9; Fin 5] None).

(** ** Statements about ensemble members *)

(** The coordinate [rc] holding the single point [v]. *)
Definition with_point (rc : Coord) (v : Q) : Coord :=
  set_points rc (mk_arr (adtype (points rc)) [v]).

(** A single member: the cube [b] with the scalar coordinate [rc] at the
    value [v] and the payload [d]. *)
Definition member (b : Cube) (rc : Coord) (vd : Q * ndarray) : Cube :=
  set_data
    (set_coords b (dim_coords_and_dims b)
       (aux_coords_and_dims b ++ [(with_point rc (fst vd), [])]))
    (snd vd).

(** The order of the members by value. *)
Definition value_le (a b : Q * ndarray) : bool := Qle_bool (fst a) (fst b).

(** No coordinate of the cube is called [n]. *)
Definition fresh_name (n : string) (b : Cube) : Prop :=
  (∀ cd, In cd (dim_coords_and_dims b) → coord_name (fst cd) ≠ n)
  ∧ (∀ cd, In cd (aux_coords_and_dims b) → coord_name (fst cd) ≠ n).

(** The auxiliary coordinates of the cube have names of their own. *)
Definition unique_aux_names (b : Cube) : Prop :=
  NoDup (map (fun cd : Coord * list nat => coord_name (fst cd))
           (aux_coords_and_dims b)).

(** The points of a coordinate are pairwise different numbers. *)
Definition distinct_points (co : Coord) : Prop :=
  ∀ i j p q,
    avals (points co) !! i = Some p → avals (points co) !! j = Some q →
    (p == q)%Q → i = j.

(** Three members on two grid points, at one time. *)
Definition three_member_cube : Cube :=
  mk_Cube "air_temperature" None "K" sample_attributes
    [mk_CellMethod "mean" ["time"]]
    [(mk_Coord "realization" None "1" false (mk_arr Int32 [1%Q; 2%Q; 3%Q]) None,
      0%nat);
     (mk_Coord "projection_y_coordinate" None "m" false (f32 [0%Q; 2000%Q]) None,
      1%nat)]
    [(mk_Coord "time" None "hours" false (mk_arr Int64 [12%Q]) None, [])]
    (mk_ndarray Float32 [3%nat; 2%nat]
       [Fin 10; Fin 11; Fin 20; Fin 21; Fin 30; Fin 31] None).

(** The coordinates of [c] once axis [k] is gone, the coordinate of that axis
    apart. *)
Definition without_axis (c : Cube) (k : nat) : Cube :=
  set_coords c
    (flat_map
       (fun cd : Coord * nat =>
          if Nat.eqb (snd cd) k then [] else [(fst cd, shift_down k (snd cd))])
       (dim_coords_and_dims c))
    (map (fun cd : Coord * list nat => (fst cd, map (shift_down k) (snd cd)))
       (aux_coords_and_dims c)).

(** The coordinate [co] with element type [d], its points left open. *)
Definition scalar_of (co : Coord) (d : dtype) : Coord :=
  mk_Coord (coord_name co) (coord_var_name co) (coord_units co) (circular co)
    (mk_arr d []) None.

(** The payload of [c] at position [j] of axis [k]. *)
Definition member_data (c : Cube) (k j : nat) : ndarray :=
  mk_ndarray (dtype_of (data c)) (index_shape (shape (data c)) k (At j))
    (select_axis (shape (data c)) k [j] (flat (data c)))
    (option_map (select_axis (shape (data c)) k [j]) (mask (data c))).

(** No auxiliary coordinate of the cube spans axis [k]. *)
Definition no_aux_on (c : Cube) (k : nat) : Prop :=
  ∀ cd, In cd (aux_coords_and_dims c) → ¬ In k (snd cd).

(** [co] is the one dimension coordinate of axis [k]. *)
Definition only_dim_coord_on (c : Cube) (co : Coord) (k : nat) : Prop :=
  List.filter (fun cd : Coord * nat => Nat.eqb (snd cd) k) (dim_coords_and_dims c)
  = [(co, k)].

(** A payload without a mask that holds one value per cell of its shape. *)
Definition plain_payload (d : ndarray) : Prop :=
  length (flat d) = prod (shape d) ∧ mask d = None.

(** What the sample members share, and the payload of one of them. *)
Definition member_base : Cube :=
  mk_Cube "air_temperature" None "K" sample_attributes [] [] []
    (mk_ndarray Float32 [] [] None).

Definition scalar_payload (value : Q) : ndarray :=
  mk_ndarray Float32 [] [Fin value] None.

(** ** More sample cubes *)

(** The sample member with another source. *)
Definition other_source_cube (r value : Q) : Cube :=
  set_attributes (member_cube r value) (<["source" := AStr "UKV"]> ∅).

(** ** Statements about compared coordinates *)

(** The coordinates of the first cube that every other cube holds too, with
    the same coordinates of that metadata. *)
Definition common_to_all (c0 : Cube) (rest : list Cube) : list Coord :=
  List.filter
    (fun co =>
       forallb
         (fun cube =>
            coord_in co (coords cube)
            && list_eqb coord_eqb (coords_like cube co) (coords_like c0 co))
         rest)
    (coords c0).

(** Coordinate [co] is reported: it is not common, and its name is not
    ignored. *)
Definition reported (common_coords : list Coord) (ignored_coords : list string)
  (co : Coord) : Prop :=
  coord_in co common_coords = false ∧ coord_name co ∉ ignored_coords.

(** The body of the loop over the coordinates of one cube. *)
Definition unmatching_step (common_coords : list Coord)
  (ignored_coords : list string) (cube : Cube) (d : gmap string unmatched)
  (co : Coord) : gmap string unmatched :=
  if negb (coord_in co common_coords)
     && negb (existsb (string_eqb (coord_name co)) ignored_coords)
  then
    let dim_val :=
      if coord_in co (dim_coords cube)
      then coord_index co (dim_coords cube) else None in
    let aux_val :=
      match dim_val with
      | None => head (coord_dims_of cube co)
      | Some _ => None
      end in
    <[coord_name co := mk_unmatched dim_val aux_val co]> d
  else d.

(** ** Statements about copied metadata *)

(** What [CopyMetadata] leaves of a cube [c] once the plugin [self] has
    copied from the template [t] to it: the listed attributes are those of
    the template, the others those of [c]; the listed auxiliary coordinates
    are those of the template, the other coordinates of [c] are kept; name,
    unit, cell methods and payload are those of [c]. *)
Definition copied_from (self : CopyMetadata.plugin) (t c c' : Cube) : Prop :=
  (∀ k, attributes c' !! k
        = if bool_decide (k ∈ CopyMetadata.self_attributes self)
          then attributes t !! k else attributes c !! k)
  ∧ (∀ n, n ∈ CopyMetadata.self_aux_coord self →
          ∃ co, coord t n = Ok co ∧ coord c' n = Ok co)
  ∧ (∀ m co, m ∉ CopyMetadata.self_aux_coord self →
             coord c m = Ok co → coord c' m = Ok co)
  ∧ name c' = name c ∧ var_name c' = var_name c ∧ units c' = units c
  ∧ cell_methods c' = cell_methods c ∧ data c' = data c.

(** A template with a time coordinate and another source. *)
Definition template_cube_sample : Cube :=
  mk_Cube "air_temperature" None "K"
    (<["source" := AStr "UKV"]> (<["title" := AStr "Forecast"]> ∅)) []
    [] [(unbounded_time 6, [])]
    (mk_ndarray Float32 [] [Fin 0] None).

Definition copy_store : gmap CopyMetadata.ref Cube :=
  <[0%nat := member_cube 0 280]>
    (<[1%nat := scalar_time_cube (unbounded_time 3)]>
       (<[2%nat := template_cube_sample]> ∅)).

Definition copy_plugin : CopyMetadata.plugin :=
  CopyMetadata.mk_plugin ["source"] ["time"].

(** ** sort_coord_in_cube *)

Definition circular_warning (n : string) : string :=
  "The " +:+ n +:+ " coordinate is circular. If the values in the "
  +:+ "coordinate span a boundary then the sorting may return "
  +:+ "an undesirable result.".

(** [np.argsort(points)]: the positions of the points, in the ascending order
    of the points.  Equal points come in the order of their positions; numpy
    promises no order among them. *)
Definition argsort (l : list Q) : list nat :=
  map fst
    (sort_by (fun a b : nat * Q => Qle_bool (snd a) (snd b))
       (combine (seq 0 (length l)) l)).

(** [sort_coord_in_cube]: the warnings emitted, and the outcome.  The cube is
    indexed along the axis of the coordinate with the sorted positions; a
    dimension coordinate that the new order would leave without monotonic
    points (the engine makes it an auxiliary one) is outside the model. *)
Definition sort_coord_in_cube (cube : Cube) (coord_name' : string)
  (descending : bool) : list string * result Cube :=
  match coord cube coord_name' with
  | Raise e => ([], Raise e)
  | Ok coord_to_sort =>
      (if negb (bool_decide
                  (dim_coords_named cube (coord_name coord_to_sort) = []))
          && circular coord_to_sort
       then [circular_warning (coord_name coord_to_sort)] else [],
       match coord_dims cube coord_name' with
       | Raise e => Raise e
       | Ok [] => Raise (ValueError "not enough values to unpack (expected 1, got 0)")
       | Ok [dim] =>
           let index := argsort (avals (points coord_to_sort)) in
           let index := if descending then rev index else index in
           index_axis cube dim (Pick index)
       | Ok _ => Raise (ValueError "too many values to unpack (expected 1)")
       end)
  end.

(** The numbers of a list never go down (up) from one position to a later
    one. *)
Definition ascending (l : list Q) : Prop :=
  ∀ i j p q, (i < j)%nat → l !! i = Some p → l !! j = Some q → (p <= q)%Q.

Definition descending_order (l : list Q) : Prop :=
  ∀ i j p q, (i < j)%nat → l !! i = Some p → l !! j = Some q → (q <= p)%Q.

(** ** Transposing

    [numpy.transpose] on a row-major array: cell [j'] of the result is cell
    [j] of the array, where [j] at axis [new_order[i]] is [j'] at axis [i]. *)

(** The position along every axis of cell number [i] of an array of shape
    [s], and back. *)
Fixpoint unravel (s : list nat) (i : nat) : list nat :=
  match s with
  | [] => []
  | n :: s' => (i / prod s') mod n :: unravel s' (i mod prod s')
  end.

Definition ravel (s idx : list nat) : nat :=
  foldl (fun acc nj => acc * fst nj + snd nj)%nat 0%nat (combine s idx).

(** [list.index(x)]; the length of the list when [x] is not in it. *)
Fixpoint index_of (x : nat) (l : list nat) : nat :=
  match l with
  | [] => 0
  | y :: l' => if Nat.eqb y x then 0 else S (index_of x l')
  end.

Definition transpose_values {A : Type} (s new_order : list nat) (dflt : A)
  (l : list A) : list A :=
  let s' := map (fun ax => nth ax s 0%nat) new_order in
  map (fun i' =>
         let j' := unravel s' i' in
         let j := map (fun ax => nth (index_of ax new_order) j' 0%nat)
                    (seq 0 (length s)) in
         nth (ravel s j) l dflt)
    (seq 0 (prod s')).

Definition transpose_array (a : ndarray) (new_order : list nat) : ndarray :=
  mk_ndarray (dtype_of a) (map (fun ax => nth ax (shape a) 0%nat) new_order)
    (transpose_values (shape a) new_order NaN (flat a))
    (option_map (transpose_values (shape a) new_order false) (mask a)).

Fixpoint no_repeat (l : list nat) : bool :=
  match l with
  | [] => true
  | x :: l' => negb (existsb (Nat.eqb x) l') && no_repeat l'
  end.

(** [cube.transpose(new_order)]: the payload is transposed and every
    coordinate moves to the new place of its axes.  An order of another
    length than the number of axes is refused by the cube, a repeated axis by
    the array; an axis that the array does not have is outside the model. *)
Definition transpose (c : Cube) (new_order : list nat) : result Cube :=
  if negb (Nat.eqb (length new_order) (length (shape (data c)))) then
    Raise (ValueError "Incorrect number of dimensions.")
  else if negb (forallb (fun ax => Nat.ltb ax (length (shape (data c)))) new_order)
  then Raise NotModelled
  else if negb (no_repeat new_order) then
    Raise (ValueError "repeated axis in transpose")
  else
    Ok (set_data
          (set_coords c
             (map (fun cd : Coord * nat => (fst cd, index_of (snd cd) new_order))
                (dim_coords_and_dims c))
             (map (fun cd : Coord * list nat =>
                     (fst cd, map (fun d => index_of d new_order) (snd cd)))
                (aux_coords_and_dims c)))
          (transpose_array (data c) new_order)).

(** ** enforce_coordinate_ordering *)

Section Threshold.

(** [find_threshold_coordinate] of [improver.metadata.probabilistic] is not
    among the sources: it is a parameter. *)
Context (find_threshold_coordinate : Cube -> result Coord).

(** One round of the loop that collects the dimension coordinates asked for. *)
Definition collect_coord (cube : Cube) (dim_coord_names : list string)
  (coords_to_reorder : list string) (coord' : string) : result (list string) :=
  found ← (if string_eqb coord' "threshold" then
             match find_threshold_coordinate cube with
             | Ok c => Ok (Some (coord_name c))
             | Raise (CoordinateNotFoundError _) => Ok None
             | Raise e => Raise e
             end
           else Ok (Some coord'));
  match found with
  | None => Ok coords_to_reorder
  | Some coord' =>
      Ok (if bool_decide (coord' ∈ dim_coord_names)
          then coords_to_reorder ++ [coord'] else coords_to_reorder)
  end.

(** [coord_dims(coord)[0]] *)
Definition first_dim (ds : list nat) : result nat :=
  match ds with
  | d :: _ => Ok d
  | [] => Raise IndexError
  end.

(** [enforce_coordinate_ordering]: the cube as the call leaves it. *)
Definition enforce_coordinate_ordering (cube : Cube) (coord_names : coord_arg)
  (anchor_start : bool) : result Cube :=
  let coord_names := match coord_names with
                     | OneCoord n => [n]
                     | CoordList l => l
                     end in
  let dim_coord_names := get_dim_coord_names cube in
  coords_to_reorder ←
    fold_result (collect_coord cube dim_coord_names) coord_names [];
  let original_coords := dim_coords cube in
  new_dims ← map_result
               (fun coord' => ds ← coord_dims cube coord'; first_dim ds)
               coords_to_reorder;
  others ← map_result (fun co => first_dim (coord_dims_of cube co))
             original_coords;
  let new_dims :=
    new_dims
    ++ List.filter (fun d => negb (existsb (Nat.eqb d) new_dims)) others in
  let new_dims :=
    if anchor_start then new_dims
    else drop (length coords_to_reorder) new_dims
         ++ take (length coords_to_reorder) new_dims in
  if negb (list_eqb Nat.eqb new_dims (sort_by Nat.leb new_dims))
  then transpose cube new_dims
  else Ok cube.

End Threshold.

(** ** Statements about the order of the axes *)

Fixpoint sorted_nat (l : list nat) : Prop :=
  match l with
  | [] => True
  | x :: l' => Forall (fun y => (x <= y)%nat) l' ∧ sorted_nat l'
  end.

(** The members of [D] on the axes [p], in the order of [p]. *)
Definition on_axes {A : Type} (D : list (A * nat)) (p : list nat)
  : list (A * nat) :=
  flat_map (fun d => List.filter (fun cd => Nat.eqb (snd cd) d) D) p.

(** The names of the dimension coordinates with the lengths of their axes,
    in axis order. *)
Definition named_axes (c : Cube) : list (string * nat) :=
  map (fun cd : Coord * nat =>
         (coord_name (fst cd), nth (snd cd) (shape (data c)) 0%nat))
    (sort_by (fun a b => Nat.leb (snd a) (snd b)) (dim_coords_and_dims c)).

(** Every axis of the payload has its dimension coordinate. *)
Definition every_axis_named (c : Cube) : Prop :=
  map snd (sort_by (fun a b => Nat.leb (snd a) (snd b)) (dim_coords_and_dims c))
  = seq 0 (length (shape (data c))).

(** Three levels and two grid rows of two cells; the last axis has no
    coordinate. *)
Definition anonymous_axis_cube : Cube :=
  mk_Cube "upward_air_velocity" None "m s-1" ∅ []
    [(mk_Coord "height" None "m" false (f32 [100%Q; 200%Q; 300%Q]) None, 0%nat);
     (mk_Coord "projection_y_coordinate" None "m" false (f32 [0%Q; 2000%Q]) None,
      1%nat)]
    []
    (mk_ndarray Float32 [3%nat; 2%nat; 2%nat]
       [Fin 9; Fin 1; Fin 7; Fin 5; Fin 7; Fin 5;
        Fin 8; Fin 2; Fin 6; Fin 4; Fin 6; Fin 4] None).

(** ** add_coordinate_to_cube *)

(** [np.broadcast_to(a[..., np.newaxis], shape=a.shape + (k,))]: every cell
    [k] times along a new last axis.  [broadcast_to] hands back a plain array:
    a mask is not carried over. *)
Definition broadcast_last (a : ndarray) (k : nat) : ndarray :=
  mk_ndarray (dtype_of a) (shape a ++ [k])
    (flat_map (fun x => repeat x k) (flat a)) None.

(** [np.insert(l, i, values=x)] *)
Definition insert_at {A : Type} (l : list A) (i : nat) (x : A) : list A :=
  take i l ++ x :: drop i l.

(** [output.metadata = cube.metadata] *)
Definition set_metadata (output cube : Cube) : Cube :=
  mk_Cube (name cube) (var_name cube) (units cube) (attributes cube)
    (cell_methods cube) (dim_coords_and_dims output) (aux_coords_and_dims output)
    (data output).

Section AddCoordinate.

(** The constructor [Cube(data, dim_coords_and_dims=..., aux_coords_and_dims=...)]
    belongs to the engine: it is a parameter. *)
Context (new_Cube : ndarray → list (Coord * nat) → list (Coord * list nat)
                    → result Cube).

Definition add_coordinate_to_cube (cube : Cube) (new_coord : Coord)
  (new_dim_location : Z) (copy_metadata : bool) : result Cube :=
  let input_dim_count := length (dim_coords cube) in
  if Z.ltb (Z.of_nat input_dim_count) new_dim_location
     || Z.ltb new_dim_location 0
  then
    Raise (ValueError
             ("New dimension location: " +:+ pretty new_dim_location
              +:+ " incompatible                 with cube containing "
              +:+ pretty input_dim_count +:+ "."))
  else
    let new_dim_coords := dim_coords cube ++ [new_coord] in
    let new_dims := seq 0 (input_dim_count + 1) in
    let new_dim_coords_and_dims := combine new_dim_coords new_dims in
    let aux_coords' := aux_coords cube in
    aux_coord_dims ← map_result (fun co => coord_dims cube (coord_name co))
                       aux_coords';
    let new_aux_coords_and_dims := combine aux_coords' aux_coord_dims in
    let new_coord_size := n_points new_coord in
    let new_data := broadcast_last (data cube) new_coord_size in
    output_cube ← new_Cube new_data new_dim_coords_and_dims
                    new_aux_coords_and_dims;
    let output_cube :=
      if copy_metadata then set_metadata output_cube cube else output_cube in
    let final_dim_order :=
      insert_at (seq 0 input_dim_count) (Z.to_nat new_dim_location)
        input_dim_count in
    transpose output_cube final_dim_order.

End AddCoordinate.

(** A constructor that takes what it is given, under the engine's name for a
    cube without one. *)
Definition plain_Cube (d : ndarray) (dims : list (Coord * nat))
  (aux : list (Coord * list nat)) : result Cube :=
  Ok (mk_Cube "unknown" None "unknown" ∅ [] dims aux d).

(** A constructor that succeeds makes the cube of the array and the
    coordinates it was given. *)
Definition keeps_arguments
  (new_Cube : ndarray → list (Coord * nat) → list (Coord * list nat)
              → result Cube) : Prop :=
  ∀ d dims aux c,
    new_Cube d dims aux = Ok c →
    dim_coords_and_dims c = dims ∧ aux_coords_and_dims c = aux ∧ data c = d.

(** Two members. *)
Definition two_realizations : Coord :=
  mk_Coord "realization" None "1" false (mk_arr Int32 [0%Q; 1%Q]) None.

(** ** Statements about what is merged *)

(** The cube [p] is the cube [c] of the list [cubes] made ready for the
    merge: no variable name on it nor on its coordinates (the threshold one
    apart), the cell methods that every cube of the list has, the attributes
    that every cube of the list holds with the same value, and the rest of
    [c]. *)
Definition prepared_for_merge (cubes : list Cube) (c p : Cube) : Prop :=
  var_name p = None ∧ name p = name c ∧ units p = units c ∧ data p = data c
  ∧ dim_coords_and_dims p
    = map (fun cd => (strip_coord_var_name (fst cd), snd cd))
        (dim_coords_and_dims c)
  ∧ aux_coords_and_dims p
    = map (fun cd => (strip_coord_var_name (fst cd), snd cd))
        (aux_coords_and_dims c)
  ∧ (∀ m, m ∈ cell_methods p ↔ ∀ c', In c' cubes → m ∈ cell_methods c')
  ∧ (∀ k v, attributes p !! k = Some v
            ↔ attributes c !! k = Some v
              ∧ ∀ c', In c' cubes →
                  ∃ v', attributes c' !! k = Some v' ∧ attr_eqb v v' = true).

(** * Properties *)

(** ** Comparing a single cube *)

(** C1 (as the code has it): called with a list of exactly one cube,
    [compare_attributes] and [compare_coords] emit the single-cube warning and
    return the empty list: no mapping at all, for any cube, filter and list of
    ignored coordinates. *)
Theorem compare_single_cube (cube : Cube) (attribute_filter : option string)
  (ignored_coords : option (list string)) :
  compare_attributes [cube] attribute_filter = ([single_cube_warning], Ok [])
  ∧ compare_coords [cube] ignored_coords = ([single_cube_warning], Ok []).
Proof. split; reflexivity. Qed.

(** C1 (as stated) fails: for a sample cube neither function returns the
    one-element list holding an empty mapping. *)
Lemma compare_single_cube_not_one_mapping :
  snd (compare_attributes [member_cube 0 280] None) ≠ Ok [∅]
  ∧ snd (compare_coords [member_cube 0 280] None) ≠ Ok [∅].
Proof. split; intros H; vm_compute in H; discriminate H. Qed.

(** ** Copying metadata: how many cubes go in and come out *)

(** C10: [CopyMetadata.process] raises a [RuntimeError] whenever fewer than
    two cubes are supplied in total; when it succeeds, the cubes supplied are
    the returned ones followed by the template, so the template (the final
    cube) is left out of the returned value, which is a bare cube when there
    is exactly one source cube and the list of the source cubes when there
    are more. *)
Theorem copy_metadata_cardinality (self : CopyMetadata.plugin)
  (h : gmap CopyMetadata.ref Cube) (cubes : list CopyMetadata.arg) :
  (length (CopyMetadata.as_cubelist cubes) < 2 →
   CopyMetadata.process self h cubes
   = Raise (RuntimeError
              (CopyMetadata.too_few_message
                 (length (CopyMetadata.as_cubelist cubes)))))
  ∧ (∀ v h', CopyMetadata.process self h cubes = Ok (v, h') →
       ∃ template sources,
         CopyMetadata.as_cubelist cubes = sources ++ [template]
         ∧ CopyMetadata.refs_of v = sources
         ∧ (template ∉ sources → template ∉ CopyMetadata.refs_of v)
         ∧ (length sources = 1 →
            ∃ r, sources = [r] ∧ v = CopyMetadata.BareCube r)
         ∧ (1 < length sources → v = CopyMetadata.CubeList sources)).
Proof.
  split.
  - intros Hlt. unfold CopyMetadata.process.
    destruct (Nat.ltb_spec (length (CopyMetadata.as_cubelist cubes)) 2)
      as [_|Hge]; [reflexivity|lia].
  - intros v h' Hp. unfold CopyMetadata.process in Hp.
    destruct (Nat.ltb_spec (length (CopyMetadata.as_cubelist cubes)) 2)
      as [|Hge]; [discriminate|].
    destruct (CopyMetadata.as_cubelist cubes) as [|x l _] using rev_ind;
      [simpl in Hge; lia|].
    rewrite last_snoc, removelast_last in Hp.
    exists x, l. split; [reflexivity|].
    destruct (fold_result (CopyMetadata.copy_to self x) l h) as [h2|e];
      simpl in Hp; [|discriminate].
    rewrite length_app in Hge. simpl in Hge.
    destruct l as [|a [|b l]]; simpl in *; try lia;
      injection Hp as <- <-; repeat split; eauto; intros; lia.
Qed.

(** Two source cubes and a template: the call succeeds and returns the list
    of the two sources. *)
Lemma copy_metadata_cardinality_witness :
  ∃ h', CopyMetadata.process sample_plugin sample_store
          [CopyMetadata.RefList [0%nat; 1%nat]; CopyMetadata.OneRef 2%nat]
        = Ok (CopyMetadata.CubeList [0%nat; 1%nat], h')
        ∧ ∃ template sources,
            [0%nat; 1%nat; 2%nat] = sources ++ [template]
            ∧ [0%nat; 1%nat] = sources.
Proof.
  eexists. split; [vm_compute; reflexivity|].
  destruct (proj2 (copy_metadata_cardinality sample_plugin sample_store
                     [CopyMetadata.RefList [0%nat; 1%nat];
                      CopyMetadata.OneRef 2%nat]) _ _ eq_refl)
    as (t & s & H1 & H2 & _).
  exists t, s. split; [exact H1|exact H2].
Defined.

(** ** Checking the widths of time bounds *)

Lemma isclose_iff (w w0 : Q) : isclose w w0 = true ↔ close_to w0 w.
Proof. unfold isclose, close_to. apply Qle_bool_iff. Qed.

Lemma forallb_isclose (w0 : Q) (ws : list Q) :
  forallb (fun w => isclose w w0) ws = true ↔ Forall (close_to w0) ws.
Proof.
  induction ws as [|w ws IH]; simpl.
  - split; [constructor|reflexivity].
  - rewrite andb_true_iff, Forall_cons. split.
    + intros [H1 H2]. split; [apply isclose_iff, H1|apply IH, H2].
    + intros [H1 H2]. split; [apply isclose_iff, H1|apply IH, H2].
Qed.

(** One round of the check: it passes exactly when the coordinate does not
    mismatch, and fails with the message naming the coordinate otherwise. *)
Lemma check_one_name_spec (cube : Cube) (n : string) :
  (∀ co, coord cube n = Ok co → well_formed_coord co) →
  (MergeCubes.check_one_name cube n = Ok tt ∧ ¬ mismatching cube n)
  ∨ (MergeCubes.check_one_name cube n = Raise (ValueError (mismatch_message n))
     ∧ mismatching cube n).
Proof.
  intros Hwf. unfold MergeCubes.check_one_name.
  destruct (coord cube n) as [co|e] eqn:Hco.
  2:{ left. split; [reflexivity|]. intros (co & b & w0 & H & _). congruence. }
  destruct (Hwf co eq_refl) as [Hpos Hlen].
  destruct (bounds co) as [b|] eqn:Hb.
  2:{ left. split; [reflexivity|].
      intros (co' & b & w0 & H & Hb' & _). congruence. }
  destruct (Nat.eqb_spec (n_points co) 1) as [H1|H1].
  { left. split; [reflexivity|].
    intros (co' & b' & w0 & H & _ & Hgt & _).
    assert (co' = co) by congruence. subst. lia. }
  specialize (Hlen b eq_refl).
  destruct (bounds_widths b) as [|w0 ws] eqn:Hw.
  { unfold bounds_widths in Hw. apply (f_equal length) in Hw.
    rewrite length_map in Hw. simpl in Hw. lia. }
  destruct (forallb (fun w => isclose w w0) (w0 :: ws)) eqn:Hall.
  - left. split; [reflexivity|].
    intros (co' & b' & w0' & H & Hb' & _ & Hhd & Hno).
    assert (co' = co) by congruence. subst co'.
    assert (b' = b) by congruence. subst b'.
    rewrite Hw in Hhd, Hno. simpl in Hhd. injection Hhd as <-.
    apply Hno. apply forallb_isclose. exact Hall.
  - right. split; [reflexivity|].
    exists co, b, w0. rewrite Hw. repeat split; try assumption; try reflexivity.
    + lia.
    + intros HF. apply forallb_isclose in HF. congruence.
Qed.

(** C5: on a cube whose time and forecast_period coordinates, where present,
    hold at least one point and one bound interval per point,
    [_check_time_bounds_ranges] raises if and only if one of the two
    coordinates is present with bounds and more than one point and the
    absolute widths of its bound intervals are not all equal, within the
    tolerance of [isclose], to the width of the first; the error names the
    first such coordinate, and a cube without such a coordinate (absent,
    unbounded or single-point coordinates included) is accepted. *)
Theorem check_time_bounds_ranges_fails_iff (cube : Cube)
  (Hwf : ∀ n co, n ∈ ["time"; "forecast_period"] →
                 coord cube n = Ok co → well_formed_coord co) :
  ((∃ e, MergeCubes._check_time_bounds_ranges cube = Raise e)
   ↔ mismatching cube "time" ∨ mismatching cube "forecast_period")
  ∧ (mismatching cube "time" →
     MergeCubes._check_time_bounds_ranges cube
     = Raise (ValueError (mismatch_message "time")))
  ∧ (¬ mismatching cube "time" → mismatching cube "forecast_period" →
     MergeCubes._check_time_bounds_ranges cube
     = Raise (ValueError (mismatch_message "forecast_period")))
  ∧ (¬ mismatching cube "time" → ¬ mismatching cube "forecast_period" →
     MergeCubes._check_time_bounds_ranges cube = Ok tt).
Proof.
  assert (Ht := check_one_name_spec cube "time"
                  (fun co => Hwf "time" co (list_elem_of_here _ _))).
  assert (Hf := check_one_name_spec cube "forecast_period"
                  (fun co => Hwf "forecast_period" co
                             (list_elem_of_further _ _ _ (list_elem_of_here _ _)))).
  unfold MergeCubes._check_time_bounds_ranges. simpl.
  destruct Ht as [[Et Nt]|[Et Mt]], Hf as [[Ef Nf]|[Ef Mf]];
    rewrite Et; simpl; try rewrite Ef; simpl;
    (split; [split; [intros [e He]; try discriminate; tauto
                    |intros [H|H]; try tauto; eauto]
            |repeat split; intros; try tauto]).
Qed.

(** The one-three-one hour cube is well formed, so the theorem applies: it is
    rejected, hence mismatching. *)
Lemma check_time_bounds_ranges_fails_iff_witness :
  mismatching mixed_cube "time" ∨ mismatching mixed_cube "forecast_period".
Proof.
  assert (Hwf : ∀ n co, n ∈ ["time"; "forecast_period"] →
                        coord mixed_cube n = Ok co → well_formed_coord co).
  { intros n co Hn Hco.
    apply elem_of_cons in Hn as [-> | Hn];
      [|apply list_elem_of_singleton in Hn as ->];
      vm_compute in Hco; [|discriminate].
    injection Hco as <-. split; [vm_compute; lia|].
    intros b Hb. injection Hb as <-. reflexivity. }
  apply (proj1 (proj1 (check_time_bounds_ranges_fails_iff mixed_cube Hwf))).
  eexists. vm_compute. reflexivity.
Defined.

(** The examples of the specification: widths of one hour each are
    accepted, widths of one, three and one hours are rejected. *)
Example hourly_widths_accepted :
  MergeCubes._check_time_bounds_ranges hourly_cube = Ok tt.
Proof. vm_compute. reflexivity. Qed.

Example mixed_widths_rejected :
  MergeCubes._check_time_bounds_ranges mixed_cube
  = Raise (ValueError "Cube with mismatching time bounds ranges cannot be blended").
Proof. vm_compute. reflexivity. Qed.

(** ** Coordinates of a cube: lookup and in-place change *)

Lemma insert_by_perm {A : Type} (le : A → A → bool) (x : A) (l : list A) :
  insert_by le x l ≡ₚ x :: l.
Proof.
  induction l as [|y l IH]; simpl; [reflexivity|].
  destruct (le x y); [reflexivity|].
  rewrite IH. apply perm_swap.
Qed.

Lemma sort_by_perm {A : Type} (le : A → A → bool) (l : list A) :
  sort_by le l ≡ₚ l.
Proof.
  induction l as [|x l IH]; simpl; [reflexivity|].
  unfold sort_by in *. simpl. rewrite insert_by_perm, IH. reflexivity.
Qed.

Lemma insert_by_map {A B : Type} (le : A → A → bool) (le' : B → B → bool)
  (g : A → B) (x : A) (l : list A) :
  (∀ a b, le' (g a) (g b) = le a b) →
  insert_by le' (g x) (map g l) = map g (insert_by le x l).
Proof.
  intros Hg. induction l as [|y l IH]; simpl; [reflexivity|].
  rewrite Hg. destruct (le x y); simpl; [reflexivity|]. rewrite IH. reflexivity.
Qed.

Lemma sort_by_map {A B : Type} (le : A → A → bool) (le' : B → B → bool)
  (g : A → B) (l : list A) :
  (∀ a b, le' (g a) (g b) = le a b) →
  sort_by le' (map g l) = map g (sort_by le l).
Proof.
  intros Hg. induction l as [|x l IH]; simpl; [reflexivity|].
  unfold sort_by in *. simpl. rewrite IH. apply insert_by_map, Hg.
Qed.

Lemma filter_map_comm {A : Type} (p : A → bool) (g : A → A) (l : list A) :
  (∀ a, p (g a) = p a) →
  List.filter p (map g l) = map g (List.filter p l).
Proof.
  intros Hg. induction l as [|x l IH]; simpl; [reflexivity|].
  rewrite Hg. destruct (p x); simpl; rewrite IH; reflexivity.
Qed.

Lemma filter_perm {A : Type} (p : A → bool) (l l' : list A) :
  l ≡ₚ l' → List.filter p l ≡ₚ List.filter p l'.
Proof.
  induction 1 as [|x l l' _ IH|x y l|l l' l'' _ IH1 _ IH2]; simpl.
  - reflexivity.
  - destruct (p x); [constructor|]; exact IH.
  - destruct (p x), (p y); try reflexivity. apply perm_swap.
  - etransitivity; eassumption.
Qed.

Lemma named_spec (n : string) (co : Coord) : named n co = true ↔ coord_name co = n.
Proof. unfold named, string_eqb. apply bool_decide_eq_true. Qed.

(** The coordinates of a cube, up to their order. *)
Lemma coords_perm (c : Cube) :
  coords c ≡ₚ map fst (dim_coords_and_dims c) ++ map fst (aux_coords_and_dims c).
Proof.
  unfold coords, dim_coords, aux_coords.
  rewrite (sort_by_perm _ (dim_coords_and_dims c)). reflexivity.
Qed.

Lemma coords_named_perm (c : Cube) (n : string) :
  coords_named c n
  ≡ₚ List.filter (named n)
       (map fst (dim_coords_and_dims c) ++ map fst (aux_coords_and_dims c)).
Proof. unfold coords_named. apply filter_perm, coords_perm. Qed.

(** Finding a coordinate through any listing of the coordinates. *)
Lemma coord_of_perm (c : Cube) (n : string) (co : Coord) :
  List.filter (named n)
    (map fst (dim_coords_and_dims c) ++ map fst (aux_coords_and_dims c)) = [co] →
  coord c n = Ok co.
Proof.
  intros H. unfold coord.
  assert (Hp := coords_named_perm c n). rewrite H in Hp.
  apply Permutation_singleton_r in Hp. rewrite Hp. reflexivity.
Qed.

Lemma coord_inv (c : Cube) (n : string) (co : Coord) :
  coord c n = Ok co → coords_named c n = [co].
Proof.
  unfold coord. destruct (coords_named c n) as [|x [|y l]]; intros H;
    try discriminate. injection H as <-. reflexivity.
Qed.

Lemma coord_name_of (c : Cube) (n : string) (co : Coord) :
  coord c n = Ok co → coord_name co = n.
Proof.
  intros H. apply coord_inv in H.
  assert (Hin : In co (coords_named c n)) by (rewrite H; left; reflexivity).
  unfold coords_named in Hin. apply filter_In in Hin as [_ Hn].
  apply named_spec, Hn.
Qed.

Lemma coords_update_coord (c c' : Cube) (n : string) (f : Coord → Coord) :
  update_coord c n f = Ok c' → coords c' = map (changed n f) (coords c).
Proof.
  unfold update_coord. destruct (coord c n) as [co0|e]; simpl; [|discriminate].
  intros H. injection H as <-.
  unfold coords, dim_coords, aux_coords, set_coords. simpl.
  rewrite (sort_by_map (fun a b : Coord * nat => Nat.leb (snd a) (snd b)) _
             (fun cd : Coord * nat =>
                if named n (fst cd) then (f (fst cd), snd cd) else cd)).
  2:{ intros a b. destruct (named n (fst a)), (named n (fst b)); reflexivity. }
  rewrite map_app, !map_map. f_equal; apply map_ext; intros [co d]; simpl;
    unfold changed; destruct (named n co); reflexivity.
Qed.

Lemma coord_update_coord (c c' : Cube) (n m : string) (f : Coord → Coord) :
  (∀ co, coord_name (f co) = coord_name co) →
  update_coord c n f = Ok c' →
  coord c' m = match coord c m with
               | Ok co => Ok (changed n f co)
               | Raise e => Raise e
               end.
Proof.
  intros Hf Hu. unfold coord, coords_named.
  rewrite (coords_update_coord _ _ _ _ Hu).
  rewrite filter_map_comm.
  2:{ intros a. unfold changed, named. destruct (string_eqb (coord_name a) n);
        [rewrite Hf|]; reflexivity. }
  destruct (List.filter (named m) (coords c)) as [|x [|y l]]; reflexivity.
Qed.

Lemma update_coord_ok (c : Cube) (n : string) (f : Coord → Coord) (co : Coord) :
  coord c n = Ok co →
  update_coord c n f
  = Ok (set_coords c
          (map (fun cd => if named n (fst cd) then (f (fst cd), snd cd) else cd)
             (dim_coords_and_dims c))
          (map (fun cd => if named n (fst cd) then (f (fst cd), snd cd) else cd)
             (aux_coords_and_dims c))).
Proof. intros H. unfold update_coord. rewrite H. reflexivity. Qed.

Lemma update_coord_frame (c c' : Cube) (n : string) (f : Coord → Coord) :
  update_coord c n f = Ok c' →
  cell_methods c' = cell_methods c ∧ data c' = data c
  ∧ attributes c' = attributes c ∧ name c' = name c ∧ units c' = units c.
Proof.
  unfold update_coord. destruct (coord c n) as [co0|e]; simpl; [|discriminate].
  intros H. injection H as <-. repeat split.
Qed.

(** ** Collapsing: cell methods, precision and undefined statistics *)

Section CollapsedProperties.

Context (FLOAT_DTYPE : dtype) (FLOAT_TYPES : list dtype).
Context (cast : dtype → Q → Q).
Context (iris_collapsed : Cube → coord_arg → Aggregator → result Cube).

Lemma demote_coord_name (co : Coord) :
  coord_name (demote_coord FLOAT_DTYPE FLOAT_TYPES cast co) = coord_name co.
Proof.
  unfold demote_coord.
  destruct (dtype_in (adtype (points co)) FLOAT_TYPES); [|reflexivity].
  simpl. destruct (bounds co); reflexivity.
Qed.

(** The loop over the collapsed coordinates: every one of them is demoted,
    once, and nothing else changes. *)
Lemma demote_loop (names : list string) :
  ∀ c : Cube,
    (∀ n, n ∈ names → ∃ co, coord c n = Ok co) →
    NoDup names →
    ∃ r,
      fold_result
        (fun nc n => update_coord nc n (demote_coord FLOAT_DTYPE FLOAT_TYPES cast))
        names c = Ok r
      ∧ cell_methods r = cell_methods c ∧ data r = data c
      ∧ ∀ m co, coord c m = Ok co →
          coord r m
          = Ok (if bool_decide (m ∈ names)
                then demote_coord FLOAT_DTYPE FLOAT_TYPES cast co else co).
Proof.
  induction names as [|n names IH]; intros c Hfound Hnd.
  - exists c. simpl. repeat split. intros m co Hm. exact Hm.
  - apply NoDup_cons in Hnd as [Hn Hnd].
    destruct (Hfound n (list_elem_of_here _ _)) as [co Hco].
    simpl. rewrite (update_coord_ok _ _ _ _ Hco). simpl.
    pose proof (update_coord_ok c n (demote_coord FLOAT_DTYPE FLOAT_TYPES cast)
                  co Hco) as Hu.
    set (c1 := set_coords c _ _) in *.
    pose proof (coord_update_coord c c1 n) as Hlook.
    destruct (IH c1) as (r & Hr & Hcm & Hd & Hall); [|exact Hnd|].
    { intros m Hm. destruct (Hfound m (list_elem_of_further _ _ _ Hm)) as [co' Hco'].
      rewrite (Hlook m _ demote_coord_name Hu), Hco'. eauto. }
    exists r. split; [exact Hr|]. split; [rewrite Hcm; reflexivity|].
    split; [rewrite Hd; reflexivity|].
    intros m co' Hm.
    pose proof (Hlook m _ demote_coord_name Hu) as Hm1. rewrite Hm in Hm1.
    rewrite (Hall m _ Hm1). f_equal.
    pose proof (coord_name_of _ _ _ Hm) as Hname.
    unfold changed, named, string_eqb. rewrite Hname.
    repeat case_bool_decide; subst; try reflexivity; exfalso;
      repeat match goal with
             | H : _ ∈ _ :: _ |- _ => apply elem_of_cons in H as [?|?]
             | H : ¬ (_ ∈ _ :: _) |- _ => rewrite elem_of_cons in H
             end; tauto.
Qed.

(** What [collapsed] returns, given what the engine returns. *)
Lemma collapsed_spec (cube : Cube) (arg0 : coord_arg) (aggregator : Aggregator)
  (new_cube : Cube) :
  iris_collapsed cube arg0 aggregator = Ok new_cube →
  (∀ n, n ∈ collapsed_coords arg0 → ∃ co, coord new_cube n = Ok co) →
  NoDup (collapsed_coords arg0) →
  ∃ r,
    collapsed FLOAT_DTYPE FLOAT_TYPES cast iris_collapsed cube arg0 aggregator
    = Ok r
    ∧ cell_methods r = cell_methods cube
    ∧ data r = (if dtype_in (dtype_of (data new_cube)) FLOAT_TYPES
                then astype cast FLOAT_DTYPE (data new_cube)
                else data new_cube)
    ∧ ∀ m co, coord new_cube m = Ok co →
        coord r m
        = Ok (if bool_decide (m ∈ collapsed_coords arg0)
              then demote_coord FLOAT_DTYPE FLOAT_TYPES cast co else co).
Proof.
  intros He Hfound Hnd. unfold collapsed. rewrite He. simpl.
  set (c1 := if dtype_in (dtype_of (data new_cube)) FLOAT_TYPES then _ else _).
  assert (Hc1 : coords c1 = coords new_cube
                ∧ cell_methods c1 = cell_methods cube
                ∧ data c1 = (if dtype_in (dtype_of (data new_cube)) FLOAT_TYPES
                             then astype cast FLOAT_DTYPE (data new_cube)
                             else data new_cube)).
  { subst c1. destruct (dtype_in (dtype_of (data new_cube)) FLOAT_TYPES);
      repeat split. }
  destruct Hc1 as (Hcs & Hcm & Hd).
  assert (Hlook : ∀ m, coord c1 m = coord new_cube m).
  { intros m. unfold coord, coords_named. rewrite Hcs. reflexivity. }
  destruct (demote_loop (collapsed_coords arg0) c1) as (r & Hr & Hcm' & Hd' & Hall);
    [|exact Hnd|].
  { intros n Hn. rewrite Hlook. apply Hfound, Hn. }
  exists r. split; [exact Hr|]. split; [congruence|]. split; [congruence|].
  intros m co Hm. apply Hall. rewrite Hlook. exact Hm.
Qed.


Lemma remove_coord_ok (c : Cube) (n : string) (co : Coord) :
  coord c n = Ok co →
  ∃ c', remove_coord c n = Ok c' ∧ data c' = data c
        ∧ cell_methods c' = cell_methods c.
Proof.
  intros H. unfold remove_coord. rewrite H. simpl.
  eexists. repeat split.
Qed.

Lemma map_const_replicate {A B : Type} (y : B) (l : list A) :
  map (fun _ => y) l = replicate (length l) y.
Proof. induction l as [|x l IH]; simpl; [|rewrite IH]; reflexivity. Qed.

(** The steps of [collapse_realizations] with [std_dev] on a cube whose
    realization coordinate has one point, up to the filling. *)
Lemma std_dev_steps (cube : Cube) (co : Coord) (new_cube : Cube)
  (Hco : coord cube "realization" = Ok co)
  (Hone : n_points co = 1%nat)
  (Hengine : iris_collapsed cube (OneCoord "realization") STD_DEV = Ok new_cube)
  (Hfound : ∃ co', coord new_cube "realization" = Ok co') :
  ∃ rc',
    data rc' = (if dtype_in (dtype_of (data new_cube)) FLOAT_TYPES
                then astype cast FLOAT_DTYPE (data new_cube)
                else data new_cube)
    ∧ collapse_realizations FLOAT_DTYPE FLOAT_TYPES cast iris_collapsed cube
        "std_dev"
      = if is_masked (data new_cube)
        then d ← fill_nan (data rc'); Ok (set_data rc' d)
        else Ok rc'.
Proof.
  destruct Hfound as [co' Hco'].
  destruct (collapsed_spec cube (OneCoord "realization") STD_DEV new_cube Hengine)
    as (rc & Hrc & _ & Hd & Hall).
  { intros n Hn. apply list_elem_of_singleton in Hn as ->. eauto. }
  { apply NoDup_singleton. }
  destruct (remove_coord_ok rc "realization" _ (Hall _ _ Hco'))
    as (rc' & Hrm & Hd' & _).
  assert (Hmask : is_masked (data rc') = is_masked (data new_cube)).
  { rewrite Hd', Hd. destruct (dtype_in _ _); reflexivity. }
  exists rc'. split; [rewrite Hd'; exact Hd|].
  unfold collapse_realizations.
  change (dict_get aggregator_dict "std_dev") with (Some STD_DEV).
  cbv beta iota. rewrite Hrc. simpl. rewrite Hrm. simpl.
  change (string_eqb "std_dev" "std_dev") with true. cbv beta iota.
  rewrite Hco. simpl. rewrite Hone, Hmask. reflexivity.
Qed.

(** C2 fails on the code where the reduction leaves no axis: for a cube
    whose realization coordinate has exactly one point, when the reduced array
    that the engine reports as masked is zero-dimensional,
    [collapse_realizations] with [std_dev] returns no array at all: the
    filling [data.data[:] = np.nan] raises [IndexError]. *)
Theorem std_dev_of_one_member_scalar (cube : Cube) (co : Coord) (new_cube : Cube)
  (Hco : coord cube "realization" = Ok co)
  (Hone : n_points co = 1%nat)
  (Hengine : iris_collapsed cube (OneCoord "realization") STD_DEV = Ok new_cube)
  (Hfound : ∃ co', coord new_cube "realization" = Ok co')
  (Hmasked : is_masked (data new_cube) = true)
  (Hscalar : shape (data new_cube) = []) :
  collapse_realizations FLOAT_DTYPE FLOAT_TYPES cast iris_collapsed cube "std_dev"
  = Raise IndexError.
Proof.
  destruct (std_dev_steps cube co new_cube Hco Hone Hengine Hfound)
    as (rc' & Hd & Hrun).
  rewrite Hrun, Hmasked. unfold fill_nan.
  assert (Hshape : shape (data rc') = []).
  { rewrite Hd. destruct (dtype_in _ _); exact Hscalar. }
  rewrite Hshape. reflexivity.
Qed.

(** X20: for a cube whose realization coordinate has exactly
    one point, when the reduced array that the engine reports as masked has
    an axis and floating-point values, [collapse_realizations] with [std_dev]
    returns it with every underlying value set to the not-a-number marker,
    under the engine's mask. *)
Theorem std_dev_of_one_member_masked (cube : Cube) (co : Coord) (new_cube : Cube)
  (Hco : coord cube "realization" = Ok co)
  (Hone : n_points co = 1%nat)
  (Hengine : iris_collapsed cube (OneCoord "realization") STD_DEV = Ok new_cube)
  (Hfound : ∃ co', coord new_cube "realization" = Ok co')
  (Hmasked : is_masked (data new_cube) = true)
  (Haxis : shape (data new_cube) ≠ [])
  (Hfloat : is_integer_dtype (dtype_of (data new_cube)) = false)
  (Hdeclared : is_integer_dtype FLOAT_DTYPE = false) :
  ∃ r,
    collapse_realizations FLOAT_DTYPE FLOAT_TYPES cast iris_collapsed cube
      "std_dev" = Ok r
    ∧ flat (data r) = replicate (length (flat (data new_cube))) NaN
    ∧ mask (data r) = mask (data new_cube)
    ∧ shape (data r) = shape (data new_cube).
Proof.
  destruct (std_dev_steps cube co new_cube Hco Hone Hengine Hfound)
    as (rc' & Hd & Hrun).
  rewrite Hrun, Hmasked. unfold fill_nan.
  assert (Hshape : shape (data rc') = shape (data new_cube)).
  { rewrite Hd. destruct (dtype_in _ _); reflexivity. }
  assert (Hint : is_integer_dtype (dtype_of (data rc')) = false).
  { rewrite Hd. destruct (dtype_in _ _); [exact Hdeclared|exact Hfloat]. }
  rewrite Hshape, Hint.
  destruct (shape (data new_cube)) as [|s0 s] eqn:Es; [contradiction|].
  simpl. eexists. split; [reflexivity|]. simpl. rewrite Hd.
  split; [|split].
  - destruct (dtype_in _ _); simpl; rewrite ?map_map;
      apply map_const_replicate.
  - destruct (dtype_in _ _); reflexivity.
  - rewrite <- Es. destruct (dtype_in _ _); simpl; congruence.
Qed.

End CollapsedProperties.


(** With the engine that masks the standard deviation of one member, the
    result is not-a-number throughout. *)
Lemma std_dev_of_one_member_masked_witness :
  ∃ r,
    collapse_realizations Float32 [Float64; Float32] exact_cast
      (one_member_collapsed true) one_member_cube "std_dev" = Ok r
    ∧ flat (data r) = [NaN; NaN]
    ∧ mask (data r) = Some [true; true]
    ∧ shape (data r) = [2%nat].
Proof.
  destruct (std_dev_of_one_member_masked Float32 [Float64; Float32] exact_cast
              (one_member_collapsed true) one_member_cube (realization_of 0)
              (match one_member_collapsed true one_member_cube
                       (OneCoord "realization") STD_DEV with
               | Ok c => c
               | Raise _ => one_member_cube
               end))
    as (r & Hr & Hflat & Hmask & Hshape).
  - vm_compute. reflexivity.
  - reflexivity.
  - vm_compute. reflexivity.
  - eexists. vm_compute. reflexivity.
  - vm_compute. reflexivity.
  - vm_compute. discriminate.
  - vm_compute. reflexivity.
  - reflexivity.
  - exists r. split; [exact Hr|]. split; [exact Hflat|].
    split; [exact Hmask|exact Hshape].
Defined.

(** The member that is alone on its cube: the reduction leaves a
    zero-dimensional masked array, and the call ends in [IndexError]. *)
Lemma std_dev_of_one_member_scalar_witness :
  collapse_realizations Float32 [Float64; Float32] exact_cast
    (one_member_collapsed true) lone_member_cube "std_dev"
  = Raise IndexError.
Proof.
  apply (std_dev_of_one_member_scalar Float32 [Float64; Float32] exact_cast
           (one_member_collapsed true) lone_member_cube (realization_of 0)
           (match one_member_collapsed true lone_member_cube
                    (OneCoord "realization") STD_DEV with
            | Ok c => c
            | Raise _ => lone_member_cube
            end)).
  - vm_compute. reflexivity.
  - reflexivity.
  - vm_compute. reflexivity.
  - eexists. vm_compute. reflexivity.
  - vm_compute. reflexivity.
  - vm_compute. reflexivity.
Defined.

(** ** Expanding bounds *)

Lemma Qmin_cases (a b : Q) :
  (Qmin a b = a ∧ (a <= b)%Q) ∨ (Qmin a b = b ∧ (b <= a)%Q).
Proof.
  unfold Qmin. destruct (Qle_bool a b) eqn:E.
  - left. split; [reflexivity|]. apply Qle_bool_iff, E.
  - right. split; [reflexivity|].
    destruct (Qlt_le_dec b a) as [H|H]; [apply Qlt_le_weak, H|].
    apply Qle_bool_iff in H. congruence.
Qed.

Lemma Qmax_cases (a b : Q) :
  (Qmax a b = b ∧ (a <= b)%Q) ∨ (Qmax a b = a ∧ (b <= a)%Q).
Proof.
  unfold Qmax. destruct (Qle_bool a b) eqn:E.
  - left. split; [reflexivity|]. apply Qle_bool_iff, E.
  - right. split; [reflexivity|].
    destruct (Qlt_le_dec b a) as [H|H]; [apply Qlt_le_weak, H|].
    apply Qle_bool_iff in H. congruence.
Qed.

Lemma foldl_Qmin_spec (l : list Q) :
  ∀ x, In (foldl Qmin x l) (x :: l)
       ∧ ∀ y, In y (x :: l) → (foldl Qmin x l <= y)%Q.
Proof.
  induction l as [|z l IH]; intros x; simpl.
  - split; [left; reflexivity|]. intros y [<-|[]]. apply Qle_refl.
  - destruct (IH (Qmin x z)) as [Hin Hle]. split.
    + destruct Hin as [Hin|Hin]; [|right; right; exact Hin].
      rewrite <- Hin. destruct (Qmin_cases x z) as [[-> _]|[-> _]]; auto.
    + intros y Hy.
      assert (Hm : (foldl Qmin (Qmin x z) l <= Qmin x z)%Q)
        by (apply Hle; left; reflexivity).
      destruct Hy as [<-|[<-|Hy]].
      * eapply Qle_trans; [exact Hm|].
        destruct (Qmin_cases x z) as [[-> H]|[-> H]]; [apply Qle_refl|exact H].
      * eapply Qle_trans; [exact Hm|].
        destruct (Qmin_cases x z) as [[-> H]|[-> H]]; [exact H|apply Qle_refl].
      * apply Hle. right. exact Hy.
Qed.

Lemma foldl_Qmax_spec (l : list Q) :
  ∀ x, In (foldl Qmax x l) (x :: l)
       ∧ ∀ y, In y (x :: l) → (y <= foldl Qmax x l)%Q.
Proof.
  induction l as [|z l IH]; intros x; simpl.
  - split; [left; reflexivity|]. intros y [<-|[]]. apply Qle_refl.
  - destruct (IH (Qmax x z)) as [Hin Hle]. split.
    + destruct Hin as [Hin|Hin]; [|right; right; exact Hin].
      rewrite <- Hin. destruct (Qmax_cases x z) as [[-> _]|[-> _]]; auto.
    + intros y Hy.
      assert (Hm : (Qmax x z <= foldl Qmax (Qmax x z) l)%Q)
        by (apply Hle; left; reflexivity).
      destruct Hy as [<-|[<-|Hy]].
      * eapply Qle_trans; [|exact Hm].
        destruct (Qmax_cases x z) as [[-> H]|[-> H]]; [exact H|apply Qle_refl].
      * eapply Qle_trans; [|exact Hm].
        destruct (Qmax_cases x z) as [[-> H]|[-> H]]; [apply Qle_refl|exact H].
      * apply Hle. right. exact Hy.
Qed.

Lemma same_lengths_uniform {A : Type} (k : nat) (rows : list (list A)) :
  Forall (fun r => length r = k) rows → same_lengths rows = true.
Proof.
  intros H. destruct rows as [|r rows]; [reflexivity|]. simpl.
  apply Forall_cons in H as [Hr H]. apply forallb_forall.
  intros r' Hr'. apply Nat.eqb_eq.
  rewrite Forall_forall in H. rewrite (H r'), Hr; [reflexivity|].
  apply list_elem_of_In, Hr'.
Qed.

(** [np.min] and [np.max] of equally long, non-empty rows are the least and
    the greatest of all their values. *)
Lemma np_min_spec (k : nat) (rows : list (list Q)) :
  rows ≠ [] → (1 ≤ k)%nat → Forall (fun r => length r = k) rows →
  ∃ m, np_min rows = Ok m ∧ In m (concat rows)
       ∧ ∀ y, In y (concat rows) → (m <= y)%Q.
Proof.
  intros Hne Hk Hlen. unfold np_min.
  rewrite (same_lengths_uniform k rows Hlen).
  destruct (concat rows) as [|x l] eqn:Ec.
  - destruct rows as [|r rows]; [contradiction|].
    apply Forall_cons in Hlen as [Hr _]. destruct r; simpl in *; [lia|discriminate].
  - exists (foldl Qmin x l). destruct (foldl_Qmin_spec l x) as [H1 H2]. auto.
Qed.

Lemma np_max_spec (k : nat) (rows : list (list Q)) :
  rows ≠ [] → (1 ≤ k)%nat → Forall (fun r => length r = k) rows →
  ∃ m, np_max rows = Ok m ∧ In m (concat rows)
       ∧ ∀ y, In y (concat rows) → (y <= m)%Q.
Proof.
  intros Hne Hk Hlen. unfold np_max.
  rewrite (same_lengths_uniform k rows Hlen).
  destruct (concat rows) as [|x l] eqn:Ec.
  - destruct rows as [|r rows]; [contradiction|].
    apply Forall_cons in Hlen as [Hr _]. destruct r; simpl in *; [lia|discriminate].
  - exists (foldl Qmax x l). destruct (foldl_Qmax_spec l x) as [H1 H2]. auto.
Qed.

Lemma map_result_Forall2 {A B : Type} (f : A → result B) (l : list A)
  (l' : list B) :
  Forall2 (fun x y => f x = Ok y) l l' → map_result f l = Ok l'.
Proof.
  induction 1 as [|x y l l' Hxy _ IH]; simpl; [reflexivity|].
  rewrite Hxy. simpl. rewrite IH. reflexivity.
Qed.

Lemma in_lower_bounds (y : Q) (cos : list Coord) :
  In y (lower_bounds cos)
  ↔ ∃ co lu, In co cos ∧ In lu (intervals co) ∧ y = fst lu.
Proof.
  unfold lower_bounds. rewrite in_flat_map. split.
  - intros (co & Hco & Hy). apply in_map_iff in Hy as (lu & <- & Hlu). eauto.
  - intros (co & lu & Hco & Hlu & ->). exists co. split; [exact Hco|].
    apply in_map, Hlu.
Qed.

Lemma in_upper_bounds (y : Q) (cos : list Coord) :
  In y (upper_bounds cos)
  ↔ ∃ co lu, In co cos ∧ In lu (intervals co) ∧ y = snd lu.
Proof.
  unfold upper_bounds. rewrite in_flat_map. split.
  - intros (co & Hco & Hy). apply in_map_iff in Hy as (lu & <- & Hlu). eauto.
  - intros (co & lu & Hco & Hlu & ->). exists co. split; [exact Hco|].
    apply in_map, Hlu.
Qed.

Lemma in_bound_rows (y : Q) (cos : list Coord) :
  In y (concat (bound_rows cos))
  ↔ ∃ co lu, In co cos ∧ In lu (intervals co) ∧ (y = fst lu ∨ y = snd lu).
Proof.
  unfold bound_rows. rewrite map_map, <- flat_map_concat_map, in_flat_map.
  split.
  - intros (co & Hco & Hy). exists co. unfold intervals.
    destruct (bounds co) as [b|]; simpl in Hy; [|contradiction].
    unfold bound_values in Hy. apply in_flat_map in Hy as (lu & Hlu & Hy).
    exists lu. split; [exact Hco|]. split; [exact Hlu|].
    destruct Hy as [<-|[<-|[]]]; auto.
  - intros (co & lu & Hco & Hlu & Hy). exists co. split; [exact Hco|].
    unfold intervals in Hlu. destruct (bounds co) as [b|]; [|contradiction].
    simpl. unfold bound_values. apply in_flat_map. exists lu.
    split; [exact Hlu|]. destruct Hy as [-> | ->]; simpl; auto.
Qed.

Section ExpandBoundsProperties.

Context (FLOAT_DTYPE : dtype) (FLOAT_TYPES : list dtype).
Context (cast : dtype → Q → Q).
Context (result_type : dtype → dtype → dtype).

(** Every contributor bounded: the new bound spans from the least to the
    greatest of all ends of the bound intervals, which are the least lower
    bound and the greatest upper bound when the lower end of every interval
    comes first. *)
Lemma new_bounds_bounded (cos : list Coord) (k : nat) :
  cos ≠ [] → (1 ≤ k)%nat → Forall (holds_points k) cos →
  (∀ co, In co cos → bounds co ≠ None) →
  ∃ low top,
    new_bounds result_type cos
    = Ok (low, top,
          common_dtype result_type
            (map (fun b => default Float64 (option_map adtype b))
               (map bounds cos)))
    ∧ is_minimum low (all_bound_values cos)
    ∧ is_maximum top (all_bound_values cos)
    ∧ (Forall ordered_bounds cos →
       is_minimum low (lower_bounds cos) ∧ is_maximum top (upper_bounds cos)).
Proof.
  intros Hne Hk Hpts Hb. unfold new_bounds.
  assert (Hex : existsb (fun b : option (arr (Q * Q)) => bool_decide (b = None))
                  (map bounds cos) = false).
  { apply not_true_is_false. intros H. apply existsb_exists in H as (b & Hin & H).
    apply bool_decide_eq_true in H. subst b.
    apply in_map_iff in Hin as (co & Hco & Hin). exact (Hb co Hin Hco). }
  rewrite Hex. fold (bound_rows cos).
  assert (Hrows : Forall (fun r : list Q => length r = (2 * k)%nat) (bound_rows cos)).
  { unfold bound_rows. rewrite map_map. apply Forall_map.
    rewrite Forall_forall in Hpts |- *. intros co Hco.
    destruct (Hpts co Hco) as [_ Hlen].
    pose proof (Hb co (proj1 (list_elem_of_In _ _) Hco)) as Hsome.
    destruct (bounds co) as [b|]; [|contradiction]. simpl.
    specialize (Hlen b eq_refl). unfold bound_values.
    rewrite <- Hlen. clear. induction (avals b) as [|lu l IH]; simpl; [reflexivity|].
    rewrite IH. lia. }
  assert (Hne' : bound_rows cos ≠ []).
  { unfold bound_rows. destruct cos; [contradiction|discriminate]. }
  destruct (np_min_spec (2 * k) _ Hne' ltac:(lia) Hrows) as (low & -> & Hlin & Hlle).
  destruct (np_max_spec (2 * k) _ Hne' ltac:(lia) Hrows) as (top & -> & Htin & Htle).
  simpl. exists low, top. split; [reflexivity|].
  split; [|split].
  { split; [exists low; split; [exact Hlin|reflexivity]|exact Hlle]. }
  { split; [exists top; split; [exact Htin|reflexivity]|exact Htle]. }
  intros Hord. rewrite Forall_forall in Hord.
  split; split.
  - apply in_bound_rows in Hlin as (co & lu & Hco & Hlu & [-> | ->]).
    + exists (fst lu). split; [|reflexivity]. apply in_lower_bounds. eauto.
    + exists (fst lu). split; [apply in_lower_bounds; eauto|].
      apply Qle_antisym.
      * apply (Hord co (proj2 (list_elem_of_In _ _) Hco) lu Hlu).
      * apply Hlle, in_bound_rows. eauto 6.
  - intros x Hx. apply Hlle. apply in_lower_bounds in Hx as (co & lu & ? & ? & ->).
    apply in_bound_rows. eauto 6.
  - apply in_bound_rows in Htin as (co & lu & Hco & Hlu & [-> | ->]).
    + exists (snd lu). split; [apply in_upper_bounds; eauto|].
      apply Qle_antisym.
      * apply Htle, in_bound_rows. eauto 6.
      * apply (Hord co (proj2 (list_elem_of_In _ _) Hco) lu Hlu).
    + exists (snd lu). split; [|reflexivity]. apply in_upper_bounds. eauto.
  - intros x Hx. apply Htle. apply in_upper_bounds in Hx as (co & lu & ? & ? & ->).
    apply in_bound_rows. eauto 6.
Qed.

(** No contributor bounded: the new bound spans the points. *)
Lemma new_bounds_unbounded (cos : list Coord) (k : nat) :
  cos ≠ [] → (1 ≤ k)%nat → Forall (holds_points k) cos →
  (∀ co, In co cos → bounds co = None) →
  ∃ low top,
    new_bounds result_type cos
    = Ok (low, top,
          common_dtype result_type (map (fun co => adtype (points co)) cos))
    ∧ is_minimum low (all_points cos) ∧ is_maximum top (all_points cos).
Proof.
  intros Hne Hk Hpts Hb. unfold new_bounds.
  assert (Hall : forallb (fun b : option (arr (Q * Q)) => bool_decide (b = None))
                   (map bounds cos) = true).
  { apply forallb_forall. intros b Hin.
    apply in_map_iff in Hin as (co & <- & Hin).
    apply bool_decide_eq_true, Hb, Hin. }
  assert (Hex : existsb (fun b : option (arr (Q * Q)) => bool_decide (b = None))
                  (map bounds cos) = true).
  { destruct cos as [|co cos]; [contradiction|]. simpl in *.
    apply andb_true_iff in Hall as [-> _]. reflexivity. }
  rewrite Hex, Hall. simpl.
  assert (Hrows : Forall (fun r : list Q => length r = k)
                    (map (fun co => avals (points co)) cos)).
  { apply Forall_map. rewrite Forall_forall in Hpts |- *. intros co Hco.
    apply (Hpts co Hco). }
  assert (Hne' : map (fun co => avals (points co)) cos ≠ []).
  { destruct cos; [contradiction|discriminate]. }
  destruct (np_min_spec k _ Hne' Hk Hrows) as (low & -> & Hlin & Hlle).
  destruct (np_max_spec k _ Hne' Hk Hrows) as (top & -> & Htin & Htle).
  simpl. exists low, top. split; [reflexivity|].
  unfold all_points. rewrite flat_map_concat_map.
  split; split.
  - exists low. split; [exact Hlin|reflexivity].
  - exact Hlle.
  - exists top. split; [exact Htin|reflexivity].
  - exact Htle.
Qed.

Lemma expanded_coord_name (low top : Q) (d : dtype) (co : Coord) :
  coord_name (expanded_coord FLOAT_DTYPE FLOAT_TYPES cast low top d co)
  = coord_name co.
Proof. reflexivity. Qed.

Lemma expansion_name (cubelist : list Cube) (n : string) (co : Coord) :
  coord_name (expansion FLOAT_DTYPE FLOAT_TYPES cast result_type cubelist n co)
  = coord_name co.
Proof. unfold expansion. destruct (_ ≫= _); reflexivity. Qed.

Lemma expansion_idem (cubelist : list Cube) (n : string) (co : Coord) :
  expansion FLOAT_DTYPE FLOAT_TYPES cast result_type cubelist n
    (expansion FLOAT_DTYPE FLOAT_TYPES cast result_type cubelist n co)
  = expansion FLOAT_DTYPE FLOAT_TYPES cast result_type cubelist n co.
Proof. unfold expansion. destruct (_ ≫= _); reflexivity. Qed.

Lemma expansion_n_points (cubelist : list Cube) (n : string) (co : Coord) :
  n_points co = 1%nat →
  n_points (expansion FLOAT_DTYPE FLOAT_TYPES cast result_type cubelist n co)
  = 1%nat.
Proof.
  intros H. unfold expansion. destruct (_ ≫= _) as [[[low top] d]|]; [|exact H].
  unfold expanded_coord, n_points. simpl. destruct (dtype_in d FLOAT_TYPES); reflexivity.
Qed.

(** One round of the loop of [expand_bounds]. *)
Lemma expand_one_spec (cubelist : list Cube) (c : Cube) (n : string)
  (rc : Coord) (lt : Q * Q * dtype) :
  coord c n = Ok rc → n_points rc = 1%nat →
  (cos ← map_result (fun cube => coord cube n) cubelist;
   new_bounds result_type cos) = Ok lt →
  ∃ c',
    expand_one FLOAT_DTYPE FLOAT_TYPES cast result_type cubelist c n = Ok c'
    ∧ ∀ m co, coord c m = Ok co →
        coord c' m
        = Ok (changed n
                (expansion FLOAT_DTYPE FLOAT_TYPES cast result_type cubelist n)
                co).
Proof.
  intros Hrc Hone Hlt. unfold expand_one. rewrite Hrc. simpl. rewrite Hone. simpl.
  destruct (map_result (fun cube => coord cube n) cubelist) as [cos|e] eqn:Ecos;
    simpl in Hlt; [|discriminate].
  simpl. rewrite Hlt. simpl.
  rewrite (update_coord_ok _ _ _ _ Hrc). eexists. split; [reflexivity|].
  intros m co Hm.
  rewrite (coord_update_coord c _ n m _ (expanded_coord_name _ _ _)
             (update_coord_ok _ _ _ _ Hrc)), Hm.
  f_equal. unfold changed, expansion. rewrite Ecos. simpl. rewrite Hlt. reflexivity.
Qed.

(** The whole loop: every coordinate named is expanded, the others stay. *)
Lemma expand_loop (cubelist : list Cube) (names : list string) :
  ∀ c : Cube,
    (∀ n, n ∈ names →
          (∃ rc, coord c n = Ok rc ∧ n_points rc = 1%nat)
          ∧ ∃ lt, (cos ← map_result (fun cube => coord cube n) cubelist;
                   new_bounds result_type cos) = Ok lt) →
    ∃ r,
      expand_bounds FLOAT_DTYPE FLOAT_TYPES cast result_type c cubelist names
      = Ok r
      ∧ ∀ m co, coord c m = Ok co →
          coord r m
          = Ok (if bool_decide (m ∈ names)
                then expansion FLOAT_DTYPE FLOAT_TYPES cast result_type
                       cubelist m co
                else co).
Proof.
  unfold expand_bounds.
  induction names as [|n names IH]; intros c Hyp.
  - exists c. split; [reflexivity|]. intros m co Hm. exact Hm.
  - destruct (Hyp n (list_elem_of_here _ _)) as [(rc & Hrc & Hone) [lt Hlt]].
    destruct (expand_one_spec cubelist c n rc lt Hrc Hone Hlt) as (c1 & Hc1 & Hlook).
    simpl. rewrite Hc1. simpl.
    destruct (IH c1) as (r & Hr & Hall).
    { intros m Hm. destruct (Hyp m (list_elem_of_further _ _ _ Hm))
        as [(rc' & Hrc' & Hone') Hlt'].
      split; [|exact Hlt'].
      eexists. split; [apply Hlook, Hrc'|].
      unfold changed. destruct (named n rc'); [|exact Hone'].
      apply expansion_n_points, Hone'. }
    exists r. split; [exact Hr|].
    intros m co Hm. rewrite (Hall m _ (Hlook m co Hm)). f_equal.
    pose proof (coord_name_of _ _ _ Hm) as Hname.
    unfold changed, named, string_eqb. rewrite Hname.
    repeat case_bool_decide; subst; try reflexivity;
      try apply expansion_idem; exfalso;
      repeat match goal with
             | H : _ ∈ _ :: _ |- _ => apply elem_of_cons in H as [?|?]
             | H : ¬ (_ ∈ _ :: _) |- _ => rewrite elem_of_cons in H
             end; tauto.
Qed.

Lemma contributes_fun (cubelist : list Cube) (n : string) (cos cos' : list Coord) :
  contributes cubelist n cos → contributes cubelist n cos' → cos = cos'.
Proof.
  unfold contributes. intros H. revert cos'.
  induction H as [|cube co l cos Hc _ IH]; intros cos' H'; inversion H'; subst;
    [reflexivity|].
  f_equal; [congruence|]. apply IH. assumption.
Qed.

(** C4: for every coordinate name given to [expand_bounds] whose coordinate on
    the target cube holds exactly one point (the contributing cubes holding
    that coordinate with one and the same number of points, at least one):
    when every contributor has bounds, the bound of the target becomes the
    least and the greatest of all ends of the contributors' bound intervals,
    that is, the least of the lower bounds and the greatest of the upper
    bounds when every bound is an interval with its lower end first, and the
    point of the target becomes that new upper bound; when no contributor has
    bounds, the bound is the least and the greatest of the contributors'
    points, and the point the greatest.  Bound and point are rounded to the
    declared floating precision when their element type is a floating-point
    one, and are left as computed otherwise. *)
Theorem expand_bounds_single_point (result_cube : Cube) (cubelist : list Cube)
  (coord_names : list string)
  (Hcubes : cubelist ≠ [])
  (Htarget : ∀ n, n ∈ coord_names →
               ∃ rc, coord result_cube n = Ok rc ∧ n_points rc = 1%nat)
  (Hcontrib : ∀ n, n ∈ coord_names →
                ∃ cos k,
                  contributes cubelist n cos ∧ (1 ≤ k)%nat
                  ∧ Forall (holds_points k) cos
                  ∧ ((∀ co, In co cos → bounds co ≠ None)
                     ∨ (∀ co, In co cos → bounds co = None))) :
  ∃ r,
    expand_bounds FLOAT_DTYPE FLOAT_TYPES cast result_type result_cube cubelist
      coord_names = Ok r
    ∧ ∀ n cos, n ∈ coord_names → contributes cubelist n cos →
        ∃ co' low top d,
          coord r n = Ok co'
          ∧ (dtype_in d FLOAT_TYPES = true →
             bounds co'
             = Some (mk_arr FLOAT_DTYPE
                       [(cast FLOAT_DTYPE low, cast FLOAT_DTYPE top)])
             ∧ points co' = mk_arr FLOAT_DTYPE [cast FLOAT_DTYPE top])
          ∧ (dtype_in d FLOAT_TYPES = false →
             bounds co' = Some (mk_arr d [(low, top)])
             ∧ points co' = mk_arr d [top])
          ∧ ((∀ co, In co cos → bounds co ≠ None) →
             d = common_dtype result_type
                   (map (fun b => default Float64 (option_map adtype b))
                      (map bounds cos))
             ∧ is_minimum low (all_bound_values cos)
             ∧ is_maximum top (all_bound_values cos)
             ∧ (Forall ordered_bounds cos →
                is_minimum low (lower_bounds cos)
                ∧ is_maximum top (upper_bounds cos)))
          ∧ ((∀ co, In co cos → bounds co = None) →
             d = common_dtype result_type
                   (map (fun co => adtype (points co)) cos)
             ∧ is_minimum low (all_points cos)
             ∧ is_maximum top (all_points cos)).
Proof.
  assert (Hlt : ∀ n cos, n ∈ coord_names → contributes cubelist n cos →
                ∃ low top d,
                  (cos' ← map_result (fun cube => coord cube n) cubelist;
                   new_bounds result_type cos') = Ok (low, top, d)
                  ∧ ((∀ co, In co cos → bounds co ≠ None) →
                     d = common_dtype result_type
                           (map (fun b => default Float64 (option_map adtype b))
                              (map bounds cos))
                     ∧ is_minimum low (all_bound_values cos)
                     ∧ is_maximum top (all_bound_values cos)
                     ∧ (Forall ordered_bounds cos →
                        is_minimum low (lower_bounds cos)
                        ∧ is_maximum top (upper_bounds cos)))
                  ∧ ((∀ co, In co cos → bounds co = None) →
                     d = common_dtype result_type
                           (map (fun co => adtype (points co)) cos)
                     ∧ is_minimum low (all_points cos)
                     ∧ is_maximum top (all_points cos))).
  { intros n cos Hn Hcos.
    destruct (Hcontrib n Hn) as (cos' & k & Hcos' & Hk & Hpts & Hcase).
    rewrite <- (contributes_fun _ _ _ _ Hcos Hcos') in *. clear Hcos'.
    assert (Hne : cos ≠ []).
    { intros ->. inversion Hcos. subst. contradiction. }
    rewrite (map_result_Forall2 _ _ _ Hcos). simpl.
    destruct cos as [|co0 cos0] eqn:Ecos; [contradiction|]. rewrite <- Ecos in *.
    assert (Hco0 : In co0 cos) by (rewrite Ecos; left; reflexivity).
    destruct Hcase as [Hb|Hb].
    - destruct (new_bounds_bounded cos k Hne Hk Hpts Hb)
        as (low & top & Hnb & Hmin & Hmax & Hord).
      exists low, top. eexists. split; [exact Hnb|]. split.
      + intros _. split; [reflexivity|]. split; [exact Hmin|].
        split; [exact Hmax|exact Hord].
      + intros Hnone. exfalso. apply (Hb co0 Hco0), Hnone, Hco0.
    - destruct (new_bounds_unbounded cos k Hne Hk Hpts Hb)
        as (low & top & Hnb & Hmin & Hmax).
      exists low, top. eexists. split; [exact Hnb|]. split.
      + intros Hsome. exfalso. apply (Hsome co0 Hco0), Hb, Hco0.
      + intros _. split; [reflexivity|]. split; [exact Hmin|exact Hmax]. }
  destruct (expand_loop cubelist coord_names result_cube) as (r & Hr & Hall).
  { intros n Hn. split; [apply Htarget, Hn|].
    destruct (Hcontrib n Hn) as (cos & _ & Hcos & _).
    destruct (Hlt n cos Hn Hcos) as (low & top & d & H & _). eauto. }
  exists r. split; [exact Hr|].
  intros n cos Hn Hcos.
  destruct (Htarget n Hn) as (rc & Hrc & _).
  destruct (Hlt n cos Hn Hcos) as (low & top & d & Hnb & Hb & Hu).
  exists (expansion FLOAT_DTYPE FLOAT_TYPES cast result_type cubelist n rc),
    low, top, d.
  split.
  { rewrite (Hall n rc Hrc). rewrite bool_decide_eq_true_2 by exact Hn.
    reflexivity. }
  unfold expansion. rewrite Hnb. unfold expanded_coord. simpl.
  split; [|split; [|split; [exact Hb|exact Hu]]];
    intros Hd; rewrite Hd; split; reflexivity.
Qed.

End ExpandBoundsProperties.

(** The examples of the specification.  Bound intervals [[0, 1]] and [[1, 2]]
    give the bound [[0, 2]] and the point [2]. *)
Example expand_bounds_bounded_example :
  ∃ r,
    expand_bounds Float32 [Float64; Float32] exact_cast np_result_type
      (scalar_time_cube (bounded_time 1 0 1))
      [scalar_time_cube (bounded_time 1 0 1);
       scalar_time_cube (bounded_time 2 1 2)]
      ["time"] = Ok r
    ∧ coord r "time"
      = Ok (mk_Coord "time" None "hours" false (mk_arr Float32 [2%Q])
              (Some (mk_arr Float32 [(0%Q, 2%Q)]))).
Proof. eexists. split; vm_compute; reflexivity. Qed.

(** Points [0.5] and [1.5] without bounds give the bound [[0.5, 1.5]] and the
    point [1.5]. *)
Example expand_bounds_unbounded_example :
  ∃ r,
    expand_bounds Float32 [Float64; Float32] exact_cast np_result_type
      (scalar_time_cube (unbounded_time (1 # 2)))
      [scalar_time_cube (unbounded_time (1 # 2));
       scalar_time_cube (unbounded_time (3 # 2))]
      ["time"] = Ok r
    ∧ coord r "time"
      = Ok (mk_Coord "time" None "hours" false (mk_arr Float32 [3 # 2])
              (Some (mk_arr Float32 [(1 # 2, 3 # 2)]))).
Proof. eexists. split; vm_compute; reflexivity. Qed.

(** The bounded example meets the conditions of the theorem. *)
Lemma expand_bounds_single_point_witness :
  ∃ r,
    expand_bounds Float32 [Float64; Float32] exact_cast np_result_type
      (scalar_time_cube (bounded_time 1 0 1))
      [scalar_time_cube (bounded_time 1 0 1);
       scalar_time_cube (bounded_time 2 1 2)]
      ["time"] = Ok r.
Proof.
  destruct (expand_bounds_single_point Float32 [Float64; Float32] exact_cast
              np_result_type
              (scalar_time_cube (bounded_time 1 0 1))
              [scalar_time_cube (bounded_time 1 0 1);
               scalar_time_cube (bounded_time 2 1 2)]
              ["time"]) as (r & Hr & _).
  - discriminate.
  - intros n Hn. apply list_elem_of_singleton in Hn as ->.
    eexists. split; [vm_compute; reflexivity|reflexivity].
  - intros n Hn. apply list_elem_of_singleton in Hn as ->.
    exists [bounded_time 1 0 1; bounded_time 2 1 2], 1%nat.
    split; [repeat constructor|]. split; [lia|].
    split; [repeat constructor; intros b Hb; injection Hb as <-; reflexivity|].
    left. intros co [<-|[<-|[]]]; discriminate.
  - exists r. exact Hr.
Defined.

(** ** Indexing along a dimension coordinate *)

Lemma filter_keep_all {A : Type} (p : A → bool) (l : list A) :
  (∀ x, In x l → p x = true) → List.filter p l = l.
Proof.
  induction l as [|x l IH]; intros H; simpl; [reflexivity|].
  rewrite (H x (or_introl eq_refl)), IH; [reflexivity|].
  intros y Hy. apply H. right. exact Hy.
Qed.

Lemma filter_keep_none {A : Type} (p : A → bool) (l : list A) :
  (∀ x, In x l → p x = false) → List.filter p l = [].
Proof.
  induction l as [|x l IH]; intros H; simpl; [reflexivity|].
  rewrite (H x (or_introl eq_refl)), IH; [reflexivity|].
  intros y Hy. apply H. right. exact Hy.
Qed.

Lemma filter_flat_map_comm {A B : Type} (p : A → bool) (q : B → bool)
  (g : A → list B) (l : list A) :
  (∀ a b, In b (g a) → q b = p a) →
  List.filter q (flat_map g l) = flat_map g (List.filter p l).
Proof.
  intros Hg. induction l as [|x l IH]; simpl; [reflexivity|].
  rewrite List.filter_app, IH.
  destruct (p x) eqn:Ex; simpl.
  - f_equal. apply filter_keep_all.
    intros b Hb. rewrite (Hg x b Hb). exact Ex.
  - rewrite filter_keep_none; [reflexivity|].
    intros b Hb. rewrite (Hg x b Hb). exact Ex.
Qed.

Lemma filter_map_fst {A B : Type} (p : A → bool) (l : list (A * B)) :
  List.filter p (map fst l) = map fst (List.filter (fun ab => p (fst ab)) l).
Proof.
  induction l as [|x l IH]; simpl; [reflexivity|].
  destruct (p (fst x)); simpl; rewrite IH; reflexivity.
Qed.

(** A cube whose coordinate [n] is the dimension coordinate [co] of axis [k]
    lists no other coordinate of that name. *)
Lemma dim_coord_only (c : Cube) (n : string) (co : Coord) (k : nat) :
  coord c n = Ok co → In (co, k) (dim_coords_and_dims c) →
  List.filter (fun cd : Coord * nat => named n (fst cd)) (dim_coords_and_dims c)
  = [(co, k)]
  ∧ List.filter (fun cd : Coord * list nat => named n (fst cd))
      (aux_coords_and_dims c) = [].
Proof.
  intros Hco Hin.
  pose proof (coord_name_of _ _ _ Hco) as Hname.
  pose proof (coords_named_perm c n) as Hp.
  rewrite (coord_inv _ _ _ Hco), List.filter_app, !filter_map_fst in Hp.
  apply Permutation_length in Hp. rewrite length_app, !length_map in Hp.
  simpl in Hp.
  assert (Hin' : In (co, k)
                   (List.filter (fun cd : Coord * nat => named n (fst cd))
                      (dim_coords_and_dims c))).
  { apply filter_In. split; [exact Hin|]. apply named_spec, Hname. }
  destruct (List.filter (fun cd : Coord * nat => named n (fst cd))
              (dim_coords_and_dims c)) as [|x [|y l]];
    simpl in *; [contradiction| |lia].
  destruct Hin' as [->|[]]. split; [reflexivity|].
  destruct (List.filter _ (aux_coords_and_dims c)); [reflexivity|simpl in Hp; lia].
Qed.

Lemma coord_dims_of_dim (c : Cube) (n : string) (co : Coord) (k : nat) :
  coord c n = Ok co → In (co, k) (dim_coords_and_dims c) →
  coord_dims c n = Ok [k].
Proof.
  intros Hco Hin. destruct (dim_coord_only c n co k Hco Hin) as [Hd Ha].
  unfold coord_dims, coords_and_dims.
  assert (E : ∀ l : list (Coord * nat),
            List.filter (fun cd : Coord * list nat => named n (fst cd))
              (map (fun cd : Coord * nat => (fst cd, [snd cd])) l)
            = map (fun cd : Coord * nat => (fst cd, [snd cd]))
                (List.filter (fun cd : Coord * nat => named n (fst cd)) l)).
  { induction l as [|x l IH]; simpl; [reflexivity|].
    destruct (named n (fst x)); simpl; rewrite IH; reflexivity. }
  assert (Hs : List.filter (fun cd : Coord * nat => named n (fst cd))
                 (sort_by (fun a b => Nat.leb (snd a) (snd b))
                    (dim_coords_and_dims c)) = [(co, k)]).
  { apply Permutation_singleton_r. rewrite <- Hd.
    apply filter_perm, sort_by_perm. }
  rewrite List.filter_app, Ha, app_nil_r, E, Hs. reflexivity.
Qed.

Lemma pick_points_name (co : Coord) (idxs : list nat) :
  coord_name (pick_points co idxs) = coord_name co.
Proof. reflexivity. Qed.

(** The auxiliary coordinates after indexing axis [k]. *)
Lemma aux_index_ok (aux : list (Coord * list nat)) (k : nat) (sel : index) :
  (∀ cd, In cd aux → In k (snd cd) → snd cd = [k]) →
  ∃ aux',
    map_result
      (fun cd : Coord * list nat =>
         if existsb (Nat.eqb k) (snd cd) then
           match snd cd with
           | [_] => Ok (pick_points (fst cd) (positions sel),
                        if drops_axis sel then [] else snd cd)
           | _ => Raise NotModelled
           end
         else if drops_axis sel then Ok (fst cd, map (shift_down k) (snd cd))
         else Ok cd)
      aux = Ok aux'
    ∧ ∀ n, List.filter (fun cd : Coord * list nat => named n (fst cd)) aux = [] →
           List.filter (fun cd : Coord * list nat => named n (fst cd)) aux' = [].
Proof.
  induction aux as [|cd aux IH]; intros Hok; simpl.
  - exists []. split; [reflexivity|]. intros; reflexivity.
  - destruct IH as (aux' & Haux & Hnames).
    { intros cd' Hin. apply Hok. right. exact Hin. }
    rewrite Haux.
    destruct (existsb (Nat.eqb k) (snd cd)) eqn:Ek.
    + assert (Hk : In k (snd cd)).
      { apply existsb_exists in Ek as (x & Hx & E).
        apply Nat.eqb_eq in E. subst x. exact Hx. }
      rewrite (Hok cd (or_introl eq_refl) Hk). simpl.
      eexists. split; [reflexivity|].
      intros n Hf. simpl in Hf |- *.
      change (named n (pick_points (fst cd) (positions sel)))
        with (named n (fst cd)).
      destruct (named n (fst cd)); [discriminate|]. apply Hnames, Hf.
    + destruct (drops_axis sel); simpl; (eexists; split; [reflexivity|]);
        intros n Hf; simpl in Hf |- *; destruct (named n (fst cd));
        try discriminate; apply Hnames, Hf.
Qed.

Lemma index_array_ok (a : ndarray) (k m : nat) (sel : index) :
  shape a !! k = Some m →
  Forall (fun i => (i < m)%nat) (positions sel) →
  index_array a k sel
  = Ok (mk_ndarray (dtype_of a) (index_shape (shape a) k sel)
          (select_axis (shape a) k (positions sel) (flat a))
          (option_map (select_axis (shape a) k (positions sel)) (mask a))).
Proof.
  intros Hk Hall. unfold index_array. rewrite Hk.
  rewrite (proj2 (forallb_forall _ _)); [reflexivity|].
  intros i Hi. apply Nat.ltb_lt. rewrite Forall_forall in Hall.
  apply Hall, list_elem_of_In, Hi.
Qed.

(** Indexing a cube along the axis of a dimension coordinate: the coordinate
    keeps the points at the positions taken, the payload the values there. *)
Lemma index_axis_spec (c : Cube) (n : string) (co : Coord) (k : nat) (sel : index) :
  dim_coord_on c n co k →
  Forall (fun i => (i < n_points co)%nat) (positions sel) →
  ∃ sub,
    index_axis c k sel = Ok sub
    ∧ coord sub n = Ok (pick_points co (positions sel))
    ∧ data sub
      = mk_ndarray (dtype_of (data c)) (index_shape (shape (data c)) k sel)
          (select_axis (shape (data c)) k (positions sel) (flat (data c)))
          (option_map (select_axis (shape (data c)) k (positions sel))
             (mask (data c)))
    ∧ name sub = name c ∧ var_name sub = var_name c.
Proof.
  unfold dim_coord_on. intros (Hco & Hin & Hshape & Haux) Hsel.
  destruct (dim_coord_only c n co k Hco Hin) as [Hd Ha].
  destruct (aux_index_ok (aux_coords_and_dims c) k sel Haux) as (aux' & Haux' & Hn).
  unfold index_axis. rewrite (index_array_ok _ _ _ _ Hshape Hsel). simpl.
  rewrite Haux'. simpl. eexists. split; [reflexivity|].
  split; [|repeat split].
  apply coord_of_perm. simpl.
  rewrite List.filter_app, !filter_map_fst, List.filter_app, (Hn n Ha).
  destruct sel as [i|idxs]; simpl;
    rewrite !(filter_flat_map_comm (fun cd : Coord * nat => named n (fst cd)))
      by (intros a b; destruct (Nat.eqb (snd a) k); simpl;
          intros Hb; repeat destruct Hb as [Hb|Hb]; try contradiction; subst;
          reflexivity);
    rewrite ?Hd; simpl; rewrite Nat.eqb_refl; reflexivity.
Qed.

(** ** Extracting the cells that satisfy a constraint *)

Lemma where_true_points {A : Type} (p : A → bool) (l : list A) :
  ∀ pre : list A,
    omap (fun i => (pre ++ l) !! i) (where_true (map p l) (length pre))
    = List.filter p l.
Proof.
  induction l as [|x l IH]; intros pre; simpl; [reflexivity|].
  specialize (IH (pre ++ [x])). rewrite <- app_assoc, length_app in IH.
  simpl in IH. rewrite Nat.add_1_r in IH.
  rewrite omap_app, IH.
  destruct (p x); simpl; [|reflexivity].
  rewrite list_lookup_middle by reflexivity. reflexivity.
Qed.

Lemma where_true_bound (r : list bool) :
  ∀ off, Forall (fun i => (i < off + length r)%nat) (where_true r off).
Proof.
  induction r as [|b r IH]; intros off; simpl; [constructor|].
  apply Forall_app. split.
  - destruct b; constructor; [lia|constructor].
  - eapply Forall_impl; [apply (IH (S off))|]. simpl. intros; lia.
Qed.

Lemma where_true_length {A : Type} (p : A → bool) (l : list A) :
  ∀ off, length (where_true (map p l) off) = length (List.filter p l).
Proof.
  induction l as [|x l IH]; intros off; simpl; [reflexivity|].
  rewrite length_app, IH. destruct (p x); reflexivity.
Qed.

Lemma forallb_id_map {A : Type} (p : A → bool) (l : list A) :
  forallb id (map p l) = forallb p l.
Proof. induction l as [|x l IH]; simpl; [|rewrite IH]; reflexivity. Qed.

Lemma filter_all_iff {A : Type} (p : A → bool) (l : list A) :
  forallb p l = true ↔ List.filter p l = l.
Proof.
  split.
  - intros H. apply filter_keep_all. apply forallb_forall, H.
  - intros H. apply forallb_forall. intros x Hx. rewrite <- H in Hx.
    apply filter_In in Hx as [_ Hx]. exact Hx.
Qed.

(** [cube.extract] on an unbounded dimension coordinate, with a constraint
    that reads the points: nothing when no point satisfies it, the cube
    itself when every point does, and otherwise the part of the cube at the
    positions of the points that do. *)
Lemma extract_spec (c : Cube) (n : string) (co : Coord) (k : nat)
  (p : Cell → bool) (p' : Q → bool) :
  dim_coord_on c n co k → bounds co = None →
  (∀ q, p (mk_Cell q None) = p' q) →
  (List.filter p' (avals (points co)) = [] → extract c n p = Ok None)
  ∧ (List.filter p' (avals (points co)) ≠ [] →
     ∃ sub co',
       extract c n p = Ok (Some sub)
       ∧ coord sub n = Ok co'
       ∧ avals (points co') = List.filter p' (avals (points co))
       ∧ (forallb p' (avals (points co)) = true → sub = c)
       ∧ (forallb p' (avals (points co)) = false →
          index_axis c k
            (match where_true (map p' (avals (points co))) 0 with
             | [i] => At i
             | hits => Pick hits
             end) = Ok sub
          ∧ flat (data sub)
            = select_axis (shape (data c)) k
                (where_true (map p' (avals (points co))) 0) (flat (data c)))).
Proof.
  intros Hdim Hb Hp.
  pose proof Hdim as (Hco & Hin & Hshape & Haux).
  assert (Hcells : map p (cells co) = map p' (avals (points co))).
  { unfold cells. rewrite Hb, map_map. apply map_ext. intros q. apply Hp. }
  pose proof (where_true_points p' (avals (points co)) []) as Hpts.
  pose proof (where_true_length p' (avals (points co)) 0) as Hlen.
  pose proof (where_true_bound (map p' (avals (points co))) 0) as Hbound.
  simpl in Hpts, Hbound. rewrite length_map in Hbound.
  unfold extract. rewrite Hco. rewrite (coord_dims_of_dim _ _ _ _ Hco Hin).
  simpl. rewrite Hcells, forallb_id_map.
  set (hits := where_true (map p' (avals (points co))) 0) in *.
  split.
  - intros Hnone. rewrite Hnone in Hlen. destruct hits; [reflexivity|discriminate].
  - intros Hsome.
    destruct (forallb p' (avals (points co))) eqn:Hall.
    + exists c, co. apply filter_all_iff in Hall.
      split.
      { destruct hits as [|i [|j hits']]; try reflexivity.
        rewrite <- Hall in Hsome. destruct (List.filter p' _); [contradiction|].
        discriminate. }
      split; [exact Hco|]. split; [symmetry; exact Hall|].
      split; [reflexivity|discriminate].
    + assert (Hsel : ∃ sel, positions sel = hits
                            ∧ sel = match hits with [i] => At i | _ => Pick hits end).
      { exists (match hits with [i] => At i | _ => Pick hits end).
        destruct hits as [|i [|j hits']]; split; reflexivity. }
      destruct Hsel as (sel & Hpos & Hsel).
      destruct (index_axis_spec c n co k sel Hdim) as (sub & Hsub & Hcs & Hd & _).
      { rewrite Hpos. exact Hbound. }
      exists sub, (pick_points co (positions sel)).
      split.
      { destruct hits as [|i [|j hits']]; subst sel.
        - destruct (List.filter p' _); [contradiction|discriminate].
        - rewrite Hsub. reflexivity.
        - rewrite Hsub. reflexivity. }
      split; [exact Hcs|]. split; [simpl; rewrite Hpos; exact Hpts|].
      split; [discriminate|]. intros _. split.
      * rewrite <- Hsub. f_equal. rewrite Hsel.
        destruct hits as [|i [|j hits']]; reflexivity.
      * rewrite Hd, Hpos. reflexivity.
Qed.

(** ** The maximum between two heights *)

Section MaximumInHeight.

Context (iris_collapsed : Cube → coord_arg → Aggregator → result Cube).


End MaximumInHeight.

(** The example of the specification: with heights 100, 200 and 300 and the
    range from 150 to 300, the maximum is taken over the levels 200 and 300
    only (the value 9 at the level 100 is left out). *)
Example maximum_in_height_example :
  ∃ r,
    maximum_in_height leading_max_collapsed three_level_cube
      (Some (150 # 1)) (Some (300 # 1)) None = Ok r
    ∧ flat (data r) = [Fin 7; Fin 5].
Proof. eexists. split; vm_compute; reflexivity. Qed.

(** With a range that leaves out every level, the call fails. *)
Example maximum_in_height_empty_example :
  maximum_in_height leading_max_collapsed three_level_cube
    (Some (400 # 1)) (Some (500 # 1)) None
  = Raise (ValueError no_levels_message).
Proof. vm_compute. reflexivity. Qed.


(** ** The height of the maximum *)

Lemma where_eq_lookup (level maximum out : list num) (p : Q) :
  length level = length maximum → length out = length maximum →
  length (where_eq level maximum p out) = length maximum
  ∧ ∀ j a b c,
      level !! j = Some a → maximum !! j = Some b → out !! j = Some c →
      where_eq level maximum p out !! j
      = Some (if num_eqb a b then Fin p else c).
Proof.
  revert maximum out.
  induction level as [|l level IH]; intros [|m maximum] [|o out] Hl Ho;
    simpl in *; try discriminate.
  - split; [reflexivity|]. intros j a b c H. discriminate.
  - destruct (IH maximum out) as [Hlen Hcell]; [lia|lia|].
    split; [rewrite Hlen; reflexivity|].
    intros [|j] a b c Ha Hb Hc; simpl in *.
    + injection Ha as ->. injection Hb as ->. injection Hc as ->. reflexivity.
    + apply Hcell; assumption.
Qed.

Lemma select_leading (s : list nat) (n h : nat) (l : list num) :
  select_axis (n :: s) 0 [h] l = take (prod s) (drop (h * prod s) l).
Proof.
  unfold select_axis. simpl. rewrite !app_nil_r. reflexivity.
Qed.

Lemma level_lookup (l : list num) (size n h j : nat) :
  length l = (n * size)%nat → (h < n)%nat → (j < size)%nat →
  ∃ v, take size (drop (h * size) l) !! j = Some v
       ∧ l !! (h * size + j)%nat = Some v.
Proof.
  intros Hlen Hh Hj.
  assert (Hlt : (h * size + j < length l)%nat) by nia.
  destruct (lookup_lt_is_Some_2 l _ Hlt) as [v Hv].
  exists v. split; [|exact Hv].
  rewrite lookup_take_lt by exact Hj. rewrite lookup_drop. exact Hv.
Qed.

Lemma last_match_cons (f : nat → bool) (h : nat) (scan : list nat) :
  last_match f (h :: scan)
  = match last_match f scan with
    | Some h' => Some h'
    | None => if f h then Some h else None
    end.
Proof.
  unfold last_match. simpl.
  destruct (f h); [|destruct (last (List.filter f scan)); reflexivity].
  destruct (List.filter f scan) as [|x l]; [reflexivity|].
  rewrite last_cons. destruct (last (x :: l)) eqn:E; [reflexivity|].
  apply last_None in E. discriminate.
Qed.

Lemma last_match_none (f : nat → bool) (scan : list nat) :
  (∀ h, In h scan → f h = false) → last_match f scan = None.
Proof.
  intros H. unfold last_match. rewrite filter_keep_none by exact H. reflexivity.
Qed.

(** Scanning upwards, the last match is the highest matching level. *)
Lemma last_match_ascending (f : nat → bool) (n h : nat) :
  (h < n)%nat → f h = true →
  (∀ h', (h' < n)%nat → (h < h')%nat → f h' = false) →
  last_match f (seq 0 n) = Some h.
Proof.
  intros Hh Hf Hhigher. unfold last_match.
  replace n with (h + (1 + (n - h - 1)))%nat by lia.
  rewrite !seq_app, !List.filter_app. simpl. rewrite Hf.
  rewrite (filter_keep_none f (seq (h + 1) _)).
  - rewrite app_nil_r. apply last_snoc.
  - intros h' Hin. apply in_seq in Hin. apply Hhigher; lia.
Qed.

(** Scanning downwards, the last match is the lowest matching level. *)
Lemma last_match_descending (f : nat → bool) (n h : nat) :
  (h < n)%nat → f h = true →
  (∀ h', (h' < n)%nat → (h' < h)%nat → f h' = false) →
  last_match f (rev (seq 0 n)) = Some h.
Proof.
  intros Hh Hf Hlower. unfold last_match.
  replace n with (h + (1 + (n - h - 1)))%nat by lia.
  rewrite !seq_app, !rev_app_distr, !List.filter_app. simpl. rewrite Hf.
  rewrite (filter_keep_none f (rev (seq 0 h))).
  - rewrite app_nil_r. apply last_snoc.
  - intros h' Hin. apply in_rev, in_seq in Hin. apply Hlower; lia.
Qed.

Section HeightOfMaximum.

Context (result_type : dtype → dtype → dtype).

(** One round of the scan: wherever the level equals the maximum, the output
    takes the height of the level; elsewhere it keeps what it held. *)
Lemma scan_level_spec (cube max_cube : Cube) (co : Coord) (rest : list nat)
  (hom : Cube) (h : nat) (p : Q) :
  dim_coord_on cube "height" co 0 →
  shape (data cube) = n_points co :: rest →
  length (flat (data cube)) = (n_points co * prod rest)%nat →
  mask (data cube) = None →
  shape (data max_cube) = rest →
  length (flat (data max_cube)) = prod rest →
  mask (data max_cube) = None →
  avals (points co) !! h = Some p →
  shape (data hom) = rest → mask (data hom) = None →
  length (flat (data hom)) = prod rest →
  ∃ d,
    scan_level result_type cube max_cube hom h = Ok (set_data hom d)
    ∧ shape d = rest ∧ mask d = None ∧ length (flat d) = prod rest
    ∧ ∀ j m o,
        flat (data max_cube) !! j = Some m → flat (data hom) !! j = Some o →
        flat d !! j
        = Some (if level_matches cube (prod rest) j m h then Fin p else o).
Proof.
  intros Hdim Hshape Hsize Hmask Hms Hml Hmm Hp Hhs Hhm Hhl.
  assert (Hh : (h < n_points co)%nat) by (apply lookup_lt_Some in Hp; exact Hp).
  destruct (index_axis_spec cube "height" co 0 (At h) Hdim)
    as (level & Hlevel & Hlco & Hld & _).
  { simpl. constructor; [exact Hh|constructor]. }
  unfold scan_level. rewrite Hlevel. simpl. rewrite Hlco. simpl.
  rewrite Hp. simpl.
  rewrite Hld, Hshape, Hmask. simpl. rewrite select_leading.
  unfold np_where_eq. simpl. rewrite Hmm, Hhm, Hms, Hhs.
  rewrite !bool_decide_eq_true_2 by reflexivity. simpl.
  eexists. split; [reflexivity|]. simpl.
  assert (Hrow : length (take (prod rest) (drop (h * prod rest) (flat (data cube))))
                 = prod rest).
  { rewrite length_take, length_drop, Hsize. nia. }
  destruct (where_eq_lookup
              (take (prod rest) (drop (h * prod rest) (flat (data cube))))
              (flat (data max_cube)) (flat (data hom)) p)
    as [Hlen Hcell]; [lia|lia|].
  split; [reflexivity|]. split; [reflexivity|]. split; [lia|].
  intros j m o Hm Ho.
  assert (Hj : (j < prod rest)%nat).
  { apply lookup_lt_Some in Hm. lia. }
  destruct (level_lookup (flat (data cube)) (prod rest) (n_points co) h j
              Hsize Hh Hj) as (v & Hv1 & Hv2).
  rewrite (Hcell j v m o Hv1 Hm Ho).
  unfold level_matches. rewrite Hv2. reflexivity.
Qed.

(** The whole scan: every cell ends with the height of the last level
    scanned that equals the maximum there, or with what it held. *)
Lemma scan_loop (cube max_cube : Cube) (co : Coord) (rest : list nat) :
  dim_coord_on cube "height" co 0 →
  shape (data cube) = n_points co :: rest →
  length (flat (data cube)) = (n_points co * prod rest)%nat →
  mask (data cube) = None →
  shape (data max_cube) = rest →
  length (flat (data max_cube)) = prod rest →
  mask (data max_cube) = None →
  ∀ (scan : list nat) (hom : Cube),
    Forall (fun h => (h < n_points co)%nat) scan →
    shape (data hom) = rest → mask (data hom) = None →
    length (flat (data hom)) = prod rest →
    ∃ d,
      fold_result (scan_level result_type cube max_cube) scan hom
      = Ok (set_data hom d)
      ∧ length (flat d) = prod rest
      ∧ ∀ j m o,
          flat (data max_cube) !! j = Some m → flat (data hom) !! j = Some o →
          flat d !! j
          = Some (match last_match (level_matches cube (prod rest) j m) scan with
                  | Some h => Fin (nth h (avals (points co)) 0%Q)
                  | None => o
                  end).
Proof.
  intros Hdim Hshape Hsize Hmask Hms Hml Hmm.
  induction scan as [|h scan IH]; intros hom Hscan Hhs Hhm Hhl.
  - exists (data hom). simpl. split; [destruct hom; reflexivity|].
    split; [exact Hhl|]. intros j m o _ Ho. exact Ho.
  - apply Forall_cons in Hscan as [Hh Hscan].
    destruct (lookup_lt_is_Some_2 (avals (points co)) h Hh) as [p Hp].
    destruct (scan_level_spec cube max_cube co rest hom h p Hdim Hshape Hsize
                Hmask Hms Hml Hmm Hp Hhs Hhm Hhl)
      as (d1 & Hd1 & Hs1 & Hm1 & Hl1 & Hcell1).
    destruct (IH (set_data hom d1) Hscan Hs1 Hm1 Hl1) as (d & Hd & Hl & Hcell).
    exists d. simpl. rewrite Hd1. simpl. rewrite Hd.
    split; [reflexivity|]. split; [exact Hl|].
    intros j m o Hm Ho.
    rewrite (Hcell j m _ Hm (Hcell1 j m o Hm Ho)).
    rewrite last_match_cons.
    destruct (last_match (level_matches cube (prod rest) j m) scan);
      [reflexivity|].
    destruct (level_matches cube (prod rest) j m h); [|reflexivity].
    rewrite (nth_lookup_Some _ _ _ _ Hp). reflexivity.
Qed.


End HeightOfMaximum.

(** On the three-level cube the maximum 9 of the first cell is reached at the
    level 100 only; the maximum 5 of the second cell is not reached on the
    first level but, equally, at the levels 200 and 300: scanning upwards the
    answer is 300, scanning downwards 200. *)
Example height_of_maximum_example :
  ∃ up down,
    height_of_maximum np_result_type three_level_cube three_level_maximum true
      None = Ok up
    ∧ flat (data up) = [Fin (100 # 1); Fin (300 # 1)]
    ∧ height_of_maximum np_result_type three_level_cube three_level_maximum
        false None = Ok down
    ∧ flat (data down) = [Fin (100 # 1); Fin (200 # 1)].
Proof. eexists. eexists. repeat split; vm_compute; reflexivity. Qed.


(** ** Merging single members *)

Lemma Qeq_bool_refl (q : Q) : Qeq_bool q q = true.
Proof. apply Qeq_bool_iff. reflexivity. Qed.

Lemma list_eqb_refl {A : Type} (eqb : A → A → bool) (l : list A) :
  (∀ x, eqb x x = true) → list_eqb eqb l l = true.
Proof.
  intros H. induction l as [|x l IH]; simpl; [reflexivity|].
  rewrite H, IH. reflexivity.
Qed.

Lemma string_eqb_refl (s : string) : string_eqb s s = true.
Proof. apply bool_decide_eq_true_2. reflexivity. Qed.

Lemma dtype_eqb_refl (d : dtype) : dtype_eqb d d = true.
Proof. destruct d; reflexivity. Qed.

Lemma coord_metadata_eqb_refl (co : Coord) : coord_metadata_eqb co co = true.
Proof.
  unfold coord_metadata_eqb.
  rewrite !string_eqb_refl, bool_decide_eq_true_2 by reflexivity.
  destruct (circular co); reflexivity.
Qed.

Lemma pair_eqb_refl (p : Q * Q) : pair_eqb p p = true.
Proof. unfold pair_eqb. rewrite !Qeq_bool_refl. reflexivity. Qed.

Lemma coord_eqb_refl (co : Coord) : coord_eqb co co = true.
Proof.
  unfold coord_eqb. rewrite coord_metadata_eqb_refl.
  rewrite (list_eqb_refl _ _ Qeq_bool_refl). simpl.
  destruct (bounds co); simpl; [|reflexivity].
  apply list_eqb_refl, pair_eqb_refl.
Qed.

Lemma attr_eqb_refl (a : attr) : attr_eqb a a = true.
Proof. destruct a; simpl; [apply string_eqb_refl|apply Qeq_bool_refl]. Qed.

Lemma scalar_defn_eqb_refl (co : Coord) : scalar_defn_eqb co co = true.
Proof.
  unfold scalar_defn_eqb.
  rewrite coord_metadata_eqb_refl, dtype_eqb_refl, Nat.eqb_refl.
  destruct (bool_decide (bounds co = None)); reflexivity.
Qed.

Lemma dim_coord_eqb_refl (cd : Coord * nat) : dim_coord_eqb cd cd = true.
Proof. unfold dim_coord_eqb. rewrite coord_eqb_refl, Nat.eqb_refl. reflexivity. Qed.

(** Finding an auxiliary coordinate by its name, when names are not shared. *)
Lemma find_named_unique (l : list (Coord * list nat)) (cd : Coord * list nat) :
  NoDup (map (fun cd : Coord * list nat => coord_name (fst cd)) l) →
  In cd l →
  List.find (fun cd' : Coord * list nat => named (coord_name (fst cd)) (fst cd')) l
  = Some cd.
Proof.
  induction l as [|x l IH]; intros Hnd Hin; [contradiction|].
  simpl in Hnd. apply NoDup_cons in Hnd as [Hx Hnd]. simpl.
  destruct Hin as [->|Hin].
  - unfold named. rewrite string_eqb_refl. reflexivity.
  - destruct (named (coord_name (fst cd)) (fst x)) eqn:E; [|apply IH; assumption].
    apply named_spec in E. exfalso. apply Hx. rewrite E.
    apply list_elem_of_In, (in_map (fun cd : Coord * list nat => coord_name (fst cd))), Hin.
Qed.

Lemma find_named_fresh (l l' : list (Coord * list nat)) (n : string) :
  (∀ cd, In cd l → coord_name (fst cd) ≠ n) →
  List.find (fun cd' : Coord * list nat => named n (fst cd')) (l ++ l')
  = List.find (fun cd' : Coord * list nat => named n (fst cd')) l'.
Proof.
  induction l as [|x l IH]; intros H; simpl; [reflexivity|].
  destruct (named n (fst x)) eqn:E.
  - apply named_spec in E. exfalso. apply (H x (or_introl eq_refl) E).
  - apply IH. intros cd Hcd. apply H. right. exact Hcd.
Qed.

Lemma find_app_found {A : Type} (p : A → bool) (l l' : list A) (x : A) :
  List.find p l = Some x → List.find p (l ++ l') = Some x.
Proof.
  induction l as [|y l IH]; simpl; [discriminate|].
  destruct (p y); [trivial|exact IH].
Qed.

Lemma find_coord_unique (l : list Coord) (co : Coord) :
  NoDup (map coord_name l) → In co l →
  List.find (named (coord_name co)) l = Some co.
Proof.
  induction l as [|x l IH]; intros Hnd Hin; [contradiction|].
  simpl in Hnd. apply NoDup_cons in Hnd as [Hx Hnd]. simpl.
  destruct Hin as [->|Hin].
  - unfold named. rewrite string_eqb_refl. reflexivity.
  - destruct (named (coord_name co) x) eqn:E; [|apply IH; assumption].
    apply named_spec in E. exfalso. apply Hx. rewrite E.
    apply list_elem_of_In, in_map, Hin.
Qed.

Lemma NoDup_map_filter {A B : Type} (f : A → B) (p : A → bool) (l : list A) :
  NoDup (map f l) → NoDup (map f (List.filter p l)).
Proof.
  induction l as [|x l IH]; simpl; intros H; [constructor|].
  apply NoDup_cons in H as [Hx H]. destruct (p x); simpl; [|apply IH, H].
  apply NoDup_cons. split; [|apply IH, H].
  intros Hin. apply Hx. apply list_elem_of_In in Hin.
  apply in_map_iff in Hin as (y & Hy & Hin). apply filter_In in Hin as [Hin _].
  apply list_elem_of_In. rewrite <- Hy. apply in_map, Hin.
Qed.

Lemma existsb_map_comp {A B : Type} (f : B → bool) (g : A → B) (l : list A) :
  existsb f (map g l) = existsb (fun x => f (g x)) l.
Proof. induction l as [|x l IH]; simpl; [|rewrite IH]; reflexivity. Qed.

Lemma existsb_pointwise {A : Type} (f g : A → bool) (l : list A) :
  (∀ x, f x = g x) → existsb f l = existsb g l.
Proof.
  intros H. induction l as [|x l IH]; simpl; [|rewrite H, IH]; reflexivity.
Qed.

Section Members.

Context (b : Cube) (rc : Coord).
Hypothesis Hfresh : fresh_name (coord_name rc) b.
Hypothesis Hunique : unique_aux_names b.
Hypothesis Hrc : bounds rc = None.

Lemma scalar_coords_member (vd : Q * ndarray) :
  scalar_coords (member b rc vd) = scalar_coords b ++ [with_point rc (fst vd)].
Proof.
  unfold scalar_coords, member. simpl.
  rewrite List.filter_app, map_app. reflexivity.
Qed.

Lemma scalar_names_unique : NoDup (map coord_name (scalar_coords b)).
Proof.
  unfold scalar_coords. rewrite map_map.
  apply (NoDup_map_filter (fun cd : Coord * list nat => coord_name (fst cd))).
  exact Hunique.
Qed.

Lemma scalar_names_fresh (co : Coord) :
  In co (scalar_coords b) → coord_name co ≠ coord_name rc.
Proof.
  unfold scalar_coords. intros Hin.
  apply in_map_iff in Hin as (cd & <- & Hin). apply filter_In in Hin as [Hin _].
  apply (proj2 Hfresh cd Hin).
Qed.

Lemma find_fresh_coord (l l' : list Coord) (n : string) :
  (∀ co, In co l → coord_name co ≠ n) →
  List.find (named n) (l ++ l') = List.find (named n) l'.
Proof.
  induction l as [|x l IH]; intros H; simpl; [reflexivity|].
  destruct (named n x) eqn:E.
  - apply named_spec in E. exfalso. apply (H x (or_introl eq_refl) E).
  - apply IH. intros co Hco. apply H. right. exact Hco.
Qed.

(** The scalar coordinates of a member, by name. *)
Lemma scalar_coord_member_rc (vd : Q * ndarray) :
  scalar_coord (member b rc vd) (coord_name rc) = Some (with_point rc (fst vd)).
Proof.
  unfold scalar_coord. rewrite scalar_coords_member.
  rewrite find_fresh_coord by apply scalar_names_fresh.
  simpl. unfold named. simpl. rewrite string_eqb_refl. reflexivity.
Qed.

Lemma scalar_coord_member_other (vd : Q * ndarray) (co : Coord) :
  In co (scalar_coords b) →
  scalar_coord (member b rc vd) (coord_name co) = Some co.
Proof.
  intros Hin. unfold scalar_coord. rewrite scalar_coords_member.
  apply find_app_found, find_coord_unique; [apply scalar_names_unique|exact Hin].
Qed.

Lemma with_point_eqb (v v' : Q) :
  coord_eqb (with_point rc v) (with_point rc v') = Qeq_bool v v'.
Proof.
  unfold coord_eqb, with_point. simpl.
  change (coord_metadata_eqb (set_points rc _) (set_points rc _))
    with (coord_metadata_eqb rc rc).
  rewrite coord_metadata_eqb_refl, Hrc. simpl.
  rewrite !andb_true_r. reflexivity.
Qed.

(** Two members differ in the scalar coordinate and the payload only. *)
Lemma same_signature_members (vd vd' : Q * ndarray) :
  dtype_of (snd vd') = dtype_of (snd vd) → shape (snd vd') = shape (snd vd) →
  same_signature (member b rc vd) (member b rc vd') = true.
Proof.
  intros Hdt Hsh. unfold same_signature. simpl.
  rewrite !string_eqb_refl, !bool_decide_eq_true_2 by (reflexivity || congruence).
  rewrite Hdt, dtype_eqb_refl, (list_eqb_refl _ _ dim_coord_eqb_refl). simpl.
  unfold aux_match. simpl. rewrite !length_app, Nat.eqb_refl. simpl.
  rewrite forallb_app. apply andb_true_iff. split.
  - apply forallb_forall. intros cd Hcd.
    rewrite (find_app_found _ _ _ _ (find_named_unique _ cd Hunique Hcd)).
    rewrite bool_decide_eq_true_2 by reflexivity. simpl.
    destruct (is_scalar cd); [apply scalar_defn_eqb_refl|apply coord_eqb_refl].
  - simpl. rewrite andb_true_r.
    change (coord_name (with_point rc (fst vd))) with (coord_name rc).
    rewrite find_named_fresh by apply (proj2 Hfresh).
    simpl. unfold named. simpl. rewrite string_eqb_refl. simpl.
    unfold scalar_defn_eqb, with_point. simpl.
    change (coord_metadata_eqb (set_points rc _) (set_points rc _))
      with (coord_metadata_eqb rc rc).
    rewrite coord_metadata_eqb_refl, dtype_eqb_refl. simpl.
    destruct (bool_decide (bounds rc = None)); reflexivity.
Qed.

(** Among members the one scalar coordinate that varies is [rc]. *)
Lemma varying_scalars_members (vd : Q * ndarray) (rest : list (Q * ndarray)) :
  existsb (fun vd' => negb (Qeq_bool (fst vd) (fst vd'))) rest = true →
  varying_scalars (member b rc vd) (map (member b rc) rest)
  = [with_point rc (fst vd)].
Proof.
  intros Hex. unfold varying_scalars. rewrite scalar_coords_member.
  rewrite List.filter_app. rewrite filter_keep_none.
  - simpl. change (coord_name (with_point rc (fst vd))) with (coord_name rc).
    rewrite existsb_map_comp.
    rewrite (existsb_pointwise _ (fun vd' => negb (Qeq_bool (fst vd) (fst vd')))),
      Hex; [reflexivity|].
    intros vd'. rewrite scalar_coord_member_rc, with_point_eqb. reflexivity.
  - intros co Hco. rewrite existsb_map_comp. apply not_true_is_false. intros H.
    apply existsb_exists in H as (vd' & _ & H). simpl in H.
    rewrite (scalar_coord_member_other vd' co Hco), coord_eqb_refl in H.
    discriminate.
Qed.

Lemma keyed_member (vd : Q * ndarray) :
  keyed (coord_name rc) (member b rc vd)
  = Some (fst vd, with_point rc (fst vd), member b rc vd).
Proof.
  unfold keyed. rewrite scalar_coord_member_rc. reflexivity.
Qed.

Lemma mapM_keyed (vds : list (Q * ndarray)) :
  mapM (keyed (coord_name rc)) (map (member b rc) vds)
  = Some (map (fun vd => (fst vd, with_point rc (fst vd), member b rc vd)) vds).
Proof.
  induction vds as [|vd vds IH]; [reflexivity|].
  cbn [map mapM]. rewrite keyed_member. simpl. rewrite IH. reflexivity.
Qed.

(** Merging two or more members with pairwise different values of [rc]:
    the members are stacked in the ascending order of these values. *)
Lemma merge_members (vd0 vd1 : Q * ndarray) (rest : list (Q * ndarray)) :
  (∀ vd, In vd (vd1 :: rest) →
         dtype_of (snd vd) = dtype_of (snd vd0)
         ∧ shape (snd vd) = shape (snd vd0)) →
  distinct_keys
    (map (fun vd => (fst vd, with_point rc (fst vd), member b rc vd))
       (vd0 :: vd1 :: rest)) = true →
  merge_cube (map (member b rc) (vd0 :: vd1 :: rest))
  = Ok (stack (member b rc vd0) (with_point rc (fst vd0))
          (sort_by key_le
             (map (fun vd => (fst vd, with_point rc (fst vd), member b rc vd))
                (vd0 :: vd1 :: rest)))).
Proof.
  intros Huni Hdist.
  unfold merge_cube. cbn [map].
  change (member b rc vd1 :: map (member b rc) rest)
    with (map (member b rc) (vd1 :: rest)).
  rewrite (proj2 (forallb_forall _ _)).
  2:{ intros c Hc. apply in_map_iff in Hc as (vd & <- & Hvd).
      destruct (Huni vd Hvd). apply same_signature_members; assumption. }
  cbn [negb]. rewrite varying_scalars_members.
  2:{ simpl in Hdist. apply andb_true_iff in Hdist as [Hd _].
      apply andb_true_iff in Hd as [Hd _]. simpl. rewrite Hd. reflexivity. }
  change (coord_name (with_point rc (fst vd0))) with (coord_name rc).
  change (member b rc vd0 :: map (member b rc) (vd1 :: rest))
    with (map (member b rc) (vd0 :: vd1 :: rest)).
  rewrite mapM_keyed, Hdist. reflexivity.
Qed.

(** The merged cube carries [rc] with the values of the members in order. *)
Lemma stack_coord (vd0 : Q * ndarray) (sorted : list (Q * Coord * Cube)) :
  coord (stack (member b rc vd0) (with_point rc (fst vd0)) sorted) (coord_name rc)
  = Ok (mk_Coord (coord_name rc) (coord_var_name rc) (coord_units rc)
          (circular rc)
          (mk_arr (adtype (points rc)) (map (fun m => fst (fst m)) sorted))
          None).
Proof.
  apply coord_of_perm. unfold stack. simpl.
  unfold named at 1. simpl. rewrite string_eqb_refl, Hrc. simpl. f_equal.
  rewrite List.filter_app, !map_map. simpl.
  rewrite !filter_keep_none; [reflexivity| |].
  - intros co Hco. apply in_map_iff in Hco as (cd & <- & Hcd).
    apply filter_In in Hcd as [Hcd Hkeep]. simpl.
    apply in_app_or in Hcd as [Hcd|[<-|[]]].
    + apply not_true_is_false. intros E. apply named_spec in E.
      apply (proj2 Hfresh cd Hcd E).
    + simpl in Hkeep. unfold named in Hkeep. simpl in Hkeep.
      rewrite string_eqb_refl in Hkeep. discriminate.
  - intros co Hco. apply in_map_iff in Hco as (cd & <- & Hcd). simpl.
    apply not_true_is_false. intros E. apply named_spec in E.
    apply (proj1 Hfresh cd Hcd E).
Qed.

Lemma coord_member (vd : Q * ndarray) :
  coord (member b rc vd) (coord_name rc) = Ok (with_point rc (fst vd)).
Proof.
  apply coord_of_perm. unfold member. simpl.
  rewrite map_app, !List.filter_app.
  rewrite (filter_keep_none _ (map fst (dim_coords_and_dims b))).
  2:{ intros co Hco. apply in_map_iff in Hco as (cd & <- & Hcd).
      apply not_true_is_false. intros E. apply named_spec in E.
      apply (proj1 Hfresh cd Hcd E). }
  rewrite (filter_keep_none _ (map fst (aux_coords_and_dims b))).
  2:{ intros co Hco. apply in_map_iff in Hco as (cd & <- & Hcd).
      apply not_true_is_false. intros E. apply named_spec in E.
      apply (proj2 Hfresh cd Hcd E). }
  simpl. unfold named. simpl. rewrite string_eqb_refl. reflexivity.
Qed.

Lemma coord_dims_member (vd : Q * ndarray) :
  coord_dims (member b rc vd) (coord_name rc) = Ok [].
Proof.
  unfold coord_dims, coords_and_dims, member. simpl.
  rewrite !List.filter_app.
  rewrite (filter_keep_none _ (map _ _)).
  2:{ intros cd Hcd. apply in_map_iff in Hcd as (cd' & <- & Hcd). simpl.
      apply not_true_is_false. intros E. apply named_spec in E.
      apply (Permutation_in _ (sort_by_perm _ _)) in Hcd.
      apply (proj1 Hfresh cd' Hcd E). }
  rewrite (filter_keep_none _ (aux_coords_and_dims b)).
  2:{ intros cd Hcd. apply not_true_is_false. intros E. apply named_spec in E.
      apply (proj2 Hfresh cd Hcd E). }
  simpl. unfold named. simpl. rewrite string_eqb_refl. reflexivity.
Qed.

(** A member is its own single slice over [rc]. *)
Lemma slices_over_member (vd : Q * ndarray) :
  slices_over (member b rc vd) (coord_name rc) = Ok [member b rc vd].
Proof.
  unfold slices_over. rewrite coord_member. cbn [mbind result_bind].
  rewrite coord_dims_member. reflexivity.
Qed.

End Members.

(** ** The merge plugin on single members *)

Lemma equalise_attributes_members (b : Cube) (rc : Coord)
  (vds : list (Q * ndarray)) :
  equalise_attributes (map (member b rc) vds) = map (member b rc) vds.
Proof.
  unfold equalise_attributes.
  transitivity (map id (map (member b rc) vds)); [|apply map_id].
  apply map_ext_in. intros c Hc. unfold id.
  rewrite map_filter_id.
  - destruct c; reflexivity.
  - intros k v Hkv. unfold shared_by. simpl.
    apply Is_true_true, forallb_forall. intros c' Hc'.
    apply in_map_iff in Hc as (vd & <- & _).
    apply in_map_iff in Hc' as (vd' & <- & _).
    simpl in Hkv |- *. rewrite Hkv. apply attr_eqb_refl.
Qed.

Lemma strip_coord_name (co : Coord) :
  coord_name (strip_coord_var_name co) = coord_name co.
Proof. unfold strip_coord_var_name. destruct (bool_decide _); reflexivity. Qed.

Lemma strip_coord_bounds (co : Coord) :
  bounds (strip_coord_var_name co) = bounds co.
Proof. unfold strip_coord_var_name. destruct (bool_decide _); reflexivity. Qed.

Lemma strip_cube_member (b : Cube) (rc : Coord) (vd : Q * ndarray) :
  strip_cube (member b rc vd)
  = member (strip_cube b) (strip_coord_var_name rc) vd.
Proof.
  unfold strip_cube, member. simpl. rewrite map_app. simpl.
  unfold set_coords, set_data. simpl. do 3 f_equal.
  unfold strip_coord_var_name, with_point. simpl.
  destruct (bool_decide (coord_var_name rc = Some "threshold")); reflexivity.
Qed.

Lemma equalise_cell_methods_members (b : Cube) (rc : Coord) (vd : Q * ndarray)
  (vds : list (Q * ndarray)) :
  ∃ cm,
    MergeCubes._equalise_cell_methods (map (member b rc) (vd :: vds))
    = Ok (map (member (set_cell_methods b cm) rc) (vd :: vds)).
Proof.
  unfold MergeCubes._equalise_cell_methods. cbn [map].
  eexists. f_equal.
  change (member b rc vd :: map (member b rc) vds)
    with (map (member b rc) (vd :: vds)).
  rewrite map_map. reflexivity.
Qed.

Lemma fresh_name_strip (n : string) (b : Cube) (cm : list CellMethod) :
  fresh_name n b → fresh_name n (set_cell_methods (strip_cube b) cm).
Proof.
  intros [Hd Ha]. split; simpl; intros cd Hcd;
    apply in_map_iff in Hcd as (cd' & <- & Hcd); simpl;
    rewrite strip_coord_name; auto.
Qed.

Lemma unique_aux_names_strip (b : Cube) (cm : list CellMethod) :
  unique_aux_names b → unique_aux_names (set_cell_methods (strip_cube b) cm).
Proof.
  unfold unique_aux_names. simpl. rewrite map_map. simpl.
  intros H. erewrite map_ext; [exact H|].
  intros cd. simpl. apply strip_coord_name.
Qed.

Lemma distinct_keys_values (vds : list (Q * ndarray))
  (g g' : Q * ndarray → Q * Coord * Cube) :
  (∀ vd, fst (fst (g vd)) = fst vd) → (∀ vd, fst (fst (g' vd)) = fst vd) →
  distinct_keys (map g vds) = distinct_keys (map g' vds).
Proof.
  intros Hg Hg'. induction vds as [|vd vds IH]; simpl; [reflexivity|].
  rewrite IH, Hg, Hg'. f_equal.
  clear IH. induction vds as [|vd' vds IH]; simpl; [reflexivity|].
  rewrite IH, Hg, Hg'. reflexivity.
Qed.

(** [MergeCubes.process] on cubes that each hold one member: the result
    carries the realization coordinate with the values of the members in
    ascending order, and the payloads in that order. *)
Lemma process_members (b : Cube) (rc : Coord) (cs : list Cube)
  (vd0 vd1 : Q * ndarray) (rest : list (Q * ndarray)) :
  coord_name rc = "realization" → fresh_name "realization" b →
  unique_aux_names b → bounds rc = None →
  Forall2 (fun c vd => slices_over c "realization" = Ok [member b rc vd])
    cs (vd0 :: vd1 :: rest) →
  (∀ vd, In vd (vd1 :: rest) →
         dtype_of (snd vd) = dtype_of (snd vd0)
         ∧ shape (snd vd) = shape (snd vd0)) →
  distinct_keys
    (map (fun vd => (fst vd, rc, b)) (vd0 :: vd1 :: rest)) = true →
  ∃ r co',
    MergeCubes.process (ACubeList cs) false true true = Ok r
    ∧ coord r "realization" = Ok co'
    ∧ avals (points co') = map fst (sort_by value_le (vd0 :: vd1 :: rest))
    ∧ flat (data r)
      = flat_map (fun vd => flat (snd vd)) (sort_by value_le (vd0 :: vd1 :: rest))
    ∧ shape (data r) = length (vd0 :: vd1 :: rest) :: shape (snd vd0).
Proof.
  intros Hname Hfresh Hunique Hrc Hslices Huni Hdist.
  set (vds := vd0 :: vd1 :: rest) in *.
  assert (Hsl : map_result (fun cube => slices_over cube "realization") cs
                = Ok (map (fun vd => [member b rc vd]) vds)).
  { apply map_result_Forall2. clear -Hslices.
    induction Hslices; simpl; constructor; assumption. }
  assert (Hcat : concat (map (fun vd => [member b rc vd]) vds)
                 = map (member b rc) vds).
  { clear. induction vds as [|vd vds IH]; simpl; [|rewrite IH]; reflexivity. }
  destruct (equalise_cell_methods_members (strip_cube b)
              (strip_coord_var_name rc) vd0 (vd1 :: rest)) as [cm Hcm].
  set (b' := set_cell_methods (strip_cube b) cm) in *.
  set (rc' := strip_coord_var_name rc) in *.
  assert (Hname' : coord_name rc' = "realization").
  { subst rc'. rewrite strip_coord_name. exact Hname. }
  assert (Hfresh' : fresh_name (coord_name rc') b').
  { rewrite Hname'. apply fresh_name_strip, Hfresh. }
  assert (Hunique' : unique_aux_names b') by apply unique_aux_names_strip, Hunique.
  assert (Hrc' : bounds rc' = None).
  { subst rc'. rewrite strip_coord_bounds. exact Hrc. }
  assert (Hrun : MergeCubes.process (ACubeList cs) false true true
                 = merge_cube (map (member b' rc') vds)).
  { unfold MergeCubes.process.
    destruct cs as [|c0 [|c1 cs']].
    - inversion Hslices.
    - inversion Hslices as [|? ? ? ? _ Hrest]; subst. inversion Hrest.
    - rewrite Hsl. cbn [mbind result_bind]. rewrite Hcat.
      rewrite equalise_attributes_members. unfold strip_var_names.
      rewrite map_map.
      rewrite (map_ext _ (member (strip_cube b) (strip_coord_var_name rc)))
        by (intros; apply strip_cube_member).
      fold rc'. fold vds in Hcm. rewrite Hcm. cbn [mbind result_bind].
      destruct (merge_cube (map (member b' rc') vds)); reflexivity. }
  rewrite Hrun. subst vds.
  rewrite (merge_members b' rc' Hfresh' Hunique' Hrc' vd0 vd1 rest Huni).
  2:{ rewrite <- Hdist. apply distinct_keys_values; reflexivity. }
  eexists. eexists. split; [reflexivity|].
  rewrite <- Hname' at 1. rewrite (stack_coord b' rc' Hfresh' Hrc').
  split; [reflexivity|].
  rewrite (sort_by_map value_le key_le) by reflexivity.
  simpl avals. unfold stack. cbn [flat data shape].
  rewrite !map_map, length_map. simpl fst.
  split; [reflexivity|].
  split; [|rewrite (Permutation_length (sort_by_perm _ _)); reflexivity].
  rewrite flat_map_concat_map, map_map. simpl.
  rewrite <- flat_map_concat_map. reflexivity.
Qed.

(** ** Resampling the members *)

Lemma map_result_ok {A B : Type} (f : A → result B) (g : A → B) (l : list A) :
  (∀ x, In x l → f x = Ok (g x)) → map_result f l = Ok (map g l).
Proof.
  intros H. apply map_result_Forall2.
  induction l as [|x l IH]; simpl; constructor.
  - apply H. left. reflexivity.
  - apply IH. intros y Hy. apply H. right. exact Hy.
Qed.

Lemma flat_map_filter_single {A B : Type} (p : A → bool) (g : A → B)
  (l : list A) :
  flat_map (fun x => if p x then [g x] else []) l = map g (List.filter p l).
Proof.
  induction l as [|x l IH]; simpl; [reflexivity|].
  destruct (p x); simpl; rewrite IH; reflexivity.
Qed.

Lemma combine_map_same {A B C : Type} (g : A → B) (h : A → C) (l : list A) :
  combine (map g l) (map h l) = map (fun i => (g i, h i)) l.
Proof. induction l as [|x l IH]; simpl; [|rewrite IH]; reflexivity. Qed.

Lemma where_true_none {A : Type} (p : A → bool) (l : list A) :
  ∀ off, (∀ x, In x l → p x = false) → where_true (map p l) off = [].
Proof.
  induction l as [|x l IH]; intros off H; simpl; [reflexivity|].
  rewrite (H x (or_introl eq_refl)). simpl. apply IH.
  intros y Hy. apply H. right. exact Hy.
Qed.

(** The one position at which the predicate holds. *)
Lemma where_true_single {A : Type} (p : A → bool) (l : list A) :
  ∀ (j off : nat) (v : A),
    l !! j = Some v → p v = true →
    (∀ i q, l !! i = Some q → p q = true → i = j) →
    where_true (map p l) off = [(off + j)%nat].
Proof.
  induction l as [|x l IH]; intros j off v Hj Hv Hone; [discriminate|].
  destruct j as [|j]; simpl in *.
  - injection Hj as ->. rewrite Hv. simpl.
    rewrite where_true_none; [rewrite Nat.add_0_r; reflexivity|].
    intros y Hy. apply not_true_is_false. intros Hy'.
    apply list_elem_of_In, list_elem_of_lookup in Hy as [i Hi].
    specialize (Hone (S i) y Hi Hy'). discriminate.
  - assert (Hx : p x = false).
    { apply not_true_is_false. intros Hx.
      specialize (Hone 0%nat x eq_refl Hx). discriminate. }
    rewrite Hx. simpl. rewrite (IH j (S off) v Hj Hv).
    + f_equal. lia.
    + intros i q Hi Hq. specialize (Hone (S i) q Hi Hq). lia.
Qed.

(** An ascending list is left as it is by the sort. *)
Lemma sort_by_ascending (r0 : Q) (D : nat → ndarray) (m : nat) :
  ∀ a,
    sort_by value_le
      (map (fun i => (Qplus r0 (inject_Z (Z.of_nat i)), D i)) (seq a m))
    = map (fun i => (Qplus r0 (inject_Z (Z.of_nat i)), D i)) (seq a m).
Proof.
  induction m as [|m IH]; intros a; [reflexivity|].
  change (seq a (S m)) with (a :: seq (S a) m).
  unfold sort_by in *. simpl. rewrite (IH (S a)).
  destruct m as [|m]; [reflexivity|]. simpl.
  unfold value_le at 1. simpl.
  replace (Qle_bool _ _) with true; [reflexivity|].
  symmetry. apply Qle_bool_iff.
  apply Qplus_le_r. rewrite <- Zle_Qle. lia.
Qed.

Lemma distinct_keys_ascending (r0 : Q) (D : nat → ndarray) (rc : Coord)
  (b : Cube) (m : nat) :
  ∀ a,
    distinct_keys
      (map (fun vd : Q * ndarray => (fst vd, rc, b))
         (map (fun i => (Qplus r0 (inject_Z (Z.of_nat i)), D i)) (seq a m)))
    = true.
Proof.
  induction m as [|m IH]; intros a; [reflexivity|].
  change (seq a (S m)) with (a :: seq (S a) m). simpl.
  rewrite (IH (S a)), andb_true_r.
  apply forallb_forall. intros y Hy.
  apply in_map_iff in Hy as (vd & <- & Hvd).
  apply in_map_iff in Hvd as (i & <- & Hi). simpl.
  apply in_seq in Hi.
  apply negb_true_iff, not_true_is_false. intros E.
  apply Qeq_bool_iff in E. apply Qplus_inj_l in E.
  unfold Qeq in E. simpl in E. lia.
Qed.

Lemma map_fixed {A : Type} (f : A → A) (l : list A) :
  (∀ x, In x l → f x = x) → map f l = l.
Proof.
  intros H. induction l as [|x l IH]; simpl; [reflexivity|].
  rewrite (H x (or_introl eq_refl)), IH; [reflexivity|].
  intros y Hy. apply H. right. exact Hy.
Qed.

Lemma map_result_map_ok {A B C : Type} (f : B → result C) (e : A → B)
  (g : A → C) (l : list A) :
  (∀ x, In x l → f (e x) = Ok (g x)) → map_result f (map e l) = Ok (map g l).
Proof.
  intros H. apply map_result_Forall2.
  induction l as [|x l IH]; simpl; constructor.
  - apply H. left. reflexivity.
  - apply IH. intros y Hy. apply H. right. exact Hy.
Qed.

Section Resample.

Context (cube : Cube) (co : Coord) (k : nat).
Hypothesis Hon : dim_coord_on cube "realization" co k.
Hypothesis Hb : bounds co = None.
Hypothesis Hdistinct : distinct_points co.
Hypothesis Hlen : (2 ≤ n_points co)%nat.
Hypothesis Haux : no_aux_on cube k.
Hypothesis Hdim : only_dim_coord_on cube co k.

Lemma without_axis_fresh : fresh_name "realization" (without_axis cube k).
Proof.
  destruct Hon as (Hco & Hin & _ & _).
  destruct (dim_coord_only cube "realization" co k Hco Hin) as [Hd Ha].
  split; intros cd Hcd Hname; unfold without_axis in Hcd; simpl in Hcd.
  - apply in_flat_map in Hcd as (cd0 & Hcd0 & Hcd).
    destruct (Nat.eqb (snd cd0) k) eqn:Hk; [destruct Hcd|].
    destruct Hcd as [<-|[]]. simpl in Hname.
    assert (Hf : In cd0 (List.filter
                           (fun cd : Coord * nat => named "realization" (fst cd))
                           (dim_coords_and_dims cube))).
    { apply filter_In. split; [exact Hcd0|]. apply named_spec, Hname. }
    rewrite Hd in Hf. destruct Hf as [<-|[]]. simpl in Hk.
    rewrite Nat.eqb_refl in Hk. discriminate.
  - apply in_map_iff in Hcd as (cd0 & <- & Hcd0). simpl in Hname.
    assert (Hf : In cd0 (List.filter
                           (fun cd : Coord * list nat =>
                              named "realization" (fst cd))
                           (aux_coords_and_dims cube))).
    { apply filter_In. split; [exact Hcd0|]. apply named_spec, Hname. }
    rewrite Ha in Hf. destruct Hf.
Qed.

Lemma without_axis_unique :
  unique_aux_names cube → unique_aux_names (without_axis cube k).
Proof.
  unfold unique_aux_names, without_axis. simpl. rewrite map_map. simpl.
  intros H. exact H.
Qed.

Lemma point_at (j : nat) :
  (j < n_points co)%nat → ∃ v, avals (points co) !! j = Some v.
Proof. intros Hj. apply lookup_lt_is_Some. exact Hj. Qed.

(** Taking position [j] of the realization axis gives a member. *)
Lemma index_axis_member (j : nat) (v : Q) :
  avals (points co) !! j = Some v →
  index_axis cube k (At j)
  = Ok (member (without_axis cube k) (scalar_of co (adtype (points co)))
          (v, member_data cube k j)).
Proof.
  intros Hj. destruct Hon as (Hco & Hin & Hshape & _).
  assert (Hlt : (j < n_points co)%nat).
  { apply lookup_lt_is_Some. eexists. exact Hj. }
  unfold index_axis, index_array. rewrite Hshape. simpl.
  replace (Nat.ltb j (n_points co)) with true
    by (symmetry; apply Nat.ltb_lt; exact Hlt).
  cbn [mbind result_bind andb].
  rewrite (map_result_ok _
             (fun cd : Coord * list nat =>
                (fst cd, map (shift_down k) (snd cd)))).
  2:{ intros cd Hcd.
      replace (existsb (Nat.eqb k) (snd cd)) with false; [reflexivity|].
      symmetry. apply not_true_is_false. intros E.
      apply existsb_exists in E as (x & Hx & Hxk).
      apply Nat.eqb_eq in Hxk. subst x. exact (Haux cd Hcd Hx). }
  cbn [mbind result_bind].
  rewrite (flat_map_filter_single (fun cd : Coord * nat => Nat.eqb (snd cd) k)
             (fun cd => (pick_points (fst cd) [j], @nil nat))).
  rewrite Hdim. simpl.
  unfold member, without_axis, member_data, set_data, set_coords. simpl.
  f_equal. f_equal. f_equal. f_equal.
  unfold pick_points, with_point, scalar_of, set_points. simpl.
  rewrite Hj, Hb. reflexivity.
Qed.

(** The constraint on one point of the coordinate extracts that member. *)
Lemma extract_member (j : nat) (v : Q) :
  avals (points co) !! j = Some v →
  extract cube "realization" (fun cell => cell_eq_num cell v)
  = Ok (Some (member (without_axis cube k)
                (scalar_of co (adtype (points co)))
                (v, member_data cube k j))).
Proof.
  intros Hj. pose proof Hon as (Hco & Hin & _ & _).
  unfold extract. rewrite Hco, (coord_dims_of_dim _ _ _ _ Hco Hin).
  cbn [mbind result_bind].
  unfold cells. rewrite Hb, map_map.
  change (map (fun x => cell_eq_num (mk_Cell x None) v) (avals (points co)))
    with (map (fun x => Qeq_bool x v) (avals (points co))).
  assert (Hone : ∀ i q, avals (points co) !! i = Some q →
                        Qeq_bool q v = true → i = j).
  { intros i q Hi Hq. apply Qeq_bool_iff in Hq.
    exact (Hdistinct i j q v Hi Hj Hq). }
  rewrite (where_true_single (fun x => Qeq_bool x v) _ j 0%nat v Hj
             (Qeq_bool_refl v) Hone).
  simpl.
  assert (Hall : forallb id (map (fun x => Qeq_bool x v) (avals (points co)))
                 = false).
  { rewrite forallb_id_map. apply not_true_is_false. intros Hall.
    rewrite forallb_forall in Hall.
    set (i := if Nat.eqb j 0 then 1%nat else 0%nat).
    assert (Hi : (i < n_points co)%nat).
    { unfold i. destruct (Nat.eqb j 0); lia. }
    destruct (point_at i Hi) as [q Hq].
    assert (Hqv : Qeq_bool q v = true).
    { apply Hall. apply list_elem_of_In, list_elem_of_lookup. eexists. exact Hq. }
    specialize (Hone i q Hq Hqv). unfold i in Hone.
    destruct (Nat.eqb j 0) eqn:Hj0.
    - apply Nat.eqb_eq in Hj0. lia.
    - apply Nat.eqb_neq in Hj0. lia. }
  rewrite Hall. rewrite (index_axis_member j v Hj). reflexivity.
Qed.

(** One round of the loop: the member at position [j], relabelled. *)
Lemma rebadge_member (d : dtype) (j : nat) (v w : Q) :
  avals (points co) !! j = Some v →
  rebadge cube d (v, w)
  = Ok (member (without_axis cube k) (scalar_of co d)
          (w, member_data cube k j)).
Proof.
  intros Hj. unfold rebadge. simpl. rewrite (extract_member j v Hj).
  cbn [mbind result_bind].
  pose proof without_axis_fresh as Hfresh.
  pose proof Hon as (Hco & _).
  pose proof (coord_name_of _ _ _ Hco) as Hname.
  assert (Hm : coord (member (without_axis cube k)
                        (scalar_of co (adtype (points co)))
                        (v, member_data cube k j)) "realization"
               = Ok (with_point (scalar_of co (adtype (points co))) v)).
  { assert (Hf : fresh_name (coord_name (scalar_of co (adtype (points co))))
                   (without_axis cube k)).
    { simpl. rewrite Hname. exact Hfresh. }
    pose proof (coord_member _ _ Hf (v, member_data cube k j)) as Hc.
    simpl in Hc. rewrite Hname in Hc. exact Hc. }
  unfold set_scalar_point. rewrite Hm. cbn [mbind result_bind]. simpl.
  rewrite (update_coord_ok _ _ _ _ Hm).
  unfold member, set_data, set_coords. simpl. f_equal. f_equal.
  - apply map_fixed. intros cd Hcd.
    replace (named "realization" (fst cd)) with false; [reflexivity|].
    symmetry. apply not_true_is_false. intros E. apply named_spec in E.
    exact (proj1 Hfresh cd Hcd E).
  - rewrite map_app. f_equal.
    + apply map_fixed. intros cd Hcd.
      replace (named "realization" (fst cd)) with false; [reflexivity|].
      symmetry. apply not_true_is_false. intros E. apply named_spec in E.
      exact (proj2 Hfresh cd Hcd E).
    + simpl. unfold named. simpl. rewrite Hname, string_eqb_refl. reflexivity.
Qed.

End Resample.

Lemma dim_coords_named_in (cube : Cube) (n : string) (co : Coord) (k : nat) :
  In (co, k) (dim_coords_and_dims cube) → coord_name co = n →
  dim_coords_named cube n ≠ [].
Proof.
  intros Hin Hname E.
  assert (H : In co (dim_coords_named cube n)).
  { unfold dim_coords_named, dim_coords. apply filter_In. split.
    - apply in_map_iff. exists (co, k). split; [reflexivity|].
      apply (Permutation_in _ (Permutation_sym (sort_by_perm _ _))). exact Hin.
    - apply named_spec, Hname. }
  rewrite E in H. destruct H.
Qed.

(** The members asked for, when their number is not the one of the cube. *)
Lemma manipulate_n_realizations_members
  (result_type : dtype → dtype → dtype) (cube : Cube) (co : Coord) (k : nat)
  (n : nat) :
  dim_coord_on cube "realization" co k → bounds co = None →
  distinct_points co → (2 ≤ n_points co)%nat →
  no_aux_on cube k → only_dim_coord_on cube co k → unique_aux_names cube →
  n_points co ≠ n → (1 ≤ n)%nat →
  ∃ r0 r co',
    avals (points co) !! 0%nat = Some r0
    ∧ manipulate_n_realizations result_type cube (Z.of_nat n) = Ok r
    ∧ coord r "realization" = Ok co'
    ∧ avals (points co')
      = map (fun i => Qplus r0 (inject_Z (Z.of_nat i))) (seq 0 n)
    ∧ flat (data r)
      = flat_map
          (fun i => select_axis (shape (data cube)) k [(i mod n_points co)%nat]
                      (flat (data cube)))
          (seq 0 n).
Proof.
  intros Hon Hb Hdistinct Hlen Haux Hdim Hunique Hne Hn.
  pose proof Hon as (Hco & Hin & _ & _).
  pose proof (coord_name_of _ _ _ Hco) as Hname.
  destruct (point_at co 0%nat) as [r0 Hr0]; [lia|].
  exists r0.
  set (dt := result_type (adtype (points co)) Int64).
  set (g := fun i : nat => nth (i mod n_points co)%nat (avals (points co)) 0%Q).
  set (h := fun i : nat => Qplus r0 (inject_Z (Z.of_nat i))).
  set (D := fun i : nat => member_data cube k (i mod n_points co)%nat).
  set (W := without_axis cube k).
  set (rc := scalar_of co dt).
  assert (Hg : ∀ i, avals (points co) !! (i mod n_points co)%nat = Some (g i)).
  { intros i. unfold g.
    destruct (point_at co (i mod n_points co)%nat) as [v Hv].
    - apply Nat.mod_upper_bound. lia.
    - rewrite Hv. f_equal. symmetry. apply nth_lookup_Some with (d := 0%Q) in Hv.
      exact Hv. }
  assert (Hg0 : g 0%nat = r0).
  { specialize (Hg 0%nat). rewrite Nat.Div0.mod_0_l in Hg. congruence. }
  assert (Hfresh : fresh_name (coord_name rc) W).
  { simpl. rewrite Hname. apply (without_axis_fresh cube co k Hon). }
  assert (HuniqueW : unique_aux_names W).
  { apply without_axis_unique, Hunique. }
  assert (Hlist : map_result
                    (fun index =>
                       if Nat.eqb (length (avals (points co))) 0
                       then Raise ZeroDivisionError
                       else match avals (points co)
                                  !! (index mod length (avals (points co)))%nat with
                            | Some r => Ok r
                            | None => Raise IndexError
                            end)
                    (seq 0 n)
                  = Ok (map g (seq 0 n))).
  { apply map_result_ok. intros i _.
    fold (n_points co).
    replace (Nat.eqb (n_points co) 0) with false
      by (symmetry; apply Nat.eqb_neq; lia).
    rewrite Hg. reflexivity. }
  assert (Hreb : map_result (rebadge cube dt)
                   (combine (map g (seq 0 n)) (map h (seq 0 n)))
                 = Ok (map (fun i => member W rc (h i, D i)) (seq 0 n))).
  { rewrite combine_map_same. apply map_result_map_ok. intros i _.
    apply (rebadge_member cube co k Hon Hb Hdistinct Hlen Haux Hdim).
    apply Hg. }
  unfold manipulate_n_realizations.
  destruct (dim_coords_named cube "realization") as [|d ds] eqn:Hd.
  { exfalso. exact (dim_coords_named_in _ _ _ _ Hin Hname Hd). }
  rewrite Hco. cbn [mbind result_bind].
  replace (Z.eqb (Z.of_nat (n_points co)) (Z.of_nat n)) with false
    by (symmetry; apply Z.eqb_neq; lia).
  rewrite Nat2Z.id. cbv zeta. rewrite Hlist. cbn [mbind result_bind].
  destruct n as [|n']; [lia|].
  remember (map g (seq 0 (S n'))) as G eqn:EG.
  assert (HG : ∃ tl, G = r0 :: tl).
  { subst G. exists (map g (seq 1 n')). rewrite <- Hg0. reflexivity. }
  destruct HG as [tl HG]. destruct G as [|x tl']; [discriminate|].
  injection HG as -> ->. fold h. fold dt. rewrite Hreb.
  cbn [mbind result_bind].
  assert (Hrc : coord_name rc = "realization") by exact Hname.
  destruct n' as [|n''].
  - exists (member W rc (h 0%nat, D 0%nat)), (with_point rc (h 0%nat)).
    split; [exact Hr0|]. split; [reflexivity|]. split.
    + rewrite <- Hrc. apply (coord_member W rc Hfresh).
    + split; [reflexivity|]. simpl. rewrite app_nil_r. reflexivity.
  - set (F := fun i : nat => (h i, D i)).
    assert (Hsl : ∀ idxs,
              Forall2 (fun c vd =>
                         slices_over c "realization" = Ok [member W rc vd])
                (map (fun i => member W rc (F i)) idxs) (map F idxs)).
    { intros idxs. induction idxs as [|i idxs IH]; simpl; [constructor|].
      constructor; [|exact IH].
      rewrite <- Hrc. apply (slices_over_member W rc Hfresh). }
    destruct (process_members W rc
                (map (fun i => member W rc (F i)) (seq 0 (S (S n''))))
                (F 0%nat) (F 1%nat) (map F (seq 2 n'')))
      as (r & co' & Hp & Hc & Hpts & Hflat & _).
    + exact Hrc.
    + rewrite <- Hrc. exact Hfresh.
    + exact HuniqueW.
    + reflexivity.
    + apply (Hsl (seq 0 (S (S n'')))).
    + intros vd Hvd.
      assert (Hvd' : In vd (map F (seq 1 (S n'')))) by exact Hvd.
      apply in_map_iff in Hvd' as (i & <- & _). split; reflexivity.
    + apply (distinct_keys_ascending r0 D rc W (S (S n'')) 0%nat).
    + exists r, co'. split; [exact Hr0|]. split; [exact Hp|].
      split; [exact Hc|].
      change (F 0%nat :: F 1%nat :: map F (seq 2 n''))
        with (map F (seq 0 (S (S n'')))) in Hpts, Hflat.
      unfold F, h in Hpts, Hflat.
      rewrite (sort_by_ascending r0 D (S (S n'')) 0%nat) in Hpts, Hflat.
      split.
      * rewrite Hpts, map_map. reflexivity.
      * rewrite Hflat. clear.
        induction (seq 0 (S (S n''))) as [|i l IH]; simpl; [reflexivity|].
        rewrite IH. reflexivity.
Qed.


Lemma three_member_realization :
  dim_coord_on three_member_cube "realization"
    (mk_Coord "realization" None "1" false (mk_arr Int32 [1%Q; 2%Q; 3%Q]) None)
    0.
Proof.
  split; [reflexivity|]. split; [left; reflexivity|]. split; [reflexivity|].
  intros cd [<-|[]] [].
Qed.


(** The same case, run. *)
Example manipulate_n_realizations_example :
  match manipulate_n_realizations np_result_type three_member_cube 5 with
  | Ok r => Some (shape (data r), flat (data r))
  | Raise _ => None
  end
  = Some ([5%nat; 2%nat],
          [Fin 10; Fin 11; Fin 20; Fin 21; Fin 30; Fin 31;
           Fin 10; Fin 11; Fin 20; Fin 21]).
Proof. vm_compute. reflexivity. Qed.

(** Fewer members asked for than there are: the first ones are kept. *)
Example manipulate_n_realizations_reduces :
  match manipulate_n_realizations np_result_type three_member_cube 2 with
  | Ok r => Some (shape (data r), flat (data r))
  | Raise _ => None
  end
  = Some ([2%nat; 2%nat], [Fin 10; Fin 11; Fin 20; Fin 21]).
Proof. vm_compute. reflexivity. Qed.

(** No member asked for: there is no first identifier to start from. *)
Example manipulate_n_realizations_none_asked :
  manipulate_n_realizations np_result_type three_member_cube 0 = Raise IndexError.
Proof. vm_compute. reflexivity. Qed.

(** A scalar realization coordinate is not a realization dimension. *)
Example manipulate_n_realizations_scalar :
  manipulate_n_realizations np_result_type (member_cube 0 280) 3
  = Raise (ValueError
             ("Input cube does not contain realizations. The following "
              +:+ "dimension coordinates were found: []")).
Proof. vm_compute. reflexivity. Qed.

(** ** Merging in steps *)

Lemma take_drop_chunk {A : Type} (m : nat) (ls : list (list A)) :
  ∀ (i : nat) (x : list A),
    (∀ y, In y ls → length y = m) → ls !! i = Some x →
    take m (drop (i * m) (concat ls)) = x.
Proof.
  induction ls as [|y ls IH]; intros i x Hlen Hi; [discriminate|].
  pose proof (Hlen y (or_introl eq_refl)) as Hy.
  destruct i as [|i]; simpl in *.
  - injection Hi as ->. apply take_app_length'. symmetry. exact Hy.
  - rewrite drop_app_add' by (symmetry; exact Hy).
    apply IH; [|exact Hi]. intros z Hz. apply Hlen. right. exact Hz.
Qed.

Lemma map_result_seq {A B : Type} (f : nat → result B) (g : A → B)
  (l : list A) :
  ∀ off,
    (∀ i y, l !! i = Some y → f (off + i)%nat = Ok (g y)) →
    map_result f (seq off (length l)) = Ok (map g l).
Proof.
  induction l as [|x l IH]; intros off H; [reflexivity|].
  simpl. rewrite <- (Nat.add_0_r off) at 1. rewrite (H 0%nat x eq_refl).
  cbn [mbind result_bind]. rewrite (IH (S off)); [reflexivity|].
  intros i y Hi. replace (S off + i)%nat with (off + S i)%nat by lia.
  apply (H (S i) y Hi).
Qed.

Lemma equalise_attributes_same (cubes : list Cube) :
  (∀ c c', In c cubes → In c' cubes → attributes c = attributes c') →
  equalise_attributes cubes = cubes.
Proof.
  intros H. unfold equalise_attributes.
  apply map_fixed. intros c Hc.
  rewrite map_filter_id.
  - destruct c; reflexivity.
  - intros k v Hkv. unfold shared_by. simpl.
    apply Is_true_true, forallb_forall. intros c' Hc'.
    rewrite <- (H c c' Hc Hc'), Hkv. apply attr_eqb_refl.
Qed.

Lemma strip_coord_idem (co : Coord) :
  strip_coord_var_name (strip_coord_var_name co) = strip_coord_var_name co.
Proof.
  unfold strip_coord_var_name.
  destruct (bool_decide (coord_var_name co = Some "threshold")) eqn:E.
  - rewrite E. reflexivity.
  - reflexivity.
Qed.

Lemma strip_cube_idem (b : Cube) (cm : list CellMethod) :
  strip_cube (set_cell_methods (strip_cube b) cm)
  = set_cell_methods (strip_cube b) cm.
Proof.
  unfold strip_cube, set_cell_methods, set_coords, set_var_name. simpl.
  rewrite !map_map. simpl.
  f_equal; apply map_ext; intros cd; simpl; rewrite strip_coord_idem;
    reflexivity.
Qed.

Lemma strip_cube_cell_methods (b : Cube) (cm : list CellMethod) :
  strip_cube (set_cell_methods b cm) = set_cell_methods (strip_cube b) cm.
Proof. reflexivity. Qed.

(** The surviving cell methods do not depend on how the merge is staged. *)
Lemma set_intersection_staged (cm : list CellMethod) :
  let two := MergeCubes.set_intersection cm cm in
  MergeCubes.set_intersection (MergeCubes.set_intersection two two) cm
  = MergeCubes.set_intersection two cm.
Proof.
  unfold MergeCubes.set_intersection. simpl.
  rewrite !list_to_set_elements_L.
  rewrite !(idemp_L (∩)). reflexivity.
Qed.

Lemma unshift_dims (l : list (Coord * nat)) :
  flat_map
    (fun cd : Coord * nat =>
       if Nat.eqb (snd cd) 0 then [] else [(fst cd, shift_down 0 (snd cd))])
    (map (fun cd : Coord * nat => (fst cd, S (snd cd))) l)
  = l.
Proof.
  induction l as [|[c d] l IH]; [reflexivity|].
  cbn [map flat_map fst snd Nat.eqb app]. rewrite IH. reflexivity.
Qed.

Lemma none_on_leading_axis {B : Type} (g : Coord * nat → B)
  (l : list (Coord * nat)) :
  flat_map (fun cd : Coord * nat => if Nat.eqb (snd cd) 0 then [g cd] else [])
    (map (fun cd : Coord * nat => (fst cd, S (snd cd))) l)
  = [].
Proof.
  induction l as [|[c d] l IH]; [reflexivity|].
  cbn [map flat_map fst snd Nat.eqb app]. exact IH.
Qed.

Section Stacked.

Context (b : Cube) (rc : Coord).
Hypothesis Hfresh : fresh_name (coord_name rc) b.
Hypothesis Hrc : bounds rc = None.

Lemma aux_without_rc (v : Q) :
  List.filter
    (fun cd : Coord * list nat =>
       negb (is_scalar cd && named (coord_name rc) (fst cd)))
    (aux_coords_and_dims b ++ [(with_point rc v, [])])
  = aux_coords_and_dims b.
Proof.
  rewrite List.filter_app. simpl. unfold named at 2. simpl.
  rewrite string_eqb_refl. simpl. rewrite app_nil_r.
  apply filter_keep_all. intros cd Hcd.
  replace (named (coord_name rc) (fst cd)) with false.
  - rewrite andb_false_r. reflexivity.
  - symmetry. apply not_true_is_false. intros E. apply named_spec in E.
    exact (proj2 Hfresh cd Hcd E).
Qed.

(** The stacked cube takes from its first member what all members share. *)
Lemma stack_head (vd vd' : Q * ndarray) (sorted : list (Q * Coord * Cube)) :
  dtype_of (snd vd') = dtype_of (snd vd) → shape (snd vd') = shape (snd vd) →
  stack (member b rc vd') (with_point rc (fst vd')) sorted
  = stack (member b rc vd) (with_point rc (fst vd)) sorted.
Proof.
  intros Hdt Hsh. unfold stack. f_equal; try reflexivity.
  - unfold member. cbn [aux_coords_and_dims set_data set_coords].
    change (coord_name (with_point rc (fst vd'))) with (coord_name rc).
    change (coord_name (with_point rc (fst vd))) with (coord_name rc).
    rewrite !aux_without_rc. reflexivity.
  - unfold member. simpl. rewrite Hdt, Hsh. reflexivity.
Qed.

Lemma no_leading_axis (ds : list nat) :
  existsb (Nat.eqb 0) (map S ds) = false.
Proof. induction ds as [|d ds IH]; [reflexivity|exact IH]. Qed.

(** Position [i] of the leading axis of a stack of members is member [i]. *)
Lemma index_axis_stack (vd0 : Q * ndarray) (vds : list (Q * ndarray))
  (i : nat) (vd : Q * ndarray) :
  (∀ vd', In vd' vds →
          plain_payload (snd vd')
          ∧ dtype_of (snd vd') = dtype_of (snd vd0)
          ∧ shape (snd vd') = shape (snd vd0)) →
  vds !! i = Some vd →
  index_axis
    (stack (member b rc vd0) (with_point rc (fst vd0))
       (map (fun vd => (fst vd, with_point rc (fst vd), member b rc vd)) vds))
    0 (At i)
  = Ok (member b rc vd).
Proof.
  intros Hall Hi.
  assert (Hlt : (i < length vds)%nat).
  { apply lookup_lt_is_Some. eexists. exact Hi. }
  assert (Hin : In vd vds).
  { apply list_elem_of_In, list_elem_of_lookup. eexists. exact Hi. }
  destruct (Hall vd Hin) as ([Hlen Hmask] & Hdt & Hsh).
  unfold index_axis, index_array, stack.
  cbn [data shape dtype_of flat mask positions drops_axis index_shape
         dim_coords_and_dims aux_coords_and_dims].
  rewrite length_map. simpl lookup.
  cbn [forallb]. replace (Nat.ltb i (length vds)) with true
    by (symmetry; apply Nat.ltb_lt; exact Hlt).
  cbn [andb mbind result_bind].
  rewrite (map_result_ok _
             (fun cd : Coord * list nat =>
                (fst cd, map (shift_down 0) (snd cd)))).
  2:{ intros cd Hcd. apply in_map_iff in Hcd as (cd' & <- & _). cbn [fst snd].
      rewrite no_leading_axis. reflexivity. }
  cbn [mbind result_bind].
  change (aux_coords_and_dims (member b rc vd0))
    with (aux_coords_and_dims b ++ [(with_point rc (fst vd0), [])]).
  change (coord_name (with_point rc (fst vd0))) with (coord_name rc).
  rewrite aux_without_rc.
  unfold member, set_data, set_coords.
  cbn [name var_name units attributes cell_methods dim_coords_and_dims
         aux_coords_and_dims data dtype_of shape flat mask fst snd].
  f_equal. f_equal.
  - cbn [flat_map snd]. rewrite Nat.eqb_refl. cbn [app].
    apply unshift_dims.
  - f_equal.
    + rewrite map_map. apply map_fixed. intros [c ds] _. cbn [fst snd]. f_equal.
      rewrite map_map. apply map_fixed. intros d _. reflexivity.
    + cbn [flat_map snd]. rewrite Nat.eqb_refl.
      rewrite (none_on_leading_axis
                 (fun cd => (pick_points (fst cd) [i], @nil nat))).
      unfold pick_points, with_point, set_points. simpl.
      rewrite !map_map. simpl. rewrite list_lookup_fmap, Hi, Hrc. reflexivity.
  - rewrite !map_map. cbn [snd data].
    assert (Hm : stack_masks
                   (map (fun vd1 : Q * ndarray =>
                           mk_Cube (name b) (var_name b) (units b)
                             (attributes b) (cell_methods b)
                             (dim_coords_and_dims b)
                             (aux_coords_and_dims b
                              ++ [(with_point rc (fst vd1), [])])
                             (snd vd1)) vds) = None).
    { unfold stack_masks, all_None. rewrite map_map. cbn [data].
      rewrite (proj2 (forallb_forall _ _)); [reflexivity|].
      intros o Ho. apply in_map_iff in Ho as (vd' & <- & Hvd').
      apply bool_decide_eq_true. apply (Hall vd' Hvd'). }
    rewrite Hm, select_leading. cbn [option_map take drop app].
    rewrite flat_map_concat_map, map_map. cbn [data].
    rewrite (take_drop_chunk (prod (shape (snd vd0)))
               (map (fun vd1 : Q * ndarray => flat (snd vd1)) vds) i
               (flat (snd vd))).
    + destruct vd as [v [dt sh fl mk]]. simpl in *. subst. reflexivity.
    + intros y Hy. apply in_map_iff in Hy as (vd' & <- & Hvd').
      destruct (Hall vd' Hvd') as ([Hl' _] & _ & Hs'). rewrite Hl', Hs'.
      reflexivity.
    + rewrite list_lookup_fmap, Hi. reflexivity.
Qed.

(** Slicing a stack of members over [rc] gives the members back. *)
Lemma slices_over_stack (vd0 : Q * ndarray) (vds : list (Q * ndarray)) :
  (∀ vd', In vd' vds →
          plain_payload (snd vd')
          ∧ dtype_of (snd vd') = dtype_of (snd vd0)
          ∧ shape (snd vd') = shape (snd vd0)) →
  slices_over
    (stack (member b rc vd0) (with_point rc (fst vd0))
       (map (fun vd => (fst vd, with_point rc (fst vd), member b rc vd)) vds))
    (coord_name rc)
  = Ok (map (member b rc) vds).
Proof.
  intros Hall. unfold slices_over.
  pose proof (stack_coord b rc Hfresh Hrc vd0
                (map (fun vd => (fst vd, with_point rc (fst vd), member b rc vd))
                   vds)) as Hc.
  rewrite Hc. cbn [mbind result_bind].
  rewrite (coord_dims_of_dim _ _ _ 0%nat Hc).
  2:{ left. unfold stack. cbn [fst]. f_equal.
      unfold with_point, set_points. simpl. rewrite Hrc. reflexivity. }
  cbn [mbind result_bind]. unfold n_points. cbn [points avals].
  rewrite !length_map.
  apply map_result_seq. intros i vd Hi. apply (index_axis_stack vd0 vds i vd Hall Hi).
Qed.

End Stacked.

(** The merge plugin in slicing mode, once the slices are known. *)
Lemma process_sliced (c0 c1 : Cube) (rest : list Cube) (sl : list (list Cube)) :
  map_result (fun cube => slices_over cube "realization") (c0 :: c1 :: rest)
  = Ok sl →
  MergeCubes.process (ACubeList (c0 :: c1 :: rest)) false true true
  = (cubelist ← MergeCubes._equalise_cell_methods
                  (strip_var_names (equalise_attributes (concat sl)));
     merge_cube cubelist).
Proof.
  intros Hsl. unfold MergeCubes.process. rewrite Hsl.
  cbn [mbind result_bind].
  destruct (MergeCubes._equalise_cell_methods _) as [cubelist|e];
    cbn [mbind result_bind]; [|reflexivity].
  destruct (merge_cube cubelist); reflexivity.
Qed.

Lemma sort_three (x y z : Q * Coord * Cube) :
  Qle_bool (fst (fst x)) (fst (fst y)) = false →
  sort_by key_le [y; x; z] = sort_by key_le [x; y; z].
Proof.
  intros Hxy. unfold sort_by. cbn [foldr insert_by]. unfold key_le.
  assert (Hyx : Qle_bool (fst (fst y)) (fst (fst x)) = true).
  { apply Qle_bool_iff. apply not_true_iff_false in Hxy.
    rewrite Qle_bool_iff in Hxy. apply Qlt_le_weak, Qnot_le_lt, Hxy. }
  assert (Hlt : (fst (fst y) < fst (fst x))%Q).
  { apply Qnot_le_lt. rewrite <- Qle_bool_iff, Hxy. discriminate. }
  destruct (Qle_bool (fst (fst x)) (fst (fst z))) eqn:Hxz;
    destruct (Qle_bool (fst (fst y)) (fst (fst z))) eqn:Hyz;
    cbn [insert_by]; rewrite ?Hxy, ?Hyx, ?Hxz, ?Hyz; try reflexivity.
  exfalso. apply Qle_bool_iff in Hxz. apply not_true_iff_false in Hyz.
  apply Hyz, Qle_bool_iff. apply Qlt_le_weak.
  apply (Qlt_le_trans _ _ _ Hlt Hxz).
Qed.

Lemma distinct_three (g : Q * ndarray → Q * Coord * Cube)
  (x y z : Q * ndarray) :
  (∀ vd, fst (fst (g vd)) = fst vd) →
  ¬ (fst x == fst y)%Q → ¬ (fst x == fst z)%Q → ¬ (fst y == fst z)%Q →
  distinct_keys (map g [x; y; z]) = true.
Proof.
  intros Hg Hxy Hxz Hyz. simpl. rewrite !Hg.
  rewrite <- Qeq_bool_iff in Hxy, Hxz, Hyz.
  apply not_true_is_false in Hxy, Hxz, Hyz. rewrite Hxy, Hxz, Hyz. reflexivity.
Qed.

Lemma distinct_two (g : Q * ndarray → Q * Coord * Cube) (x y : Q * ndarray) :
  (∀ vd, fst (fst (g vd)) = fst vd) →
  ¬ (fst x == fst y)%Q →
  distinct_keys (map g [x; y]) = true.
Proof.
  intros Hg Hxy. simpl. rewrite !Hg.
  rewrite <- Qeq_bool_iff in Hxy.
  apply not_true_is_false in Hxy. rewrite Hxy. reflexivity.
Qed.

(** Merging three members at once. *)
Lemma process_three (b : Cube) (rc : Coord) (x y z : Q * ndarray)
  (bx by' bz : Cube) (rx ry rz : Coord) (cx cy cz : list CellMethod) :
  coord_name rc = "realization" → fresh_name "realization" b →
  unique_aux_names b → bounds rc = None →
  (∀ vd, In vd [y; z] →
         dtype_of (snd vd) = dtype_of (snd x) ∧ shape (snd vd) = shape (snd x)) →
  ¬ (fst x == fst y)%Q → ¬ (fst x == fst z)%Q → ¬ (fst y == fst z)%Q →
  attributes bx = attributes b → attributes by' = attributes b →
  attributes bz = attributes b →
  strip_cube bx = set_cell_methods (strip_cube b) cx →
  strip_cube by' = set_cell_methods (strip_cube b) cy →
  strip_cube bz = set_cell_methods (strip_cube b) cz →
  strip_coord_var_name rx = strip_coord_var_name rc →
  strip_coord_var_name ry = strip_coord_var_name rc →
  strip_coord_var_name rz = strip_coord_var_name rc →
  let cm := MergeCubes.set_intersection (MergeCubes.set_intersection cx cy) cz in
  let b' := set_cell_methods (strip_cube b) cm in
  let rc' := strip_coord_var_name rc in
  (cubelist ← MergeCubes._equalise_cell_methods
                (strip_var_names
                   (equalise_attributes
                      [member bx rx x; member by' ry y; member bz rz z]));
   merge_cube cubelist)
  = Ok (stack (member b' rc' x) (with_point rc' (fst x))
          (sort_by key_le
             (map (fun vd => (fst vd, with_point rc' (fst vd), member b' rc' vd))
                [x; y; z]))).
Proof.
  intros Hname Hfresh Hunique Hrc Huni Hxy Hxz Hyz Hax Hay Haz Hbx Hby Hbz
    Hrx Hry Hrz cm b' rc'.
  rewrite equalise_attributes_same.
  2:{ intros c c' Hc Hc'.
      assert (H : ∀ c, In c [member bx rx x; member by' ry y; member bz rz z] →
                       attributes c = attributes b).
      { intros c0 [<-|[<-|[<-|[]]]]; assumption. }
      rewrite (H c Hc), (H c' Hc'). reflexivity. }
  unfold strip_var_names. cbn [map]. rewrite !strip_cube_member.
  rewrite Hbx, Hby, Hbz, Hrx, Hry, Hrz. fold rc'.
  unfold MergeCubes._equalise_cell_methods.
  cbn [map foldl cell_methods member set_data set_coords set_cell_methods
         mbind result_bind].
  fold cm.
  change (merge_cube (map (member b' rc') [x; y; z])
          = Ok (stack (member b' rc' x) (with_point rc' (fst x))
                  (sort_by key_le
                     (map (fun vd =>
                             (fst vd, with_point rc' (fst vd), member b' rc' vd))
                        [x; y; z])))).
  assert (Hname' : coord_name rc' = "realization").
  { unfold rc'. rewrite strip_coord_name. exact Hname. }
  apply merge_members.
  - rewrite Hname'. apply fresh_name_strip, Hfresh.
  - apply unique_aux_names_strip, Hunique.
  - unfold rc'. rewrite strip_coord_bounds. exact Hrc.
  - exact Huni.
  - apply distinct_three; [reflexivity|assumption..].
Qed.

(** Merging two members. *)
Lemma process_two (b : Cube) (rc : Coord) (x y : Q * ndarray) :
  coord_name rc = "realization" → fresh_name "realization" b →
  unique_aux_names b → bounds rc = None →
  dtype_of (snd y) = dtype_of (snd x) → shape (snd y) = shape (snd x) →
  ¬ (fst x == fst y)%Q →
  let cm := MergeCubes.set_intersection (cell_methods b) (cell_methods b) in
  let b' := set_cell_methods (strip_cube b) cm in
  let rc' := strip_coord_var_name rc in
  (cubelist ← MergeCubes._equalise_cell_methods
                (strip_var_names
                   (equalise_attributes [member b rc x; member b rc y]));
   merge_cube cubelist)
  = Ok (stack (member b' rc' x) (with_point rc' (fst x))
          (sort_by key_le
             (map (fun vd => (fst vd, with_point rc' (fst vd), member b' rc' vd))
                [x; y]))).
Proof.
  intros Hname Hfresh Hunique Hrc Hdt Hsh Hxy cm b' rc'.
  rewrite equalise_attributes_same.
  2:{ intros c c' Hc Hc'.
      assert (H : ∀ c, In c [member b rc x; member b rc y] →
                       attributes c = attributes b).
      { intros c0 [<-|[<-|[]]]; reflexivity. }
      rewrite (H c Hc), (H c' Hc'). reflexivity. }
  unfold strip_var_names. cbn [map]. rewrite !strip_cube_member. fold rc'.
  unfold MergeCubes._equalise_cell_methods.
  cbn [map foldl cell_methods member set_data set_coords set_cell_methods
         strip_cube set_var_name mbind result_bind].
  fold cm.
  change (merge_cube (map (member b' rc') [x; y])
          = Ok (stack (member b' rc' x) (with_point rc' (fst x))
                  (sort_by key_le
                     (map (fun vd =>
                             (fst vd, with_point rc' (fst vd), member b' rc' vd))
                        [x; y])))).
  assert (Hname' : coord_name rc' = "realization").
  { unfold rc'. rewrite strip_coord_name. exact Hname. }
  apply merge_members.
  - rewrite Hname'. apply fresh_name_strip, Hfresh.
  - apply unique_aux_names_strip, Hunique.
  - unfold rc'. rewrite strip_coord_bounds. exact Hrc.
  - intros vd [<-|[]]. split; assumption.
  - apply distinct_two; [reflexivity|assumption].
Qed.

(** C9, amended: with slicing over the realization coordinate, merging three
    members at once and merging the first two before the third give the same
    cube. *)
Theorem merge_sliced_in_steps (b : Cube) (rc : Coord)
  (vdA vdB vdC : Q * ndarray) :
  coord_name rc = "realization" → fresh_name "realization" b →
  unique_aux_names b → bounds rc = None →
  (∀ vd, In vd [vdA; vdB; vdC] →
         plain_payload (snd vd)
         ∧ dtype_of (snd vd) = dtype_of (snd vdA)
         ∧ shape (snd vd) = shape (snd vdA)) →
  ¬ (fst vdA == fst vdB)%Q → ¬ (fst vdA == fst vdC)%Q →
  ¬ (fst vdB == fst vdC)%Q →
  ∃ r,
    MergeCubes.process
      (ACubeList [member b rc vdA; member b rc vdB; member b rc vdC])
      false true true = Ok r
    ∧ (ab ← MergeCubes.process
              (ACubeList [member b rc vdA; member b rc vdB]) false true true;
       MergeCubes.process (ACubeList [ab; member b rc vdC]) false true true)
      = Ok r.
Proof.
  intros Hname Hfresh Hunique Hrc Hall Hab Hac Hbc.
  destruct (Hall vdA (or_introl eq_refl)) as (HpA & _ & _).
  destruct (Hall vdB (or_intror (or_introl eq_refl))) as (HpB & HdB & HsB).
  destruct (Hall vdC (or_intror (or_intror (or_introl eq_refl))))
    as (HpC & HdC & HsC).
  assert (Hfr : fresh_name (coord_name rc) b) by (rewrite Hname; exact Hfresh).
  set (rc' := strip_coord_var_name rc).
  set (two := MergeCubes.set_intersection (cell_methods b) (cell_methods b)).
  set (b2 := set_cell_methods (strip_cube b) two).
  set (b3 := set_cell_methods (strip_cube b)
               (MergeCubes.set_intersection two (cell_methods b))).
  assert (Hname' : coord_name rc' = "realization").
  { unfold rc'. rewrite strip_coord_name. exact Hname. }
  assert (Hrc' : bounds rc' = None).
  { unfold rc'. rewrite strip_coord_bounds. exact Hrc. }
  assert (Hfr2 : fresh_name (coord_name rc') b2).
  { rewrite Hname'. apply fresh_name_strip, Hfresh. }
  exists (stack (member b3 rc' vdA) (with_point rc' (fst vdA))
            (sort_by key_le
               (map (fun vd =>
                       (fst vd, with_point rc' (fst vd), member b3 rc' vd))
                  [vdA; vdB; vdC]))).
  split.
  - rewrite (process_sliced _ _ _
               [[member b rc vdA]; [member b rc vdB]; [member b rc vdC]]).
    2:{ cbn [map_result]. rewrite <- Hname.
        rewrite !(slices_over_member b rc Hfr). reflexivity. }
    cbn [concat app].
    apply (process_three b rc vdA vdB vdC b b b rc rc rc
             (cell_methods b) (cell_methods b) (cell_methods b));
      try assumption; try reflexivity.
    intros vd [<-|[<-|[]]]; split; assumption.
  - rewrite (process_sliced _ _ _ [[member b rc vdA]; [member b rc vdB]]).
    2:{ cbn [map_result]. rewrite <- Hname.
        rewrite !(slices_over_member b rc Hfr). reflexivity. }
    cbn [concat app].
    rewrite (process_two b rc vdA vdB Hname Hfresh Hunique Hrc HdB HsB Hab).
    cbn [mbind result_bind]. fold rc'. fold two. fold b2.
    set (K2 := fun vd : Q * ndarray =>
                 (fst vd, with_point rc' (fst vd), member b2 rc' vd)).
    assert (Hsort : ∃ s1 s2,
               sort_by key_le (map K2 [vdA; vdB]) = map K2 [s1; s2]
               ∧ ((s1 = vdA ∧ s2 = vdB)
                  ∨ (s1 = vdB ∧ s2 = vdA
                     ∧ Qle_bool (fst vdA) (fst vdB) = false))).
    { unfold sort_by. cbn [map foldr insert_by]. unfold key_le at 1.
      cbn [K2 fst].
      destruct (Qle_bool (fst vdA) (fst vdB)) eqn:Hle.
      - exists vdA, vdB. split; [reflexivity|]. left. split; reflexivity.
      - exists vdB, vdA. split; [reflexivity|]. right. repeat split. }
    destruct Hsort as (s1 & s2 & Hsort & Hcase). rewrite Hsort.
    assert (Hs : (∀ vd, In vd [s1; s2] →
                    plain_payload (snd vd)
                    ∧ dtype_of (snd vd) = dtype_of (snd vdA)
                    ∧ shape (snd vd) = shape (snd vdA))
                 ∧ ¬ (fst s1 == fst s2)%Q ∧ ¬ (fst s1 == fst vdC)%Q
                 ∧ ¬ (fst s2 == fst vdC)%Q).
    { destruct Hcase as [[-> ->]|(-> & -> & _)].
      - split; [|repeat split; assumption].
        intros vd [<-|[<-|[]]]; apply Hall; simpl; tauto.
      - split; [|repeat split; try assumption;
                  intros E; apply Hab; symmetry; exact E].
        intros vd [<-|[<-|[]]]; apply Hall; simpl; tauto. }
    destruct Hs as (Hs & Hs12 & Hs1C & Hs2C).
    assert (H1 : slices_over
                   (stack (member b2 rc' vdA) (with_point rc' (fst vdA))
                      (map K2 [s1; s2])) "realization"
                 = Ok (map (member b2 rc') [s1; s2])).
    { rewrite <- Hname'. apply (slices_over_stack b2 rc' Hfr2 Hrc'). exact Hs. }
    assert (H2 : slices_over (member b rc vdC) "realization"
                 = Ok [member b rc vdC]).
    { rewrite <- Hname. apply (slices_over_member b rc Hfr). }
    rewrite (process_sliced _ _ _
               [map (member b2 rc') [s1; s2]; [member b rc vdC]]).
    2:{ cbn [map_result]. rewrite H1. cbn [mbind result_bind].
        rewrite H2. reflexivity. }
    cbn [concat app map].
    destruct (Hs s1 (or_introl eq_refl)) as (_ & Hd1 & Hh1).
    destruct (Hs s2 (or_intror (or_introl eq_refl))) as (_ & Hd2 & Hh2).
    rewrite (process_three b rc s1 s2 vdC b2 b2 b rc' rc' rc two two
               (cell_methods b));
      try assumption; try reflexivity.
    + pose proof (set_intersection_staged (cell_methods b)) as Hst.
      cbv zeta in Hst. fold two in Hst. rewrite Hst. fold b3.
      destruct Hcase as [[-> ->]|(-> & -> & Hle)]; [reflexivity|].
      assert (Hfr3 : fresh_name (coord_name rc') b3).
      { rewrite Hname'. apply fresh_name_strip, Hfresh. }
      f_equal. rewrite (stack_head b3 rc' Hfr3 vdA vdB) by assumption.
      f_equal. apply (sort_three
                        (fst vdA, with_point rc' (fst vdA), member b3 rc' vdA)
                        (fst vdB, with_point rc' (fst vdB), member b3 rc' vdB)).
      exact Hle.
    + intros vd [<-|[<-|[]]]; split; congruence.
    + apply strip_cube_idem.
    + apply strip_cube_idem.
    + apply strip_coord_idem.
    + apply strip_coord_idem.
Qed.

Example member_cube_is_member (r value : Q) :
  member member_base (realization_of 0) (r, scalar_payload value)
  = member_cube r value.
Proof. reflexivity. Qed.

Lemma merge_sliced_in_steps_witness :
  ∃ r,
    MergeCubes.process
      (ACubeList [member member_base (realization_of 0) (0%Q, scalar_payload 280);
                  member member_base (realization_of 0) (1%Q, scalar_payload 281);
                  member member_base (realization_of 0) (2%Q, scalar_payload 282)])
      false true true = Ok r
    ∧ (ab ← MergeCubes.process
              (ACubeList
                 [member member_base (realization_of 0) (0%Q, scalar_payload 280);
                  member member_base (realization_of 0) (1%Q, scalar_payload 281)])
              false true true;
       MergeCubes.process
         (ACubeList
            [ab; member member_base (realization_of 0) (2%Q, scalar_payload 282)])
         false true true)
      = Ok r.
Proof.
  apply merge_sliced_in_steps.
  - reflexivity.
  - split; intros cd [].
  - unfold unique_aux_names. simpl. apply NoDup_nil_2.
  - reflexivity.
  - intros vd [<-|[<-|[<-|[]]]]; repeat split.
  - intros H. discriminate H.
  - intros H. discriminate H.
  - intros H. discriminate H.
Defined.

(** C9: with the default options the second merge of a merge in two steps
    meets a cube with one more dimension than its partner, and fails; the
    merge of the three cubes at once succeeds. *)
Lemma merge_in_steps_fails_by_default :
  match MergeCubes.process
          (ACubeList [member_cube 0 280; member_cube 1 281; member_cube 2 282])
          false false true with
  | Ok r => Some (shape (data r), flat (data r))
  | Raise _ => None
  end = Some ([3%nat], [Fin 280; Fin 281; Fin 282])
  ∧ (ab ← MergeCubes.process
            (ACubeList [member_cube 0 280; member_cube 1 281]) false false true;
     MergeCubes.process (ACubeList [ab; member_cube 2 282]) false false true)
    = Raise MergeError
  ∧ MergeCubes.process
      (ACubeList [member_cube 0 280; member_cube 1 281; member_cube 2 282])
      false false true
    ≠ (ab ← MergeCubes.process
              (ACubeList [member_cube 0 280; member_cube 1 281])
              false false true;
       MergeCubes.process (ACubeList [ab; member_cube 2 282]) false false true).
Proof.
  split; [vm_compute; reflexivity|].
  split; [vm_compute; reflexivity|].
  intros H. vm_compute in H. discriminate H.
Qed.

(** The same three cubes, merged in two steps with slicing. *)
Example merge_sliced_in_steps_example :
  match (ab ← MergeCubes.process
                (ACubeList [member_cube 1 281; member_cube 0 280])
                false true true;
         MergeCubes.process (ACubeList [ab; member_cube 2 282]) false true true)
  with
  | Ok r => Some (shape (data r), flat (data r))
  | Raise _ => None
  end = Some ([3%nat], [Fin 280; Fin 281; Fin 282]).
Proof. vm_compute. reflexivity. Qed.

(** ** More on collapsing the realizations *)

Lemma dict_get_missing {V : Type} (d : list (string * V)) (k : string) :
  k ∉ map fst d → dict_get d k = None.
Proof.
  intros Hk. unfold dict_get.
  replace (List.find (fun kv => string_eqb (fst kv) k) d) with (@None (string * V));
    [reflexivity|].
  symmetry. induction d as [|[k' v] d IH]; [reflexivity|].
  simpl in *. rewrite not_elem_of_cons in Hk. destruct Hk as [Hne Hk].
  unfold string_eqb at 1. rewrite bool_decide_eq_false_2 by congruence.
  apply IH, Hk.
Qed.

Lemma filter_twice {A : Type} (p q : A → bool) (l : list A) :
  List.filter p (List.filter q l) = List.filter (fun x => q x && p x) l.
Proof.
  induction l as [|x l IH]; simpl; [reflexivity|].
  destruct (q x); simpl; [destruct (p x)|]; rewrite IH; reflexivity.
Qed.

Lemma coords_named_remove_coord (c c' : Cube) (n : string) :
  remove_coord c n = Ok c' → coords_named c' n = [].
Proof.
  unfold remove_coord. destruct (coord c n) as [co|e]; simpl; [|discriminate].
  intros H. injection H as <-.
  apply Permutation_nil_r. rewrite coords_named_perm. simpl.
  rewrite List.filter_app, !filter_map_fst, !filter_keep_none; [reflexivity| |];
    intros cd Hcd; apply filter_In in Hcd as [_ Hcd];
    apply negb_true_iff in Hcd; exact Hcd.
Qed.

Lemma coord_remove_coord (c c' : Cube) (n m : string) (co : Coord) :
  remove_coord c n = Ok c' → m ≠ n → coord c m = Ok co → coord c' m = Ok co.
Proof.
  unfold remove_coord. destruct (coord c n) as [co0|e]; simpl; [|discriminate].
  intros H Hmn Hm. injection H as <-.
  apply coord_of_perm. simpl.
  pose proof (coords_named_perm c m) as Hp.
  rewrite (coord_inv _ _ _ Hm) in Hp.
  apply Permutation_singleton_l in Hp.
  transitivity (List.filter (named m)
                  (map fst (dim_coords_and_dims c)
                   ++ map fst (aux_coords_and_dims c)));
    [|first [exact Hp|symmetry; exact Hp]].
  rewrite !List.filter_app, !filter_map_fst. f_equal; f_equal;
    rewrite filter_twice; apply List.filter_ext;
    intros cd; unfold named, string_eqb;
    repeat case_bool_decide; simpl; try reflexivity; congruence.
Qed.

Section CollapseRealizations.

Context (FLOAT_DTYPE : dtype) (FLOAT_TYPES : list dtype).
Context (cast : dtype → Q → Q).
Context (iris_collapsed : Cube → coord_arg → Aggregator → result Cube).

(** X1: a method that is none of the six names is refused with a
    [ValueError] that lists them, whatever the cube and the engine. *)
Theorem collapse_realizations_unknown_method (cube : Cube) (method : string) :
  method ∉ ["sum"; "mean"; "median"; "std_dev"; "min"; "max"] →
  collapse_realizations FLOAT_DTYPE FLOAT_TYPES cast iris_collapsed cube method
  = Raise (ValueError
             "method must be one of ['sum', 'mean', 'median', 'std_dev', 'min', 'max']").
Proof.
  intros Hm. unfold collapse_realizations.
  rewrite dict_get_missing by exact Hm. reflexivity.
Qed.

(** X2: with a method other than [std_dev] whose reduction the engine
    performs, [collapse_realizations] returns a cube without any realization
    coordinate, with the cell methods of the input, the engine's values
    (demoted to the declared precision when floating) and every other
    coordinate of the engine's result. *)
Theorem collapse_realizations_drops_realization (cube : Cube) (method : string)
  (aggregator : Aggregator) (new_cube : Cube) :
  dict_get aggregator_dict method = Some aggregator →
  method ≠ "std_dev" →
  iris_collapsed cube (OneCoord "realization") aggregator = Ok new_cube →
  (∃ co, coord new_cube "realization" = Ok co) →
  ∃ r,
    collapse_realizations FLOAT_DTYPE FLOAT_TYPES cast iris_collapsed cube method
    = Ok r
    ∧ coords_named r "realization" = []
    ∧ cell_methods r = cell_methods cube
    ∧ data r = (if dtype_in (dtype_of (data new_cube)) FLOAT_TYPES
                then astype cast FLOAT_DTYPE (data new_cube)
                else data new_cube)
    ∧ ∀ m co, m ≠ "realization" → coord new_cube m = Ok co → coord r m = Ok co.
Proof.
  intros Hagg Hstd Hengine Hfound.
  destruct (collapsed_spec FLOAT_DTYPE FLOAT_TYPES cast iris_collapsed cube
              (OneCoord "realization") aggregator new_cube Hengine)
    as (c1 & Hc1 & Hcm & Hd & Hlook).
  { intros n Hn. apply list_elem_of_singleton in Hn. subst n. exact Hfound. }
  { apply NoDup_singleton. }
  destruct Hfound as [co Hco].
  pose proof (Hlook _ _ Hco) as Hc1co.
  destruct (remove_coord_ok c1 "realization" _ Hc1co) as (r & Hr & Hdr & Hcmr).
  exists r. unfold collapse_realizations. rewrite Hagg, Hc1.
  cbn [mbind result_bind]. rewrite Hr. cbn [mbind result_bind].
  replace (string_eqb method "std_dev") with false
    by (symmetry; apply bool_decide_eq_false_2; exact Hstd).
  split; [reflexivity|].
  split; [apply (coords_named_remove_coord c1 r "realization" Hr)|].
  split; [congruence|]. split; [congruence|].
  intros m co' Hm Hco'.
  apply (coord_remove_coord c1 r "realization" m co' Hr Hm).
  rewrite (Hlook _ _ Hco').
  rewrite bool_decide_eq_false_2; [reflexivity|].
  intros Hin. apply list_elem_of_singleton in Hin. exact (Hm Hin).
Qed.

End CollapseRealizations.

Lemma collapse_realizations_unknown_method_witness :
  collapse_realizations Float32 [Float64; Float32] exact_cast
    (one_member_collapsed false) one_member_cube "mode"
  = Raise (ValueError
             "method must be one of ['sum', 'mean', 'median', 'std_dev', 'min', 'max']").
Proof.
  apply collapse_realizations_unknown_method.
  intros H. repeat (apply elem_of_cons in H as [H|H]; [discriminate H|]).
  apply elem_of_nil in H. exact H.
Defined.

Lemma collapse_realizations_drops_realization_witness :
  ∃ r,
    collapse_realizations Float32 [Float64; Float32] exact_cast
      (one_member_collapsed false) one_member_cube "mean" = Ok r
    ∧ coords_named r "realization" = []
    ∧ cell_methods r = [mk_CellMethod "mean" ["time"]]
    ∧ data r = mk_ndarray Float32 [2%nat] [Fin 280; Fin 281] None.
Proof.
  destruct (collapse_realizations_drops_realization Float32 [Float64; Float32]
              exact_cast (one_member_collapsed false) one_member_cube "mean" MEAN
              (match one_member_collapsed false one_member_cube
                       (OneCoord "realization") MEAN with
               | Ok c => c
               | Raise _ => one_member_cube
               end))
    as (r & Hr & Hnone & Hcm & Hd & _).
  - reflexivity.
  - discriminate.
  - vm_compute. reflexivity.
  - eexists. vm_compute. reflexivity.
  - exists r. split; [exact Hr|]. split; [exact Hnone|]. split; [exact Hcm|].
    rewrite Hd. vm_compute. reflexivity.
Defined.

(** ** Stripping variable names *)

(** X3: after [strip_var_names] every cube has no variable name
    and every coordinate has none either, the name [threshold] apart, which
    is kept; the number of cubes, their names, units, attributes, cell methods
    and payloads, and the names, points and bounds of their coordinates, on
    the same axes, are as before. *)
Theorem strip_var_names_clears (cubes : list Cube) :
  length (strip_var_names cubes) = length cubes
  ∧ Forall2
      (fun c c' =>
         var_name c' = None
         ∧ name c' = name c ∧ units c' = units c
         ∧ attributes c' = attributes c ∧ cell_methods c' = cell_methods c
         ∧ data c' = data c
         ∧ Forall2
             (fun cd cd' : Coord * list nat =>
                snd cd' = snd cd
                ∧ coord_name (fst cd') = coord_name (fst cd)
                ∧ coord_units (fst cd') = coord_units (fst cd)
                ∧ points (fst cd') = points (fst cd)
                ∧ bounds (fst cd') = bounds (fst cd)
                ∧ coord_var_name (fst cd')
                  = (if bool_decide (coord_var_name (fst cd) = Some "threshold")
                     then Some "threshold" else None))
             (coords_and_dims c) (coords_and_dims c'))
      cubes (strip_var_names cubes).
Proof.
  split; [apply length_map|].
  unfold strip_var_names. induction cubes as [|c cubes IH]; simpl;
    constructor; [|exact IH].
  repeat (split; [reflexivity|]).
  unfold coords_and_dims, strip_cube. simpl.
  rewrite (sort_by_map (fun a b : Coord * nat => Nat.leb (snd a) (snd b))
             (fun a b : Coord * nat => Nat.leb (snd a) (snd b))
             (fun cd : Coord * nat => (strip_coord_var_name (fst cd), snd cd)))
    by reflexivity.
  rewrite map_map. simpl.
  assert (Hone : ∀ co : Coord,
            coord_name (strip_coord_var_name co) = coord_name co
            ∧ coord_units (strip_coord_var_name co) = coord_units co
            ∧ points (strip_coord_var_name co) = points co
            ∧ bounds (strip_coord_var_name co) = bounds co
            ∧ coord_var_name (strip_coord_var_name co)
              = (if bool_decide (coord_var_name co = Some "threshold")
                 then Some "threshold" else None)).
  { intros co. unfold strip_coord_var_name.
    destruct (bool_decide (coord_var_name co = Some "threshold")) eqn:E;
      repeat split.
    apply bool_decide_eq_true in E. exact E. }
  apply Forall2_app.
  - induction (sort_by _ (dim_coords_and_dims c)) as [|cd l IHl]; simpl;
      constructor; [|exact IHl].
    split; [reflexivity|]. apply Hone.
  - induction (aux_coords_and_dims c) as [|cd l IHl]; simpl;
      constructor; [|exact IHl].
    split; [reflexivity|]. apply Hone.
Qed.

(** X4: stripping twice is stripping once. *)
Theorem strip_var_names_idempotent (cubes : list Cube) :
  strip_var_names (strip_var_names cubes) = strip_var_names cubes.
Proof.
  unfold strip_var_names. rewrite map_map. apply map_ext. intros c.
  rewrite <- (strip_cube_idem c (cell_methods c)) at 2.
  destruct c; reflexivity.
Qed.

(** ** Equalising cell methods *)

Lemma set_intersection_spec (a b : list CellMethod) (m : CellMethod) :
  m ∈ MergeCubes.set_intersection a b ↔ m ∈ a ∧ m ∈ b.
Proof.
  unfold MergeCubes.set_intersection.
  rewrite elem_of_elements, elem_of_intersection, !elem_of_list_to_set.
  reflexivity.
Qed.

Lemma common_cell_methods_spec (rest : list Cube) :
  ∀ (cm : list CellMethod) (m : CellMethod),
    m ∈ foldl (fun cm cube => MergeCubes.set_intersection cm (cell_methods cube))
          cm rest
    ↔ m ∈ cm ∧ ∀ c, In c rest → m ∈ cell_methods c.
Proof.
  induction rest as [|c rest IH]; intros cm m; simpl.
  - split; [intros H; split; [exact H|intros c []]|intros [H _]; exact H].
  - rewrite IH, set_intersection_spec. split.
    + intros [[Hcm Hc] Hrest]. split; [exact Hcm|].
      intros c' [<-|Hc']; [exact Hc|apply Hrest, Hc'].
    + intros [Hcm Hall]. split; [split; [exact Hcm|apply Hall; left; reflexivity]|].
      intros c' Hc'. apply Hall. right. exact Hc'.
Qed.

(** The shared cell methods of a list that is not empty. *)
Lemma equalise_cell_methods_nonempty (cubelist : list Cube) :
  cubelist ≠ [] →
  ∃ cm,
    MergeCubes._equalise_cell_methods cubelist
    = Ok (map (fun cube => set_cell_methods cube cm) cubelist)
    ∧ ∀ m, m ∈ cm ↔ ∀ c, In c cubelist → m ∈ cell_methods c.
Proof.
  destruct cubelist as [|c0 rest]; [congruence|]. intros _.
  eexists. split; [reflexivity|].
  intros m. rewrite common_cell_methods_spec. split.
  - intros [H0 Hrest] c [<-|Hc]; [exact H0|apply Hrest, Hc].
  - intros Hall. split; [apply Hall; left; reflexivity|].
    intros c Hc. apply Hall. right. exact Hc.
Qed.

(** X5: [_equalise_cell_methods] gives every cube of a
    list the same cell methods: exactly those that every cube of the list
    had; nothing else of the cubes changes.  An empty list is refused with
    an [IndexError]. *)
Theorem equalise_cell_methods_common (cubelist : list Cube) :
  (cubelist = [] → MergeCubes._equalise_cell_methods cubelist = Raise IndexError)
  ∧ (cubelist ≠ [] →
     ∃ cm,
       MergeCubes._equalise_cell_methods cubelist
       = Ok (map (fun cube => set_cell_methods cube cm) cubelist)
       ∧ ∀ m, m ∈ cm ↔ ∀ c, In c cubelist → m ∈ cell_methods c).
Proof.
  split; [intros ->; reflexivity|apply equalise_cell_methods_nonempty].
Qed.

Lemma equalise_cell_methods_common_witness :
  ∃ cm,
    MergeCubes._equalise_cell_methods
      [three_member_cube; set_cell_methods three_member_cube []]
    = Ok [set_cell_methods three_member_cube cm;
          set_cell_methods (set_cell_methods three_member_cube []) cm]
    ∧ ∀ m, m ∉ cm.
Proof.
  destruct (proj2 (equalise_cell_methods_common
                     [three_member_cube; set_cell_methods three_member_cube []]))
    as (cm & Hcm & Hall); [discriminate|].
  exists cm. split; [exact Hcm|].
  intros m Hm. pose proof (proj1 (Hall m) Hm) as Hm'.
  specialize (Hm' (set_cell_methods three_member_cube [])
                (or_intror (or_introl eq_refl))).
  simpl in Hm'. apply elem_of_nil in Hm'. exact Hm'.
Defined.

(** ** Filtering and comparing attributes *)

Lemma is_substring_spec (f k : string) :
  is_substring f k = true ↔ ∃ m, String.substring m (String.length f) k = f.
Proof.
  unfold is_substring. split.
  - destruct (String.index 0 f k) as [m|] eqn:E; [|discriminate].
    intros _. exists m. apply (String.index_correct1 _ _ _ _ E).
  - intros [m Hm]. destruct (String.index 0 f k) as [m'|] eqn:E; [reflexivity|].
    exfalso. destruct (String.string_dec f "") as [->|Hf].
    + apply String.index_correct4 in E. lia.
    + apply (String.index_correct3 _ m _ _ E Hf); [lia|exact Hm].
Qed.

(** X6: [get_filtered_attributes] returns the attributes
    of the cube whose key holds the filter as a piece of text, with their
    values; without a filter, all of them. *)
Theorem get_filtered_attributes_spec (cube : Cube)
  (attribute_filter : option string) (k : string) (v : attr) :
  get_filtered_attributes cube attribute_filter !! k = Some v
  ↔ attributes cube !! k = Some v
    ∧ ∀ f, attribute_filter = Some f →
           ∃ m, String.substring m (String.length f) k = f.
Proof.
  unfold get_filtered_attributes. destruct attribute_filter as [f|].
  - rewrite map_lookup_filter_Some. simpl. rewrite Is_true_true, is_substring_spec.
    split.
    + intros [Hk Hm]. split; [exact Hk|]. intros f' Hf. injection Hf as <-.
      exact Hm.
    + intros [Hk Hm]. split; [exact Hk|]. apply Hm. reflexivity.
  - split; [intros H; split; [exact H|discriminate]|intros [H _]; exact H].
Qed.

(** The keys that survive the narrowing: those of the start set that every
    cube holds with the value of the reference. *)
Lemma narrow_common_keys_spec (reference_attributes : gmap string attr)
  (attribute_filter : option string) (rest : list Cube) :
  ∀ (common_keys : gset string) (k : string),
    k ∈ foldl (narrow_common_keys reference_attributes attribute_filter)
          common_keys rest
    ↔ k ∈ common_keys
      ∧ ∀ c, In c rest →
          ∃ v r, get_filtered_attributes c attribute_filter !! k = Some v
                 ∧ reference_attributes !! k = Some r
                 ∧ attr_eqb v r = true.
Proof.
  induction rest as [|c rest IH]; intros common_keys k; simpl.
  - split; [intros H; split; [exact H|intros c []]|intros [H _]; exact H].
  - rewrite IH. unfold narrow_common_keys at 1.
    rewrite elem_of_dom. unfold is_Some.
    setoid_rewrite map_lookup_filter_Some. simpl. split.
    + intros [(v & Hv & Hk & Heq) Hrest]. split; [exact Hk|].
      intros c' [<-|Hc']; [|apply Hrest, Hc'].
      destruct (reference_attributes !! k) as [r|]; [|destruct Heq].
      exists v, r. split; [exact Hv|]. split; [reflexivity|].
      apply Is_true_true, Heq.
    + intros [Hk Hall]. split.
      * destruct (Hall c (or_introl eq_refl)) as (v & r & Hv & Hr & Heq).
        exists v. split; [exact Hv|]. split; [exact Hk|].
        rewrite Hr. apply Is_true_true, Heq.
      * intros c' Hc'. apply Hall. right. exact Hc'.
Qed.

(** X7: for two cubes or more [compare_attributes] gives
    no warning and one dictionary per cube, in order; the dictionary of a
    cube holds its (filtered) attributes but for those that the first cube
    holds and every other cube holds with the first cube's value.  An empty
    list is refused with an [IndexError]. *)
Theorem compare_attributes_unmatched (cubes : list Cube)
  (attribute_filter : option string) :
  (cubes = [] → compare_attributes cubes attribute_filter = ([], Raise IndexError))
  ∧ ∀ c0 c1 rest, cubes = c0 :: c1 :: rest →
      ∃ dicts,
        compare_attributes cubes attribute_filter = ([], Ok dicts)
        ∧ length dicts = length cubes
        ∧ Forall2
            (fun cube d =>
               ∀ k v,
                 d !! k = Some v
                 ↔ get_filtered_attributes cube attribute_filter !! k = Some v
                   ∧ ¬ (∃ r,
                          get_filtered_attributes c0 attribute_filter !! k
                          = Some r
                          ∧ ∀ c, In c (c1 :: rest) →
                              ∃ v', get_filtered_attributes c attribute_filter
                                      !! k = Some v'
                                    ∧ attr_eqb v' r = true))
            cubes dicts.
Proof.
  split; [intros ->; reflexivity|].
  intros c0 c1 rest ->. eexists. split; [reflexivity|].
  split; [rewrite length_map; reflexivity|].
  set (reference := get_filtered_attributes c0 attribute_filter).
  set (common := foldl (narrow_common_keys reference attribute_filter)
                   (dom reference) (c1 :: rest)).
  assert (Hcommon : ∀ k,
            k ∈ common
            ↔ ∃ r, reference !! k = Some r
                   ∧ ∀ c, In c (c1 :: rest) →
                       ∃ v', get_filtered_attributes c attribute_filter !! k
                             = Some v'
                             ∧ attr_eqb v' r = true).
  { intros k. unfold common. rewrite narrow_common_keys_spec, elem_of_dom.
    split.
    - intros [[r Hr] Hall]. exists r. split; [exact Hr|].
      intros c Hc. destruct (Hall c Hc) as (v & r' & Hv & Hr' & Heq).
      exists v. split; [exact Hv|]. congruence.
    - intros (r & Hr & Hall). split; [exists r; exact Hr|].
      intros c Hc. destruct (Hall c Hc) as (v & Hv & Heq).
      exists v, r. repeat split; assumption. }
  assert (Hall : ∀ l : list Cube,
            Forall2
              (fun cube d =>
                 ∀ k v,
                   d !! k = Some v
                   ↔ get_filtered_attributes cube attribute_filter !! k = Some v
                     ∧ ¬ (∃ r, reference !! k = Some r
                               ∧ ∀ c, In c (c1 :: rest) →
                                   ∃ v', get_filtered_attributes c
                                           attribute_filter !! k = Some v'
                                         ∧ attr_eqb v' r = true))
              l
              (map (fun cube =>
                      filter (fun kv : string * attr => fst kv ∉ common)
                        (get_filtered_attributes cube attribute_filter)) l)).
  { induction l as [|c l IH]; simpl; constructor; [|exact IH].
    intros k v. rewrite map_lookup_filter_Some. simpl. rewrite Hcommon.
    reflexivity. }
  apply (Hall (c0 :: c1 :: rest)).
Qed.

Lemma compare_attributes_unmatched_witness :
  ∃ d0 d1,
    compare_attributes [member_cube 0 280; other_source_cube 1 281] None
    = ([], Ok [d0; d1])
    ∧ d0 !! "source" = Some (AStr "IMPROVER")
    ∧ d1 !! "source" = Some (AStr "UKV").
Proof.
  destruct (proj2 (compare_attributes_unmatched
                     [member_cube 0 280; other_source_cube 1 281] None)
              (member_cube 0 280) (other_source_cube 1 281) [] eq_refl)
    as (dicts & Hr & Hlen & Hall).
  destruct dicts as [|d0 [|d1 [|d2 dicts]]]; try discriminate Hlen.
  exists d0, d1. split; [exact Hr|].
  apply Forall2_cons in Hall as [H0 Hall].
  apply Forall2_cons in Hall as [H1 _].
  assert (Hdiff : ¬ (∃ r,
                      get_filtered_attributes (member_cube 0 280) None !! "source"
                      = Some r
                      ∧ ∀ c, In c [other_source_cube 1 281] →
                          ∃ v', get_filtered_attributes c None !! "source"
                                = Some v'
                                ∧ attr_eqb v' r = true)).
  { intros (r & Hr0 & Hothers).
    destruct (Hothers _ (or_introl eq_refl)) as (v' & Hv' & Heq).
    vm_compute in Hr0. injection Hr0 as <-.
    vm_compute in Hv'. injection Hv' as <-.
    vm_compute in Heq. discriminate Heq. }
  split.
  - apply H0. split; [vm_compute; reflexivity|exact Hdiff].
  - apply H1. split; [vm_compute; reflexivity|exact Hdiff].
Defined.

(** ** Comparing coordinates *)

Lemma narrow_common_coords_all (c0 : Cube) (rest : list Cube) :
  ∀ l,
    foldl (narrow_common_coords c0) l rest
    = List.filter
        (fun co =>
           forallb
             (fun cube =>
                coord_in co (coords cube)
                && list_eqb coord_eqb (coords_like cube co) (coords_like c0 co))
             rest)
        l.
Proof.
  induction rest as [|c rest IH]; intros l; simpl.
  - symmetry. apply filter_keep_all. reflexivity.
  - rewrite IH. unfold narrow_common_coords. rewrite filter_twice. reflexivity.
Qed.

Lemma ignored_spec (n : string) (ignored_coords : list string) :
  existsb (string_eqb n) ignored_coords = true ↔ n ∈ ignored_coords.
Proof.
  rewrite existsb_exists. split.
  - intros (x & Hx & E). apply bool_decide_eq_true in E. subst x.
    apply list_elem_of_In, Hx.
  - intros H. exists n. split; [apply list_elem_of_In, H|].
    apply bool_decide_eq_true. reflexivity.
Qed.

(** The dictionary built by the loop over the coordinates of one cube. *)
Lemma unmatching_loop (common_coords : list Coord) (ignored_coords : list string)
  (cube : Cube) (l : list Coord) :
  ∀ (d : gmap string unmatched) (k : string),
    (is_Some
       (foldl (unmatching_step common_coords ignored_coords cube) d l !! k)
     ↔ is_Some (d !! k)
       ∨ ∃ co, In co l ∧ coord_name co = k
               ∧ reported common_coords ignored_coords co)
    ∧ ∀ u,
        foldl (unmatching_step common_coords ignored_coords cube) d l !! k
        = Some u →
        d !! k = Some u
        ∨ (In (unmatched_coord u) l ∧ coord_name (unmatched_coord u) = k
           ∧ reported common_coords ignored_coords (unmatched_coord u)).
Proof.
  induction l as [|co l IH]; intros d k; simpl.
  - split; [|intros u H; left; exact H].
    split; [intros H; left; exact H|].
    intros [H|(co & [] & _)]. exact H.
  - assert (Hrep : negb (coord_in co common_coords)
                   && negb (existsb (string_eqb (coord_name co)) ignored_coords)
                   = true
                   ↔ reported common_coords ignored_coords co).
    { unfold reported. rewrite andb_true_iff, !negb_true_iff.
      split; intros [H1 H2]; (split; [exact H1|]).
      - intros Hin. apply ignored_spec in Hin. congruence.
      - apply not_true_is_false. intros Hin. apply ignored_spec in Hin.
        exact (H2 Hin). }
    unfold unmatching_step at 2 4.
    destruct (negb (coord_in co common_coords)
              && negb (existsb (string_eqb (coord_name co)) ignored_coords))
      eqn:E.
    + pose proof (proj1 Hrep eq_refl) as Hco.
      cbv zeta.
      match goal with
      | |- context [foldl _ ?d' l] => destruct (IH d' k) as [Hkeys Hvals]
      end.
      split.
      * rewrite Hkeys. destruct (decide (coord_name co = k)) as [Hk|Hk].
        -- split; [intros _|intros _; left].
           ++ right. exists co. split; [left; reflexivity|]. split; assumption.
           ++ rewrite <- Hk, lookup_insert_eq. eexists. reflexivity.
        -- rewrite lookup_insert_ne by exact Hk. split.
           ++ intros [H|(co' & Hin & Hn & Hr)]; [left; exact H|].
              right. exists co'. split; [right; exact Hin|]. split; assumption.
           ++ intros [H|(co' & [<-|Hin] & Hn & Hr)]; [left; exact H|congruence|].
              right. exists co'. split; [exact Hin|]. split; assumption.
      * intros u Hu. destruct (Hvals u Hu) as [Hd|(Hin & Hn & Hr)].
        -- destruct (decide (coord_name co = k)) as [Hk|Hk].
           ++ rewrite <- Hk, lookup_insert_eq in Hd. injection Hd as <-.
              right. simpl. split; [left; reflexivity|]. split; assumption.
           ++ rewrite lookup_insert_ne in Hd by exact Hk. left. exact Hd.
        -- right. split; [right; exact Hin|]. split; assumption.
    + assert (Hco : ¬ reported common_coords ignored_coords co).
      { intros H. apply Hrep in H. discriminate H. }
      destruct (IH d k) as [Hkeys Hvals]. split.
      * rewrite Hkeys. split.
        -- intros [H|(co' & Hin & Hn & Hr)]; [left; exact H|].
           right. exists co'. split; [right; exact Hin|]. split; assumption.
        -- intros [H|(co' & [<-|Hin] & Hn & Hr)]; [left; exact H|contradiction|].
           right. exists co'. split; [exact Hin|]. split; assumption.
      * intros u Hu. destruct (Hvals u Hu) as [Hd|(Hin & Hn & Hr)];
          [left; exact Hd|].
        right. split; [right; exact Hin|]. split; assumption.
Qed.

(** X8: for two cubes or more [compare_coords] gives no
    warning and one dictionary per cube, in order.  A name is a key of the
    dictionary of a cube exactly when the cube has a coordinate of that name
    that is not common to all cubes and the name is not ignored; the entry
    holds such a coordinate of the cube.  An empty list is refused with an
    [IndexError]. *)
Theorem compare_coords_unmatched (cubes : list Cube)
  (ignored_coords : option (list string)) :
  (cubes = [] → compare_coords cubes ignored_coords = ([], Raise IndexError))
  ∧ ∀ c0 c1 rest, cubes = c0 :: c1 :: rest →
      let common := common_to_all c0 (c1 :: rest) in
      let ignored := default [] ignored_coords in
      ∃ dicts,
        compare_coords cubes ignored_coords = ([], Ok dicts)
        ∧ length dicts = length cubes
        ∧ Forall2
            (fun cube (d : gmap string unmatched) =>
               (∀ k, is_Some (d !! k)
                     ↔ ∃ co, In co (coords cube) ∧ coord_name co = k
                             ∧ reported common ignored co)
               ∧ ∀ k u, d !! k = Some u →
                   In (unmatched_coord u) (coords cube)
                   ∧ coord_name (unmatched_coord u) = k
                   ∧ reported common ignored (unmatched_coord u))
            cubes dicts.
Proof.
  split; [intros ->; reflexivity|].
  intros c0 c1 rest -> common ignored. eexists. split; [reflexivity|].
  split; [rewrite length_map; reflexivity|].
  rewrite (narrow_common_coords_all c0 (c1 :: rest)).
  fold (common_to_all c0 (c1 :: rest)). fold common. fold ignored.
  generalize (c0 :: c1 :: rest) as l.
  induction l as [|c l IH]; simpl; constructor; [|exact IH].
  change (unmatching_of common ignored c)
    with (foldl (unmatching_step common ignored c) ∅ (coords c)).
  split.
  - intros k.
    rewrite (proj1 (unmatching_loop common ignored c (coords c) ∅ k)).
    rewrite lookup_empty. split.
    + intros [[x Hx]|H]; [discriminate Hx|exact H].
    + intros H. right. exact H.
  - intros k u Hu.
    destruct (proj2 (unmatching_loop common ignored c (coords c) ∅ k) u Hu)
      as [Hd|H]; [|exact H].
    rewrite lookup_empty in Hd. discriminate Hd.
Qed.

Lemma compare_coords_unmatched_witness :
  ∃ d0 d1,
    compare_coords [member_cube 0 280; member_cube 1 281] None
    = ([], Ok [d0; d1])
    ∧ is_Some (d0 !! "realization") ∧ is_Some (d1 !! "realization").
Proof.
  destruct (proj2 (compare_coords_unmatched
                     [member_cube 0 280; member_cube 1 281] None)
              (member_cube 0 280) (member_cube 1 281) [] eq_refl)
    as (dicts & Hr & Hlen & Hall).
  destruct dicts as [|d0 [|d1 [|d2 dicts]]]; try discriminate Hlen.
  exists d0, d1. split; [exact Hr|].
  apply Forall2_cons in Hall as [[H0 _] Hall].
  apply Forall2_cons in Hall as [[H1 _] _].
  split.
  - apply H0. exists (realization_of 0). split; [left; reflexivity|].
    split; [reflexivity|]. split; [vm_compute; reflexivity|apply not_elem_of_nil].
  - apply H1. exists (realization_of 1). split; [left; reflexivity|].
    split; [reflexivity|]. split; [vm_compute; reflexivity|apply not_elem_of_nil].
Defined.

(** ** What [expand_bounds] refuses *)

Section ExpandBoundsRefusals.

Context (FLOAT_DTYPE : dtype) (FLOAT_TYPES : list dtype).
Context (cast : dtype → Q → Q).
Context (result_type : dtype → dtype → dtype).

(** X9: [expand_bounds] stops at the first name of its list
    whose coordinate on the result cube has not exactly one point, with a
    [ValueError] that gives the name and the number of points; and when that
    coordinate has one point but the contributing cubes hold it partly with
    and partly without bounds, with the [ValueError] of the mixture. *)
Theorem expand_bounds_refuses (result_cube : Cube) (cubelist : list Cube)
  (n : string) (names : list string) (rc : Coord) :
  coord result_cube n = Ok rc →
  (n_points rc ≠ 1%nat →
   expand_bounds FLOAT_DTYPE FLOAT_TYPES cast result_type result_cube cubelist
     (n :: names)
   = Raise (ValueError (single_point_message n (n_points rc))))
  ∧ (n_points rc = 1%nat →
     ∀ cos co co',
       contributes cubelist n cos →
       In co cos → bounds co = None → In co' cos → bounds co' ≠ None →
       expand_bounds FLOAT_DTYPE FLOAT_TYPES cast result_type result_cube
         cubelist (n :: names)
       = Raise (ValueError
                  "cannot expand bounds for a mixture of bounded / unbounded coordinates")).
Proof.
  intros Hrc. unfold expand_bounds. cbn [fold_result]. unfold expand_one.
  rewrite Hrc. cbn [mbind result_bind]. split.
  - intros Hk. apply Nat.eqb_neq in Hk. rewrite Hk. reflexivity.
  - intros Hk cos co co' Hcos Hco Hnone Hco' Hsome.
    rewrite Hk. cbn [Nat.eqb negb].
    rewrite (map_result_Forall2 _ _ _ Hcos). cbn [mbind result_bind].
    unfold new_bounds.
    replace (existsb (fun b => bool_decide (b = None)) (map bounds cos))
      with true.
    2:{ symmetry. apply existsb_exists. exists (bounds co).
        split; [apply in_map, Hco|]. apply bool_decide_eq_true, Hnone. }
    replace (forallb (fun b => bool_decide (b = None)) (map bounds cos))
      with false.
    2:{ symmetry. apply not_true_is_false. intros Hall.
        rewrite forallb_forall in Hall.
        specialize (Hall (bounds co') (in_map _ _ _ Hco')).
        apply bool_decide_eq_true in Hall. exact (Hsome Hall). }
    reflexivity.
Qed.

End ExpandBoundsRefusals.

Lemma expand_bounds_refuses_witness :
  expand_bounds Float32 [Float64; Float32] exact_cast np_result_type
    hourly_cube [hourly_cube] ["time"]
  = Raise (ValueError (single_point_message "time" 3))
  ∧ expand_bounds Float32 [Float64; Float32] exact_cast np_result_type
      (scalar_time_cube (bounded_time 1 0 1))
      [scalar_time_cube (bounded_time 1 0 1);
       scalar_time_cube (unbounded_time 2)]
      ["time"]
    = Raise (ValueError
               "cannot expand bounds for a mixture of bounded / unbounded coordinates").
Proof.
  split.
  - apply (proj1 (expand_bounds_refuses Float32 [Float64; Float32] exact_cast
                    np_result_type hourly_cube [hourly_cube] "time" []
                    (time_coord [period 0 3600; period 3600 7200;
                                 period 7200 10800]) eq_refl)).
    discriminate.
  - apply (proj2 (expand_bounds_refuses Float32 [Float64; Float32] exact_cast
                    np_result_type (scalar_time_cube (bounded_time 1 0 1))
                    [scalar_time_cube (bounded_time 1 0 1);
                     scalar_time_cube (unbounded_time 2)] "time" []
                    (bounded_time 1 0 1) eq_refl) eq_refl
             [bounded_time 1 0 1; unbounded_time 2]
             (unbounded_time 2) (bounded_time 1 0 1)).
    + repeat constructor.
    + right. left. reflexivity.
    + reflexivity.
    + left. reflexivity.
    + discriminate.
Defined.

(** ** The metadata of a merged cube *)

Lemma equalise_attributes_spec (cubes : list Cube) :
  Forall2
    (fun c c' =>
       name c' = name c ∧ var_name c' = var_name c ∧ units c' = units c
       ∧ cell_methods c' = cell_methods c ∧ data c' = data c
       ∧ dim_coords_and_dims c' = dim_coords_and_dims c
       ∧ aux_coords_and_dims c' = aux_coords_and_dims c
       ∧ ∀ k v, attributes c' !! k = Some v
                ↔ attributes c !! k = Some v
                  ∧ ∀ c'', In c'' cubes →
                      ∃ v', attributes c'' !! k = Some v'
                            ∧ attr_eqb v v' = true)
    cubes (equalise_attributes cubes).
Proof.
  unfold equalise_attributes.
  assert (H : ∀ l : list Cube,
            Forall2
              (fun c c' =>
                 name c' = name c ∧ var_name c' = var_name c ∧ units c' = units c
                 ∧ cell_methods c' = cell_methods c ∧ data c' = data c
                 ∧ dim_coords_and_dims c' = dim_coords_and_dims c
                 ∧ aux_coords_and_dims c' = aux_coords_and_dims c
                 ∧ ∀ k v, attributes c' !! k = Some v
                          ↔ attributes c !! k = Some v
                            ∧ ∀ c'', In c'' cubes →
                                ∃ v', attributes c'' !! k = Some v'
                                      ∧ attr_eqb v v' = true)
              l
              (map (fun c =>
                      set_attributes c
                        (filter (fun kv => Is_true (shared_by cubes kv))
                           (attributes c))) l));
    [|apply H].
  induction l as [|c l IH]; cbn [map]; constructor; [|exact IH].
  repeat (split; [reflexivity|]).
  intros k v. cbn [attributes set_attributes].
  rewrite map_lookup_filter_Some. cbn [fst snd].
  rewrite Is_true_true. unfold shared_by. rewrite forallb_forall. simpl.
  split; intros [Hk Hall]; (split; [exact Hk|]); intros c'' Hc''.
  - specialize (Hall c'' Hc''). destruct (attributes c'' !! k) as [v'|];
      [|discriminate]. exists v'. split; [reflexivity|exact Hall].
  - destruct (Hall c'' Hc'') as (v' & Hv' & Heq). rewrite Hv'. exact Heq.
Qed.

Lemma concat_singletons {A : Type} (l : list A) :
  concat (map (fun x => [x]) l) = l.
Proof. induction l as [|x l IH]; simpl; [|rewrite IH]; reflexivity. Qed.

(** X10: for a list of two cubes or more and without
    slicing, [MergeCubes.process] hands the engine's merge one cube for every
    input, in order: the input without variable names (the threshold
    coordinate's apart), with exactly the cell methods that every input has
    and exactly the attributes that every input holds with the same value,
    and with its name, unit, payload and coordinates.  The outcome of the
    call is the outcome of that merge, followed by the check of the time
    bounds of the merged cube when it is asked for. *)
Theorem process_prepares_merge (c0 c1 : Cube) (rest : list Cube)
  (check_time_bounds_ranges copy : bool) :
  ∃ prepared,
    Forall2 (prepared_for_merge (c0 :: c1 :: rest)) (c0 :: c1 :: rest) prepared
    ∧ MergeCubes.process (ACubeList (c0 :: c1 :: rest)) check_time_bounds_ranges
        false copy
      = (merged ← merge_cube prepared;
         _ ← (if check_time_bounds_ranges
              then MergeCubes._check_time_bounds_ranges merged
              else Ok tt);
         Ok merged).
Proof.
  set (cubes := c0 :: c1 :: rest).
  unfold MergeCubes.process. fold cubes.
  rewrite (map_result_ok _ (fun cube => [cube])) by reflexivity.
  cbn [mbind result_bind]. rewrite concat_singletons.
  pose proof (equalise_attributes_spec cubes) as HE.
  remember (equalise_attributes cubes) as E eqn:EE. clear EE.
  assert (HF : Forall2 (fun c c' => cell_methods c' = cell_methods c) cubes
                 (strip_var_names E)).
  { unfold strip_var_names. clear -HE.
    induction HE as [|x y l l' Hxy _ IH]; simpl; constructor; [|exact IH].
    simpl. apply Hxy. }
  assert (Hcms_all : ∀ m,
            (∀ c, In c (strip_var_names E) → m ∈ cell_methods c)
            ↔ ∀ c, In c cubes → m ∈ cell_methods c).
  { intros m. clear -HF. generalize dependent (strip_var_names E).
    intros S HF. induction HF as [|x y l l' Hxy _ IH]; [reflexivity|].
    split; intros H c [<-|Hc].
    - rewrite <- Hxy. apply H. left. reflexivity.
    - apply (proj1 IH); [|exact Hc]. intros c' Hc'. apply H. right. exact Hc'.
    - rewrite Hxy. apply H. left. reflexivity.
    - apply (proj2 IH); [|exact Hc]. intros c' Hc'. apply H. right. exact Hc'. }
  assert (Hne : strip_var_names E ≠ []).
  { pose proof (Forall2_length _ _ _ HE) as Hlen. unfold strip_var_names.
    destruct E; [discriminate Hlen|discriminate]. }
  destruct (equalise_cell_methods_nonempty (strip_var_names E) Hne)
    as (cm & Hcm & Hmem).
  rewrite Hcm. cbn [mbind result_bind].
  exists (map (fun cube => set_cell_methods cube cm) (strip_var_names E)).
  split; [|reflexivity].
  unfold strip_var_names.
  assert (HP : ∀ l l' : list Cube,
            Forall2
              (fun c c' =>
                 name c' = name c ∧ var_name c' = var_name c ∧ units c' = units c
                 ∧ cell_methods c' = cell_methods c ∧ data c' = data c
                 ∧ dim_coords_and_dims c' = dim_coords_and_dims c
                 ∧ aux_coords_and_dims c' = aux_coords_and_dims c
                 ∧ ∀ k v, attributes c' !! k = Some v
                          ↔ attributes c !! k = Some v
                            ∧ ∀ c'', In c'' cubes →
                                ∃ v', attributes c'' !! k = Some v'
                                      ∧ attr_eqb v v' = true)
              l l' →
            Forall2 (prepared_for_merge cubes) l
              (map (fun cube => set_cell_methods cube cm) (map strip_cube l')));
    [|apply HP, HE].
  intros l l' Hl.
  induction Hl as [|x y l l' Hxy _ IH]; simpl; constructor; [|exact IH].
  destruct Hxy as (Hn & _ & Hu & _ & Hd & Hdims & Haux & Ha).
  unfold prepared_for_merge. simpl.
  split; [reflexivity|]. split; [exact Hn|]. split; [exact Hu|].
  split; [exact Hd|]. split; [rewrite Hdims; reflexivity|].
  split; [rewrite Haux; reflexivity|]. split; [|exact Ha].
  intros m. rewrite Hmem. apply Hcms_all.
Qed.

(** Two members from different sources: the attribute they do not share is
    gone, and the merge puts them along a new axis. *)
Example process_prepares_merge_example :
  match MergeCubes.process
          (ACubeList [member_cube 0 280; other_source_cube 1 281])
          false false true with
  | Ok r => Some (var_name r, name r, attributes r !! "source",
                  shape (data r), flat (data r))
  | Raise _ => None
  end
  = Some (None, "air_temperature", None, [2%nat], [Fin 280; Fin 281]).
Proof. vm_compute. reflexivity. Qed.

(** ** Copying metadata: what becomes of the cubes *)

Lemma coords_named_Ok (c : Cube) (n : string) (co : Coord) :
  coord c n = Ok co
  ↔ List.filter (named n)
      (map fst (dim_coords_and_dims c) ++ map fst (aux_coords_and_dims c))
    = [co].
Proof.
  split; [|apply coord_of_perm].
  intros H. pose proof (coords_named_perm c n) as Hp.
  rewrite (coord_inv _ _ _ H) in Hp.
  apply Permutation_singleton_l in Hp. symmetry. exact Hp.
Qed.

Lemma coords_named_nil (c : Cube) (n : string) :
  coords_named c n = []
  ↔ List.filter (named n)
      (map fst (dim_coords_and_dims c) ++ map fst (aux_coords_and_dims c))
    = [].
Proof.
  pose proof (coords_named_perm c n) as Hp. split; intros H; rewrite H in Hp.
  - apply Permutation_nil_l in Hp. first [exact Hp|symmetry; exact Hp].
  - apply Permutation_nil_r in Hp. first [exact Hp|symmetry; exact Hp].
Qed.

(** Adding an auxiliary coordinate: the coordinate is there under its name,
    the coordinates of other names are as before. *)
Lemma add_aux_coord_spec (c c' : Cube) (co : Coord) (ds : list nat) :
  CopyMetadata.add_aux_coord c co ds = Ok c' →
  (coords_named c (coord_name co) = [] → coord c' (coord_name co) = Ok co)
  ∧ (∀ m co', m ≠ coord_name co → coord c m = Ok co' → coord c' m = Ok co')
  ∧ attributes c' = attributes c ∧ name c' = name c ∧ var_name c' = var_name c
  ∧ units c' = units c ∧ cell_methods c' = cell_methods c ∧ data c' = data c.
Proof.
  unfold CopyMetadata.add_aux_coord.
  destruct (negb (bool_decide (coords_like c co = []))); [discriminate|].
  intros H.
  assert (Hc' : c' = set_coords c (dim_coords_and_dims c)
                       (aux_coords_and_dims c ++ [(co, ds)])).
  { destruct ds as [|d [|d' ds]]; [| |discriminate].
    - destruct (Nat.eqb (n_points co) 1); [|discriminate]. congruence.
    - destruct (bool_decide _); [|discriminate]. congruence. }
  clear H. subst c'. split; [|split; [|repeat split]].
  - intros Hnone. apply coords_named_nil in Hnone.
    apply coord_of_perm. simpl. rewrite map_app, app_assoc, List.filter_app.
    rewrite Hnone. simpl. unfold named. rewrite string_eqb_refl. reflexivity.
  - intros m co' Hm Hco'. apply coords_named_Ok in Hco'.
    apply coord_of_perm. simpl. rewrite map_app, app_assoc, List.filter_app.
    rewrite Hco'. simpl. unfold named, string_eqb.
    rewrite bool_decide_eq_false_2 by congruence. reflexivity.
Qed.

Lemma remove_coord_frame (c c' : Cube) (n : string) :
  remove_coord c n = Ok c' →
  attributes c' = attributes c ∧ name c' = name c ∧ var_name c' = var_name c
  ∧ units c' = units c ∧ cell_methods c' = cell_methods c ∧ data c' = data c.
Proof.
  unfold remove_coord. destruct (coord c n); simpl; [|discriminate].
  intros H. injection H as <-. repeat split.
Qed.

Lemma template_attributes_spec (self : CopyMetadata.plugin) (t : Cube)
  (new : list (string * attr)) :
  CopyMetadata.template_attributes self t = Ok new →
  map fst new = CopyMetadata.self_attributes self
  ∧ ∀ kv, In kv new → attributes t !! fst kv = Some (snd kv).
Proof.
  unfold CopyMetadata.template_attributes.
  generalize (CopyMetadata.self_attributes self) as ks.
  intros ks. revert new. induction ks as [|k ks IH]; intros new; simpl.
  - intros H. injection H as <-. split; [reflexivity|intros kv []].
  - destruct (attributes t !! k) as [v|] eqn:Hk; simpl; [|discriminate].
    destruct (map_result _ ks) as [new'|e]; simpl; [|discriminate].
    intros H. injection H as <-. destruct (IH new' eq_refl) as [Hks Hall].
    split; [simpl; rewrite Hks; reflexivity|].
    intros kv [<-|Hkv]; [exact Hk|apply Hall, Hkv].
Qed.

Lemma amend_attributes_lookup (t : gmap string attr) (new : list (string * attr)) :
  (∀ kv, In kv new → t !! fst kv = Some (snd kv)) →
  ∀ (m : gmap string attr) (k : string),
    foldl (fun m kv => <[fst kv := snd kv]> m) m new !! k
    = if bool_decide (k ∈ map fst new) then t !! k else m !! k.
Proof.
  induction new as [|kv new IH]; intros Hall m k; simpl.
  - reflexivity.
  - rewrite IH by (intros kv' Hkv'; apply Hall; right; exact Hkv').
    destruct (decide (k ∈ map fst new)) as [Hin|Hnin].
    + rewrite !bool_decide_eq_true_2; [reflexivity| |exact Hin].
      right. exact Hin.
    + rewrite (bool_decide_eq_false_2 _ Hnin).
      destruct (decide (k = fst kv)) as [->|Hne].
      * rewrite lookup_insert_eq, bool_decide_eq_true_2 by left.
        symmetry. apply Hall. left. reflexivity.
      * rewrite lookup_insert_ne by congruence.
        rewrite bool_decide_eq_false_2; [reflexivity|].
        intros Hin. apply elem_of_cons in Hin as [?|?]; contradiction.
Qed.

Section CopyEffect.

Context (self : CopyMetadata.plugin) (template : CopyMetadata.ref) (t : Cube).

(** One auxiliary coordinate copied to the cube behind [cube]. *)
Lemma copy_aux_coord_spec (cube : CopyMetadata.ref) (h h2 : gmap CopyMetadata.ref Cube)
  (c : Cube) (n : string) :
  cube ≠ template → h !! template = Some t → h !! cube = Some c →
  CopyMetadata.copy_aux_coord template cube h n = Ok h2 →
  ∃ c2 co,
    h2 = <[cube := c2]> h
    ∧ coord t n = Ok co ∧ coord c2 n = Ok co
    ∧ (∀ m co', m ≠ n → coord c m = Ok co' → coord c2 m = Ok co')
    ∧ attributes c2 = attributes c ∧ name c2 = name c
    ∧ var_name c2 = var_name c ∧ units c2 = units c
    ∧ cell_methods c2 = cell_methods c ∧ data c2 = data c.
Proof.
  intros Hne Ht Hc. unfold CopyMetadata.copy_aux_coord, CopyMetadata.deref.
  rewrite Hc. cbn [mbind result_bind].
  assert (Hstep : (∃ c1,
            (if negb (bool_decide (coords_named c n = []))
             then c' ← remove_coord c n; Ok (<[cube := c']> h)
             else Ok h) = Ok (<[cube := c1]> h) ∧ coords_named c1 n = []
            ∧ (∀ m co', m ≠ n → coord c m = Ok co' → coord c1 m = Ok co')
            ∧ attributes c1 = attributes c ∧ name c1 = name c
            ∧ var_name c1 = var_name c ∧ units c1 = units c
            ∧ cell_methods c1 = cell_methods c ∧ data c1 = data c)
          ∨ ∃ e, (if negb (bool_decide (coords_named c n = []))
                  then c' ← remove_coord c n; Ok (<[cube := c']> h)
                  else Ok h) = Raise e).
  { destruct (bool_decide (coords_named c n = [])) eqn:E; cbn [negb].
    - left. exists c. apply bool_decide_eq_true in E.
      rewrite insert_id by exact Hc. repeat split; auto.
    - destruct (remove_coord c n) as [c1|e] eqn:Hrm; cbn [mbind result_bind].
      + left. exists c1. split; [reflexivity|].
        split; [apply (coords_named_remove_coord _ _ _ Hrm)|].
        split; [intros m co' Hm; apply (coord_remove_coord _ _ _ _ _ Hrm Hm)|].
        apply (remove_coord_frame _ _ _ Hrm).
      + right. exists e. reflexivity. }
  destruct Hstep as [(c1 & -> & Hnone & Hkeep & Ha & Hn & Hv & Hu & Hcm & Hd)
                    |[e ->]]; [|discriminate].
  cbn [mbind result_bind].
  rewrite (lookup_insert_ne _ cube template) by exact Hne.
  rewrite Ht. cbn [mbind result_bind].
  destruct (coord t n) as [co|e] eqn:Hco; cbn [mbind result_bind]; [|discriminate].
  destruct (coord_dims t n) as [ds|e]; cbn [mbind result_bind]; [|discriminate].
  rewrite lookup_insert_eq. cbn [mbind result_bind].
  destruct (CopyMetadata.add_aux_coord c1 co ds) as [c2|e] eqn:Hadd;
    cbn [mbind result_bind]; [|discriminate].
  intros H. injection H as <-.
  pose proof (coord_name_of _ _ _ Hco) as Hname.
  destruct (add_aux_coord_spec _ _ _ _ Hadd)
    as (Hnew & Hold & Ha2 & Hn2 & Hv2 & Hu2 & Hcm2 & Hd2).
  rewrite Hname in Hnew, Hold.
  exists c2, co. split; [apply insert_insert_eq|].
  split; [reflexivity|]. split; [apply Hnew, Hnone|].
  split; [intros m co' Hm Hco'; apply Hold; [exact Hm|apply Hkeep; assumption]|].
  repeat split; congruence.
Qed.

(** The loop over the auxiliary coordinates to copy. *)
Lemma copy_aux_coords_spec (cube : CopyMetadata.ref) (names : list string) :
  cube ≠ template →
  ∀ (h hf : gmap CopyMetadata.ref Cube) (c : Cube),
    h !! template = Some t → h !! cube = Some c →
    fold_result (CopyMetadata.copy_aux_coord template cube) names h = Ok hf →
    ∃ cf,
      hf = <[cube := cf]> h
      ∧ (∀ n, n ∈ names → ∃ co, coord t n = Ok co ∧ coord cf n = Ok co)
      ∧ (∀ m co, m ∉ names → coord c m = Ok co → coord cf m = Ok co)
      ∧ attributes cf = attributes c ∧ name cf = name c
      ∧ var_name cf = var_name c ∧ units cf = units c
      ∧ cell_methods cf = cell_methods c ∧ data cf = data c.
Proof.
  intros Hne. induction names as [|n names IH]; intros h hf c Ht Hc; simpl.
  - intros H. injection H as <-. exists c.
    split; [symmetry; apply insert_id, Hc|].
    split; [intros n Hn; apply elem_of_nil in Hn; destruct Hn|].
    repeat split; auto.
  - destruct (CopyMetadata.copy_aux_coord template cube h n) as [h2|e] eqn:Hstep;
      cbn [mbind result_bind]; [|discriminate].
    intros Hfold.
    destruct (copy_aux_coord_spec cube h h2 c n Hne Ht Hc Hstep)
      as (c2 & co & -> & Hco & Hc2 & Hkeep & Ha & Hn & Hv & Hu & Hcm & Hd).
    destruct (IH (<[cube := c2]> h) hf c2) as (cf & -> & Hall & Hkeep' & Hrest).
    { rewrite lookup_insert_ne by exact Hne. exact Ht. }
    { apply lookup_insert_eq. }
    { exact Hfold. }
    exists cf. split; [apply insert_insert_eq|]. split.
    + intros m Hm. destruct (decide (m ∈ names)) as [Hin|Hnin];
        [apply Hall, Hin|].
      apply elem_of_cons in Hm as [->|Hm]; [|contradiction].
      exists co. split; [exact Hco|]. apply Hkeep'; assumption.
    + split.
      * intros m co' Hm Hco'. rewrite not_elem_of_cons in Hm.
        destruct Hm as [Hmn Hm]. apply Hkeep'; [exact Hm|].
        apply Hkeep; assumption.
      * destruct Hrest as (Ha' & Hn' & Hv' & Hu' & Hcm' & Hd').
        repeat split; congruence.
Qed.

(** One cube brought up to the template. *)
Lemma copy_to_spec (cube : CopyMetadata.ref) (h h2 : gmap CopyMetadata.ref Cube) :
  cube ≠ template → h !! template = Some t →
  CopyMetadata.copy_to self template h cube = Ok h2 →
  ∃ c c2, h !! cube = Some c ∧ h2 = <[cube := c2]> h ∧ copied_from self t c c2.
Proof.
  intros Hne Ht. unfold CopyMetadata.copy_to, CopyMetadata.deref.
  rewrite Ht. cbn [mbind result_bind].
  destruct (CopyMetadata.template_attributes self t) as [new|e] eqn:Hnew;
    cbn [mbind result_bind]; [|discriminate].
  destruct (h !! cube) as [c|] eqn:Hc; cbn [mbind result_bind]; [|discriminate].
  intros Hfold.
  destruct (template_attributes_spec self t new Hnew) as [Hkeys Hvals].
  destruct (copy_aux_coords_spec cube (CopyMetadata.self_aux_coord self) Hne
              (<[cube := CopyMetadata.amend_attributes c new]> h) h2
              (CopyMetadata.amend_attributes c new))
    as (cf & -> & Hall & Hkeep & Ha & Hn & Hv & Hu & Hcm & Hd).
  { rewrite lookup_insert_ne by exact Hne. exact Ht. }
  { apply lookup_insert_eq. }
  { exact Hfold. }
  exists c, cf. split; [reflexivity|]. split; [apply insert_insert_eq|].
  unfold copied_from. split.
  { intros k. rewrite Ha. unfold CopyMetadata.amend_attributes. simpl.
    rewrite (amend_attributes_lookup (attributes t) new Hvals), Hkeys.
    reflexivity. }
  split; [exact Hall|]. split; [|repeat split; assumption].
  intros m co Hm Hco. apply Hkeep; [exact Hm|].
  unfold coord, coords_named in *. exact Hco.
Qed.

Lemma copied_from_twice (c c1 c2 : Cube) :
  copied_from self t c c1 → copied_from self t c1 c2 → copied_from self t c c2.
Proof.
  intros (Ha & _ & Hk & Hn & Hv & Hu & Hcm & Hd)
         (Ha' & Hall' & Hk' & Hn' & Hv' & Hu' & Hcm' & Hd').
  split.
  { intros k. rewrite Ha', Ha.
    destruct (bool_decide (k ∈ CopyMetadata.self_attributes self)); reflexivity. }
  split; [exact Hall'|].
  split; [intros m co Hm Hco; apply Hk'; [exact Hm|apply Hk; assumption]|].
  repeat split; congruence.
Qed.

(** The loop over the cubes to update. *)
Lemma copy_loop_spec (l : list CopyMetadata.ref) :
  template ∉ l →
  ∀ h hf : gmap CopyMetadata.ref Cube,
    h !! template = Some t →
    fold_result (CopyMetadata.copy_to self template) l h = Ok hf →
    hf !! template = Some t
    ∧ (∀ r, r ∉ l → hf !! r = h !! r)
    ∧ ∀ r, r ∈ l →
        ∃ c cf, h !! r = Some c ∧ hf !! r = Some cf ∧ copied_from self t c cf.
Proof.
  induction l as [|x l IH]; intros Hnin h hf Ht; simpl.
  - intros H. injection H as <-. split; [exact Ht|].
    split; [reflexivity|]. intros r Hr. apply elem_of_nil in Hr. destruct Hr.
  - rewrite not_elem_of_cons in Hnin. destruct Hnin as [Hxt Hnin].
    destruct (CopyMetadata.copy_to self template h x) as [h2|e] eqn:Hstep;
      cbn [mbind result_bind]; [|discriminate].
    intros Hfold.
    destruct (copy_to_spec x h h2 (not_eq_sym Hxt) Ht Hstep)
      as (c & c2 & Hc & -> & Hcopied).
    destruct (IH Hnin (<[x := c2]> h) hf) as (Htf & Hout & Hin).
    { rewrite lookup_insert_ne by (apply not_eq_sym; exact Hxt). exact Ht. }
    { exact Hfold. }
    split; [exact Htf|]. split.
    + intros r Hr. rewrite not_elem_of_cons in Hr. destruct Hr as [Hrx Hr].
      rewrite (Hout r Hr). apply lookup_insert_ne. congruence.
    + intros r Hr. destruct (decide (r ∈ l)) as [Hrl|Hrl].
      * destruct (Hin r Hrl) as (c' & cf & Hc' & Hcf & Hcop).
        destruct (decide (r = x)) as [->|Hrx].
        -- rewrite lookup_insert_eq in Hc'. injection Hc' as <-.
           exists c, cf. split; [exact Hc|]. split; [exact Hcf|].
           apply (copied_from_twice c c2 cf); assumption.
        -- rewrite lookup_insert_ne in Hc' by congruence.
           exists c', cf. split; [exact Hc'|]. split; [exact Hcf|exact Hcop].
      * apply elem_of_cons in Hr as [->|Hr]; [|contradiction].
        exists c, c2. split; [exact Hc|]. split; [|exact Hcopied].
        rewrite (Hout x Hrl). apply lookup_insert_eq.
Qed.

End CopyEffect.

(** X11: when [CopyMetadata.process] succeeds and the template is
    not among the cubes to update, the template and every cube the call does
    not name are as before, and every cube updated has the listed attributes
    and the listed auxiliary coordinates of the template, its other
    attributes and coordinates, its name, unit, cell methods and payload
    unchanged. *)
Theorem copy_metadata_effect (self : CopyMetadata.plugin)
  (h h' : gmap CopyMetadata.ref Cube) (cubes : list CopyMetadata.arg)
  (v : CopyMetadata.ret) (sources : list CopyMetadata.ref)
  (template : CopyMetadata.ref) :
  CopyMetadata.process self h cubes = Ok (v, h') →
  CopyMetadata.as_cubelist cubes = sources ++ [template] →
  template ∉ sources →
  ∃ t,
    h !! template = Some t ∧ h' !! template = Some t
    ∧ (∀ r, r ∉ sources → h' !! r = h !! r)
    ∧ ∀ r, r ∈ sources →
        ∃ c c', h !! r = Some c ∧ h' !! r = Some c' ∧ copied_from self t c c'.
Proof.
  intros Hp Hcubes Hnin. unfold CopyMetadata.process in Hp.
  rewrite Hcubes in Hp.
  destruct (Nat.ltb_spec (length (sources ++ [template])) 2) as [|Hge];
    [discriminate|].
  rewrite last_snoc, removelast_last in Hp.
  destruct (fold_result (CopyMetadata.copy_to self template) sources h)
    as [hf|e] eqn:Hfold; cbn [mbind result_bind] in Hp; [|discriminate].
  assert (Hh' : h' = hf).
  { destruct (Nat.ltb 1 (length sources)); [congruence|].
    destruct sources; [discriminate|congruence]. }
  subst hf. clear Hp.
  rewrite length_app in Hge. simpl in Hge.
  destruct sources as [|x l]; [simpl in Hge; lia|].
  assert (Ht : ∃ t, h !! template = Some t).
  { destruct (h !! template) as [t|] eqn:E; [exists t; reflexivity|].
    exfalso. cbn [fold_result] in Hfold.
    unfold CopyMetadata.copy_to, CopyMetadata.deref in Hfold.
    rewrite E in Hfold. discriminate Hfold. }
  destruct Ht as [t Ht]. exists t. split; [exact Ht|].
  apply (copy_loop_spec self template t (x :: l) Hnin h h' Ht Hfold).
Qed.

Lemma copy_metadata_effect_witness :
  ∃ v h' c0 c1,
    CopyMetadata.process copy_plugin copy_store
      [CopyMetadata.RefList [0%nat; 1%nat]; CopyMetadata.OneRef 2%nat]
    = Ok (v, h')
    ∧ h' !! 2%nat = Some template_cube_sample
    ∧ h' !! 0%nat = Some c0 ∧ h' !! 1%nat = Some c1
    ∧ copied_from copy_plugin template_cube_sample (member_cube 0 280) c0
    ∧ copied_from copy_plugin template_cube_sample
        (scalar_time_cube (unbounded_time 3)) c1.
Proof.
  destruct (CopyMetadata.process copy_plugin copy_store
              [CopyMetadata.RefList [0%nat; 1%nat]; CopyMetadata.OneRef 2%nat])
    as [[v h']|e] eqn:Hp; [|vm_compute in Hp; discriminate Hp].
  destruct (copy_metadata_effect copy_plugin copy_store h' _ v
              [0%nat; 1%nat] 2%nat Hp eq_refl)
    as (t & Ht & Ht' & _ & Hall).
  { intros H. apply elem_of_cons in H as [H|H]; [discriminate H|].
    apply elem_of_cons in H as [H|H]; [discriminate H|].
    apply elem_of_nil in H. exact H. }
  assert (Et : t = template_cube_sample).
  { vm_compute in Ht. injection Ht as <-. reflexivity. }
  subst t.
  destruct (Hall 0%nat (list_elem_of_here _ _)) as (c & c0 & Hc & Hc0 & Hcop0).
  destruct (Hall 1%nat (list_elem_of_further _ _ _ (list_elem_of_here _ _)))
    as (c' & c1 & Hc' & Hc1 & Hcop1).
  assert (Ec : c = member_cube 0 280).
  { unfold copy_store in Hc. rewrite lookup_insert_eq in Hc.
    injection Hc as <-. reflexivity. }
  assert (Ec' : c' = scalar_time_cube (unbounded_time 3)).
  { unfold copy_store in Hc'.
    rewrite lookup_insert_ne, lookup_insert_eq in Hc' by discriminate.
    injection Hc' as <-. reflexivity. }
  subst c c'.
  exists v, h', c0, c1. split; [reflexivity|].
  repeat (split; [assumption|]). assumption.
Defined.

Lemma template_attributes_missing (self : CopyMetadata.plugin) (t : Cube)
  (k : string) :
  k ∈ CopyMetadata.self_attributes self → attributes t !! k = None →
  ∃ k', k' ∈ CopyMetadata.self_attributes self ∧ attributes t !! k' = None
        ∧ CopyMetadata.template_attributes self t = Raise (KeyError k').
Proof.
  unfold CopyMetadata.template_attributes.
  generalize (CopyMetadata.self_attributes self) as ks.
  induction ks as [|k0 ks IH]; intros Hk Hnone.
  - apply elem_of_nil in Hk. destruct Hk.
  - simpl. destruct (attributes t !! k0) as [v|] eqn:E0.
    + apply elem_of_cons in Hk as [->|Hk]; [congruence|].
      destruct (IH Hk Hnone) as (k' & Hk' & Hn' & Hr).
      exists k'. split; [right; exact Hk'|]. split; [exact Hn'|].
      simpl. rewrite Hr. reflexivity.
    + exists k0. split; [left|]. split; [exact E0|reflexivity].
Qed.

Lemma template_attributes_present (self : CopyMetadata.plugin) (t : Cube) :
  (∀ k, k ∈ CopyMetadata.self_attributes self → is_Some (attributes t !! k)) →
  ∃ new, CopyMetadata.template_attributes self t = Ok new.
Proof.
  unfold CopyMetadata.template_attributes.
  generalize (CopyMetadata.self_attributes self) as ks.
  induction ks as [|k0 ks IH]; intros Hall; simpl; [eexists; reflexivity|].
  destruct (Hall k0 (list_elem_of_here _ _)) as [v ->]. simpl.
  destruct IH as [new ->]; [|simpl; eexists; reflexivity].
  intros k Hk. apply Hall. right. exact Hk.
Qed.

(** X12: with two cubes or more supplied, a template that lacks
    one of the attributes to copy makes [CopyMetadata.process] raise a
    [KeyError] that names an attribute the template lacks. *)
Theorem copy_metadata_missing_attribute (self : CopyMetadata.plugin)
  (h : gmap CopyMetadata.ref Cube) (cubes : list CopyMetadata.arg)
  (sources : list CopyMetadata.ref) (template : CopyMetadata.ref) (t : Cube)
  (k : string) :
  CopyMetadata.as_cubelist cubes = sources ++ [template] → sources ≠ [] →
  h !! template = Some t →
  k ∈ CopyMetadata.self_attributes self → attributes t !! k = None →
  ∃ k', k' ∈ CopyMetadata.self_attributes self ∧ attributes t !! k' = None
        ∧ CopyMetadata.process self h cubes = Raise (KeyError k').
Proof.
  intros Hcubes Hsrc Ht Hk Hnone.
  destruct (template_attributes_missing self t k Hk Hnone) as (k' & Hk' & Hn' & Hr).
  exists k'. split; [exact Hk'|]. split; [exact Hn'|].
  unfold CopyMetadata.process. rewrite Hcubes.
  destruct sources as [|x l]; [congruence|].
  destruct (Nat.ltb_spec (length ((x :: l) ++ [template])) 2) as [Hlt|_].
  { rewrite length_app in Hlt. simpl in Hlt. lia. }
  rewrite last_snoc, removelast_last. cbn [fold_result].
  assert (Hstep : CopyMetadata.copy_to self template h x = Raise (KeyError k')).
  { unfold CopyMetadata.copy_to, CopyMetadata.deref.
    rewrite Ht. cbn [mbind result_bind]. rewrite Hr. reflexivity. }
  rewrite Hstep. reflexivity.
Qed.

Lemma copy_metadata_missing_attribute_witness :
  CopyMetadata.process (CopyMetadata.mk_plugin ["source"; "history"] [])
    copy_store [CopyMetadata.OneRef 0%nat; CopyMetadata.OneRef 2%nat]
  = Raise (KeyError "history").
Proof.
  destruct (copy_metadata_missing_attribute
              (CopyMetadata.mk_plugin ["source"; "history"] [])
              copy_store [CopyMetadata.OneRef 0%nat; CopyMetadata.OneRef 2%nat]
              [0%nat] 2%nat template_cube_sample "history")
    as (k' & Hk' & Hn' & Hr).
  - reflexivity.
  - discriminate.
  - reflexivity.
  - right. left.
  - reflexivity.
  - simpl in Hk'. apply elem_of_cons in Hk' as [->|Hk'];
      [vm_compute in Hn'; discriminate Hn'|].
    apply elem_of_cons in Hk' as [->|Hk']; [exact Hr|].
    apply elem_of_nil in Hk'. destruct Hk'.
Defined.

(** X13: a cube given twice, as the cube to update and as the
    template, loses the first auxiliary coordinate to copy before it is read:
    [CopyMetadata.process] raises a [CoordinateNotFoundError]. *)
Theorem copy_metadata_onto_itself (self : CopyMetadata.plugin)
  (h : gmap CopyMetadata.ref Cube) (cubes : list CopyMetadata.arg)
  (r : CopyMetadata.ref) (c : Cube) (n : string) (names : list string)
  (co : Coord) :
  CopyMetadata.as_cubelist cubes = [r; r] → h !! r = Some c →
  (∀ k, k ∈ CopyMetadata.self_attributes self → is_Some (attributes c !! k)) →
  CopyMetadata.self_aux_coord self = n :: names → coord c n = Ok co →
  CopyMetadata.process self h cubes = Raise (CoordinateNotFoundError n).
Proof.
  intros Hcubes Hc Hattrs Haux Hco.
  destruct (template_attributes_present self c Hattrs) as [new Hnew].
  unfold CopyMetadata.process. rewrite Hcubes. cbn [length Nat.ltb Nat.leb].
  change (last [r; r]) with (Some r). change (removelast [r; r]) with [r].
  cbn [fold_result]. unfold CopyMetadata.copy_to, CopyMetadata.deref.
  rewrite Hc. cbn [mbind result_bind]. rewrite Hnew. cbn [mbind result_bind].
  rewrite Haux. cbn [fold_result].
  unfold CopyMetadata.copy_aux_coord, CopyMetadata.deref.
  rewrite lookup_insert_eq. cbn [mbind result_bind].
  set (c1 := CopyMetadata.amend_attributes c new).
  assert (Hc1 : coord c1 n = Ok co) by exact Hco.
  rewrite bool_decide_eq_false_2.
  2:{ change (coords_named c1 n) with (coords_named c n).
      rewrite (coord_inv _ _ _ Hco). discriminate. }
  cbn [negb].
  destruct (remove_coord c1 n) as [c2|e] eqn:Hrm.
  2:{ unfold remove_coord in Hrm. rewrite Hc1 in Hrm. discriminate Hrm. }
  cbn [mbind result_bind]. rewrite lookup_insert_eq. cbn [mbind result_bind].
  assert (Hc2 : coord c2 n = Raise (CoordinateNotFoundError n)).
  { unfold coord. rewrite (coords_named_remove_coord _ _ _ Hrm). reflexivity. }
  rewrite Hc2. reflexivity.
Qed.

Lemma copy_metadata_onto_itself_witness :
  CopyMetadata.process copy_plugin copy_store
    [CopyMetadata.OneRef 2%nat; CopyMetadata.OneRef 2%nat]
  = Raise (CoordinateNotFoundError "time").
Proof.
  apply (copy_metadata_onto_itself copy_plugin copy_store _ 2%nat
           template_cube_sample "time" [] (unbounded_time 6)).
  - reflexivity.
  - reflexivity.
  - intros k Hk. simpl in Hk. apply elem_of_cons in Hk as [->|Hk].
    + eexists. vm_compute. reflexivity.
    + apply elem_of_nil in Hk. destruct Hk.
  - reflexivity.
  - reflexivity.
Defined.

(** ** Sorting a cube along a coordinate *)

Lemma ascending_cons (x : Q) (l : list Q) :
  ascending (x :: l) ↔ (∀ y, In y l → (x <= y)%Q) ∧ ascending l.
Proof.
  unfold ascending. split.
  - intros H. split.
    + intros y Hy. apply list_elem_of_In, list_elem_of_lookup in Hy as [j Hj].
      apply (H 0%nat (S j) x y); [lia|reflexivity|exact Hj].
    + intros i j p q Hij Hi Hj. apply (H (S i) (S j) p q); [lia|exact Hi|exact Hj].
  - intros [Hx Hl] i j p q Hij Hi Hj. destruct j as [|j]; [lia|].
    simpl in Hj. destruct i as [|i].
    + simpl in Hi. injection Hi as <-. apply Hx.
      apply list_elem_of_In, list_elem_of_lookup. exists j. exact Hj.
    + simpl in Hi. apply (Hl i j p q); [lia|exact Hi|exact Hj].
Qed.

Lemma insert_by_ascending (x : Q) (l : list Q) :
  ascending l → ascending (insert_by Qle_bool x l).
Proof.
  induction l as [|y l IH]; intros Hl; simpl.
  - apply ascending_cons. split; [intros y []|]. intros i j p q _ Hi. discriminate Hi.
  - apply ascending_cons in Hl as [Hy Hl].
    destruct (Qle_bool x y) eqn:E.
    + apply Qle_bool_iff in E. apply ascending_cons. split.
      * intros z [<-|Hz]; [exact E|]. apply (Qle_trans _ y); [exact E|apply Hy, Hz].
      * apply ascending_cons. split; assumption.
    + assert (Hyx : (y <= x)%Q).
      { apply Qlt_le_weak, Qnot_le_lt. rewrite <- Qle_bool_iff, E. discriminate. }
      apply ascending_cons. split; [|apply IH, Hl].
      intros z Hz.
      apply (Permutation_in _ (insert_by_perm Qle_bool x l)) in Hz.
      destruct Hz as [<-|Hz]; [exact Hyx|apply Hy, Hz].
Qed.

Lemma sort_by_ascends (l : list Q) : ascending (sort_by Qle_bool l).
Proof.
  induction l as [|x l IH]; [intros i j p q _ Hi; discriminate Hi|].
  unfold sort_by in *. simpl. apply insert_by_ascending, IH.
Qed.

Lemma combine_seq_lookup {A : Type} (l : list A) :
  ∀ off ip,
    In ip (combine (seq off (length l)) l) →
    (off ≤ fst ip)%nat ∧ l !! (fst ip - off)%nat = Some (snd ip).
Proof.
  induction l as [|x l IH]; intros off ip; simpl; [intros []|].
  intros [<-|Hin]; simpl.
  - split; [lia|]. rewrite Nat.sub_diag. reflexivity.
  - destruct (IH (S off) ip Hin) as [Hle Hl]. split; [lia|].
    replace (fst ip - off)%nat with (S (fst ip - S off)) by lia. exact Hl.
Qed.

Lemma combine_seq_fst {A : Type} (l : list A) :
  ∀ off, map fst (combine (seq off (length l)) l) = seq off (length l).
Proof. induction l as [|x l IH]; intros off; simpl; [|rewrite IH]; reflexivity. Qed.

Lemma combine_seq_snd {A : Type} (l : list A) :
  ∀ off, map snd (combine (seq off (length l)) l) = l.
Proof. induction l as [|x l IH]; intros off; simpl; [|rewrite IH]; reflexivity. Qed.

Lemma omap_lookup_pairs {A : Type} (l : list A) (S : list (nat * A)) :
  (∀ ip, In ip S → l !! fst ip = Some (snd ip)) →
  omap (fun i => l !! i) (map fst S) = map snd S.
Proof.
  induction S as [|ip S IH]; intros H; simpl; [reflexivity|].
  rewrite (H ip (or_introl eq_refl)). simpl. f_equal. apply IH.
  intros ip' Hip'. apply H. right. exact Hip'.
Qed.

(** The sorted positions: a rearrangement of all positions, at which the
    points ascend. *)
Lemma argsort_spec (l : list Q) :
  argsort l ≡ₚ seq 0 (length l)
  ∧ omap (fun i => l !! i) (argsort l) = sort_by Qle_bool l.
Proof.
  unfold argsort. split.
  - rewrite (sort_by_perm _ (combine _ _)), combine_seq_fst. reflexivity.
  - rewrite omap_lookup_pairs.
    + rewrite <- (sort_by_map (fun a b : nat * Q => Qle_bool (snd a) (snd b))
                    Qle_bool snd) by reflexivity.
      rewrite combine_seq_snd. reflexivity.
    + intros ip Hip.
      apply (Permutation_in _ (sort_by_perm _ _)) in Hip.
      destruct (combine_seq_lookup l 0%nat ip Hip) as [_ H].
      rewrite Nat.sub_0_r in H. exact H.
Qed.

Lemma omap_rev {A B : Type} (f : A → option B) (l : list A) :
  omap f (rev l) = rev (omap f l).
Proof.
  induction l as [|x l IH]; simpl; [reflexivity|].
  rewrite omap_app, IH. simpl. destruct (f x); simpl; [reflexivity|].
  rewrite app_nil_r. reflexivity.
Qed.

Lemma rev_descends (l : list Q) : ascending l → descending_order (rev l).
Proof.
  intros H i j p q Hij Hi Hj. rewrite List.rev_alt in Hi, Hj.
  change (rev_append l []) with (reverse l) in Hi, Hj.
  apply reverse_lookup_Some in Hi as [Hi Hil].
  apply reverse_lookup_Some in Hj as [Hj Hjl].
  apply (H (length l - S j)%nat (length l - S i)%nat q p); [lia|exact Hj|exact Hi].
Qed.

Lemma index_shape_pick (s : list nat) (k m : nat) (idx : list nat) :
  s !! k = Some m → length idx = m → index_shape s k (Pick idx) = s.
Proof.
  intros Hk Hlen. unfold index_shape. rewrite Hlen.
  apply take_drop_middle, Hk.
Qed.

(** X14: sorting a cube by a dimension coordinate gives a cube
    whose coordinate of that name holds the same points in ascending order
    (descending when asked for), with its bounds and the payload rearranged
    along that axis in the same way and the shape unchanged; the circular
    warning is emitted exactly when the coordinate is circular. *)
Theorem sort_coord_in_cube_sorts (cube : Cube) (n : string) (co : Coord)
  (k : nat) (descending : bool) :
  dim_coord_on cube n co k →
  let pts := avals (points co) in
  let idx := if descending then rev (argsort pts) else argsort pts in
  ∃ r co',
    sort_coord_in_cube cube n descending
    = (if circular co then [circular_warning n] else [], Ok r)
    ∧ coord r n = Ok co'
    ∧ idx ≡ₚ seq 0 (n_points co)
    ∧ avals (points co') = omap (fun i => pts !! i) idx
    ∧ avals (points co') ≡ₚ pts
    ∧ (if descending then descending_order (avals (points co'))
       else ascending (avals (points co')))
    ∧ bounds co'
      = option_map
          (fun b => mk_arr (adtype b) (omap (fun i => avals b !! i) idx))
          (bounds co)
    ∧ shape (data r) = shape (data cube)
    ∧ flat (data r) = select_axis (shape (data cube)) k idx (flat (data cube))
    ∧ name r = name cube.
Proof.
  intros Hon pts idx. pose proof Hon as (Hco & Hin & Hshape & _).
  pose proof (coord_name_of _ _ _ Hco) as Hname.
  destruct (argsort_spec pts) as [Hperm Hsorted].
  assert (Hidx : idx ≡ₚ seq 0 (n_points co)).
  { unfold idx. destruct descending; [rewrite <- Permutation_rev|]; exact Hperm. }
  assert (Hbound : Forall (fun i => (i < n_points co)%nat) (positions (Pick idx))).
  { simpl. apply Forall_forall. intros i Hi. rewrite Hidx in Hi.
    apply elem_of_seq in Hi. lia. }
  destruct (index_axis_spec cube n co k (Pick idx) Hon Hbound)
    as (r & Hr & Hcr & Hdata & Hnr & _).
  exists r, (pick_points co idx).
  split.
  { unfold sort_coord_in_cube. rewrite Hco, (coord_dims_of_dim _ _ _ _ Hco Hin).
    rewrite Hname.
    rewrite bool_decide_eq_false_2
      by (apply (dim_coords_named_in _ _ _ _ Hin Hname)).
    cbn [negb andb]. fold pts. fold idx. rewrite Hr. reflexivity. }
  split; [exact Hcr|]. split; [exact Hidx|].
  split; [reflexivity|].
  assert (Hpts : omap (fun i => pts !! i) idx
                 = if descending then rev (sort_by Qle_bool pts)
                   else sort_by Qle_bool pts).
  { unfold idx. destruct descending; [rewrite omap_rev|]; rewrite Hsorted;
      reflexivity. }
  split.
  { simpl. fold pts. rewrite Hpts.
    destruct descending; [rewrite <- Permutation_rev|]; apply sort_by_perm. }
  split.
  { simpl. fold pts. rewrite Hpts. destruct descending.
    - apply rev_descends, sort_by_ascends.
    - apply sort_by_ascends. }
  split; [reflexivity|].
  rewrite Hdata. cbn [shape flat positions]. split; [|split; [reflexivity|exact Hnr]].
  apply (index_shape_pick _ _ _ _ Hshape).
  rewrite (Permutation_length Hidx). apply length_seq.
Qed.

(** A cube of three levels in no order. *)
Lemma sort_coord_in_cube_sorts_witness :
  ∃ r co',
    sort_coord_in_cube (three_level_cube) "height" true = ([], Ok r)
    ∧ coord r "height" = Ok co'
    ∧ descending_order (avals (points co'))
    ∧ avals (points co') ≡ₚ avals (points (match coord three_level_cube "height" with
                                           | Ok co => co
                                           | Raise _ => realization_of 0
                                           end)).
Proof.
  destruct (sort_coord_in_cube_sorts three_level_cube "height"
              (match coord three_level_cube "height" with
               | Ok co => co
               | Raise _ => realization_of 0
               end) 0 true)
    as (r & co' & Hr & Hco' & _ & _ & Hperm & Hdesc & _).
  - split; [vm_compute; reflexivity|]. split; [left; reflexivity|].
    split; [reflexivity|]. intros cd [].
  - exists r, co'. split; [exact Hr|]. split; [exact Hco'|].
    split; [exact Hdesc|exact Hperm].
Defined.

Example sort_coord_in_cube_example :
  match snd (sort_coord_in_cube three_level_cube "height" true) with
  | Ok r => Some (option_map (fun co => avals (points co))
                    (match coord r "height" with
                     | Ok co => Some co
                     | Raise _ => None
                     end),
                  flat (data r))
  | Raise _ => None
  end
  = Some (Some [300%Q; 200%Q; 100%Q],
          [Fin 7; Fin 5; Fin 7; Fin 5; Fin 9; Fin 1]).
Proof. vm_compute. reflexivity. Qed.

Lemma coord_dims_of_aux (c : Cube) (n : string) (co : Coord) (ds : list nat) :
  coord c n = Ok co → In (co, ds) (aux_coords_and_dims c) →
  coord_dims c n = Ok ds.
Proof.
  intros Hco Hin.
  pose proof (coord_name_of _ _ _ Hco) as Hname.
  pose proof (proj1 (coords_named_Ok c n co) Hco) as Hf.
  rewrite List.filter_app, !filter_map_fst in Hf.
  assert (Hin' : In (co, ds)
                   (List.filter (fun cd : Coord * list nat => named n (fst cd))
                      (aux_coords_and_dims c))).
  { apply filter_In. split; [exact Hin|]. apply named_spec, Hname. }
  pose proof (f_equal (@length Coord) Hf) as Hlen.
  rewrite length_app, !length_map in Hlen. simpl in Hlen.
  destruct (List.filter (fun cd : Coord * list nat => named n (fst cd))
              (aux_coords_and_dims c)) as [|x [|y l]] eqn:Ea;
    [destruct Hin'| |simpl in Hlen; lia].
  destruct (List.filter (fun ab : Coord * nat => named n (fst ab))
              (dim_coords_and_dims c)) as [|x' l'] eqn:Ed;
    [|simpl in Hlen; lia].
  destruct Hin' as [->|[]].
  unfold coord_dims, coords_and_dims. rewrite List.filter_app.
  rewrite (filter_keep_none _ (map _ _)).
  - rewrite Ea. reflexivity.
  - intros cd Hcd. apply in_map_iff in Hcd as (cd' & <- & Hcd'). simpl.
    apply not_true_is_false. intros E.
    apply (Permutation_in _ (sort_by_perm _ _)) in Hcd'.
    assert (Hx : In cd' (List.filter (fun ab : Coord * nat => named n (fst ab))
                           (dim_coords_and_dims c))).
    { apply filter_In. split; assumption. }
    rewrite Ed in Hx. destruct Hx.
Qed.

(** X15: [sort_coord_in_cube] passes on the error of a
    coordinate that is not found, without a warning, and refuses a scalar
    coordinate (one that spans no axis) with the [ValueError] of the
    unpacking of its axes. *)
Theorem sort_coord_in_cube_refuses (cube : Cube) (n : string) (descending : bool) :
  (∀ e, coord cube n = Raise e →
        sort_coord_in_cube cube n descending = ([], Raise e))
  ∧ (∀ co, coord cube n = Ok co → In (co, []) (aux_coords_and_dims cube) →
       sort_coord_in_cube cube n descending
       = ([], Raise (ValueError
                       "not enough values to unpack (expected 1, got 0)"))).
Proof.
  split.
  - intros e He. unfold sort_coord_in_cube. rewrite He. reflexivity.
  - intros co Hco Hin. unfold sort_coord_in_cube.
    rewrite Hco, (coord_dims_of_aux _ _ _ _ Hco Hin).
    rewrite bool_decide_eq_true_2; [reflexivity|].
    pose proof (coord_name_of _ _ _ Hco) as Hname. rewrite Hname.
    pose proof (proj1 (coords_named_Ok cube n co) Hco) as Hf.
    rewrite List.filter_app in Hf.
    assert (Hin' : In co (List.filter (named n)
                            (map fst (aux_coords_and_dims cube)))).
    { apply filter_In. split; [|apply named_spec, Hname].
      apply in_map_iff. exists (co, []). split; [reflexivity|exact Hin]. }
    pose proof (f_equal (@length Coord) Hf) as Hlen.
    rewrite length_app in Hlen. simpl in Hlen.
    destruct (List.filter (named n) (map fst (aux_coords_and_dims cube)))
      as [|x l]; [destruct Hin'|].
    simpl in Hlen.
    destruct (List.filter (named n) (map fst (dim_coords_and_dims cube)))
      as [|y l'] eqn:Ed; [|simpl in Hlen; lia].
    apply Permutation_nil_r. unfold dim_coords_named, dim_coords.
    rewrite <- Ed. apply filter_perm, Permutation_map, sort_by_perm.
Qed.

Lemma sort_coord_in_cube_refuses_witness :
  sort_coord_in_cube (member_cube 0 280) "height" false
  = ([], Raise (CoordinateNotFoundError "height"))
  ∧ sort_coord_in_cube (member_cube 0 280) "realization" false
    = ([], Raise (ValueError "not enough values to unpack (expected 1, got 0)")).
Proof.
  split.
  - apply (proj1 (sort_coord_in_cube_refuses (member_cube 0 280) "height" false)).
    reflexivity.
  - apply (proj2 (sort_coord_in_cube_refuses (member_cube 0 280) "realization"
                    false) (realization_of 0)).
    + reflexivity.
    + left. reflexivity.
Defined.

(** *** Lists in the order of a key *)

Lemma insert_by_sorted {A : Type} (key : A → nat) (x : A) (l : list A) :
  sorted_nat (map key l) →
  sorted_nat (map key (insert_by (fun a b => Nat.leb (key a) (key b)) x l)).
Proof.
  induction l as [|y l IH]; simpl; intros Hs.
  - split; [constructor|exact I].
  - destruct Hs as [Hy Hs]. destruct (Nat.leb (key x) (key y)) eqn:E; simpl.
    + apply Nat.leb_le in E. split; [|split; assumption].
      constructor; [exact E|].
      eapply Forall_impl; [exact Hy|]. simpl. intros z Hz. lia.
    + apply Nat.leb_gt in E. split; [|apply IH, Hs].
      assert (Hp : map key (insert_by (fun a b => Nat.leb (key a) (key b)) x l)
                   ≡ₚ key x :: map key l).
      { rewrite <- (fmap_cons key). apply Permutation_map, insert_by_perm. }
      rewrite Hp. constructor; [lia|exact Hy].
Qed.

Lemma sort_by_sorted {A : Type} (key : A → nat) (l : list A) :
  sorted_nat (map key (sort_by (fun a b => Nat.leb (key a) (key b)) l)).
Proof.
  induction l as [|x l IH]; simpl; [exact I|].
  apply insert_by_sorted, IH.
Qed.

Lemma sorted_nat_seq (a n : nat) : sorted_nat (seq a n).
Proof.
  revert a. induction n as [|n IH]; intros a; simpl; [exact I|].
  split; [|apply IH]. apply Forall_forall. intros y Hy.
  apply elem_of_seq in Hy. lia.
Qed.

Lemma key_inj_NoDup {A K : Type} (key : A → K) (l : list A) (x y : A) :
  NoDup (map key l) → x ∈ l → y ∈ l → key x = key y → x = y.
Proof.
  induction l as [|z l IH]; simpl; intros Hn Hx Hy E.
  - inversion Hx.
  - apply NoDup_cons in Hn as [Hz Hn].
    apply elem_of_cons in Hx as [->|Hx]; apply elem_of_cons in Hy as [->|Hy].
    + reflexivity.
    + exfalso. apply Hz. rewrite E. apply (list_elem_of_fmap_2 key), Hy.
    + exfalso. apply Hz. rewrite <- E. apply (list_elem_of_fmap_2 key), Hx.
    + apply IH; assumption.
Qed.

(** Two lists in the order of a key that tells their elements apart are
    equal when they have the same elements. *)
Lemma sorted_perm_eq {A : Type} (key : A → nat) (l1 l2 : list A) :
  sorted_nat (map key l1) → sorted_nat (map key l2) → l1 ≡ₚ l2 →
  NoDup (map key l1) → l1 = l2.
Proof.
  revert l2. induction l1 as [|x l1 IH]; intros l2 H1 H2 Hp Hn.
  - apply Permutation_nil_l, Hp.
  - destruct l2 as [|y l2].
    { apply Permutation_nil_r in Hp. discriminate. }
    simpl in H1, H2. destruct H1 as [Hx H1], H2 as [Hy H2].
    assert (Hxy : x = y).
    { apply (key_inj_NoDup key (x :: l1)); [exact Hn|left| |].
      - rewrite Hp. left.
      - assert (Hin1 : x ∈ y :: l2) by (rewrite <- Hp; left).
        assert (Hin2 : y ∈ x :: l1) by (rewrite Hp; left).
        apply elem_of_cons in Hin1 as [E|Hin1]; [rewrite E; reflexivity|].
        apply elem_of_cons in Hin2 as [E|Hin2]; [rewrite E; reflexivity|].
        rewrite Forall_forall in Hx, Hy.
        pose proof (Hx (key y) (list_elem_of_fmap_2 key _ _ Hin2)).
        pose proof (Hy (key x) (list_elem_of_fmap_2 key _ _ Hin1)).
        lia. }
    subst y. f_equal. apply IH; [exact H1|exact H2| |].
    + apply (Permutation_cons_inv Hp).
    + simpl in Hn. apply NoDup_cons in Hn as [_ Hn]. exact Hn.
Qed.

(** *** Positions in a list of axes *)

Lemma index_of_fresh (x : nat) (l : list nat) :
  x ∉ l → index_of x l = length l.
Proof.
  induction l as [|y l IH]; simpl; intros Hx; [reflexivity|].
  apply not_elem_of_cons in Hx as [Hne Hx].
  destruct (Nat.eqb_spec y x) as [E|_]; [congruence|]. rewrite IH; auto.
Qed.

Lemma index_of_lookup (x : nat) (l : list nat) :
  x ∈ l → l !! index_of x l = Some x.
Proof.
  induction l as [|y l IH]; simpl; intros Hx; [inversion Hx|].
  destruct (Nat.eqb_spec y x) as [->|Hne]; [reflexivity|].
  apply elem_of_cons in Hx as [E|Hx]; [congruence|]. simpl. apply IH, Hx.
Qed.

Lemma index_of_own (l : list nat) :
  NoDup l → map (fun d => index_of d l) l = seq 0 (length l).
Proof.
  induction l as [|y l IH]; simpl; intros Hn; [reflexivity|].
  apply NoDup_cons in Hn as [Hy Hn].
  rewrite Nat.eqb_refl. f_equal. rewrite <- seq_shift, <- (IH Hn), map_map.
  apply map_ext_in. intros d Hd. apply list_elem_of_In in Hd.
  destruct (Nat.eqb_spec y d) as [->|_]; [contradiction|reflexivity].
Qed.

Lemma index_of_nth (f : nat → nat) (x : nat) (l : list nat) :
  x ∈ l → nth (index_of x l) (map f l) 0%nat = f x.
Proof.
  induction l as [|y l IH]; simpl; intros Hx; [inversion Hx|].
  destruct (Nat.eqb_spec y x) as [->|Hne]; [reflexivity|].
  apply elem_of_cons in Hx as [E|Hx]; [congruence|]. apply IH, Hx.
Qed.

Lemma no_repeat_NoDup (l : list nat) : NoDup l → no_repeat l = true.
Proof.
  induction l as [|y l IH]; simpl; intros Hn; [reflexivity|].
  apply NoDup_cons in Hn as [Hy Hn]. rewrite (IH Hn), andb_true_r.
  apply negb_true_iff. destruct (existsb (Nat.eqb y) l) eqn:E; [|reflexivity].
  apply existsb_exists in E as [z [Hz E]]. apply Nat.eqb_eq in E. subst z.
  exfalso. apply Hy, list_elem_of_In, Hz.
Qed.

Lemma existsb_eqb_elem (d : nat) (l : list nat) :
  existsb (Nat.eqb d) l = bool_decide (d ∈ l).
Proof.
  induction l as [|y l IH]; simpl; [reflexivity|].
  rewrite IH. destruct (Nat.eqb_spec d y) as [->|Hne]; simpl.
  - symmetry. apply bool_decide_eq_true. left.
  - apply bool_decide_ext. rewrite elem_of_cons. tauto.
Qed.

(** *** Picking the members of a list by their axes *)

Lemma on_axes_app {A : Type} (D : list (A * nat)) (p q : list nat) :
  on_axes D (p ++ q) = on_axes D p ++ on_axes D q.
Proof. apply flat_map_app. Qed.

Lemma on_axes_fresh {A : Type} (x : A * nat) (D : list (A * nat)) (p : list nat) :
  snd x ∉ p → on_axes (x :: D) p = on_axes D p.
Proof.
  unfold on_axes. induction p as [|d p IH]; intros Hx; [reflexivity|].
  apply not_elem_of_cons in Hx as [Hne Hx].
  specialize (IH Hx). simpl in IH. simpl. rewrite IH.
  destruct (Nat.eqb_spec (snd x) d) as [E|_]; [congruence|reflexivity].
Qed.

Lemma on_axes_own {A : Type} (D : list (A * nat)) :
  NoDup (map snd D) → on_axes D (map snd D) = D.
Proof.
  induction D as [|x D IH]; intros Hn; [reflexivity|].
  cbn [map] in Hn. apply NoDup_cons in Hn as [Hx Hn].
  change (on_axes (x :: D) (map snd (x :: D)))
    with (List.filter (fun cd : A * nat => Nat.eqb (snd cd) (snd x)) (x :: D)
          ++ on_axes (x :: D) (map snd D)).
  rewrite (on_axes_fresh x D _ Hx), (IH Hn). cbn [List.filter].
  rewrite Nat.eqb_refl, (filter_keep_none _ D); [reflexivity|].
  - intros y Hy. apply list_elem_of_In in Hy.
    destruct (Nat.eqb_spec (snd y) (snd x)) as [E|_]; [|reflexivity].
    exfalso. apply Hx. rewrite <- E.
    apply (list_elem_of_fmap_2 snd), Hy.
Qed.

Lemma on_axes_filter {A : Type} (q : nat → bool) (D : list (A * nat))
  (p : list nat) :
  on_axes D (List.filter q p) = List.filter (fun cd => q (snd cd)) (on_axes D p).
Proof.
  induction p as [|d p IH]; simpl; [reflexivity|].
  rewrite List.filter_app, <- IH, filter_twice.
  destruct (q d) eqn:E; simpl.
  - f_equal. apply filter_ext_in_iff. intros x _.
    destruct (Nat.eqb_spec (snd x) d) as [->|_]; simpl; [rewrite E|]; reflexivity.
  - rewrite (filter_keep_none _ D); [reflexivity|].
    intros x _.
    destruct (Nat.eqb_spec (snd x) d) as [->|_]; simpl; [rewrite E|]; reflexivity.
Qed.

Lemma on_axes_one {A : Type} (D : list (A * nat)) (x : A * nat) :
  NoDup (map snd D) → x ∈ D →
  List.filter (fun cd => Nat.eqb (snd cd) (snd x)) D = [x].
Proof.
  induction D as [|y D IH]; simpl; intros Hn Hx; [inversion Hx|].
  apply NoDup_cons in Hn as [Hy Hn].
  apply elem_of_cons in Hx as [->|Hx].
  - rewrite Nat.eqb_refl. f_equal. apply filter_keep_none.
    intros z Hz. apply list_elem_of_In in Hz. destruct (Nat.eqb_spec (snd z) (snd y)) as [E|_]; [|reflexivity].
    exfalso. apply Hy. rewrite <- E. apply (list_elem_of_fmap_2 snd), Hz.
  - destruct (Nat.eqb_spec (snd y) (snd x)) as [E|_]; [|apply IH; assumption].
    exfalso. apply Hy. rewrite E. apply (list_elem_of_fmap_2 snd), Hx.
Qed.

Lemma on_axes_snd {A : Type} (D : list (A * nat)) (p : list nat) :
  NoDup (map snd D) → (∀ d, d ∈ p → d ∈ map snd D) →
  map snd (on_axes D p) = p.
Proof.
  intros Hn. induction p as [|d p IH]; simpl; intros Hp; [reflexivity|].
  destruct (proj1 (list_elem_of_fmap snd D d) (Hp d (list_elem_of_here _ _)))
    as [x [-> Hx]].
  rewrite map_app, (on_axes_one D x Hn Hx). simpl. f_equal.
  apply IH. intros d' Hd'. apply Hp. right. exact Hd'.
Qed.

Lemma on_axes_perm {A : Type} (D : list (A * nat)) (p : list nat) :
  NoDup (map snd D) → p ≡ₚ map snd D → on_axes D p ≡ₚ D.
Proof.
  intros Hn Hp. rewrite <- (on_axes_own D Hn) at 2.
  apply Permutation_flat_map, Hp.
Qed.

Lemma on_axes_elem {A : Type} (D : list (A * nat)) (p : list nat) (x : A * nat) :
  x ∈ on_axes D p ↔ x ∈ D ∧ snd x ∈ p.
Proof.
  unfold on_axes. rewrite list_elem_of_In, in_flat_map. split.
  - intros [d [Hd Hx]]. apply filter_In in Hx as [Hx E].
    apply Nat.eqb_eq in E. subst d. split; apply list_elem_of_In; assumption.
  - intros [Hx Hd]. exists (snd x). split; [apply list_elem_of_In, Hd|].
    apply filter_In. split; [apply list_elem_of_In, Hx|apply Nat.eqb_refl].
Qed.

(** The members of a list moved to other axes, in the order of the new
    axes: the members in the order of the move. *)
Lemma sort_moved {A : Type} (L D : list (A * nat)) (p : list nat) :
  L ≡ₚ D → NoDup (map snd D) → p ≡ₚ map snd D →
  sort_by (fun a b : A * nat => Nat.leb (snd a) (snd b))
    (map (fun cd : A * nat => (fst cd, index_of (snd cd) p)) L)
  = map (fun cd : A * nat => (fst cd, index_of (snd cd) p)) (on_axes D p).
Proof.
  intros HL Hn Hp.
  assert (Hnp : NoDup p) by (rewrite Hp; exact Hn).
  assert (Hs : map snd (map (fun cd : A * nat => (fst cd, index_of (snd cd) p))
                          (on_axes D p)) = seq 0 (length p)).
  { rewrite map_map. simpl.
    rewrite <- (map_map snd (fun d => index_of d p)), on_axes_snd;
      [apply index_of_own, Hnp|exact Hn|].
    intros d Hd. rewrite <- Hp. exact Hd. }
  assert (Hperm : sort_by (fun a b : A * nat => Nat.leb (snd a) (snd b))
                    (map (fun cd : A * nat => (fst cd, index_of (snd cd) p)) L)
                  ≡ₚ map (fun cd : A * nat => (fst cd, index_of (snd cd) p))
                       (on_axes D p)).
  { rewrite sort_by_perm. apply Permutation_map.
    rewrite HL. symmetry. apply on_axes_perm; assumption. }
  apply (sorted_perm_eq snd).
  - apply (sort_by_sorted snd).
  - rewrite Hs. apply sorted_nat_seq.
  - exact Hperm.
  - rewrite (Permutation_map snd Hperm), Hs. apply NoDup_seq.
Qed.

(** The only member of a list with a given key. *)
Lemma filter_only {A K : Type} (f : A → K) (q : A → bool) (l : list A) (x : A) :
  NoDup (map f l) → x ∈ l → q x = true →
  (∀ y, y ∈ l → q y = true → f y = f x) →
  List.filter q l = [x].
Proof.
  induction l as [|y l IH]; simpl; intros Hn Hx Hq Hk; [inversion Hx|].
  apply NoDup_cons in Hn as [Hy Hn].
  apply elem_of_cons in Hx as [->|Hx].
  - rewrite Hq. f_equal. apply filter_keep_none.
    intros z Hz. apply list_elem_of_In in Hz. destruct (q z) eqn:E; [|reflexivity].
    exfalso. apply Hy. rewrite <- (Hk z (list_elem_of_further _ _ _ Hz) E).
    apply (list_elem_of_fmap_2 f), Hz.
  - destruct (q y) eqn:E.
    + exfalso. apply Hy. rewrite (Hk y (list_elem_of_here _ _) E).
      apply (list_elem_of_fmap_2 f), Hx.
    + apply IH; try assumption.
      intros z Hz. apply Hk. right. exact Hz.
Qed.

Lemma asked_then_others (a l : list nat) :
  NoDup a → NoDup l → (∀ d, d ∈ a → d ∈ l) →
  a ++ List.filter (fun d => negb (existsb (Nat.eqb d) a)) l ≡ₚ l.
Proof.
  intros Ha Hl Hsub. apply NoDup_Permutation.
  - apply NoDup_app. split; [exact Ha|]. split.
    + intros d Hd Hf. apply list_elem_of_In, filter_In in Hf as [_ Hf].
      rewrite existsb_eqb_elem in Hf. apply negb_true_iff in Hf.
      apply bool_decide_eq_false in Hf. contradiction.
    + apply NoDup_ListNoDup, List.NoDup_filter, NoDup_ListNoDup, Hl.
  - exact Hl.
  - intros d. rewrite elem_of_app.
    assert (Hf : d ∈ List.filter (fun d => negb (existsb (Nat.eqb d) a)) l
                 ↔ d ∈ l ∧ d ∉ a).
    { rewrite !list_elem_of_In, filter_In, existsb_eqb_elem, negb_true_iff,
        bool_decide_eq_false, list_elem_of_In. reflexivity. }
    rewrite Hf. destruct (decide (d ∈ a)) as [Hd|Hd]; [|tauto].
    pose proof (Hsub d Hd). tauto.
Qed.

(** *** The axes of a cube *)

Lemma coord_eqb_name (a b : Coord) :
  coord_eqb a b = true → coord_name a = coord_name b.
Proof.
  unfold coord_eqb, coord_metadata_eqb, string_eqb. intros H.
  repeat (apply andb_true_iff in H as [H _]).
  apply bool_decide_eq_true in H. exact H.
Qed.

Lemma coords_and_dims_names (c : Cube) :
  map (fun cd : Coord * list nat => coord_name (fst cd)) (coords_and_dims c)
  = get_coord_names c.
Proof.
  unfold coords_and_dims, get_coord_names, coords, dim_coords, aux_coords.
  rewrite !map_app, !map_map. reflexivity.
Qed.

Lemma dim_names_NoDup (c : Cube) :
  NoDup (get_coord_names c) → NoDup (get_dim_coord_names c).
Proof.
  unfold get_coord_names, coords, get_dim_coord_names. rewrite map_app.
  intros H. apply NoDup_app in H as [H _]. exact H.
Qed.

Lemma dim_in_coords_and_dims (c : Cube) (x : Coord * nat) :
  x ∈ sort_by (fun a b => Nat.leb (snd a) (snd b)) (dim_coords_and_dims c) →
  (fst x, [snd x]) ∈ coords_and_dims c.
Proof.
  intros Hx. unfold coords_and_dims. apply elem_of_app. left.
  apply (list_elem_of_fmap_2 (fun cd : Coord * nat => (fst cd, [snd cd]))), Hx.
Qed.

Lemma coord_dims_dim (c : Cube) (x : Coord * nat) :
  NoDup (get_coord_names c) →
  x ∈ sort_by (fun a b => Nat.leb (snd a) (snd b)) (dim_coords_and_dims c) →
  coord_dims c (coord_name (fst x)) = Ok [snd x].
Proof.
  intros Hn Hx. unfold coord_dims.
  rewrite (filter_only (fun cd : Coord * list nat => coord_name (fst cd)) _
             (coords_and_dims c) (fst x, [snd x])); [reflexivity| | | |].
  - rewrite coords_and_dims_names. exact Hn.
  - apply dim_in_coords_and_dims, Hx.
  - apply named_spec. reflexivity.
  - intros y _ Hy. apply named_spec in Hy. exact Hy.
Qed.

Lemma coord_dims_of_own (c : Cube) (x : Coord * nat) :
  NoDup (get_coord_names c) →
  x ∈ sort_by (fun a b => Nat.leb (snd a) (snd b)) (dim_coords_and_dims c) →
  coord_dims_of c (fst x) = [snd x].
Proof.
  intros Hn Hx. unfold coord_dims_of.
  rewrite (filter_only (fun cd : Coord * list nat => coord_name (fst cd)) _
             (coords_and_dims c) (fst x, [snd x])); [reflexivity| | | |].
  - rewrite coords_and_dims_names. exact Hn.
  - apply dim_in_coords_and_dims, Hx.
  - apply coord_eqb_refl.
  - intros y _ Hy. apply coord_eqb_name in Hy. exact Hy.
Qed.

Section Ordering.

Context (find_threshold_coordinate : Cube → result Coord).

Lemma collect_plain (cube : Cube) (N acc : list string) (nm : string) :
  nm ≠ "threshold" →
  collect_coord find_threshold_coordinate cube N acc nm
  = Ok (if bool_decide (nm ∈ N) then acc ++ [nm] else acc).
Proof.
  intros Hne. unfold collect_coord, string_eqb.
  rewrite (bool_decide_eq_false_2 (nm = "threshold")) by exact Hne.
  reflexivity.
Qed.

(** Without the name "threshold" the loop keeps the names of dimension
    coordinates, in the order asked. *)
Lemma collect_coords (cube : Cube) (N names acc : list string) :
  "threshold" ∉ names →
  fold_result (collect_coord find_threshold_coordinate cube N) names acc
  = Ok (acc ++ List.filter (fun n => bool_decide (n ∈ N)) names).
Proof.
  revert acc. induction names as [|nm names IH]; intros acc Ht.
  - simpl. rewrite app_nil_r. reflexivity.
  - apply not_elem_of_cons in Ht as [Hne Ht].
    cbn [fold_result List.filter]. rewrite collect_plain by congruence.
    cbn [mbind result_bind]. rewrite (IH _ Ht).
    destruct (bool_decide (nm ∈ N)); simpl;
      [rewrite <- app_assoc|]; reflexivity.
Qed.

Lemma others_dims (c : Cube) :
  NoDup (get_coord_names c) →
  map_result (fun co => first_dim (coord_dims_of c co)) (dim_coords c)
  = Ok (map snd (sort_by (fun a b => Nat.leb (snd a) (snd b))
                   (dim_coords_and_dims c))).
Proof.
  intros Hn. unfold dim_coords.
  assert (H : ∀ l : list (Coord * nat),
            (∀ x, x ∈ l →
                  x ∈ sort_by (fun a b => Nat.leb (snd a) (snd b))
                        (dim_coords_and_dims c)) →
            map_result (fun co => first_dim (coord_dims_of c co)) (map fst l)
            = Ok (map snd l)).
  { induction l as [|x l IH]; intros Hl; simpl; [reflexivity|].
    rewrite (coord_dims_of_own c x Hn (Hl x (list_elem_of_here _ _))). simpl.
    rewrite IH; [reflexivity|]. intros y Hy. apply Hl. right. exact Hy. }
  apply H. auto.
Qed.

(** The axes of the names asked for. *)
Lemma asked_dims (c : Cube) (names : list string) :
  NoDup (get_coord_names c) →
  NoDup (map snd (sort_by (fun a b => Nat.leb (snd a) (snd b))
                    (dim_coords_and_dims c))) →
  let D := sort_by (fun a b => Nat.leb (snd a) (snd b)) (dim_coords_and_dims c) in
  let phi := fun cd : Coord * nat =>
               (coord_name (fst cd), nth (snd cd) (shape (data c)) 0%nat) in
  ∃ nd0,
    map_result (fun coord' => ds ← coord_dims c coord'; first_dim ds)
      (List.filter (fun n => bool_decide (n ∈ get_dim_coord_names c)) names)
    = Ok nd0
    ∧ map phi (on_axes D nd0)
      = flat_map (fun n => List.filter (fun x : string * nat => string_eqb (fst x) n)
                             (map phi D)) names
    ∧ (∀ d, d ∈ nd0 ↔ ∃ x, x ∈ D ∧ snd x = d ∧ coord_name (fst x) ∈ names)
    ∧ (NoDup names → NoDup nd0).
Proof.
  intros Hn Hd D phi.
  pose proof (dim_names_NoDup c Hn) as HN.
  assert (HND : get_dim_coord_names c = map fst (map phi D)).
  { unfold get_dim_coord_names, dim_coords. fold D. rewrite !map_map.
    reflexivity. }
  induction names as [|nm names IH].
  - exists []. simpl. split; [reflexivity|]. split; [reflexivity|].
    split; [|intros _; constructor].
    intros d. split; [intros H; inversion H|].
    intros [x [_ [_ H]]]. inversion H.
  - destruct IH as [nd0 [E0 [E1 [E2 E3]]]].
    cbn [List.filter flat_map].
    destruct (decide (nm ∈ get_dim_coord_names c)) as [Hin|Hout].
    + rewrite (bool_decide_eq_true_2 _ Hin).
      assert (Hx : ∃ x, x ∈ D ∧ coord_name (fst x) = nm).
      { unfold get_dim_coord_names, dim_coords in Hin. fold D in Hin.
        rewrite map_map in Hin.
        apply (list_elem_of_fmap_1 (fun x : Coord * nat => coord_name (fst x)))
          in Hin as [x [-> Hx]].
        exists x. split; [exact Hx|reflexivity]. }
      destruct Hx as [x [Hx Hnm]].
      exists (snd x :: nd0). split; [|split; [|split]].
      * cbn [map_result]. rewrite <- Hnm, (coord_dims_dim c x Hn Hx). simpl.
        rewrite E0. reflexivity.
      * change (on_axes D (snd x :: nd0))
          with (List.filter (fun cd : Coord * nat => Nat.eqb (snd cd) (snd x)) D
                ++ on_axes D nd0).
        rewrite (on_axes_one D x Hd Hx), map_app, E1. f_equal. simpl.
        symmetry. apply (filter_only fst).
        -- rewrite <- HND. exact HN.
        -- apply (list_elem_of_fmap_2 phi), Hx.
        -- simpl. unfold string_eqb. apply bool_decide_eq_true. exact Hnm.
        -- intros y _ Hy. unfold string_eqb in Hy.
           apply bool_decide_eq_true in Hy. simpl. congruence.
      * intros d. rewrite elem_of_cons, E2. split.
        -- intros [->|[y [Hy [Hs Hm]]]].
           ++ exists x. split; [exact Hx|]. split; [reflexivity|].
              rewrite Hnm. left.
           ++ exists y. split; [exact Hy|]. split; [exact Hs|]. right. exact Hm.
        -- intros [y [Hy [Hs Hm]]]. apply elem_of_cons in Hm as [Hm|Hm].
           ++ left. rewrite <- Hs. f_equal.
              apply (key_inj_NoDup (fun z : Coord * nat => coord_name (fst z)) D);
                [|exact Hy|exact Hx|congruence].
              rewrite <- (map_map fst coord_name). exact HN.
           ++ right. exists y. split; [exact Hy|]. split; [exact Hs|exact Hm].
      * intros Hnames. apply NoDup_cons in Hnames as [Hfresh Hnames].
        apply NoDup_cons. split; [|apply E3, Hnames].
        intros Hin'. apply E2 in Hin' as [y [Hy [Hs Hm]]].
        assert (y = x) as ->.
        { apply (key_inj_NoDup snd D); assumption. }
        apply Hfresh. rewrite <- Hnm. exact Hm.
    + rewrite (bool_decide_eq_false_2 _ Hout).
      exists nd0. split; [exact E0|]. split; [|split; [|]].
      * rewrite E1. rewrite (filter_keep_none _ (map phi D)); [reflexivity|].
        intros z Hz. unfold string_eqb. apply bool_decide_eq_false.
        intros E. apply Hout. rewrite HND, <- E.
        apply (list_elem_of_fmap_2 fst), list_elem_of_In, Hz.
      * intros d. rewrite E2. split.
        -- intros [y [Hy [Hs Hm]]]. exists y. split; [exact Hy|].
           split; [exact Hs|]. right. exact Hm.
        -- intros [y [Hy [Hs Hm]]]. exists y. split; [exact Hy|].
           split; [exact Hs|]. apply elem_of_cons in Hm as [Hm|Hm]; [|exact Hm].
           exfalso. apply Hout. rewrite <- Hm.
           unfold get_dim_coord_names, dim_coords. fold D. rewrite map_map.
           apply (list_elem_of_fmap_2 (fun z : Coord * nat => coord_name (fst z))), Hy.
      * intros Hnames. apply NoDup_cons in Hnames as [_ Hnames].
        apply E3, Hnames.
Qed.

End Ordering.

Lemma map_result_length {A B : Type} (f : A → result B) (l : list A)
  (l' : list B) :
  map_result f l = Ok l' → length l' = length l.
Proof.
  revert l'. induction l as [|x l IH]; intros l'; simpl.
  - intros E. injection E as <-. reflexivity.
  - destruct (f x); [|discriminate]. simpl.
    destruct (map_result f l); [|discriminate]. simpl.
    intros E. injection E as <-. simpl. f_equal. apply IH. reflexivity.
Qed.

Lemma list_eqb_nat (l1 l2 : list nat) :
  list_eqb Nat.eqb l1 l2 = true → l1 = l2.
Proof.
  revert l2. induction l1 as [|x l1 IH]; intros [|y l2]; simpl;
    try discriminate; [reflexivity|].
  intros H. apply andb_true_iff in H as [E H]. apply Nat.eqb_eq in E.
  f_equal; [exact E|apply IH, H].
Qed.

Lemma map_filter_agree {A B : Type} (f : A → B) (q1 : A → bool) (q2 : B → bool)
  (l : list A) :
  (∀ x, x ∈ l → q1 x = q2 (f x)) →
  map f (List.filter q1 l) = List.filter q2 (map f l).
Proof.
  induction l as [|x l IH]; intros H; simpl; [reflexivity|].
  rewrite <- (H x (list_elem_of_here _ _)).
  rewrite <- IH by (intros y Hy; apply H; right; exact Hy).
  destruct (q1 x); reflexivity.
Qed.

(** X16: on a cube whose axes all have their dimension
    coordinate and whose coordinates have different names,
    [enforce_coordinate_ordering] with different names, none of them
    "threshold", succeeds; the dimension coordinates asked for then lead
    (trail when [anchor_start] is false) in the order asked, the others follow
    (come first) in their former order, every one with the length its axis
    had; names that are no dimension coordinate are passed over and the
    auxiliary coordinates are the same. *)
Theorem enforce_coordinate_ordering_reorders
  (find_threshold_coordinate : Cube → result Coord) (cube : Cube)
  (names : list string) (anchor_start : bool) :
  every_axis_named cube →
  NoDup (get_coord_names cube) →
  NoDup names →
  "threshold" ∉ names →
  ∃ r,
    enforce_coordinate_ordering find_threshold_coordinate cube (CoordList names)
      anchor_start = Ok r
    ∧ named_axes r
      = (let asked :=
           flat_map (fun n => List.filter
                                (fun x : string * nat => string_eqb (fst x) n)
                                (named_axes cube)) names in
         let others :=
           List.filter (fun x : string * nat => negb (bool_decide (fst x ∈ names)))
             (named_axes cube) in
         if anchor_start then asked ++ others else others ++ asked)
    ∧ aux_coords r = aux_coords cube.
Proof.
  intros Hax Hn Hnames Ht. unfold every_axis_named in Hax.
  assert (Hd : NoDup (map snd (sort_by (fun a b : Coord * nat =>
                                          Nat.leb (snd a) (snd b))
                                 (dim_coords_and_dims cube)))).
  { rewrite Hax. apply NoDup_seq. }
  destruct (asked_dims cube names Hn Hd) as [nd0 [E0 [E1 [E2 E3]]]].
  specialize (E3 Hnames).
  set (D := sort_by (fun a b : Coord * nat => Nat.leb (snd a) (snd b))
              (dim_coords_and_dims cube)) in *.
  set (phi := fun cd : Coord * nat =>
                (coord_name (fst cd), nth (snd cd) (shape (data cube)) 0%nat))
    in *.
  set (rest := List.filter (fun d => negb (existsb (Nat.eqb d) nd0)) (map snd D)).
  set (p := if anchor_start then nd0 ++ rest else rest ++ nd0).
  assert (Henf : enforce_coordinate_ordering find_threshold_coordinate cube
                   (CoordList names) anchor_start
                 = if negb (list_eqb Nat.eqb p (sort_by Nat.leb p))
                   then transpose cube p else Ok cube).
  { unfold enforce_coordinate_ordering.
    rewrite (collect_coords find_threshold_coordinate cube _ names [] Ht).
    cbn [mbind result_bind app]. rewrite E0. cbn [mbind result_bind].
    rewrite (others_dims cube Hn). cbn [mbind result_bind]. fold D. fold rest.
    rewrite <- (map_result_length _ _ _ E0).
    replace (if anchor_start then nd0 ++ rest
             else drop (length nd0) (nd0 ++ rest)
                  ++ take (length nd0) (nd0 ++ rest)) with p; [reflexivity|].
    unfold p. destruct anchor_start; [reflexivity|].
    rewrite drop_app_length, take_app_length. reflexivity. }
  assert (Hsub : ∀ d, d ∈ nd0 → d ∈ map snd D).
  { intros d Hd0. apply E2 in Hd0 as [x [Hx [<- _]]].
    apply (list_elem_of_fmap_2 snd), Hx. }
  assert (Hp : p ≡ₚ map snd D).
  { unfold p. destruct anchor_start;
      [|rewrite (Permutation_app_comm rest nd0)];
      apply asked_then_others; assumption. }
  assert (Hnp : NoDup p) by (rewrite Hp; exact Hd).
  assert (Hrest : map phi (on_axes D rest)
                  = List.filter (fun x : string * nat =>
                                   negb (bool_decide (fst x ∈ names)))
                      (map phi D)).
  { unfold rest. rewrite on_axes_filter, (on_axes_own D Hd).
    apply map_filter_agree. intros x Hx. f_equal.
    rewrite existsb_eqb_elem. apply bool_decide_ext. rewrite E2. split.
    - intros [y [Hy [Hs Hm]]].
      assert (y = x) as -> by (apply (key_inj_NoDup snd D); assumption).
      exact Hm.
    - intros Hm. exists x. split; [exact Hx|]. split; [reflexivity|exact Hm]. }
  assert (Hmap : map phi (on_axes D p)
                 = if anchor_start
                   then flat_map (fun n => List.filter
                                             (fun x : string * nat =>
                                                string_eqb (fst x) n)
                                             (named_axes cube)) names
                        ++ List.filter (fun x : string * nat =>
                                          negb (bool_decide (fst x ∈ names)))
                             (named_axes cube)
                   else List.filter (fun x : string * nat =>
                                       negb (bool_decide (fst x ∈ names)))
                          (named_axes cube)
                        ++ flat_map (fun n => List.filter
                                                (fun x : string * nat =>
                                                   string_eqb (fst x) n)
                                                (named_axes cube)) names).
  { unfold p, named_axes. fold D. fold phi.
    destruct anchor_start; rewrite on_axes_app, map_app, E1, Hrest;
      reflexivity. }
  cbv zeta. rewrite <- Hmap.
  rewrite Henf.
  destruct (list_eqb Nat.eqb p (sort_by Nat.leb p)) eqn:Etest; cbn [negb].
  - exists cube. split; [reflexivity|]. split; [|reflexivity].
    unfold named_axes. fold D. fold phi. f_equal.
    apply list_eqb_nat in Etest.
    assert (Hpd : p = map snd D).
    { apply (sorted_perm_eq (fun x : nat => x)).
      - rewrite Etest. apply (sort_by_sorted (fun x : nat => x)).
      - rewrite map_id, Hax. apply sorted_nat_seq.
      - exact Hp.
      - rewrite map_id. exact Hnp. }
    rewrite Hpd. symmetry. apply on_axes_own, Hd.
  - unfold transpose.
    assert (Hlen : length p = length (shape (data cube))).
    { rewrite (Permutation_length Hp). fold D in Hax.
      rewrite Hax, length_seq. reflexivity. }
    rewrite Hlen, Nat.eqb_refl. cbn [negb].
    assert (Hlt : forallb (fun ax => Nat.ltb ax (length (shape (data cube)))) p
                  = true).
    { apply forallb_forall. intros d Hdp. apply list_elem_of_In in Hdp.
      rewrite Hp in Hdp. fold D in Hax. rewrite Hax in Hdp.
      apply elem_of_seq in Hdp. apply Nat.ltb_lt. lia. }
    rewrite Hlt, (no_repeat_NoDup p Hnp). cbn [negb].
    eexists. split; [reflexivity|]. split.
    + unfold named_axes. cbn [dim_coords_and_dims set_data
        set_coords data transpose_array shape].
      rewrite (sort_moved (dim_coords_and_dims cube) D p);
        [|symmetry; apply sort_by_perm|exact Hd|exact Hp].
      rewrite map_map. apply map_ext_in. intros x Hx.
      apply list_elem_of_In, on_axes_elem in Hx as [_ Hx].
      unfold phi. cbn [fst snd]. f_equal.
      apply (index_of_nth (fun ax => nth ax (shape (data cube)) 0%nat)), Hx.
    + unfold aux_coords. cbn [aux_coords_and_dims set_data set_coords].
      rewrite map_map. reflexivity.
Qed.

Lemma enforce_coordinate_ordering_reorders_witness :
  ∃ r,
    enforce_coordinate_ordering
      (fun _ => Raise (CoordinateNotFoundError "threshold")) three_level_cube
      (CoordList ["projection_y_coordinate"; "time"]) true = Ok r
    ∧ named_axes r
      = (let asked :=
           flat_map (fun n => List.filter
                                (fun x : string * nat => string_eqb (fst x) n)
                                (named_axes three_level_cube))
             ["projection_y_coordinate"; "time"] in
         let others :=
           List.filter (fun x : string * nat =>
                          negb (bool_decide
                                  (fst x ∈ ["projection_y_coordinate"; "time"])))
             (named_axes three_level_cube) in
         if true then asked ++ others else others ++ asked)
    ∧ aux_coords r = aux_coords three_level_cube.
Proof.
  apply (enforce_coordinate_ordering_reorders
           (fun _ => Raise (CoordinateNotFoundError "threshold"))
           three_level_cube ["projection_y_coordinate"; "time"] true).
  - reflexivity.
  - apply (bool_decide_unpack _). vm_compute. exact I.
  - apply (bool_decide_unpack _). vm_compute. exact I.
  - apply (bool_decide_unpack _). vm_compute. exact I.
Defined.

(** The grid axis of the three levels brought to the front: the payload is
    transposed with it. *)
Example enforce_coordinate_ordering_example :
  match enforce_coordinate_ordering
          (fun _ => Raise (CoordinateNotFoundError "threshold")) three_level_cube
          (CoordList ["projection_y_coordinate"; "time"]) true with
  | Ok r => Some (named_axes r, shape (data r), flat (data r))
  | Raise _ => None
  end
  = Some ([("projection_y_coordinate", 2%nat); ("height", 3%nat)],
          [2%nat; 3%nat],
          [Fin 9; Fin 7; Fin 7; Fin 1; Fin 5; Fin 5]).
Proof. vm_compute. reflexivity. Qed.

(** X17: in the names given to
    [enforce_coordinate_ordering], "threshold" stands for the name of the
    cube's threshold coordinate: the call does what it does with that name in
    its place; when the cube has no threshold coordinate, what it does with
    "threshold" left out; and when "threshold" is among the names, any other
    failure of the search is the outcome of the call. *)
Theorem enforce_coordinate_ordering_threshold
  (find_threshold_coordinate : Cube → result Coord) (cube : Cube)
  (names : list string) (anchor_start : bool) :
  enforce_coordinate_ordering find_threshold_coordinate cube (CoordList names)
    anchor_start
  = match find_threshold_coordinate cube with
    | Ok c =>
        enforce_coordinate_ordering find_threshold_coordinate cube
          (CoordList (map (fun n => if string_eqb n "threshold"
                                    then coord_name c else n) names))
          anchor_start
    | Raise (CoordinateNotFoundError _) =>
        enforce_coordinate_ordering find_threshold_coordinate cube
          (CoordList (List.filter (fun n => negb (string_eqb n "threshold")) names))
          anchor_start
    | Raise e =>
        if bool_decide ("threshold" ∈ names) then Raise e
        else enforce_coordinate_ordering find_threshold_coordinate cube
               (CoordList names) anchor_start
    end.
Proof.
  set (N := get_dim_coord_names cube).
  assert (Hstep : ∀ acc nm,
            collect_coord find_threshold_coordinate cube N acc nm
            = if string_eqb nm "threshold" then
                match find_threshold_coordinate cube with
                | Ok c => Ok (if bool_decide (coord_name c ∈ N)
                              then acc ++ [coord_name c] else acc)
                | Raise (CoordinateNotFoundError _) => Ok acc
                | Raise e => Raise e
                end
              else Ok (if bool_decide (nm ∈ N) then acc ++ [nm] else acc)).
  { intros acc nm. unfold collect_coord.
    destruct (string_eqb nm "threshold"); [|reflexivity].
    destruct (find_threshold_coordinate cube) as [c|[]]; reflexivity. }
  destruct (find_threshold_coordinate cube) as [c|e] eqn:Ef.
  - assert (Hfold : ∀ acc,
              fold_result (collect_coord find_threshold_coordinate cube N) names acc
              = fold_result (collect_coord find_threshold_coordinate cube N)
                  (map (fun n => if string_eqb n "threshold"
                                 then coord_name c else n) names) acc).
    { induction names as [|nm names IH]; intros acc; [reflexivity|].
      cbn [map fold_result]. rewrite !Hstep.
      destruct (string_eqb nm "threshold") eqn:E.
      - destruct (string_eqb (coord_name c) "threshold");
          cbn [mbind result_bind]; apply IH.
      - rewrite E. cbn [mbind result_bind]. apply IH. }
    unfold enforce_coordinate_ordering. fold N. rewrite (Hfold []). reflexivity.
  - assert (Hskip : ∀ acc,
              (∃ m, e = CoordinateNotFoundError m) →
              fold_result (collect_coord find_threshold_coordinate cube N) names acc
              = fold_result (collect_coord find_threshold_coordinate cube N)
                  (List.filter (fun n => negb (string_eqb n "threshold")) names)
                  acc).
    { intros acc [m ->]. revert acc.
      induction names as [|nm names IH]; intros acc; [reflexivity|].
      cbn [List.filter fold_result]. rewrite Hstep.
      destruct (string_eqb nm "threshold") eqn:E; cbn [negb].
      - cbn [mbind result_bind]. apply IH.
      - cbn [fold_result]. rewrite Hstep, E. cbn [mbind result_bind]. apply IH. }
    assert (Hfail : ∀ acc,
              (∀ m, e ≠ CoordinateNotFoundError m) → "threshold" ∈ names →
              fold_result (collect_coord find_threshold_coordinate cube N) names acc
              = Raise e).
    { clear Hskip. intros acc He. revert acc.
      induction names as [|nm names IH]; intros acc Hin; [inversion Hin|].
      cbn [fold_result]. rewrite Hstep. unfold string_eqb.
      destruct (decide (nm = "threshold")) as [->|Hne].
      - rewrite bool_decide_eq_true_2 by reflexivity.
        destruct e; try reflexivity. exfalso. exact (He _ eq_refl).
      - rewrite bool_decide_eq_false_2 by exact Hne. cbn [mbind result_bind].
        apply IH. apply elem_of_cons in Hin as [E|Hin]; [congruence|exact Hin]. }
    destruct e;
      try (destruct (bool_decide ("threshold" ∈ names)) eqn:Ein;
           [apply bool_decide_eq_true in Ein;
            unfold enforce_coordinate_ordering; fold N;
            rewrite (Hfail [] ltac:(intros m; discriminate) Ein); reflexivity
           |reflexivity]).
    unfold enforce_coordinate_ordering. fold N.
    rewrite (Hskip [] (ex_intro _ _ eq_refl)). reflexivity.
Qed.

Lemma no_repeat_true (l : list nat) : no_repeat l = true → NoDup l.
Proof.
  induction l as [|y l IH]; simpl; intros H; [constructor|].
  apply andb_true_iff in H as [Hy H]. apply NoDup_cons. split; [|apply IH, H].
  intros Hin. apply negb_true_iff in Hy.
  rewrite existsb_eqb_elem in Hy. apply bool_decide_eq_false in Hy.
  contradiction.
Qed.

Lemma map_result_elem {A B : Type} (f : A → result B) (l : list A)
  (l' : list B) (y : B) :
  map_result f l = Ok l' → y ∈ l' → ∃ x, x ∈ l ∧ f x = Ok y.
Proof.
  revert l'. induction l as [|x l IH]; intros l'; simpl.
  - intros E. injection E as <-. intros H. inversion H.
  - destruct (f x) as [z|] eqn:Ex; [|discriminate]. simpl.
    destruct (map_result f l) as [zs|]; [|discriminate]. simpl.
    intros E. injection E as <-. intros Hy.
    apply elem_of_cons in Hy as [->|Hy].
    + exists x. split; [left|exact Ex].
    + destruct (IH zs eq_refl Hy) as [x' [Hx' E']].
      exists x'. split; [right; exact Hx'|exact E'].
Qed.

Lemma asked_dim_in (c : Cube) (nm : string) (d : nat) :
  nm ∈ get_dim_coord_names c →
  (ds ← coord_dims c nm; first_dim ds) = Ok d →
  d ∈ map snd (sort_by (fun a b => Nat.leb (snd a) (snd b))
                 (dim_coords_and_dims c)).
Proof.
  intros Hin. unfold get_dim_coord_names, dim_coords in Hin.
  rewrite map_map in Hin.
  apply (list_elem_of_fmap_1 (fun x : Coord * nat => coord_name (fst x)))
    in Hin as [x [-> Hx]].
  unfold coord_dims.
  assert (Hf : In (fst x, [snd x])
                 (List.filter (fun cd : Coord * list nat =>
                                 named (coord_name (fst x)) (fst cd))
                    (coords_and_dims c))).
  { apply filter_In. split.
    - apply list_elem_of_In, dim_in_coords_and_dims, Hx.
    - apply named_spec. reflexivity. }
  destruct (List.filter _ (coords_and_dims c)) as [|cd [|cd' l]];
    [destruct Hf| |discriminate].
  destruct Hf as [->|[]]. simpl. intros E. injection E as <-.
  apply (list_elem_of_fmap_2 snd), Hx.
Qed.

Lemma own_dim_in (c : Cube) (co : Coord) (d : nat) :
  co ∈ dim_coords c →
  first_dim (coord_dims_of c co) = Ok d →
  d ∈ map snd (sort_by (fun a b => Nat.leb (snd a) (snd b))
                 (dim_coords_and_dims c)).
Proof.
  intros Hin. unfold dim_coords in Hin.
  apply (list_elem_of_fmap_1 fst) in Hin as [x [-> Hx]].
  unfold coord_dims_of, coords_and_dims. rewrite List.filter_app.
  assert (Hf : In (fst x, [snd x])
                 (List.filter (fun cd : Coord * list nat =>
                                 coord_eqb (fst cd) (fst x))
                    (map (fun cd : Coord * nat => (fst cd, [snd cd]))
                       (sort_by (fun a b => Nat.leb (snd a) (snd b))
                          (dim_coords_and_dims c))))).
  { apply filter_In. split.
    - apply in_map_iff. exists x. split; [reflexivity|].
      apply list_elem_of_In, Hx.
    - apply coord_eqb_refl. }
  destruct (List.filter _ (map _ _)) as [|cd l] eqn:El; [destruct Hf|].
  assert (Hcd : In cd (cd :: l)) by (left; reflexivity).
  rewrite <- El in Hcd. apply filter_In in Hcd as [Hcd _].
  apply in_map_iff in Hcd as [y [<- Hy]]. simpl.
  intros E. injection E as <-.
  apply (list_elem_of_fmap_2 snd), list_elem_of_In, Hy.
Qed.

Section Anonymous.

Context (find_threshold_coordinate : Cube → result Coord).

Lemma collect_in_names (cube : Cube) (N names acc ctr : list string) :
  fold_result (collect_coord find_threshold_coordinate cube N) names acc = Ok ctr →
  ∀ nm, nm ∈ ctr → nm ∈ acc ∨ nm ∈ N.
Proof.
  revert acc. induction names as [|n names IH]; intros acc; cbn [fold_result].
  - intros E. injection E as <-. auto.
  - destruct (collect_coord find_threshold_coordinate cube N acc n)
      as [acc'|] eqn:Ec; [|discriminate].
    cbn [mbind result_bind]. intros E nm Hnm.
    destruct (IH acc' E nm Hnm) as [H|H]; [|right; exact H].
    unfold collect_coord in Ec.
    destruct (if string_eqb n "threshold" then _ else _) as [[n'|]|];
      cbn [mbind result_bind] in Ec; try discriminate.
    + injection Ec as <-.
      destruct (bool_decide (n' ∈ N)) eqn:En; [|left; exact H].
      apply elem_of_app in H as [H|H]; [left; exact H|].
      apply list_elem_of_singleton in H. subst nm.
      right. apply bool_decide_eq_true in En. exact En.
    + injection Ec as <-. left. exact H.
Qed.

End Anonymous.

(** X18: [enforce_coordinate_ordering] never reorders a
    cube that has fewer dimension coordinates than axes: when the call
    succeeds, the cube is as it was. *)
Theorem enforce_coordinate_ordering_anonymous_axis
  (find_threshold_coordinate : Cube → result Coord) (cube : Cube)
  (coord_names : coord_arg) (anchor_start : bool) (r : Cube) :
  (length (dim_coords_and_dims cube) < length (shape (data cube)))%nat →
  enforce_coordinate_ordering find_threshold_coordinate cube coord_names
    anchor_start = Ok r →
  r = cube.
Proof.
  intros Hlt. unfold enforce_coordinate_ordering.
  set (names := match coord_names with OneCoord n => [n] | CoordList l => l end).
  destruct (fold_result _ names []) as [ctr|] eqn:Ef; [|discriminate].
  cbn [mbind result_bind].
  destruct (map_result _ ctr) as [nd0|] eqn:E0; [|discriminate].
  cbn [mbind result_bind].
  destruct (map_result _ (dim_coords cube)) as [others|] eqn:E1; [|discriminate].
  cbn [mbind result_bind].
  set (nd := nd0 ++ List.filter (fun d => negb (existsb (Nat.eqb d) nd0)) others).
  set (p := if anchor_start then nd
            else drop (length ctr) nd ++ take (length ctr) nd).
  destruct (list_eqb Nat.eqb p (sort_by Nat.leb p)); cbn [negb];
    [intros E; injection E as <-; reflexivity|].
  unfold transpose.
  destruct (Nat.eqb_spec (length p) (length (shape (data cube)))) as [Hlen|_];
    [|discriminate].
  cbn [negb]. destruct (forallb _ p); [|discriminate]. cbn [negb].
  destruct (no_repeat p) eqn:Hrep; [|discriminate]. exfalso.
  apply no_repeat_true in Hrep.
  assert (Hnd : ∀ d, d ∈ nd →
                     d ∈ map snd (sort_by (fun a b : Coord * nat =>
                                             Nat.leb (snd a) (snd b))
                                    (dim_coords_and_dims cube))).
  { intros d Hd. unfold nd in Hd. apply elem_of_app in Hd as [Hd|Hd].
    - destruct (map_result_elem _ _ _ d E0 Hd) as [nm [Hnm Ed]].
      apply (asked_dim_in cube nm d); [|exact Ed].
      destruct (collect_in_names _ _ _ _ _ _ Ef nm Hnm) as [H|H];
        [inversion H|exact H].
    - apply list_elem_of_In, filter_In in Hd as [Hd _].
      apply list_elem_of_In in Hd.
      destruct (map_result_elem _ _ _ d E1 Hd) as [co [Hco Ed]].
      apply (own_dim_in cube co d Hco Ed). }
  assert (Hp : ∀ d, d ∈ p → d ∈ nd).
  { unfold p. destruct anchor_start; [auto|].
    intros d Hd. rewrite <- (take_drop (length ctr) nd).
    apply elem_of_app in Hd. apply elem_of_app. tauto. }
  assert (Hle : (length p <= length (map snd (sort_by
                                                (fun a b : Coord * nat =>
                                                   Nat.leb (snd a) (snd b))
                                                (dim_coords_and_dims cube))))%nat).
  { apply submseteq_length, NoDup_submseteq; [exact Hrep|].
    intros d Hd. apply Hnd, Hp, Hd. }
  rewrite length_map, (Permutation_length (sort_by_perm _ _)) in Hle. lia.
Qed.

Lemma enforce_coordinate_ordering_anonymous_axis_witness :
  (length (dim_coords_and_dims anonymous_axis_cube)
   < length (shape (data anonymous_axis_cube)))%nat
  ∧ enforce_coordinate_ordering
      (fun _ => Raise (CoordinateNotFoundError "threshold")) anonymous_axis_cube
      (OneCoord "height") true = Ok anonymous_axis_cube
  ∧ anonymous_axis_cube = anonymous_axis_cube.
Proof.
  assert (H1 : (length (dim_coords_and_dims anonymous_axis_cube)
                < length (shape (data anonymous_axis_cube)))%nat)
    by (simpl; lia).
  assert (H2 : enforce_coordinate_ordering
                 (fun _ => Raise (CoordinateNotFoundError "threshold"))
                 anonymous_axis_cube (OneCoord "height") true
               = Ok anonymous_axis_cube)
    by (vm_compute; reflexivity).
  split; [exact H1|]. split; [exact H2|].
  exact (enforce_coordinate_ordering_anonymous_axis _ _ _ _ _ H1 H2).
Defined.

(** Asked to bring the second axis to the front, the call on that cube fails. *)
Example enforce_coordinate_ordering_anonymous_example :
  enforce_coordinate_ordering
    (fun _ => Raise (CoordinateNotFoundError "threshold")) anonymous_axis_cube
    (OneCoord "projection_y_coordinate") true
  = Raise (ValueError "Incorrect number of dimensions.").
Proof. vm_compute. reflexivity. Qed.

(** With the height as threshold coordinate, "threshold" brings the axis of
    the height to the end of the cube; without a threshold coordinate the cube
    stays as it is. *)
Example enforce_coordinate_ordering_threshold_example :
  (match enforce_coordinate_ordering
           (fun c => coord c "height") three_level_cube
           (OneCoord "threshold") false with
   | Ok r => Some (named_axes r)
   | Raise _ => None
   end,
   match enforce_coordinate_ordering
           (fun _ => Raise (CoordinateNotFoundError "threshold")) three_level_cube
           (OneCoord "threshold") false with
   | Ok r => Some (named_axes r)
   | Raise _ => None
   end)
  = (Some [("projection_y_coordinate", 2%nat); ("height", 3%nat)],
     Some [("height", 3%nat); ("projection_y_coordinate", 2%nat)]).
Proof. vm_compute. reflexivity. Qed.

(** *** A new last axis moved into place *)

Lemma prod_app (a b : list nat) : prod (a ++ b) = (prod a * prod b)%nat.
Proof.
  unfold prod. induction a as [|m a IH]; simpl; [lia|].
  rewrite IH. lia.
Qed.

Lemma unravel_length (s : list nat) (x : nat) : length (unravel s x) = length s.
Proof.
  revert x. induction s as [|m s IH]; intros x; simpl; [reflexivity|].
  rewrite IH. reflexivity.
Qed.

Lemma unravel_app (a b : list nat) (x y : nat) :
  (x < prod a)%nat → (y < prod b)%nat →
  unravel (a ++ b) (x * prod b + y) = unravel a x ++ unravel b y.
Proof.
  revert x. induction a as [|m a IH]; intros x Hx Hy.
  - unfold prod in Hx. simpl in Hx. assert (x = 0)%nat as -> by lia.
    reflexivity.
  - change (prod (m :: a)) with (m * prod a)%nat in Hx.
    assert (Hpa : prod a ≠ 0%nat) by (intros E; rewrite E in Hx; lia).
    assert (Hpb : prod b ≠ 0%nat) by lia.
    cbn [app unravel]. rewrite prod_app.
    pose proof (Nat.div_mod x (prod a) Hpa) as Hdm.
    pose proof (Nat.mod_upper_bound x (prod a) Hpa) as Hlt.
    assert (Hrem : (x mod prod a * prod b + y < prod a * prod b)%nat) by nia.
    assert (Hq : ((x * prod b + y) / (prod a * prod b) = x / prod a)%nat).
    { symmetry. apply (Nat.div_unique _ _ _ (x mod prod a * prod b + y));
        [exact Hrem|]. nia. }
    assert (Hr : ((x * prod b + y) mod (prod a * prod b)
                  = x mod prod a * prod b + y)%nat).
    { symmetry. apply (Nat.mod_unique _ _ (x / prod a)); [exact Hrem|]. nia. }
    rewrite Hq, Hr, (IH _ Hlt Hy). reflexivity.
Qed.

Lemma ravel_unravel_from (s : list nat) (x acc : nat) :
  (x < prod s)%nat →
  foldl (fun acc nj => acc * fst nj + snd nj)%nat acc (combine s (unravel s x))
  = (acc * prod s + x)%nat.
Proof.
  revert x acc. induction s as [|m s IH]; intros x acc Hx.
  - unfold prod in *. simpl in *. lia.
  - change (prod (m :: s)) with (m * prod s)%nat in *.
    assert (Hp : prod s ≠ 0%nat) by (intros E; rewrite E in Hx; lia).
    cbn [unravel combine foldl fst snd].
    pose proof (Nat.div_mod x (prod s) Hp) as Hdm.
    pose proof (Nat.mod_upper_bound x (prod s) Hp) as Hlt.
    assert (Hq : (x / prod s < m)%nat).
    { apply Nat.Div0.div_lt_upper_bound. lia. }
    rewrite (Nat.mod_small _ _ Hq), (IH _ _ Hlt). nia.
Qed.

Lemma ravel_unravel (s : list nat) (x : nat) :
  (x < prod s)%nat → ravel s (unravel s x) = x.
Proof. intros Hx. unfold ravel. rewrite ravel_unravel_from by exact Hx. lia. Qed.

Lemma ravel_snoc (s j : list nat) (k i : nat) :
  length j = length s →
  ravel (s ++ [k]) (j ++ [i]) = (ravel s j * k + i)%nat.
Proof.
  intros Hl. unfold ravel.
  assert (E : combine (s ++ [k]) (j ++ [i]) = combine s j ++ [(k, i)]).
  { revert j Hl. induction s as [|m s IH]; intros [|y j] Hl; simpl in *;
      try discriminate; [reflexivity|].
    rewrite IH by lia. reflexivity. }
  rewrite E, foldl_app. reflexivity.
Qed.

Lemma nth_repeated {A : Type} (l : list A) (k y i : nat) (d : A) :
  (i < k)%nat →
  nth (y * k + i) (flat_map (fun x => repeat x k) l) d = nth y l d.
Proof.
  intros Hi. revert y. induction l as [|a l IH]; intros y.
  - simpl. destruct (y * k + i)%nat, y; reflexivity.
  - cbn [flat_map]. destruct y as [|y].
    + rewrite app_nth1 by (rewrite repeat_length; lia). simpl.
      apply nth_repeat_lt. exact Hi.
    + replace (S y * k + i)%nat with (length (repeat a k) + (y * k + i))%nat
        by (rewrite repeat_length; lia).
      rewrite app_nth2_plus. simpl. apply IH.
Qed.

Lemma nth_own {A : Type} (l : list A) (d : A) :
  map (fun x => nth x l d) (seq 0 (length l)) = l.
Proof.
  induction l as [|a l IH]; simpl; [reflexivity|].
  f_equal. rewrite <- seq_shift, map_map. exact IH.
Qed.

Lemma index_of_app (x : nat) (l1 l2 : list nat) :
  index_of x (l1 ++ l2)
  = if bool_decide (x ∈ l1) then index_of x l1
    else (length l1 + index_of x l2)%nat.
Proof.
  induction l1 as [|y l1 IH]; simpl; [reflexivity|].
  destruct (Nat.eqb_spec y x) as [->|Hne].
  - rewrite bool_decide_eq_true_2 by left. reflexivity.
  - rewrite IH. destruct (decide (x ∈ l1)) as [Hin|Hout].
    + rewrite !bool_decide_eq_true_2; [reflexivity|right; exact Hin|exact Hin].
    + rewrite !bool_decide_eq_false_2; [reflexivity| |exact Hout].
      intros H. apply elem_of_cons in H as [E|H]; [congruence|contradiction].
Qed.

Lemma index_of_seq (a m x : nat) :
  (a <= x < a + m)%nat → index_of x (seq a m) = (x - a)%nat.
Proof.
  revert a. induction m as [|m IH]; intros a Hx; [lia|]. simpl.
  destruct (Nat.eqb_spec a x) as [->|Hne]; [lia|].
  rewrite IH by lia. lia.
Qed.

(** Where the axes are after the move. *)
Lemma index_of_moved (n loc ax : nat) :
  (loc <= n)%nat → (ax <= n)%nat →
  index_of ax (insert_at (seq 0 n) loc n)
  = if Nat.ltb ax loc then ax else if Nat.eqb ax n then loc else S ax.
Proof.
  intros Hloc Hax. unfold insert_at.
  assert (Ht : take loc (seq 0 n) = seq 0 loc).
  { rewrite take_seq. f_equal. lia. }
  assert (Hd : drop loc (seq 0 n) = seq loc (n - loc)).
  { rewrite drop_seq. reflexivity. }
  rewrite Ht, Hd, index_of_app.
  destruct (Nat.ltb_spec ax loc) as [Hlt|Hge].
  - rewrite bool_decide_eq_true_2 by (apply elem_of_seq; lia).
    rewrite index_of_seq by lia. lia.
  - rewrite bool_decide_eq_false_2 by (rewrite elem_of_seq; lia).
    rewrite length_seq. simpl.
    destruct (Nat.eqb_spec n ax) as [->|Hne].
    + rewrite Nat.eqb_refl. lia.
    + destruct (Nat.eqb_spec ax n) as [E|_]; [congruence|].
      rewrite index_of_seq by lia. lia.
Qed.

Lemma map_seq_from {A : Type} (g : nat → A) (a m : nat) :
  map (fun x => g (x - a)%nat) (seq a m) = map g (seq 0 m).
Proof.
  revert a g. induction m as [|m IH]; intros a g; simpl; [reflexivity|].
  rewrite Nat.sub_diag. f_equal.
  rewrite <- (seq_shift m 0), map_map, <- (IH (S a) (fun y => g (S y))).
  apply map_ext_in. intros x Hx. apply in_seq in Hx. f_equal. lia.
Qed.

Lemma moved_back (U V : list nat) (i n loc : nat) :
  length U = loc → length V = (n - loc)%nat → (loc <= n)%nat →
  map (fun ax => nth (index_of ax (insert_at (seq 0 n) loc n)) (U ++ i :: V) 0%nat)
    (seq 0 (n + 1))
  = (U ++ V) ++ [i].
Proof.
  intros HU HV Hloc.
  replace (n + 1)%nat with (loc + ((n - loc) + 1))%nat by lia.
  rewrite seq_app, (seq_app (n - loc) 1), !map_app. simpl.
  replace (loc + (n - loc))%nat with n by lia.
  rewrite <- app_assoc. f_equal; [|f_equal].
  - transitivity (map (fun x => nth x U 0%nat) (seq 0 (length U)));
      [|apply nth_own].
    rewrite HU. apply map_ext_in. intros ax Hax. apply in_seq in Hax.
    rewrite index_of_moved by lia.
    destruct (Nat.ltb_spec ax loc); [|lia].
    apply app_nth1. lia.
  - transitivity (map (fun x => nth x V 0%nat) (seq 0 (length V)));
      [|apply nth_own].
    rewrite HV, <- (map_seq_from (fun x => nth x V 0%nat) loc).
    apply map_ext_in. intros ax Hax. apply in_seq in Hax.
    rewrite index_of_moved by lia.
    destruct (Nat.ltb_spec ax loc); [lia|].
    destruct (Nat.eqb_spec ax n); [lia|].
    replace (S ax) with (length U + S (ax - loc))%nat by lia.
    rewrite app_nth2_plus. reflexivity.
  - f_equal. rewrite index_of_moved by lia.
    destruct (Nat.ltb_spec n loc) as [Hlt|_]; [lia|].
    rewrite Nat.eqb_refl, <- HU. apply nth_middle.
Qed.

Lemma flat_map_ext_in {A B : Type} (f g : A → list B) (l : list A) :
  (∀ x, In x l → f x = g x) → flat_map f l = flat_map g l.
Proof.
  induction l as [|a l IH]; intros H; simpl; [reflexivity|].
  rewrite (H a (or_introl eq_refl)), IH; [reflexivity|].
  intros x Hx. apply H. right. exact Hx.
Qed.

Lemma seq_from (a m : nat) : seq a m = map (fun r => (a + r)%nat) (seq 0 m).
Proof.
  revert a. induction m as [|m IH]; intros a; simpl; [reflexivity|].
  f_equal; [lia|]. rewrite <- (seq_shift m 0), map_map, (IH (S a)).
  apply map_ext. intros r. lia.
Qed.

Lemma take_drop_map_seq {A : Type} (F : nat → A) (x m N : nat) :
  (x + m <= N)%nat →
  take m (drop x (map F (seq 0 N))) = map F (seq x m).
Proof.
  intros H. rewrite skipn_map, firstn_map. f_equal.
  rewrite drop_seq, take_seq. simpl. f_equal. lia.
Qed.

Lemma chunks {A : Type} (G : nat → A) (inner outer : nat) :
  flat_map (fun o => map (fun r => G (o * inner + r)%nat) (seq 0 inner))
    (seq 0 outer)
  = map G (seq 0 (outer * inner)).
Proof.
  induction outer as [|outer IH]; [reflexivity|].
  rewrite seq_S, flat_map_app, IH. simpl. rewrite app_nil_r.
  replace (inner + outer * inner)%nat with (outer * inner + inner)%nat by lia.
  rewrite seq_app, map_app. f_equal. simpl.
  rewrite (seq_from (outer * inner)), map_map. reflexivity.
Qed.

Lemma shape_moved (s0 : list nat) (k loc : nat) :
  (loc <= length s0)%nat →
  map (fun ax => nth ax (s0 ++ [k]) 0%nat)
    (insert_at (seq 0 (length s0)) loc (length s0))
  = insert_at s0 loc k.
Proof.
  intros Hloc. unfold insert_at.
  assert (E : map (fun ax => nth ax (s0 ++ [k]) 0%nat) (seq 0 (length s0)) = s0).
  { transitivity (map (fun x => nth x s0 0%nat) (seq 0 (length s0)));
      [|apply nth_own].
    apply map_ext_in. intros ax Hax. apply in_seq in Hax.
    apply app_nth1. lia. }
  rewrite map_app. cbn [map]. rewrite <- firstn_map, <- skipn_map, E.
  f_equal. f_equal. rewrite nth_middle. reflexivity.
Qed.

(** Every cell along the new axis holds the array that was broadcast. *)
Lemma transpose_broadcast {A : Type} (s0 : list nat) (l0 : list A)
  (k loc i : nat) (dflt : A) :
  length l0 = prod s0 → (loc <= length s0)%nat → (i < k)%nat →
  select_axis (insert_at s0 loc k) loc [i]
    (transpose_values (s0 ++ [k]) (insert_at (seq 0 (length s0)) loc (length s0))
       dflt (flat_map (fun x => repeat x k) l0))
  = l0.
Proof.
  intros Hl Hloc Hi.
  set (outer := prod (take loc s0)). set (inner := prod (drop loc s0)).
  assert (Hprod : prod s0 = (outer * inner)%nat).
  { unfold outer, inner. rewrite <- prod_app, take_drop. reflexivity. }
  assert (Htl : length (take loc s0) = loc) by (rewrite length_take; lia).
  unfold select_axis, transpose_values. rewrite (shape_moved s0 k loc Hloc).
  assert (E1 : nth loc (insert_at s0 loc k) 0%nat = k).
  { unfold insert_at. rewrite <- Htl at 1. apply nth_middle. }
  assert (E2 : prod (drop (S loc) (insert_at s0 loc k)) = inner).
  { unfold insert_at, inner. f_equal.
    rewrite drop_app_ge by lia. rewrite Htl.
    replace (S loc - loc)%nat with 1%nat by lia. reflexivity. }
  assert (E3 : prod (take loc (insert_at s0 loc k)) = outer).
  { unfold insert_at, outer. f_equal. rewrite take_app_le by lia.
    rewrite take_take. f_equal. lia. }
  assert (E4 : prod (insert_at s0 loc k) = (outer * (k * inner))%nat).
  { unfold insert_at. rewrite prod_app. reflexivity. }
  cbv zeta. rewrite E1, E2, E3, E4.
  set (p := insert_at (seq 0 (length s0)) loc (length s0)).
  set (l := flat_map (fun x => repeat x k) l0).
  set (F := fun i' : nat =>
              nth (ravel (s0 ++ [k])
                     (map (fun ax => nth (index_of ax p)
                                       (unravel (insert_at s0 loc k) i') 0%nat)
                        (seq 0 (length (s0 ++ [k]))))) l dflt).
  transitivity (flat_map (fun o => map (fun r => nth (o * inner + r) l0 dflt)
                                     (seq 0 inner)) (seq 0 outer)).
  2:{ rewrite (chunks (fun z => nth z l0 dflt)), <- Hprod, <- Hl.
      apply nth_own. }
  apply flat_map_ext_in. intros o Ho. apply in_seq in Ho.
  cbn [flat_map]. rewrite app_nil_r.
  rewrite (take_drop_map_seq F) by nia.
  rewrite seq_from, map_map. apply map_ext_in. intros r Hr.
  apply in_seq in Hr. unfold F.
  assert (Hidx : ((o * k + i) * inner + r
                  = o * prod (k :: drop loc s0) + (i * inner + r))%nat).
  { change (prod (k :: drop loc s0)) with (k * inner)%nat. lia. }
  assert (Hu : unravel (insert_at s0 loc k) ((o * k + i) * inner + r)
               = unravel (take loc s0) o ++ i :: unravel (drop loc s0) r).
  { unfold insert_at. rewrite Hidx, unravel_app.
    - f_equal. cbn [unravel]. fold inner.
      assert (Hin : inner ≠ 0%nat) by lia.
      assert (Hq : ((i * inner + r) / inner = i)%nat).
      { symmetry. apply (Nat.div_unique _ _ _ r); lia. }
      assert (Hm : ((i * inner + r) mod inner = r)%nat).
      { symmetry. apply (Nat.mod_unique _ _ i); lia. }
      rewrite Hq, Hm, (Nat.mod_small i k Hi). reflexivity.
    - fold outer. lia.
    - change (prod (k :: drop loc s0)) with (k * inner)%nat. nia. }
  rewrite Hu, length_app. cbn [length]. unfold p.
  rewrite (moved_back _ _ i (length s0) loc);
    [|rewrite unravel_length; exact Htl
     |rewrite unravel_length, length_drop; reflexivity
     |exact Hloc].
  assert (Hz : unravel (take loc s0) o ++ unravel (drop loc s0) r
               = unravel s0 (o * inner + r)).
  { rewrite <- (take_drop loc s0) at 3. unfold inner.
    symmetry. apply unravel_app; [fold outer|fold inner]; lia. }
  rewrite Hz, ravel_snoc by apply unravel_length.
  rewrite ravel_unravel by (rewrite Hprod; nia).
  unfold l. apply nth_repeated. exact Hi.
Qed.

Lemma combine_fst_snd {A B : Type} (l : list (A * B)) :
  combine (map fst l) (map snd l) = l.
Proof.
  induction l as [|[a b] l IH]; simpl; [reflexivity|]. rewrite IH. reflexivity.
Qed.

Lemma combine_snoc {A B : Type} (a : list A) (b : list B) (x : A) (y : B) :
  length a = length b → combine (a ++ [x]) (b ++ [y]) = combine a b ++ [(x, y)].
Proof.
  revert b. induction a as [|u a IH]; intros [|v b] Hl; simpl in *;
    try discriminate; [reflexivity|].
  rewrite IH by lia. reflexivity.
Qed.

Lemma map_fst_combine {A B : Type} (a : list A) (b : list B) :
  length a = length b → map fst (combine a b) = a.
Proof.
  revert b. induction a as [|u a IH]; intros [|v b] Hl; simpl in *;
    try discriminate; [reflexivity|].
  rewrite IH by lia. reflexivity.
Qed.

Lemma on_axes_pick {A : Type} (D M : list (A * nat)) :
  NoDup (map snd D) → (∀ x, x ∈ M → x ∈ D) → on_axes D (map snd M) = M.
Proof.
  intros Hn. induction M as [|x M IH]; intros HM; [reflexivity|].
  change (on_axes D (map snd (x :: M)))
    with (List.filter (fun cd : A * nat => Nat.eqb (snd cd) (snd x)) D
          ++ on_axes D (map snd M)).
  rewrite (on_axes_one D x Hn (HM x (list_elem_of_here _ _))), IH;
    [reflexivity|].
  intros y Hy. apply HM. right. exact Hy.
Qed.

Lemma moved_perm (n loc : nat) :
  insert_at (seq 0 n) loc n ≡ₚ seq 0 (n + 1).
Proof.
  unfold insert_at. rewrite <- Permutation_middle, take_drop, seq_app. simpl.
  apply Permutation_cons_append.
Qed.

(** X19: when [add_coordinate_to_cube] succeeds on a cube whose
    every axis has its dimension coordinate and whose payload has as many
    cells as its shape says, the new coordinate is the dimension coordinate of
    the axis asked for and the former ones keep their order around it; that
    axis is as long as the coordinate has points; every position along it
    holds the payload of the input; the auxiliary coordinates are the same;
    and with [copy_metadata] the name, units, attributes and cell methods are
    those of the input. *)
Theorem add_coordinate_to_cube_broadcasts
  (new_Cube : ndarray → list (Coord * nat) → list (Coord * list nat)
              → result Cube)
  (cube : Cube) (new_coord : Coord) (new_dim_location : Z)
  (copy_metadata : bool) (r : Cube) :
  keeps_arguments new_Cube →
  every_axis_named cube →
  length (flat (data cube)) = prod (shape (data cube)) →
  add_coordinate_to_cube new_Cube cube new_coord new_dim_location copy_metadata
  = Ok r →
  (0 <= new_dim_location <= Z.of_nat (length (dim_coords cube)))%Z
  ∧ dim_coords r
    = insert_at (dim_coords cube) (Z.to_nat new_dim_location) new_coord
  ∧ every_axis_named r
  ∧ shape (data r)
    = insert_at (shape (data cube)) (Z.to_nat new_dim_location)
        (n_points new_coord)
  ∧ (∀ i, (i < n_points new_coord)%nat →
          select_axis (shape (data r)) (Z.to_nat new_dim_location) [i]
            (flat (data r))
          = flat (data cube))
  ∧ aux_coords r = aux_coords cube
  ∧ (copy_metadata = true →
     name r = name cube ∧ var_name r = var_name cube ∧ units r = units cube
     ∧ attributes r = attributes cube ∧ cell_methods r = cell_methods cube).
Proof.
  intros Hkeep Hax Hflat. unfold every_axis_named in Hax.
  unfold add_coordinate_to_cube.
  set (n := length (dim_coords cube)).
  set (loc := Z.to_nat new_dim_location).
  destruct (Z.ltb_spec (Z.of_nat n) new_dim_location) as [|Hhi];
    [discriminate|].
  destruct (Z.ltb_spec new_dim_location 0) as [|Hlo]; [discriminate|].
  cbn [orb].
  destruct (map_result _ (aux_coords cube)) as [ads|] eqn:Eaux; [|discriminate].
  cbn [mbind result_bind].
  destruct (new_Cube _ _ _) as [c0|] eqn:Ec0; [|discriminate].
  cbn [mbind result_bind].
  destruct (Hkeep _ _ _ _ Ec0) as [Hd0 [Ha0 Hdata0]].
  set (c1 := if copy_metadata then set_metadata c0 cube else c0).
  assert (Hd1 : dim_coords_and_dims c1 = dim_coords_and_dims c0)
    by (unfold c1; destruct copy_metadata; reflexivity).
  assert (Ha1 : aux_coords_and_dims c1 = aux_coords_and_dims c0)
    by (unfold c1; destruct copy_metadata; reflexivity).
  assert (Hdata1 : data c1 = data c0)
    by (unfold c1; destruct copy_metadata; reflexivity).
  set (p := insert_at (seq 0 n) loc n).
  unfold transpose.
  destruct (negb (Nat.eqb (length p) _)); [discriminate|].
  destruct (negb (forallb _ p)); [discriminate|].
  destruct (negb (no_repeat p)); [discriminate|].
  intros E. injection E as <-.
  set (D := sort_by (fun a b : Coord * nat => Nat.leb (snd a) (snd b))
              (dim_coords_and_dims cube)) in *.
  assert (Hn : n = length (shape (data cube))).
  { unfold n, dim_coords. fold D.
    rewrite length_map, <- (length_map snd D), Hax, length_seq. reflexivity. }
  assert (Hloc : (loc <= n)%nat) by (unfold loc; lia).
  assert (HD0 : dim_coords_and_dims c1 = D ++ [(new_coord, n)]).
  { rewrite Hd1, Hd0. unfold dim_coords. fold D. fold n.
    rewrite seq_app. cbn [seq Nat.add].
    rewrite combine_snoc by (rewrite length_map, length_seq; unfold n, dim_coords;
                             fold D; rewrite length_map; reflexivity).
    f_equal. rewrite Hn, <- Hax. apply combine_fst_snd. }
  assert (Hsnd0 : map snd (D ++ [(new_coord, n)]) = seq 0 (n + 1)).
  { rewrite map_app, Hax, <- Hn, seq_app. reflexivity. }
  assert (Hnd0 : NoDup (map snd (D ++ [(new_coord, n)]))).
  { rewrite Hsnd0. apply NoDup_seq. }
  assert (Hp : p ≡ₚ map snd (D ++ [(new_coord, n)])).
  { rewrite Hsnd0. apply moved_perm. }
  set (M := take loc D ++ (new_coord, n) :: drop loc D).
  assert (HpM : p = map snd M).
  { unfold M, p, insert_at. rewrite map_app. cbn [map snd].
    rewrite <- firstn_map, <- skipn_map, Hax, <- Hn. reflexivity. }
  assert (HM : on_axes (D ++ [(new_coord, n)]) p = M).
  { rewrite HpM. apply on_axes_pick; [exact Hnd0|].
    intros x Hx. unfold M in Hx. rewrite <- (take_drop loc D) at 1.
    rewrite !elem_of_app in *. rewrite elem_of_cons in Hx.
    rewrite list_elem_of_singleton. tauto. }
  assert (Hsorted : sort_by (fun a b : Coord * nat => Nat.leb (snd a) (snd b))
                      (map (fun cd : Coord * nat =>
                              (fst cd, index_of (snd cd) p))
                         (dim_coords_and_dims c1))
                    = map (fun cd : Coord * nat => (fst cd, index_of (snd cd) p))
                        M).
  { rewrite HD0, <- HM. apply sort_moved; [reflexivity|exact Hnd0|exact Hp]. }
  assert (Hshape : map (fun ax => nth ax (shape (data c1)) 0%nat) p
                   = insert_at (shape (data cube)) loc (n_points new_coord)).
  { rewrite Hdata1, Hdata0. cbn [broadcast_last shape]. unfold p.
    rewrite Hn. apply shape_moved. lia. }
  split; [lia|]. split; [|split; [|split; [|split; [|split]]]].
  - unfold dim_coords at 1.
    cbn [dim_coords_and_dims set_data set_coords]. rewrite Hsorted, map_map.
    cbn [fst]. unfold M, insert_at, dim_coords. fold D.
    rewrite map_app. cbn [map fst]. rewrite <- firstn_map, <- skipn_map.
    reflexivity.
  - unfold every_axis_named.
    cbn [dim_coords_and_dims set_data set_coords data transpose_array shape].
    rewrite Hsorted, map_map. cbn [snd].
    rewrite <- (map_map snd (fun d => index_of d p)), <- HpM.
    rewrite index_of_own by (rewrite Hp; exact Hnd0).
    rewrite length_map. reflexivity.
  - cbn [data set_data transpose_array shape]. exact Hshape.
  - intros i Hi. cbn [data set_data transpose_array shape flat].
    rewrite Hshape, Hdata1, Hdata0. cbn [broadcast_last shape flat].
    unfold p. rewrite Hn.
    apply transpose_broadcast; [exact Hflat|lia|exact Hi].
  - unfold aux_coords at 1. cbn [aux_coords_and_dims set_data set_coords].
    rewrite map_map. cbn [fst]. rewrite Ha1, Ha0.
    apply map_fst_combine. symmetry. apply (map_result_length _ _ _ Eaux).
  - intros ->. unfold c1. cbn. repeat split; reflexivity.
Qed.

Lemma plain_Cube_keeps : keeps_arguments plain_Cube.
Proof.
  intros d dims aux c E. unfold plain_Cube in E. injection E as <-.
  repeat split; reflexivity.
Qed.

Lemma add_coordinate_to_cube_broadcasts_witness :
  ∃ r,
    add_coordinate_to_cube plain_Cube three_level_cube two_realizations 1 true
    = Ok r
    ∧ (0 <= 1 <= Z.of_nat (length (dim_coords three_level_cube)))%Z
    ∧ dim_coords r
      = insert_at (dim_coords three_level_cube) (Z.to_nat 1) two_realizations
    ∧ every_axis_named r
    ∧ shape (data r)
      = insert_at (shape (data three_level_cube)) (Z.to_nat 1)
          (n_points two_realizations)
    ∧ (∀ i, (i < n_points two_realizations)%nat →
            select_axis (shape (data r)) (Z.to_nat 1) [i] (flat (data r))
            = flat (data three_level_cube))
    ∧ aux_coords r = aux_coords three_level_cube
    ∧ (true = true →
       name r = name three_level_cube ∧ var_name r = var_name three_level_cube
       ∧ units r = units three_level_cube
       ∧ attributes r = attributes three_level_cube
       ∧ cell_methods r = cell_methods three_level_cube).
Proof.
  eexists. split; [vm_compute; reflexivity|].
  apply (add_coordinate_to_cube_broadcasts plain_Cube three_level_cube
           two_realizations 1 true).
  - exact plain_Cube_keeps.
  - reflexivity.
  - reflexivity.
  - vm_compute. reflexivity.
Defined.

(** Two members put between the levels and the grid rows: every level is
    there twice. *)
Example add_coordinate_to_cube_example :
  match add_coordinate_to_cube plain_Cube three_level_cube two_realizations 1
          true with
  | Ok r => Some (get_dim_coord_names r, shape (data r), flat (data r), name r)
  | Raise _ => None
  end
  = Some (["height"; "realization"; "projection_y_coordinate"],
          [3%nat; 2%nat; 2%nat],
          [Fin 9; Fin 1; Fin 9; Fin 1; Fin 7; Fin 5; Fin 7; Fin 5;
           Fin 7; Fin 5; Fin 7; Fin 5],
          "upward_air_velocity").
Proof. vm_compute. reflexivity. Qed.

(** A place after the last possible one is refused. *)
Example add_coordinate_to_cube_refuses :
  add_coordinate_to_cube plain_Cube three_level_cube two_realizations 3 true
  = Raise (ValueError
             "New dimension location: 3 incompatible                 with cube containing 2.").
Proof. vm_compute. reflexivity. Qed.
